(* ===== verification/_CoqProject ===== *)
-Q . S2P
Prelude.v
CString.v
Permset.v
DomainSpec.v
PathEntry.v
PathVars.v
PathType.v
UnitFs.v
Client.v
Package.v
Request.v
Server.v
RpmPlugin.v
Daemon.v
SetupUtils.v
Auth.v
Signature.v
Afid.v
UnitText.v
Mustach.v
Jsonc.v
ApplyMustach.v
UnitOper.v
CertChain.v
Digest.v
SignedDigest.v
UtilsJson.v
Udb.v
Systemd.v
Urun.v
Binding.v
SecLsm.v
Manifest.v
PkgFiles.v
PkgTypes.v
PathRemove.v
Afmpkg.v
AfmpkgRun.v
AfmpkgStd.v
