(* ===== verification/Prelude.v ===== *)
(** * afb-app-manager: a shallow embedding and its correctness theorems

    The program installs and removes the packages of applications of an
    embedded system. A client (a tool or the plugin of the package manager)
    sends to a server, over a socket, the list of the files of a package;
    the server finds the applications among these files, reads their
    manifests, gives a security type to each file, tells the security
    manager the files, the permissions and the plugs of each application,
    and installs the units of systemd that run it. Beside this flow, domain
    specifications and certificates say who may sign what, and the binding
    checks authorisations.

    ** Conventions

    A string is the list of its characters without its NUL; a buffer is the
    list of the characters that it holds, and a pointer in a string is a
    suffix. A machine integer is a [Z], with [u32], [u64] and [i32] where
    the code converts. A status is a [Z], negative for an error of
    [<errno.h>]. The functions that allocate take an [oracle], the list of
    the outcomes of the next allocations ([true] for a success; all succeed
    when the list ends): a theorem that holds for any oracle holds whenever
    memory lacks. The use of a null pointer is either [None] or the field
    [fault] of the state, after which the model has no meaning. The
    functions of the C library that the code uses are defined in [CString].

    ** The parts, from the bottom

    - [CString]: [strcspn], [strtol], [snprintf] of integers, and so on.
    - [Permset] ([utils/permset.c]): the set of the permissions, an array of
      names with two flags; it refines a finite map.
    - [DomainSpec] ([utils/domain-spec.c]): domains with a permission, their
      text, and the relation "able to sign".
    - [PathEntry], [PathRemove] ([utils/path-entry.c]): the tree of the
      files. An entry is designated by its list of names from the top, in
      place of its pointer; creation, search, removal, paths, iteration,
      variables.
    - [PathType] ([utils/path-type.c], [utils/mime-type.c]): types of files.
    - [UnitFs], [UnitText], [UnitOper] ([units/unit-fs.c],
      [units/unit-desc.c], [units/unit-process.c], [utils/unit-oper.c],
      [utils/unit-generator.c]): paths of the units, splitting of the text
      made from the template in units, installation of the units with
      rollback. [Afid] ([utils/manage-afid.c],
      [units/normalize-unit-file.c]): identifiers of applications.
    - [Client], [Request], [Server] ([afmpkg/afmpkg-client.c],
      [afmpkg/afmpkg-request.c], [afmpkg/afmpkg-server.c]): the protocol.
      [Request.afmpkg_request_add_line] is the automaton of the lines of a
      request, [Request.afmpkg_request_process] the account of transactions.
    - [Package] ([afmpkg/afmpkg.h]): the request as data, and the record of
      the operations that a back end offers, the interface between the
      processing and what applies its decisions.
    - [Jsonc]: the functions of json-c and rp-jsonc, a class. [Manifest]
      ([utils/manifest.c]): check and normal form of a manifest.
    - [PkgFiles], [PkgTypes], [Afmpkg], [AfmpkgRun] ([afmpkg/afmpkg.c]): the
      processing of a request. [PkgFiles.state] has the fields of
      [afmpkg_state_t]; its field [calls] records the calls of the back end
      with the status of each. [PkgFiles] has the checks of the manifest and
      the passes that give types; [Afmpkg] the security, the metadata, the
      units, the packages and [afmpkg_process]; [PkgTypes] and [AfmpkgRun]
      their theorems.
    - [SecLsm] ([secmgr/secmgr-wrap.c]): the library of the security manager
      as a class with laws, and its wrapper. [AfmpkgStd]
      ([afmpkg/afmpkg-std.c]): the back end that drives this library and
      [UnitOper], and its composition with [Afmpkg].
    - [Auth] ([binding/auth.c]), [Signature] ([cert/signature-name.c]),
      [CertChain] ([cert/common-cert.c]): stack machine of the
      authorisations, names of signatures, chains of certificates.

    ** The theorems

    - The processing: which packages are found and in which order, one
      transaction of the back end each, what becomes of the other files
      ([afmpkg_process_spec], [detect_roots_finds]); what is told to the
      back end ([setup_security_told]); the types ([compute_types],
      [default_types]). The relation [keeps] between states says what every
      operation on a package preserves; [runs] that the calls recorded are
      an execution of the back end.
    - With the standard back end, the policy of the security manager is the
      one of the sessions of the successful transactions
      ([afmpkg_std_install_policy]): [AfmpkgStd.commits] is the
      specification, read on the calls.
    - The manifests: what is accepted is in normal form
      ([manifest_read_normal]).
    - The protocol: what a client composes is what the server rebuilds
      ([client_server_roundtrip]), and back ([reply_roundtrip]); invariant
      and errors of the lines ([add_lines_outcome]); counts of transactions
      ([transaction_status]).
    - The data: refinements of finite maps ([add_refines], [set_refines],
      [add_spec]), enumeration, iteration, paths and their bounds, texts of
      specifications ([print_parse_roundtrip], [parse_sound]).
    - The units: all or nothing ([install_units_atomic]), undone by the
      removal ([install_uninstall_units]), splitting ([corpus_split_units]),
      lowest free identifier ([get_new_afid_spec]).
    - Trust: [check_crt_chain_safe], [able_to_sign_trans],
      [auth_check_spec], names of signatures.
    - Termination of the loops, and what the code does wrong: chains that
      never end ([cyclic_chain_diverges]), requests cut in segments
      ([segmentation_matters]) or without end
      ([incomplete_request_processed]), the null name of the top of a tree
      ([forced_root_path]), a null identifier
      ([Manifest.manifest_check_null]).

    ** Fuel and bounds

    The loops that are not structural have fuel, and enough of it: the
    length of the text plus one for the loops on texts ([process_loop],
    [split_loop], [search_marker]; each turn consumes a character, see
    [corpus_split_ends]); the number of permissions for the enumerations
    ([enumerate_spec]); the number of segments for [receive_loop]
    ([receive_ends]). [check_crt_chain] has no measure, as the code may
    recurse for ever: its theorems hold for any fuel that gives a result,
    and [cyclic_chain_diverges] is stated for all. [PATH_MAX] is 4096, and
    the theorems on paths suppose that paths fit in it ([fits],
    [paths_fit]).

    ** Parameters

    The values of json-c; the library of the security manager; the calls of
    the system ([fstatat], [chmod], sockets, files and directories), the
    YAML reader, the expansion of the template and the directories set when
    the program is built (the class [Afmpkg.Env]); GnuTLS and its
    certificates; the checks of permissions of the binder. The hypotheses on
    them are those of [JsoncLaws], of [SlmSpec] and of the theorems.

    ** Not modelled

    The database and the runner of applications ([binding/afm-udb.c],
    [afm-urun.c], [afm-binding.c]), digests and signatures of files
    ([cert/digest.c] and so on), the template engine ([mustach]) and its
    instance on json-c, the calls of systemd ([utils/utils-systemd.c]): to
    come, in this order. The main programs, the plugin of the package
    manager and the setup tools only parse arguments and call the parts
    above; the former format of widgets ([wgtpkg], [afmpkg-legacy.c]) is
    kept by the program for compatibility only.

    ** This file

    Bytes, error codes, machine integers, oracles, and the lemmas on lists
    that the components share. *)

From Stdlib Require Export ZArith Lia Ascii.
From stdpp Require Export base list strings gmap numbers.
Export stdpp.list_basics.list stdpp.list_relations.list stdpp.list_monad.list stdpp.list_misc.list.

(** ** Bytes

    A C string is the list of its characters, without the terminating
    NUL; a memory block is the list of the characters it holds. *)

Abbreviation bytes := (list ascii).

(** The bytes of a literal. *)
Definition B (s : string) : bytes := String.list_ascii_of_string s.
Arguments B s%_string_scope.

Definition NUL : ascii := ascii_of_nat 0.
Definition TAB : ascii := ascii_of_nat 9.
Definition NL : ascii := ascii_of_nat 10.
Definition CR : ascii := ascii_of_nat 13.
Definition SPACE : ascii := " "%char.
Definition SLASH : ascii := "/"%char.

(** ** Error codes: [<errno.h>] of Linux *)

Module Errno.
Definition ENOENT : Z := 2.
Definition ESRCH : Z := 3.
Definition E2BIG : Z := 7.
Definition EBADF : Z := 9.
Definition ENOMEM : Z := 12.
Definition EFAULT : Z := 14.
Definition EBUSY : Z := 16.
Definition EEXIST : Z := 17.
Definition EINVAL : Z := 22.
Definition ERANGE : Z := 34.
Definition ENAMETOOLONG : Z := 36.
Definition ENOTEMPTY : Z := 39.
Definition ENODATA : Z := 61.
Definition EBADMSG : Z := 74.
Definition EOVERFLOW : Z := 75.
Definition ENOTSUP : Z := 95.
Definition EADDRNOTAVAIL : Z := 99.
Definition ENOKEY : Z := 126.
End Errno.
Export Errno.

(** ** Machine integers *)

(** conversion to [unsigned] (32 bits) *)
Definition u32 (z : Z) : Z := z mod 2 ^ 32.

(** conversion to [size_t] (64 bits) *)
Definition u64 (z : Z) : Z := z mod 2 ^ 64.

(** conversion to [int] (32 bits, two's complement) *)
Definition i32 (z : Z) : Z := (z + 2 ^ 31) mod 2 ^ 32 - 2 ^ 31.

Definition UINT_MAX : Z := 2 ^ 32 - 1.
Definition INT_MAX : Z := 2 ^ 31 - 1.
Definition LONG_MAX : Z := 2 ^ 63 - 1.
Definition LONG_MIN : Z := - 2 ^ 63.
Definition PATH_MAX : nat := 4096.

(** is the bit of mask [m] set in [flags]? *)
Definition has_flag (flags m : Z) : bool := negb (Z.land flags m =? 0)%Z.

Lemma has_flag_lor a b m : has_flag (Z.lor a b) m = has_flag a m || has_flag b m.
Proof.
  unfold has_flag. rewrite Z.land_lor_distr_l.
  destruct (Z.eqb_spec (Z.land a m) 0) as [Ea|Ea], (Z.eqb_spec (Z.land b m) 0) as [Eb|Eb].
  { by rewrite Ea, Eb. }
  all: by rewrite (proj2 (Z.eqb_neq _ _)) by (rewrite Z.lor_eq_0_iff; tauto).
Qed.

(** ** Pairs of a status and a state *)

Lemma pair_status {A} (x : Z * A) v : x.1 = v -> x = (v, x.2).
Proof. destruct x as [w a]. simpl. by intros ->. Qed.

Lemma pair_status_r {A} (x : A * Z) v : x.2 = v -> x = (x.1, v).
Proof. destruct x as [a w]. simpl. by intros ->. Qed.

(** ** Memory allocation

    The outcomes of the coming allocations: the head tells whether the
    next one succeeds, and all of them do once the list is exhausted. *)

Abbreviation oracle := (list bool).

Definition malloc (o : oracle) : bool * oracle :=
  match o with
  | [] => (true, [])
  | b :: o' => (b, o')
  end.

(** An allocation consumes a prefix of the outcomes and only fails on a
    [false] one. *)
Lemma malloc_cases o b o' :
  malloc o = (b, o') -> exists used, o = used ++ o' /\ (b = false -> false ∈ used).
Proof.
  destruct o as [|c o]; simpl; intros [= <- <-]; [by exists []|].
  exists [c]. split; [done|]. intros ->. by left.
Qed.

Lemma malloc_sub o b o' : malloc o = (b, o') -> o' ⊆ o /\ (b = false -> false ∈ o).
Proof. intros (u & -> & Hb)%malloc_cases. split; [set_solver|]. intros H. apply elem_of_app. auto. Qed.

(** ** Prefixes *)

Section While.
Context {A : Type}.
Implicit Types (p : A -> bool) (l k : list A).

Fixpoint take_while p l : list A :=
  match l with
  | [] => []
  | x :: l' => if p x then x :: take_while p l' else []
  end.

Fixpoint drop_while p l : list A :=
  match l with
  | [] => []
  | x :: l' => if p x then drop_while p l' else l
  end.

Lemma take_drop_while p l : take_while p l ++ drop_while p l = l.
Proof. induction l as [|x l IH]; simpl; [done|]. destruct (p x); simpl; congruence. Qed.

Lemma length_take_drop_while p l :
  length (take_while p l) + length (drop_while p l) = length l.
Proof. rewrite <-(take_drop_while p l) at 3. by rewrite length_app. Qed.

Lemma drop_length_take_while p l : drop (length (take_while p l)) l = drop_while p l.
Proof. rewrite <-(take_drop_while p l) at 2. by rewrite drop_app_length. Qed.

Lemma take_length_take_while p l : take (length (take_while p l)) l = take_while p l.
Proof. rewrite <-(take_drop_while p l) at 2. by rewrite take_app_length. Qed.

Lemma Forall_take_while p l : Forall (fun x => p x = true) (take_while p l).
Proof. induction l as [|x l IH]; simpl; [done|]. destruct (p x) eqn:E; auto. Qed.

Lemma drop_while_head p l x k : drop_while p l = x :: k -> p x = false.
Proof.
  induction l as [|y l IH]; simpl; [done|].
  destruct (p y) eqn:E; [done|]. intros [= -> ->]. done.
Qed.

Lemma take_while_all p l k :
  Forall (fun x => p x = true) l -> take_while p (l ++ k) = l ++ take_while p k.
Proof. induction 1 as [|x l Hx _ IH]; simpl; [done|]. rewrite Hx. congruence. Qed.

Lemma drop_while_all p l k :
  Forall (fun x => p x = true) l -> drop_while p (l ++ k) = drop_while p k.
Proof. induction 1 as [|x l Hx _ IH]; simpl; [done|]. by rewrite Hx. Qed.

Lemma take_while_stop p x l : p x = false -> take_while p (x :: l) = [].
Proof. simpl. by intros ->. Qed.

Lemma drop_while_stop p x l : p x = false -> drop_while p (x :: l) = x :: l.
Proof. simpl. by intros ->. Qed.

Lemma take_while_id p l : Forall (fun x => p x = true) l -> take_while p l = l.
Proof. intros H. rewrite <-(app_nil_r l) at 1. by rewrite take_while_all, app_nil_r. Qed.

Lemma drop_while_nil p l : Forall (fun x => p x = true) l -> drop_while p l = [].
Proof. intros H. rewrite <-(app_nil_r l). by rewrite drop_while_all. Qed.

Lemma length_drop_while p l : length (drop_while p l) <= length l.
Proof. pose proof (length_take_drop_while p l). lia. Qed.

(** The prefix that fails a test has nothing that passes it. *)
Lemma filter_take_while p l :
  filter (fun x => p x = true) (take_while (fun x => negb (p x)) l) = [].
Proof.
  induction l as [|x l IH]; simpl; [done|]. destruct (p x) eqn:E; simpl; [done|].
  rewrite filter_cons_False; [done|]. by rewrite E.
Qed.

End While.

(** ** Automation *)

Create HintDb afm.
Create Rewrite HintDb afm.

#[export] Hint Rewrite @length_app @length_cons @length_nil : afm.
#[export] Hint Resolve Forall_take_while : afm.

(** Case analysis on the scrutinee of the first [if] or [match] found. *)
Ltac case_first :=
  match goal with
  | |- context [if ?c then _ else _] => destruct c eqn:?
  | |- context [match ?c with _ => _ end] => destruct c eqn:?
  end.

(** Reflect boolean tests of hypotheses. *)
Ltac bool_hyps :=
  repeat match goal with
  | H : _ && _ = true |- _ => apply andb_prop in H; destruct H
  | H : _ || _ = false |- _ => apply orb_false_elim in H; destruct H
  | H : negb _ = true |- _ => apply negb_true_iff in H
  | H : negb _ = false |- _ => apply negb_false_iff in H
  | H : bool_decide _ = true |- _ => apply bool_decide_eq_true in H
  | H : bool_decide _ = false |- _ => apply bool_decide_eq_false in H
  end.

(** Bytes equality as a boolean test. *)
Definition beq (s t : bytes) : bool := bool_decide (s = t).

Lemma beq_true s t : beq s t = true <-> s = t.
Proof. apply bool_decide_eq_true. Qed.

Lemma beq_false s t : beq s t = false <-> s <> t.
Proof. apply bool_decide_eq_false. Qed.

Lemma beq_refl s : beq s s = true.
Proof. by apply beq_true. Qed.
#[export] Hint Rewrite beq_refl : afm.

(** A C string holds no NUL. *)
Definition cstr (s : bytes) : Prop := NUL ∉ s.
#[export] Instance cstr_dec s : Decision (cstr s) := _.

Lemma cstr_app s t : cstr (s ++ t) <-> cstr s /\ cstr t.
Proof. unfold cstr. rewrite elem_of_app. tauto. Qed.

Lemma cstr_cons c s : cstr (c :: s) <-> c <> NUL /\ cstr s.
Proof. unfold cstr. rewrite elem_of_cons. naive_solver. Qed.

Lemma cstr_take n s : cstr s -> cstr (take n s).
Proof. rewrite <-(take_drop n s) at 1. rewrite cstr_app. tauto. Qed.

Lemma cstr_drop n s : cstr s -> cstr (drop n s).
Proof. rewrite <-(take_drop n s) at 1. rewrite cstr_app. tauto. Qed.

Lemma cstr_take_while p s : cstr s -> cstr (take_while p s).
Proof. rewrite <-(take_drop_while p s) at 1. rewrite cstr_app. tauto. Qed.

Lemma cstr_drop_while p s : cstr s -> cstr (drop_while p s).
Proof. rewrite <-(take_drop_while p s) at 1. rewrite cstr_app. tauto. Qed.

#[export] Hint Resolve cstr_take cstr_drop cstr_take_while cstr_drop_while : afm.

(** ** Lists read as finite maps

    Lists of records whose keys are distinct, seen as the map from the key
    of each record to its value. *)

Section Keyed.
Context {A V : Type} (key : A -> bytes) (val : A -> V).

Definition keyed (l : list A) : gmap bytes V := list_to_map ((fun x => (key x, val x)) <$> l).

Lemma keyed_fst (l : list A) : ((fun x => (key x, val x)) <$> l).*1 = key <$> l.
Proof. rewrite <-list_fmap_compose. done. Qed.

Lemma keyed_Some l k v :
  NoDup (key <$> l) -> keyed l !! k = Some v <-> exists x, x ∈ l /\ key x = k /\ val x = v.
Proof.
  intros Hn. unfold keyed. rewrite <-elem_of_list_to_map by by rewrite keyed_fst.
  rewrite list_elem_of_fmap. naive_solver.
Qed.

Lemma keyed_lookup l i x :
  NoDup (key <$> l) -> l !! i = Some x -> keyed l !! key x = Some (val x).
Proof. intros Hn Hx. apply keyed_Some; [done|]. eauto using list_elem_of_lookup_2. Qed.

Lemma keyed_None l k : k ∉ key <$> l -> keyed l !! k = None.
Proof. intros H. apply not_elem_of_list_to_map. by rewrite keyed_fst. Qed.

(** with distinct keys, the key tells the position *)
Lemma keyed_position l i j x y :
  NoDup (key <$> l) -> l !! i = Some x -> l !! j = Some y -> key x = key y -> i = j.
Proof.
  intros Hn Hx Hy Hk. eapply (NoDup_lookup _ _ _ (key x) Hn); rewrite list_lookup_fmap.
  - by rewrite Hx.
  - by rewrite Hy, Hk.
Qed.

Lemma keyed_cons x l : keyed (x :: l) = <[key x := val x]> (keyed l).
Proof. done. Qed.

Lemma keyed_insert l i x y :
  NoDup (key <$> l) -> l !! i = Some x -> key y = key x ->
  NoDup (key <$> <[i := y]> l) /\ keyed (<[i := y]> l) = <[key x := val y]> (keyed l).
Proof.
  intros Hn Hx Hk. assert (Hn' : NoDup (key <$> <[i := y]> l)).
  { rewrite list_fmap_insert, Hk, list_insert_id; [done|]. by rewrite list_lookup_fmap, Hx. }
  split; [done|]. apply map_eq. intros k. rewrite lookup_insert.
  destruct (decide (key x = k)) as [<-|Hne].
  - rewrite <-Hk. apply (keyed_lookup _ i); [done|]. eapply list_lookup_insert_eq, lookup_lt_Some, Hx.
  - apply option_eq. intros v. rewrite !keyed_Some by done.
    split; intros (z & Hz & Hzk & Hzv); exists z; (split; [|done]);
      apply list_elem_of_lookup in Hz as [j Hj]; apply list_elem_of_lookup; exists j;
      rewrite list_lookup_insert_ne in *; try done; intros <-.
    + apply Hne. rewrite <-Hk, <-Hzk. f_equal.
      rewrite list_lookup_insert_eq in Hj by eauto using lookup_lt_Some. congruence.
    + congruence.
Qed.

Lemma keyed_delete l i x :
  NoDup (key <$> l) -> l !! i = Some x ->
  NoDup (key <$> delete i l) /\ keyed (delete i l) = delete (key x) (keyed l).
Proof.
  intros Hn Hx. assert (Hn' : NoDup (key <$> delete i l)).
  { rewrite list_fmap_delete. eapply sublist_NoDup; [exact Hn|apply sublist_delete]. }
  split; [done|]. apply map_eq. intros k. rewrite lookup_delete. case_decide as Hk.
  - apply keyed_None. subst k. rewrite list_fmap_delete. intros Hin.
    apply list_elem_of_lookup in Hin as [j Hj].
    destruct (decide (j < i)).
    + rewrite list_lookup_delete_lt in Hj by done.
      assert (j = i); [|lia]. eapply (NoDup_lookup _ _ _ _ Hn Hj). by rewrite list_lookup_fmap, Hx.
    + rewrite list_lookup_delete_ge in Hj by lia.
      assert (S j = i); [|lia]. eapply (NoDup_lookup _ _ _ _ Hn Hj). by rewrite list_lookup_fmap, Hx.
  - apply option_eq. intros v. rewrite !keyed_Some by done.
    split; intros (z & Hz & Hzk & Hzv); exists z; (split; [|done]).
    + rewrite <-(take_drop_middle l i x Hx). rewrite delete_take_drop in Hz. set_solver.
    + rewrite <-(take_drop_middle l i x Hx) in Hz. rewrite delete_take_drop.
      set_solver.
Qed.

End Keyed.
