(* ===== verification/CString.v ===== *)
(** * The functions of the C library that the program uses on strings

    A string argument is the list of the characters that precede its NUL;
    a pointer into a string is the suffix that starts there. *)
From S2P Require Import Prelude.

(** ** Character classes of the "C" locale *)

Definition code (c : ascii) : Z := Z.of_N (N_of_ascii c).
Definition chr (z : Z) : ascii := ascii_of_N (Z.to_N (z mod 256)).

Definition isspace (c : ascii) : bool :=
  (code c =? 32)%Z || ((9 <=? code c)%Z && (code c <=? 13)%Z).

Definition isdigit (c : ascii) : bool := (48 <=? code c)%Z && (code c <=? 57)%Z.
Definition isupper (c : ascii) : bool := (65 <=? code c)%Z && (code c <=? 90)%Z.
Definition islower (c : ascii) : bool := (97 <=? code c)%Z && (code c <=? 122)%Z.
Definition isalnum (c : ascii) : bool := isdigit c || isupper c || islower c.
Definition tolower (c : ascii) : ascii := if isupper c then chr (code c + 32) else c.

(** ** Searching *)

Definition is_in (set : bytes) (c : ascii) : bool := bool_decide (c ∈ set).

(** [s] without the longest prefix made of characters of [set]:
    [s + strspn(s, set)] *)
Definition skip_span (s set : bytes) : bytes := drop_while (is_in set) s.

(** [strcspn(s, set)] *)
Definition strcspn (s set : bytes) : nat :=
  length (take_while (fun c => negb (is_in set c)) s).

(** the string at a pointer to the characters [s]: what precedes the NUL *)
Definition cstring (s : bytes) : bytes := take_while (fun c => negb (bool_decide (c = NUL))) s.

(** is [s] starting with [p]? [memcmp(s, p, strlen(p)) == 0] when [s] is
    long enough, [strncmp(s, p, strlen(p)) == 0] in any case *)
Fixpoint starts_with (p s : bytes) : bool :=
  match p, s with
  | [], _ => true
  | c :: p', d :: s' => bool_decide (c = d) && starts_with p' s'
  | _ :: _, [] => false
  end.

(** [strcmp(s, t) < 0] *)
Fixpoint strcmp_lt (s t : bytes) : bool :=
  match s, t with
  | [], [] => false
  | [], _ :: _ => true
  | _ :: _, [] => false
  | c :: s', d :: t' => if bool_decide (c = d) then strcmp_lt s' t' else (code c <? code d)%Z
  end.

(** [strcasecmp(s, t) == 0] *)
Definition strcaseeq (s t : bytes) : bool := beq (map tolower s) (map tolower t).

(** [strstr(s, p)] *)
Fixpoint strstr (s p : bytes) : option bytes :=
  if starts_with p s then Some s
  else match s with
       | [] => None
       | _ :: s' => strstr s' p
       end.

(** [strchr(s, c)] *)
Fixpoint strchr (s : bytes) (c : ascii) : option bytes :=
  match s with
  | [] => None
  | d :: s' => if bool_decide (c = d) then Some s else strchr s' c
  end.

(** ** Integers in base ten *)

Definition digits_value (ds : bytes) : Z :=
  foldl (fun a c => 10 * a + (code c - 48))%Z 0%Z ds.

(** [strtol(s, &end, 10)]: the value, the string at [end] and whether
    [errno] became [ERANGE] *)
Definition strtol (s : bytes) : Z * bytes * bool :=
  let s1 := drop_while isspace s in
  let '(neg, s2) :=
    match s1 with
    | c :: r => if bool_decide (c = "-"%char) then (true, r)
                else if bool_decide (c = "+"%char) then (false, r)
                else (false, s1)
    | [] => (false, s1)
    end in
  let ds := take_while isdigit s2 in
  if bool_decide (ds = []) then (0%Z, s, false)
  else
    let v := if neg : bool then (- digits_value ds)%Z else digits_value ds in
    let rest := drop_while isdigit s2 in
    if (LONG_MAX <? v)%Z then (LONG_MAX, rest, true)
    else if (v <? LONG_MIN)%Z then (LONG_MIN, rest, true)
    else (v, rest, false).

(** [atoi(s)] *)
Definition atoi (s : bytes) : Z := i32 (strtol s).1.1.

(** The loop [do { *--p = '0' + v % 10; v /= 10; } while (v);] with at most
    [fuel] turns; division and remainder are those of C. *)
Fixpoint dec_loop (fuel : nat) (v : Z) (acc : bytes) : bytes :=
  match fuel with
  | O => acc
  | S fuel' =>
      let acc' := chr (48 + Z.rem v 10) :: acc in
      let v' := Z.quot v 10 in
      if (v' =? 0)%Z then acc' else dec_loop fuel' v' acc'
  end.

(** the conversion [%d] of [printf] for an [int] *)
Definition fmt_d (v : Z) : bytes :=
  if (v <? 0)%Z then "-"%char :: dec_loop 25 (- v) [] else dec_loop 25 v [].

(** ** Words

    The maximal runs of characters that are not separators, found one
    character at a time: the reference for the scanning loops of the
    program. *)

Fixpoint words_from (sep : ascii -> bool) (cur s : bytes) : list bytes :=
  match s with
  | [] => if bool_decide (cur = []) then [] else [cur]
  | c :: s' =>
      if sep c
      then (if bool_decide (cur = []) then [] else [cur]) ++ words_from sep [] s'
      else words_from sep (cur ++ [c]) s'
  end.
Definition words_of (sep : ascii -> bool) (s : bytes) : list bytes := words_from sep [] s.

(** ** Lemmas *)

Lemma cstring_id s : cstr s -> cstring s = s.
Proof.
  intros H. apply take_while_id, Forall_forall. intros c Hc.
  rewrite bool_decide_eq_false_2; [done|]. intros ->. by apply H.
Qed.

Lemma words_of_skip sep s : words_of sep (drop_while sep s) = words_of sep s.
Proof.
  unfold words_of. induction s as [|c s IH]; simpl; [done|].
  destruct (sep c) eqn:E; [done|]. simpl. by rewrite E.
Qed.

Lemma words_from_run sep cur s :
  let run := cur ++ take_while (fun c => negb (sep c)) s in
  words_from sep cur s = (if bool_decide (run = []) then [] else [run]) ++
    words_of sep (drop_while sep (drop_while (fun c => negb (sep c)) s)).
Proof.
  cbv zeta. revert cur; induction s as [|c s IH]; intros cur; simpl.
  - by rewrite !app_nil_r.
  - destruct (sep c) eqn:E; simpl.
    + rewrite app_nil_r, E. f_equal. symmetry. apply (words_of_skip sep s).
    + rewrite IH, <-app_assoc. done.
Qed.

(** The first word of a text that does not start with a separator. *)
Lemma words_of_cons sep s :
  s <> [] -> drop_while sep s = s ->
  words_of sep s = take_while (fun c => negb (sep c)) s ::
    words_of sep (drop_while sep (drop_while (fun c => negb (sep c)) s)) /\
  take_while (fun c => negb (sep c)) s <> [].
Proof.
  intros Hs Hskip. destruct s as [|c s]; [done|].
  assert (E : sep c = false) by (by eapply drop_while_head).
  unfold words_of at 1. rewrite words_from_run. simpl. rewrite E. simpl. done.
Qed.

Lemma drop_while_idem (sep : ascii -> bool) s : drop_while sep (drop_while sep s) = drop_while sep s.
Proof.
  destruct (drop_while _ s) as [|c k] eqn:E; [done|].
  apply drop_while_stop. by eapply drop_while_head.
Qed.

(** Words are not empty and hold no separator. *)
Lemma words_from_Forall sep cur s :
  Forall (fun c => sep c = false) cur ->
  Forall (fun w => w <> [] /\ Forall (fun c => sep c = false) w) (words_from sep cur s).
Proof.
  revert cur; induction s as [|c s IH]; intros cur Hc; simpl.
  - case_bool_decide; [done|]. by repeat constructor.
  - destruct (sep c) eqn:E; [apply Forall_app; split|].
    + case_bool_decide; [done|]. by repeat constructor.
    + by apply IH.
    + apply IH, Forall_app. auto.
Qed.

(** A separator ends a word. *)
Lemma words_from_sep (sep : ascii -> bool) cur s c t :
  sep c = true -> words_from sep cur (s ++ c :: t) = words_from sep cur s ++ words_of sep t.
Proof.
  intros Hc. revert cur. induction s as [|d s IH]; intros cur; simpl; [by rewrite Hc|].
  destruct (sep d); rewrite IH; [apply (assoc_L (++))|done].
Qed.

Lemma words_from_word (sep : ascii -> bool) cur w :
  cur ++ w <> [] -> Forall (fun c => sep c = false) w -> words_from sep cur w = [cur ++ w].
Proof.
  intros Hn HF. revert cur Hn. induction HF as [|c w Hc _ IH]; intros cur Hn; simpl.
  - rewrite app_nil_r in Hn |- *. by rewrite bool_decide_eq_false_2.
  - rewrite Hc, IH, <-(assoc_L (++)); [done|]. by destruct cur.
Qed.

Lemma starts_with_app p s : starts_with p (p ++ s) = true.
Proof. induction p as [|c p IH]; simpl; [done|]. by rewrite bool_decide_eq_true_2. Qed.

Lemma starts_with_spec p s : starts_with p s = true <-> exists r, s = p ++ r.
Proof.
  split; [|intros [r ->]; apply starts_with_app].
  revert s; induction p as [|c p IH]; intros [|d s]; simpl; try done; eauto.
  intros H. bool_hyps. subst. destruct (IH s) as [r ->]; eauto.
Qed.

Lemma starts_with_take p s : starts_with p s = true <-> take (length p) s = p.
Proof.
  rewrite starts_with_spec. split; [intros [r ->]; apply take_app_length|].
  intros H. exists (drop (length p) s). by rewrite <-H at 1; rewrite take_drop.
Qed.

(** the first occurrence, when what precedes has none, even overlapping *)
Lemma strstr_first noise p r :
  p <> [] -> strstr (noise ++ take (length p - 1) p) p = None -> strstr (noise ++ p ++ r) p = Some (p ++ r).
Proof.
  intros Hp. induction noise as [|c noise IH]; intros Hn.
  - destruct p as [|c p]; [done|]. simpl. by rewrite bool_decide_eq_true_2, starts_with_app.
  - cbn [app strstr] in *. destruct (starts_with p (c :: noise ++ take _ p)) eqn:E; [done|].
    destruct (starts_with p (c :: noise ++ p ++ r)) eqn:E2; [|auto].
    apply starts_with_take in E2. rewrite <-not_true_iff_false, starts_with_take in E. destruct E.
    set (k := length p - 1) in *.
    assert (Hs : c :: noise ++ p ++ r = (c :: noise ++ take k p) ++ (drop k p ++ r)).
    { cbn [app]. by rewrite <-(assoc_L (++) noise), (assoc_L (++) (take k p)), take_drop. }
    rewrite Hs, take_app_le in E2; [done|]. cbn [length]. rewrite length_app, length_take.
    destruct p as [|d p]; [done|]. unfold k. simpl. lia.
Qed.

Lemma length_strstr s p t : strstr s p = Some t -> length t <= length s /\ exists r, t = p ++ r.
Proof.
  induction s as [|c s IH]; simpl; (destruct (starts_with p _) eqn:E; [intros [= <-]|]); try done.
  - split; [done|]. by apply starts_with_spec.
  - split; [done|]. by apply starts_with_spec.
  - intros H. destruct (IH H) as [H1 H2]. split; [lia|done].
Qed.

Lemma length_strchr s c t : strchr s c = Some t -> length t <= length s.
Proof.
  induction s as [|d s IH]; simpl; [done|]. case_bool_decide; [by intros [= <-]|]. intros H1. apply IH in H1. lia.
Qed.

Lemma strchr_first s c r : c ∉ s -> strchr (s ++ c :: r) c = Some (c :: r).
Proof.
  induction s as [|d s IH]; simpl; [by rewrite bool_decide_eq_true_2|]. rewrite not_elem_of_cons.
  intros [Hd Hs]. rewrite bool_decide_eq_false_2 by done. auto.
Qed.

Lemma starts_with_false p s : (forall r, s <> p ++ r) -> starts_with p s = false.
Proof.
  intros H. destruct (starts_with p s) eqn:E; [|done].
  apply starts_with_spec in E as [r E]. by destruct (H r).
Qed.

Lemma code_range c : (0 <= code c < 256)%Z.
Proof. unfold code. pose proof (N_ascii_bounded c). lia. Qed.

Lemma code_chr z : code (chr z) = (z mod 256)%Z.
Proof.
  unfold code, chr. pose proof (Z.mod_pos_bound z 256).
  rewrite N_ascii_embedding; lia.
Qed.

Lemma code_inj c d : code c = code d -> c = d.
Proof.
  unfold code. intros H. rewrite <-(ascii_N_embedding c), <-(ascii_N_embedding d).
  f_equal. lia.
Qed.

Lemma isdigit_chr d : (0 <= d < 10)%Z -> isdigit (chr (48 + d)) = true.
Proof. intros H. unfold isdigit. rewrite code_chr, Z.mod_small by lia. lia. Qed.

Lemma digits_value_snoc ds c :
  digits_value (ds ++ [c]) = (10 * digits_value ds + (code c - 48))%Z.
Proof. unfold digits_value. by rewrite foldl_snoc. Qed.

(** The digits produced for a natural number denote it. *)
Lemma dec_loop_spec fuel v acc :
  (0 <= v < 10 ^ Z.of_nat fuel)%Z -> fuel <> 0 ->
  exists ds, dec_loop fuel v acc = ds ++ acc /\ ds <> [] /\
    Forall (fun c => isdigit c = true) ds /\ digits_value ds = v.
Proof.
  revert v acc. induction fuel as [|fuel IH]; intros v acc Hv Hf; [done|]. simpl.
  rewrite Z.rem_mod_nonneg, Z.quot_div_nonneg by lia.
  pose proof (Z.mod_pos_bound v 10). pose proof (Z.div_mod v 10).
  assert (Hd : isdigit (chr (48 + v mod 10)) = true) by (apply isdigit_chr; lia).
  assert (Hc : (code (chr (48 + v mod 10)) - 48 = v mod 10)%Z)
    by (rewrite code_chr, Z.mod_small by lia; lia).
  destruct (Z.eqb_spec (v / 10) 0) as [E|E].
  - exists [chr (48 + v mod 10)]. repeat split; [done|auto| ].
    unfold digits_value. simpl. lia.
  - rewrite Nat2Z.inj_succ, Z.pow_succ_r in Hv by lia.
    assert (0 <= v / 10 < 10 ^ Z.of_nat fuel)%Z
      by (split; [apply Z.div_pos; lia|apply Z.div_lt_upper_bound; lia]).
    assert (fuel <> 0) by (intros ->; simpl in *; lia).
    destruct (IH (v / 10)%Z (chr (48 + v mod 10) :: acc)) as (ds & -> & Hn & HF & HD); auto.
    exists (ds ++ [chr (48 + v mod 10)]). rewrite <-app_assoc. repeat split; auto.
    + by destruct ds.
    + apply Forall_app; auto.
    + rewrite digits_value_snoc, HD. lia.
Qed.

Lemma isdigit_not_space c : isdigit c = true -> isspace c = false.
Proof. unfold isdigit, isspace. intros. bool_hyps. lia. Qed.

Lemma isdigit_not_sign c : isdigit c = true -> c <> "-"%char /\ c <> "+"%char.
Proof. intros H. split; intros ->; discriminate. Qed.

(** [strtol] reads back what the digit loop wrote. *)
Lemma strtol_digits ds :
  ds <> [] -> Forall (fun c => isdigit c = true) ds -> (digits_value ds <= LONG_MAX)%Z ->
  (0 <= digits_value ds)%Z -> strtol ds = (digits_value ds, [], false).
Proof.
  intros Hn HF Hmax Hmin. unfold strtol. destruct ds as [|c ds]; [done|].
  pose proof (Forall_inv HF) as Hc.
  rewrite drop_while_stop by by apply isdigit_not_space.
  destruct (isdigit_not_sign c Hc) as [H1 H2].
  rewrite (bool_decide_eq_false_2 _ H1), (bool_decide_eq_false_2 _ H2).
  rewrite take_while_id, drop_while_nil by done.
  rewrite (bool_decide_eq_false_2 (c :: ds = [])) by done.
  unfold LONG_MAX, LONG_MIN in *.
  destruct (Z.ltb_spec (2 ^ 63 - 1) (digits_value (c :: ds))); [lia|].
  destruct (Z.ltb_spec (digits_value (c :: ds)) (- 2 ^ 63)); [lia|]. done.
Qed.

(** ** Writing in a buffer *)

(** a buffer after the text [s] was written at its start, as far as it holds *)
Definition store (s buffer : bytes) : bytes := take (length buffer) s ++ drop (length s) buffer.

Lemma inserts_app (p k r : bytes) :
  length k <= length r -> list_inserts (length p) k (p ++ r) = p ++ k ++ drop (length k) r.
Proof.
  revert p r. induction k as [|x k IH]; intros p r Hl; simpl in *; [by rewrite drop_0|].
  destruct r as [|z r]; simpl in *; [lia|].
  replace (S (length p)) with (length (p ++ [z])) by (rewrite length_app; simpl; lia).
  rewrite (assoc_L (++) p [z] r : p ++ z :: r = (p ++ [z]) ++ r), IH by lia.
  rewrite <-(assoc_L (++)). simpl. by rewrite insert_app_r_alt, Nat.sub_diag by lia.
Qed.

Lemma store_eq s b b' :
  length b = length b' -> drop (length s) b = drop (length s) b' -> store s b = store s b'.
Proof. unfold store. by intros -> ->. Qed.

Lemma length_store s b : length (store s b) = length b.
Proof. unfold store. rewrite length_app, length_take, length_drop. lia. Qed.

(** a text written with its NUL is the string of the buffer *)
Lemma cstring_store t b : cstr t -> length t < length b -> cstring (store (t ++ [NUL]) b) = t.
Proof.
  intros Ht Hl. unfold store. rewrite take_ge by (rewrite length_app; simpl; lia).
  rewrite <-(assoc_L (++)). unfold cstring. rewrite take_while_all; [apply app_nil_r|].
  apply Forall_forall. intros c Hc. rewrite bool_decide_eq_false_2; [done|]. intros ->. by apply Ht.
Qed.
