(* ===== verification/Permset.v ===== *)
(** * The set of permissions of a package: [src/src/utils/permset.c]

    A permission set is an array of named permissions with two flags,
    [granted] and [requested], and a cursor for enumerating it.  The array
    grows by eight cells; [capacity] is the size of its memory block, kept
    so that writing in bounds can be stated. *)
From S2P Require Import Prelude CString.

Module permset.

(** ** Data *)

Record permission := mk_permission {
  name : bytes;
  granted : bool;
  requested : bool
}.

Record permset_s := mk_permset {
  permissions : list permission;
  index : nat;
  capacity : nat
}.

Inductive permset_select :=
| Select_Any
| Select_Requested
| Select_Granted
| Select_Requested_And_Granted.

Inductive permset_reset_kind :=
| Reset_Nothing
| Reset_Requested
| Reset_Granted
| Reset_Requested_And_Granted.

Definition count (ps : permset_s) : nat := length (permissions ps).

Definition with_permissions (ps : permset_s) (l : list permission) : permset_s :=
  mk_permset l (index ps) (capacity ps).
Definition with_index (ps : permset_s) (i : nat) : permset_s :=
  mk_permset (permissions ps) i (capacity ps).
Definition with_capacity (ps : permset_s) (n : nat) : permset_s :=
  mk_permset (permissions ps) (index ps) n.

(** ** Operations *)

Definition permset_create : permset_s := mk_permset [] 0 0.

(** retrieves the permission of name *)
Definition get (ps : permset_s) (nm : bytes) : option nat :=
  fst <$> list_find (fun p => name p = nm) (permissions ps).

(** set the flags of one permission *)
Definition mark (grant request : bool) (p : permission) : permission :=
  mk_permission (name p)
    (if grant then true else granted p)
    (if request then true else requested p).

(** [p->requested && p->granted] *)
Definition both (p : permission) : bool := requested p && granted p.

Definition mark_at (ps : permset_s) (i : nat) (grant request : bool) : Z * permset_s :=
  let ps' := with_permissions ps (alter (mark grant request) i (permissions ps)) in
  (match permissions ps' !! i with
   | Some p => Z.b2z (both p)
   | None => 0%Z
   end, ps').

(** add the permission if needed and set its flags; returns 1 if it is
    granted and requested, 0 if not and [-ENOMEM] on memory depletion *)
Definition add (ps : permset_s) (nm : bytes) (grant request : bool) (o : oracle)
  : Z * permset_s * oracle :=
  match get ps nm with
  | Some i => (mark_at ps i grant request, o)
  | None =>
      let '(ok, ps1, o1) :=
        if bool_decide (count ps `mod` 8 = 0) then
          let '(b, o1) := malloc o in
          (b, if b : bool then with_capacity ps (count ps + 8) else ps, o1)
        else (true, ps, o) in
      if ok : bool then
        let '(ok2, o2) := malloc o1 in
        if ok2 then
          (mark_at (with_permissions ps1 (permissions ps1 ++ [mk_permission nm false false]))
             (count ps1) grant request, o2)
        else ((- ENOMEM)%Z, ps1, o2)
      else ((- ENOMEM)%Z, ps1, o1)
  end.

Definition separators : bytes := [SPACE; TAB; NL; CR; ","%char].

(** the loop of [add_list], each turn consuming one name *)
Fixpoint add_list_loop (fuel : nat) (ps : permset_s) (iter : bytes) (allowed : Z)
  (grant request : bool) (o : oracle) : option (Z * permset_s * oracle) :=
  match iter with
  | [] => Some (allowed, ps, o)
  | _ :: _ =>
      match fuel with
      | O => None
      | S fuel' =>
          let n := strcspn iter separators in
          let '(rc, ps', o') := add ps (take n iter) grant request o in
          if (rc <? 0)%Z then Some (rc, ps', o')
          else add_list_loop fuel' ps' (skip_span (drop n iter) separators)
                 (Z.land allowed rc) grant request o'
      end
  end.

Definition add_list (ps : permset_s) (list : bytes) (grant request : bool) (o : oracle)
  : option (Z * permset_s * oracle) :=
  add_list_loop (length list) ps (skip_span list separators) 1 grant request o.

Definition permset_grant ps nm o := add ps nm true false o.
Definition permset_grant_list ps list o := add_list ps list true false o.
Definition permset_add ps nm o := add ps nm false false o.
Definition permset_add_list ps list o := add_list ps list false false o.
Definition permset_request ps nm o := add ps nm false true o.
Definition permset_request_list ps list o := add_list ps list false true o.

(** remove flags *)
Definition reset_one (it : permset_reset_kind) (p : permission) : permission :=
  match it with
  | Reset_Nothing => p
  | Reset_Requested => mk_permission (name p) (granted p) false
  | Reset_Granted => mk_permission (name p) false (requested p)
  | Reset_Requested_And_Granted => mk_permission (name p) false false
  end.

Definition permset_reset (ps : permset_s) (it : permset_reset_kind) : permset_s :=
  with_permissions ps (reset_one it <$> permissions ps).

(** checks if the permission is recorded *)
Definition permset_has (ps : permset_s) (nm : bytes) : bool :=
  match get ps nm with Some _ => true | None => false end.

Definition matches (p : permission) (it : permset_select) : bool :=
  match it with
  | Select_Any => true
  | Select_Requested => requested p
  | Select_Granted => granted p
  | Select_Requested_And_Granted => granted p && requested p
  end.

(** the cursor after the loop of [advance] over the permissions [l] that
    start at the cursor *)
Fixpoint advance_loop (l : list permission) (i : nat) (it : permset_select) : nat :=
  match l with
  | [] => i
  | p :: l' => if matches p it then i else advance_loop l' (S i) it
  end.

Definition advance (ps : permset_s) (it : permset_select) : bool * permset_s :=
  let i := advance_loop (drop (index ps) (permissions ps)) (index ps) it in
  (bool_decide (i < count ps), with_index ps i).

Definition permset_select_first (ps : permset_s) (it : permset_select) : bool * permset_s :=
  advance (with_index ps 0) it.

Definition permset_select_next (ps : permset_s) (it : permset_select) : bool * permset_s :=
  advance (with_index ps (S (index ps))) it.

Definition permset_current (ps : permset_s) : option bytes :=
  name <$> permissions ps !! index ps.

Definition permset_is_current_requested (ps : permset_s) : bool :=
  match permissions ps !! index ps with Some p => requested p | None => false end.

Definition permset_is_current_granted (ps : permset_s) : bool :=
  match permissions ps !! index ps with Some p => granted p | None => false end.

(** The enumeration idiom of the callers:
    [rc = select_first(...); while (rc) { ... current ...; rc = select_next(...); }]
    with the names it sees. [None] when [fuel] turns are not enough. *)
Fixpoint enum_loop (fuel : nat) (st : bool * permset_s) (it : permset_select)
  : option (list (option bytes)) :=
  match st with
  | (false, _) => Some []
  | (true, ps) =>
      match fuel with
      | O => None
      | S fuel' => cons (permset_current ps) <$> enum_loop fuel' (permset_select_next ps it) it
      end
  end.

Definition enumerate (ps : permset_s) (it : permset_select) : option (list (option bytes)) :=
  enum_loop (count ps) (permset_select_first ps it) it.

(** ** Invariant: distinct names, and room for the next cell unless the
    next addition reallocates *)

Definition names (ps : permset_s) : list bytes := name <$> permissions ps.

Record wf (ps : permset_s) : Prop := {
  wf_names : NoDup (names ps);
  wf_count : count ps <= capacity ps;
  wf_room : count ps `mod` 8 <> 0 -> 8 * (count ps / 8 + 1) <= capacity ps
}.

(** ** Abstract specification: a finite map from names to both flags *)

Abbreviation spec := (gmap bytes (bool * bool)).

Definition abs (ps : permset_s) : spec :=
  list_to_map ((fun p => (name p, (granted p, requested p))) <$> permissions ps).

Definition spec_flags (m : spec) (nm : bytes) : bool * bool :=
  default (false, false) (m !! nm).

Definition spec_add (nm : bytes) (grant request : bool) (m : spec) : spec :=
  <[nm := ((spec_flags m nm).1 || grant, (spec_flags m nm).2 || request)]> m.

(** the names of a list *)
Definition words (s : bytes) : list bytes := words_of (is_in separators) s.

(** ** Lemmas *)

Lemma div8 n : n = 8 * (n / 8) + n `mod` 8 /\ n `mod` 8 < 8.
Proof. split; [apply Nat.div_mod_eq|]. apply Nat.mod_upper_bound. lia. Qed.

Lemma get_Some ps nm i :
  get ps nm = Some i -> exists p, permissions ps !! i = Some p /\ name p = nm.
Proof.
  unfold get. intros H. apply fmap_Some in H as ([j p] & H & ->).
  apply list_find_Some in H as (? & ? & ?). eauto.
Qed.

Lemma get_None ps nm : get ps nm = None -> nm ∉ names ps.
Proof.
  unfold get, names. intros H Hin. apply list_elem_of_fmap in Hin as (p & -> & Hp).
  apply fmap_None, list_find_None in H. rewrite Forall_forall in H. by apply (H p Hp).
Qed.

Lemma get_in ps nm : is_Some (get ps nm) <-> nm ∈ names ps.
Proof.
  split.
  - intros [i Hi]. apply get_Some in Hi as (p & Hp & <-).
    apply list_elem_of_fmap. eauto using list_elem_of_lookup_2.
  - intros Hin. destruct (get ps nm) eqn:E; [eauto|]. by apply get_None in E.
Qed.

Lemma names_mark_at ps i g r : names (mark_at ps i g r).2 = names ps.
Proof.
  unfold names, mark_at. simpl. rewrite list_fmap_alter with (h := id); [|by apply Forall_true].
  by apply list_alter_id.
Qed.

Lemma count_mark_at ps i g r : count (mark_at ps i g r).2 = count ps.
Proof. unfold count, mark_at. simpl. apply length_alter. Qed.

Lemma wf_mark_at ps i g r : wf ps -> wf (mark_at ps i g r).2.
Proof.
  intros [H1 H2 H3]. split; rewrite ?names_mark_at, ?count_mark_at; done.
Qed.

Definition pairs (l : list permission) : list (bytes * (bool * bool)) :=
  (fun p => (name p, (granted p, requested p))) <$> l.

Lemma pairs_fst l : (pairs l).*1 = name <$> l.
Proof. unfold pairs. rewrite <-list_fmap_compose. done. Qed.

(** In a well-formed set, a cell of the array is a binding of the map. *)
Lemma abs_lookup ps i p :
  wf ps -> permissions ps !! i = Some p ->
  abs ps !! name p = Some (granted p, requested p).
Proof.
  intros [Hd _ _] Hp. apply elem_of_list_to_map.
  - by rewrite pairs_fst.
  - apply list_elem_of_fmap. eauto using list_elem_of_lookup_2.
Qed.

Lemma abs_lookup_None ps nm : nm ∉ names ps -> abs ps !! nm = None.
Proof. intros H. apply not_elem_of_list_to_map. by rewrite pairs_fst. Qed.

(** Marking the cell of [nm] is the abstract addition. *)
Lemma mark_at_refines ps i p g r :
  wf ps -> permissions ps !! i = Some p ->
  let res := mark_at ps i g r in
  abs res.2 = spec_add (name p) g r (abs ps) /\
  res.1 = Z.b2z ((granted p || g) && (requested p || r)).
Proof.
  intros Hwf Hp. simpl.
  assert (Hl : alter (mark g r) i (permissions ps) !! i = Some (mark g r p))
    by (by rewrite list_lookup_alter_eq, Hp).
  pose proof (wf_mark_at ps i g r Hwf) as Hwf'. simpl in Hwf'. split.
  - apply map_eq. intros k. unfold spec_add, spec_flags.
    rewrite (abs_lookup ps i p) by done. simpl.
    destruct (decide (k = name p)) as [->|Hk].
    + rewrite lookup_insert_eq.
      pose proof (abs_lookup _ i (mark g r p) Hwf' Hl) as E. simpl in E. rewrite E.
      by destruct g, r, (granted p), (requested p).
    + rewrite lookup_insert_ne by done.
      unfold abs. simpl. apply option_eq. intros x.
      rewrite <-!elem_of_list_to_map;
        [|rewrite pairs_fst; apply Hwf|rewrite pairs_fst; apply Hwf'].
      rewrite !list_elem_of_fmap. split; intros (q & Hq & Hin);
        apply list_elem_of_lookup in Hin as [j Hj]; injection Hq as -> ->; exists q;
        (split; [done|]).
      * destruct (decide (i = j)) as [<-|Hij].
        { rewrite Hl in Hj. injection Hj as <-. done. }
        rewrite list_lookup_alter_ne in Hj by done. eauto using list_elem_of_lookup_2.
      * destruct (decide (i = j)) as [<-|Hij]; [congruence|].
        apply list_elem_of_lookup. exists j. by rewrite list_lookup_alter_ne.
  - rewrite Hl. unfold both. simpl. by destruct g, r, (granted p), (requested p).
Qed.

Lemma wf_with_capacity ps : wf ps -> count ps `mod` 8 = 0 -> wf (with_capacity ps (count ps + 8)).
Proof. intros [H1 H2 H3] Hm. split; [done|..]; unfold count in *;
    cbn [permissions capacity with_capacity]; lia. Qed.

(** Appending a fresh name in a set that has room keeps it well formed. *)
Lemma wf_push ps nm :
  wf ps -> 8 * (count ps / 8 + 1) <= capacity ps -> nm ∉ names ps ->
  wf (with_permissions ps (permissions ps ++ [mk_permission nm false false])).
Proof.
  intros [H1 H2 H3] Hroom Hin. split; unfold names, count in *;
    cbn [permissions capacity with_permissions].
  - rewrite fmap_app. apply NoDup_app. repeat split; [done| |apply NoDup_singleton].
    intros y Hy ->%list_elem_of_singleton. done.
  - rewrite length_app. cbn [length]. pose proof (div8 (length (permissions ps))). lia.
  - rewrite length_app. cbn [length]. pose proof (div8 (length (permissions ps))).
    pose proof (div8 (length (permissions ps) + 1)). lia.
Qed.

Lemma abs_push ps nm :
  nm ∉ names ps ->
  abs (with_permissions ps (permissions ps ++ [mk_permission nm false false]))
  = <[nm := (false, false)]> (abs ps).
Proof.
  intros H. unfold abs. simpl. rewrite fmap_app, list_to_map_app. simpl.
  rewrite insert_empty, map_union_comm, insert_union_singleton_l; [done|].
  apply map_disjoint_singleton_r, (abs_lookup_None ps nm H).
Qed.

Lemma spec_add_new nm g r m :
  m !! nm = None -> spec_add nm g r (<[nm := (false, false)]> m) = spec_add nm g r m.
Proof.
  intros H. unfold spec_add, spec_flags. rewrite lookup_insert_eq, H. simpl.
  by rewrite insert_insert_eq.
Qed.

(** the flags of [nm] in the map, as the status of [add] tells them *)
Definition spec_status (m : spec) (nm : bytes) : Z :=
  Z.b2z ((spec_flags m nm).1 && (spec_flags m nm).2).

(** Appending a fresh name and marking it is the abstract addition. *)
Lemma push_mark_refines ps nm g r :
  wf ps -> nm ∉ names ps -> 8 * (count ps / 8 + 1) <= capacity ps ->
  let res := mark_at (with_permissions ps (permissions ps ++ [mk_permission nm false false]))
               (count ps) g r in
  wf res.2 /\ abs res.2 = spec_add nm g r (abs ps) /\ res.1 = spec_status (abs res.2) nm.
Proof.
  intros Hwf Hn Hroom. cbv zeta.
  assert (Hw2 : wf (with_permissions ps (permissions ps ++ [mk_permission nm false false])))
    by by apply wf_push.
  assert (Hp2 : permissions (with_permissions ps (permissions ps ++ [mk_permission nm false false]))
    !! count ps = Some (mk_permission nm false false)).
  { simpl. rewrite lookup_app_r by done. unfold count. by rewrite Nat.sub_diag. }
  destruct (mark_at_refines _ _ _ g r Hw2 Hp2) as [Ha Hr].
  rewrite abs_push, spec_add_new in Ha by auto using abs_lookup_None.
  split; [by apply wf_mark_at|]. split; [done|].
  rewrite Ha, Hr. unfold spec_status, spec_add, spec_flags.
  rewrite lookup_insert_eq, abs_lookup_None by done. done.
Qed.

(** Both outcomes of [add]: the array is kept, which only happens when an
    allocation fails, or the abstract addition is done and the status tells
    whether both flags are then set. *)
Lemma add_cases ps nm g r o rc ps' o' :
  wf ps -> add ps nm g r o = (rc, ps', o') ->
  wf ps' /\
  ((rc = (- ENOMEM)%Z /\ permissions ps' = permissions ps /\ false ∈ o) \/
   (abs ps' = spec_add nm g r (abs ps) /\ rc = spec_status (abs ps') nm)) /\
  (exists used, o = used ++ o').
Proof.
  intros Hwf. unfold add. destruct (get ps nm) as [i|] eqn:Hg.
  - destruct (get_Some _ _ _ Hg) as (p & Hp & <-).
    pose proof (wf_mark_at ps i g r Hwf) as Hw.
    destruct (mark_at_refines ps i p g r Hwf Hp) as [Ha Hr].
    destruct (mark_at ps i g r) as [rc0 ps0]; simpl in *. intros [= <- <- <-].
    split; [done|]. split; [right|by exists []]. split; [done|]. rewrite Ha, Hr.
    unfold spec_status, spec_add, spec_flags.
    rewrite lookup_insert_eq, (abs_lookup ps i p) by done. done.
  - apply get_None in Hg.
    destruct (decide (count ps `mod` 8 = 0)) as [Hm|Hm];
      [rewrite bool_decide_eq_true_2 by done|rewrite bool_decide_eq_false_2 by done].
    + pose proof (wf_with_capacity ps Hwf Hm) as Hwc.
      destruct (malloc o) as [[] o1] eqn:E1; apply malloc_cases in E1 as (u & -> & Hu).
      * destruct (malloc o1) as [[] o2] eqn:E2; apply malloc_cases in E2 as (v & -> & Hv);
          intros Heq; [|simplify_eq].
        -- pose proof (f_equal fst Heq) as Hf; pose proof (f_equal snd Heq) as Hs.
           cbn [fst snd] in Hf, Hs. subst o2. destruct (push_mark_refines (with_capacity ps (count ps + 8)) nm g r)
             as (H1 & H2 & H3); [done..| |].
           { pose proof (div8 (count ps)). unfold count in *; cbn [permissions capacity with_capacity]. lia. }
           rewrite Hf in H1, H2, H3. split; [done|]. split; [by right|]. exists (u ++ v). by rewrite app_assoc.
        -- split; [done|]. split; [left|exists (u ++ v); by rewrite app_assoc]. set_solver.
      * intros [= <- <- <-]. split; [done|]. split; [left|by exists u]. set_solver.
    + destruct (malloc o) as [[] o2] eqn:E2; apply malloc_cases in E2 as (u & -> & Hu);
        intros Heq; [|simplify_eq].
      * pose proof (f_equal fst Heq) as Hf; pose proof (f_equal snd Heq) as Hs.
        cbn [fst snd] in Hf, Hs. subst o2. destruct (push_mark_refines ps nm g r Hwf Hg (wf_room _ Hwf Hm)) as (H1 & H2 & H3).
        rewrite Hf in H1, H2, H3. split; [done|]. split; [by right|by exists u].
      * split; [done|]. split; [left|by exists u]. set_solver.
Qed.
Lemma words_skip s : words (skip_span s separators) = words s.
Proof. apply words_of_skip. Qed.

(** The first word of a text that does not start with a separator. *)
Lemma words_cons s :
  s <> [] -> skip_span s separators = s ->
  words s = take (strcspn s separators) s ::
            words (skip_span (drop (strcspn s separators) s) separators) /\
  strcspn s separators <> 0.
Proof.
  intros Hs Hskip. destruct (words_of_cons _ s Hs Hskip) as [H Hn].
  unfold strcspn. rewrite take_length_take_while, drop_length_take_while.
  split; [exact H|]. by destruct (take_while _ s).
Qed.

Lemma skip_span_idem s : skip_span (skip_span s separators) separators = skip_span s separators.
Proof. apply drop_while_idem. Qed.

Lemma spec_flags_add g r m w nm :
  spec_flags (spec_add w g r m) nm =
  if bool_decide (w = nm) then ((spec_flags m nm).1 || g, (spec_flags m nm).2 || r)
  else spec_flags m nm.
Proof.
  unfold spec_add. unfold spec_flags at 1. rewrite lookup_insert.
  destruct (decide (w = nm)) as [->|H];
    [by rewrite bool_decide_eq_true_2|by rewrite bool_decide_eq_false_2].
Qed.

Lemma spec_flags_fold g r ws m nm :
  spec_flags (foldl (fun m w => spec_add w g r m) m ws) nm =
  if bool_decide (nm ∈ ws) then ((spec_flags m nm).1 || g, (spec_flags m nm).2 || r)
  else spec_flags m nm.
Proof.
  revert m. induction ws as [|w ws IH]; intros m; simpl; [done|].
  rewrite IH, !spec_flags_add. destruct (decide (w = nm)) as [->|Hn].
  - rewrite (bool_decide_eq_true_2 (nm = nm)), (bool_decide_eq_true_2 (nm ∈ nm :: ws))
      by (done || left).
    by case_bool_decide; destruct (spec_flags m nm) as [[] []], g, r.
  - rewrite (bool_decide_eq_false_2 (w = nm)) by done.
    assert (nm ∈ w :: ws <-> nm ∈ ws) as Hiff by set_solver.
    by rewrite (bool_decide_ext _ _ Hiff).
Qed.

Lemma spec_add_fold_absorb g r ws m w :
  spec_status (foldl (fun m w => spec_add w g r m) (spec_add w g r m) ws) w
  = spec_status (spec_add w g r m) w.
Proof.
  unfold spec_status. rewrite spec_flags_fold, spec_flags_add.
  rewrite (bool_decide_eq_true_2 (w = w)) by done.
  by case_bool_decide; destruct (spec_flags m w) as [[] []], g, r.
Qed.

(** The loop of [add_list] adds the words of the text one after the other
    and stops on the first failing allocation. *)
Lemma add_list_loop_spec fuel ps iter allowed g r o :
  wf ps -> skip_span iter separators = iter -> length iter <= fuel ->
  (allowed = 0 \/ allowed = 1)%Z ->
  exists rc ps' o', add_list_loop fuel ps iter allowed g r o = Some (rc, ps', o') /\ wf ps' /\
  ((rc = (- ENOMEM)%Z /\ false ∈ o /\ exists n, n < length (words iter) /\
      abs ps' = foldl (fun m w => spec_add w g r m) (abs ps) (take n (words iter))) \/
   (abs ps' = foldl (fun m w => spec_add w g r m) (abs ps) (words iter) /\
    (rc = 0 \/ rc = 1)%Z /\
    (rc = 1%Z <-> allowed = 1%Z /\ Forall (fun w => spec_status (abs ps') w = 1%Z) (words iter)))).
Proof.
  revert ps iter allowed o. induction fuel as [|fuel IH]; intros ps iter allowed o Hwf Hsk Hl Ha.
  { destruct iter; [|simpl in Hl; lia]. exists allowed, ps, o. naive_solver. }
  destruct iter as [|c iter0]; [exists allowed, ps, o; naive_solver|].
  remember (c :: iter0) as iter eqn:Eit.
  destruct (words_cons iter) as [Hw Hn]; [by subst|done|].
  assert (Hunf : add_list_loop (S fuel) ps iter allowed g r o =
    let n := strcspn iter separators in
    let '(rc, ps', o') := add ps (take n iter) g r o in
    if (rc <? 0)%Z then Some (rc, ps', o')
    else add_list_loop fuel ps' (skip_span (drop n iter) separators) (Z.land allowed rc) g r o')
    by (subst; reflexivity).
  rewrite Hunf, Hw. clear Hunf. cbv zeta. set (w := take _ iter) in *.
  destruct (add ps w g r o) as [[rc1 ps1] o1] eqn:Eadd.
  destruct (add_cases _ _ _ _ _ _ _ _ Hwf Eadd) as (Hwf1 & Hcase & used & Ho).
  destruct Hcase as [(-> & Hp & Hf)|[Habs Hrc]].
  { exists (- ENOMEM)%Z, ps1, o1. split; [done|]. split; [done|]. left. split; [done|].
    split; [done|]. exists 0. simpl. split; [lia|]. unfold abs. by rewrite Hp. }
  assert (Hb : (rc1 = 0 \/ rc1 = 1)%Z)
    by (rewrite Hrc; unfold spec_status; destruct (_ && _); simpl; auto).
  destruct (Z.ltb_spec rc1 0); [lia|].
  assert (Hlen : length (skip_span (drop (strcspn iter separators) iter) separators) <= fuel).
  { unfold skip_span. pose proof (length_drop_while (is_in separators)
      (drop (strcspn iter separators) iter)) as Hd. rewrite length_drop in Hd. lia. }
  assert (Hal : (Z.land allowed rc1 = 0 \/ Z.land allowed rc1 = 1)%Z)
    by (destruct Ha as [->| ->], Hb as [->| ->]; simpl; auto).
  destruct (IH ps1 _ (Z.land allowed rc1) o1 Hwf1 (skip_span_idem _) Hlen Hal)
    as (rc & ps' & o' & Hrun & Hwf' & Hres).
  exists rc, ps', o'. split; [done|]. split; [done|]. rewrite Habs in Hres.
  destruct Hres as [(-> & Hf & n & Hn' & Habs')|(Habs' & Hrc' & Hiff)]; [left|right].
  - split; [done|]. split; [rewrite Ho; set_solver|].
    exists (S n). simpl. split; [lia|done].
  - split; [done|]. split; [done|]. rewrite Hiff, Forall_cons.
    assert (Hst : spec_status (abs ps') w = rc1)
      by by rewrite Habs', spec_add_fold_absorb, <-Habs.
    rewrite Hst. destruct Ha as [->| ->], Hb as [->| ->]; simpl; naive_solver lia.
Qed.
(** The cursor stops at the first match at or after its position. *)
Lemma advance_loop_spec l i it :
  advance_loop l i it =
  i + length (take_while (fun p => negb (matches p it)) l).
Proof.
  revert i. induction l as [|p l IH]; intros i; simpl; [lia|].
  destruct (matches p it); simpl; [lia|]. rewrite IH. lia.
Qed.

(** From the cursor on, the enumeration yields the names that match. *)
Lemma enum_advance ps it fuel i :
  count ps - i <= fuel ->
  enum_loop fuel (advance (with_index ps i) it) it =
  Some ((fun p => Some (name p)) <$>
        filter (fun p => matches p it = true) (drop i (permissions ps))).
Proof.
  revert i. induction fuel as [|fuel IH]; intros i Hf;
    unfold advance; cbn [index with_index permissions];
    rewrite advance_loop_spec; set (k := length _);
    destruct (decide (i + k < count ps)) as [Hlt|Hge].
  2, 4: rewrite bool_decide_eq_false_2 by done; cbn [enum_loop];
    rewrite <-(take_drop_while (fun p => negb (matches p it)) (drop i (permissions ps)));
    rewrite (nil_length_inv (drop_while _ _)), app_nil_r
      by (pose proof (length_take_drop_while (fun p => negb (matches p it)) (drop i (permissions ps)));
          rewrite length_drop in *; unfold count in *; lia);
    by rewrite (filter_take_while (fun p => matches p it)).
  - exfalso. unfold count in *. lia.
  - rewrite bool_decide_eq_true_2 by done. cbn [enum_loop].
    assert (Hd : exists p k', drop_while (fun p => negb (matches p it)) (drop i (permissions ps)) = p :: k'
      /\ permissions ps !! (i + k) = Some p /\ k' = drop (S (i + k)) (permissions ps)).
    { pose proof (drop_length_take_while (fun p => negb (matches p it)) (drop i (permissions ps))) as Hd.
      fold k in Hd. rewrite drop_drop in Hd.
      destruct (lookup_lt_is_Some_2 (permissions ps) (i + k) Hlt) as [p Hp].
      rewrite (drop_S _ _ _ Hp) in Hd. eauto. }
    destruct Hd as (p & k' & Hd & Hp & ->).
    change (enum_loop fuel _ it)
      with (enum_loop fuel (advance (with_index ps (S (i + k))) it) it).
    rewrite IH by lia. unfold permset_current. simpl. rewrite Hp.
    rewrite <-(take_drop_while (fun p => negb (matches p it)) (drop i (permissions ps))), filter_app.
    rewrite (filter_take_while (fun p => matches p it)).
    rewrite Hd. apply drop_while_head, negb_false_iff in Hd.
    simpl. rewrite filter_cons_True by done. done.
Qed.

(** ** Properties *)

(** C31: [add] refines the abstract map: it keeps the set well formed (names
    distinct and array in its memory block); when it fails it returns
    [-ENOMEM], which needs a failing allocation, and changes no permission;
    otherwise the flags of the name are raised as asked, no other name
    changes, and the status is 1 exactly when the name ends up granted and
    requested. *)
Theorem add_refines ps nm g r o rc ps' o' :
  wf ps -> add ps nm g r o = (rc, ps', o') ->
  wf ps' /\
  ((rc = (- ENOMEM)%Z /\ abs ps' = abs ps /\ false ∈ o) \/
   (abs ps' = spec_add nm g r (abs ps) /\ rc = spec_status (abs ps') nm)).
Proof.
  intros Hwf H. destruct (add_cases _ _ _ _ _ _ _ _ Hwf H) as (? & Hc & _).
  split; [done|]. destruct Hc as [(-> & Hp & ?)|?]; [left|by right].
  split; [done|]. unfold abs. by rewrite Hp.
Qed.

(** [add_list] terminates and adds exactly the words of the text, the
    maximal runs of characters that are not separators, in order; on
    memory depletion a strict prefix of them was added; the status is 1
    exactly when every word ends up granted and requested. *)
Theorem add_list_refines ps l g r o :
  wf ps ->
  exists rc ps' o', add_list ps l g r o = Some (rc, ps', o') /\ wf ps' /\
  ((rc = (- ENOMEM)%Z /\ false ∈ o /\ exists n, n < length (words l) /\
      abs ps' = foldl (fun m w => spec_add w g r m) (abs ps) (take n (words l))) \/
   (abs ps' = foldl (fun m w => spec_add w g r m) (abs ps) (words l) /\
    (rc = 0 \/ rc = 1)%Z /\
    (rc = 1%Z <-> Forall (fun w => spec_status (abs ps') w = 1%Z) (words l)))).
Proof.
  intros Hwf. unfold add_list. rewrite <-(words_skip l).
  destruct (add_list_loop_spec (length l) ps (skip_span l separators) 1 g r o)
    as (rc & ps' & o' & H1 & H2 & H3); auto using skip_span_idem.
  { apply length_drop_while. }
  exists rc, ps', o'. split; [done|]. split; [done|]. naive_solver.
Qed.

(** Enumerating with [permset_select_first] and [permset_select_next]
    terminates and visits exactly the permissions that match the selector,
    once each, in the order of their insertion. *)
Theorem enumerate_spec ps it :
  enumerate ps it =
  Some ((fun p => Some (name p)) <$> filter (fun p => matches p it = true) (permissions ps)).
Proof. unfold enumerate, permset_select_first. rewrite enum_advance; [done|lia]. Qed.

(** ** Witnesses *)

Definition sample : permset_s :=
  mk_permset [mk_permission (B "a") true false; mk_permission (B "b") false true] 0 8.

Lemma sample_wf : wf sample.
Proof.
  split.
  - apply (bool_decide_unpack (NoDup (names sample))). vm_compute. done.
  - vm_compute. lia.
  - intros _. vm_compute. lia.
Defined.

Lemma add_refines_witness :
  wf sample /\ add sample (B "a") false true [] =
    (1%Z, mk_permset [mk_permission (B "a") true true; mk_permission (B "b") false true] 0 8, []) /\
  wf (mk_permset [mk_permission (B "a") true true; mk_permission (B "b") false true] 0 8).
Proof.
  split; [exact sample_wf|]. split; [reflexivity|].
  apply (add_refines sample (B "a") false true [] 1%Z _ [] sample_wf). reflexivity.
Defined.

Lemma add_list_refines_witness :
  wf sample /\ exists rc ps' o', add_list sample (B "a, c") false true [] = Some (rc, ps', o') /\ wf ps'.
Proof.
  split; [exact sample_wf|].
  destruct (add_list_refines sample (B "a, c") false true [] sample_wf)
    as (rc & ps' & o' & H1 & H2 & _).
  exists rc, ps', o'. split; assumption.
Defined.

End permset.
