(* ===== verification/DomainSpec.v ===== *)
(** * Domain specifications of certificates: [src/src/utils/domain-spec.c]

    A specification is a linked list of domains, each with a permission;
    the list is kept with its head first.  Its text form is a comma
    separated list of names prefixed by the tag of their permission. *)
From S2P Require Import Prelude CString.

Module domain_spec.

(** ** Data *)

Definition permission_none : Z := 0.
Definition permission_grants : Z := 1.
Definition permission_auth : Z := 2.
Definition permission_root : Z := 3.
Definition permission_count : Z := 4.

Definition is_domain_permission_valid (perm : Z) : bool :=
  (0 <=? perm)%Z && (perm <? permission_count)%Z.

Record domain_st := mk_domain { permission : Z; name : bytes }.

Abbreviation spec_t := (list domain_st).

(** the tag of a permission *)
Definition domain_permission_tags : bytes := [NUL; "+"%char; "#"%char; "@"%char].

Definition tag_of (perm : Z) : ascii := nth (Z.to_nat perm) domain_permission_tags NUL.

(** ** Operations *)

(** [0 == memcmp(nm, domain, len) && nm[len] == 0], the memory at [nm]
    being its characters and a NUL *)
Definition name_is (nm domain : bytes) (len : nat) : bool :=
  beq (take len (nm ++ [NUL])) (take len domain)
  && bool_decide ((nm ++ [NUL]) !! len = Some NUL).

Definition get_domain_len (spec : spec_t) (domain : bytes) (len : nat) : option (nat * domain_st) :=
  list_find (fun d => name_is (name d) domain len = true) spec.

Definition get_domain (spec : spec_t) (domain : bytes) : option (nat * domain_st) :=
  get_domain_len spec domain (length domain).

Definition add_domain_len (spec : spec_t) (perm : Z) (domain : bytes) (len : nat) (o : oracle)
  : Z * spec_t * oracle :=
  let '(ok, o') := malloc o in
  if ok then (0%Z, mk_domain perm (take len domain) :: spec, o')
  else ((- ENOMEM)%Z, spec, o').

Definition add_domain (spec : spec_t) (perm : Z) (domain : bytes) (o : oracle) :=
  add_domain_len spec perm domain (length domain) o.

(** the last line ignores [len], as the source does *)
Definition domain_spec_set_len (spec : spec_t) (perm : Z) (domain : bytes) (len : nat)
  (o : oracle) : Z * spec_t * oracle :=
  if negb (is_domain_permission_valid perm) then ((- EINVAL)%Z, spec, o)
  else
    match get_domain_len spec domain len with
    | Some (i, d) =>
        if (perm =? permission_none)%Z then (0%Z, delete i spec, o)
        else (0%Z, <[i := mk_domain perm (name d)]> spec, o)
    | None =>
        if (perm =? permission_none)%Z then (0%Z, spec, o)
        else add_domain spec perm domain o
    end.

Definition domain_spec_set (spec : spec_t) (perm : Z) (domain : bytes) (o : oracle) :=
  domain_spec_set_len spec perm domain (length domain) o.

Definition is_domain_spec_granting (spec : spec_t) (domain : bytes) : bool :=
  match get_domain spec domain with
  | Some (_, d) => (permission d =? permission_grants)%Z
  | None => false
  end.

Definition is_printed (d : domain_st) : bool :=
  (permission_none <? permission d)%Z && (permission d <? permission_count)%Z.

(** first loop of [get_string_of_domain_spec]: the size to allocate *)
Fixpoint string_size (spec : spec_t) : nat :=
  match spec with
  | [] => 0
  | d :: spec' => (if is_printed d then length (name d) + 2 else 0) + string_size spec'
  end.

(** second loop: the characters written before the final NUL *)
Fixpoint string_text (spec : spec_t) (str : bytes) : bytes :=
  match spec with
  | [] => str
  | d :: spec' =>
      if is_printed d
      then string_text spec' (str ++ (if bool_decide (str = []) then [] else [","%char])
                                  ++ tag_of (permission d) :: name d)
      else string_text spec' str
  end.

(** status, result and size of the block allocated for the result *)
Definition get_string_of_domain_spec (spec : spec_t) (o : oracle)
  : Z * option (bytes * nat) * oracle :=
  let '(ok, o') := malloc o in
  if ok then (Z.of_nat (length (string_text spec [])), Some (string_text spec [], string_size spec), o')
  else ((- ENOMEM)%Z, None, o').

(** the loop [for (pe = 0 ; pe < count && tags[pe] != op ; pe++)] *)
Definition permission_of_tag (op : ascii) : option Z :=
  (fun x => Z.of_nat x.1) <$> list_find (fun t => t = op) domain_permission_tags.

Definition not_comma (c : ascii) : bool := negb (bool_decide (c = ","%char)).

(** the loop of [get_domain_spec_of_string] from the position of the suffix
    [s]; each turn consumes at least the tag *)
Fixpoint parse_loop (fuel : nat) (s : bytes) (spec : spec_t) (o : oracle)
  : option (Z * spec_t * oracle) :=
  match s with
  | [] => Some (0%Z, spec, o)
  | op :: s1 =>
      match fuel with
      | O => None
      | S fuel' =>
          match permission_of_tag op with
          | None => Some ((- ENOKEY)%Z, spec, o)
          | Some pe =>
              let len := length (take_while not_comma s1) in
              if bool_decide (len = 0) then Some ((- ENODATA)%Z, spec, o)
              else match get_domain_len spec s1 len with
                   | Some _ => Some ((- EEXIST)%Z, spec, o)
                   | None =>
                       let '(rc, spec', o') := add_domain_len spec pe s1 len o in
                       if bool_decide (rc <> 0%Z) then Some (rc, spec', o')
                       else parse_loop fuel' (tail (drop len s1)) spec' o'
                   end
          end
      end
  end.

Definition domain_spec_reset (spec : spec_t) : spec_t := [].

Definition get_domain_spec_of_string (str : bytes) (spec : spec_t) (o : oracle)
  : option (Z * spec_t * oracle) :=
  if bool_decide (spec <> []) then Some ((- ENOTEMPTY)%Z, spec, o)
  else '(rc, spec', o') ← parse_loop (length str) str spec o;
       Some (rc, if bool_decide (rc <> 0%Z) then domain_spec_reset spec' else spec', o').

Definition is_domain_spec_string_valid (str : bytes) (o : oracle) : option bool :=
  '(rc, _, _) ← get_domain_spec_of_string str [] o; Some (rc =? 0)%Z.

(** one turn of [is_domain_spec_able_to_sign] *)
Definition able_for (auth : spec_t) (tar : domain_st) : bool :=
  match get_domain auth (name tar) with
  | Some (_, aut) => (permission tar <? permission aut)%Z
                     || (permission aut =? permission_root)%Z
  | None => false
  end.

Fixpoint is_domain_spec_able_to_sign (auth target : spec_t) : bool :=
  match target with
  | [] => true
  | tar :: target' =>
      if able_for auth tar then is_domain_spec_able_to_sign auth target' else false
  end.

Fixpoint domain_spec_add_grantings (to from : spec_t) (o : oracle) : Z * spec_t * oracle :=
  match from with
  | [] => (0%Z, to, o)
  | fr :: from' =>
      if (permission fr =? permission_grants)%Z then
        match get_domain to (name fr) with
        | None =>
            let '(rc, to', o') := add_domain to permission_grants (name fr) o in
            if (rc =? 0)%Z then domain_spec_add_grantings to' from' o' else (rc, to', o')
        | Some (i, d) =>
            domain_spec_add_grantings (<[i := mk_domain permission_grants (name d)]> to) from' o
        end
      else domain_spec_add_grantings to from' o
  end.

(** [domain_spec_enum] calls [func] for each domain, threading its effect *)
Definition domain_spec_enum {S} (spec : spec_t) (func : bytes -> Z -> S -> S) (closure : S) : S :=
  foldl (fun st d => func (name d) (permission d) st) closure spec.

(** ** Invariant and abstract specification *)

(** what the parser builds and the setters keep *)
Record wf_domain (d : domain_st) : Prop := {
  wf_permission : (0 < permission d < permission_count)%Z;
  wf_name : name d <> [];
  wf_cstr : cstr (name d)
}.

Record wf (spec : spec_t) : Prop := {
  wf_domains : Forall wf_domain spec;
  wf_nodup : NoDup (name <$> spec)
}.

(** names that the text form can carry *)
Definition printable (spec : spec_t) : Prop := Forall (fun d => ","%char ∉ name d) spec.

(** the permission of each domain *)
Definition abs (spec : spec_t) : gmap bytes Z := keyed name permission spec.

(** ** Lemmas *)

Lemma name_is_spec nm domain len :
  cstr nm -> cstr domain -> len <= length domain ->
  (name_is nm domain len = true <-> nm = take len domain).
Proof.
  intros Hn Hd Hl. unfold name_is. rewrite andb_true_iff, beq_true, bool_decide_eq_true.
  split.
  - intros [Ht Hz]. destruct (Nat.lt_trichotomy (length nm) len) as [H|[H|H]].
    + rewrite take_ge in Ht by (rewrite length_app; simpl; lia).
      exfalso. apply (cstr_take len domain Hd). rewrite <-Ht. set_solver.
    + rewrite <-Ht, <-H. by rewrite take_app_length.
    + rewrite lookup_app_l in Hz by done. exfalso. apply Hn.
      eauto using list_elem_of_lookup_2.
  - intros ->. assert (Hlen : length (take len domain) = len) by (rewrite length_take; lia).
    rewrite take_app_le, take_take, Nat.min_id by lia. split; [done|].
    rewrite lookup_app_r by lia. by rewrite Hlen, Nat.sub_diag.
Qed.

Lemma wf_names_cstr spec i d : wf spec -> spec !! i = Some d -> cstr (name d).
Proof. intros [H _] Hi. by apply (Forall_lookup_1 _ _ _ _ H Hi). Qed.

(** Looking a domain up in the list is looking it up in the map. *)
Lemma get_domain_len_abs spec domain len :
  wf spec -> cstr domain -> len <= length domain ->
  match get_domain_len spec domain len with
  | Some (i, d) => spec !! i = Some d /\ name d = take len domain /\
                   abs spec !! take len domain = Some (permission d)
  | None => (take len domain ∉ name <$> spec) /\ abs spec !! take len domain = None
  end.
Proof.
  intros Hwf Hd Hl. destruct (get_domain_len spec domain len) as [[i d]|] eqn:E.
  - apply list_find_Some in E as (Hi & Hn & _).
    apply name_is_spec in Hn; eauto using wf_names_cstr. split; [done|]. split; [done|].
    rewrite <-Hn. eapply keyed_lookup; [apply Hwf|done].
  - assert (H : take len domain ∉ name <$> spec).
    { intros Hin. apply list_elem_of_fmap in Hin as (d & Hd' & Hin).
      apply list_find_None in E. rewrite Forall_forall in E. apply (E d Hin).
      apply list_elem_of_lookup in Hin as [i Hi].
      apply name_is_spec; eauto using wf_names_cstr. }
    split; [done|]. by apply keyed_None.
Qed.

Lemma get_domain_abs spec domain :
  wf spec -> cstr domain ->
  match get_domain spec domain with
  | Some (i, d) => spec !! i = Some d /\ name d = domain /\ abs spec !! domain = Some (permission d)
  | None => (domain ∉ name <$> spec) /\ abs spec !! domain = None
  end.
Proof.
  intros Hwf Hd. pose proof (get_domain_len_abs spec domain (length domain) Hwf Hd) as H.
  rewrite firstn_all in H. by apply H.
Qed.

Lemma wf_cons d spec : wf_domain d -> wf spec -> name d ∉ name <$> spec -> wf (d :: spec).
Proof.
  intros Hd [H1 H2] Hn. split; [by constructor|]. rewrite fmap_cons. by constructor.
Qed.

Lemma wf_insert spec i d p :
  wf spec -> spec !! i = Some d -> (0 < p < permission_count)%Z ->
  wf (<[i := mk_domain p (name d)]> spec) /\
  abs (<[i := mk_domain p (name d)]> spec) = <[name d := p]> (abs spec).
Proof.
  intros [H1 H2] Hi Hp. pose proof (Forall_lookup_1 _ _ _ _ H1 Hi) as [_ Hn Hc].
  destruct (keyed_insert name permission spec i d (mk_domain p (name d))) as [Ha Hb]; [done..|].
  split; [|done]. split; [|done]. by apply Forall_insert.
Qed.

Lemma wf_delete spec i d :
  wf spec -> spec !! i = Some d ->
  wf (delete i spec) /\ abs (delete i spec) = delete (name d) (abs spec).
Proof.
  intros [H1 H2] Hi. destruct (keyed_delete name permission spec i d H2 Hi) as [Ha Hb].
  split; [|done]. split; [|done]. by apply Forall_delete.
Qed.

Lemma add_domain_len_cases spec perm domain len o rc spec' o' :
  wf spec -> (0 < perm < permission_count)%Z -> cstr domain -> take len domain <> [] ->
  take len domain ∉ name <$> spec ->
  add_domain_len spec perm domain len o = (rc, spec', o') ->
  wf spec' /\
  ((rc = (- ENOMEM)%Z /\ spec' = spec /\ false ∈ o) \/
   (rc = 0%Z /\ spec' = mk_domain perm (take len domain) :: spec)) /\
  (exists used, o = used ++ o').
Proof.
  intros Hwf Hp Hc Hne Hn. unfold add_domain_len.
  destruct (malloc o) as [[] o1] eqn:E; apply malloc_cases in E as (u & -> & Hu);
    intros [= <- <- <-].
  - split; [|split; [by right|eauto]]. apply wf_cons; [|done..]. split; simpl; auto with afm.
  - split; [done|]. split; [left; set_solver|eauto].
Qed.

(** ** The text form *)

Definition item (d : domain_st) : bytes := tag_of (permission d) :: name d.

Fixpoint join (l : spec_t) : bytes :=
  match l with
  | [] => []
  | d :: l' => item d ++ match l' with [] => [] | _ => ","%char :: join l' end
  end.

Lemma join_cons d l : l <> [] -> join (d :: l) = item d ++ ","%char :: join l.
Proof. by destruct l. Qed.

Lemma wf_is_printed d : wf_domain d -> is_printed d = true.
Proof. intros [[H1 H2] _ _]. unfold is_printed, permission_none, permission_count in *. lia. Qed.

Lemma string_text_join l str :
  Forall wf_domain l -> l <> [] ->
  string_text l str = str ++ (if bool_decide (str = []) then [] else [","%char]) ++ join l.
Proof.
  intros Hl. revert str. induction Hl as [|d l Hd Hl IH]; intros str Hne; [done|].
  simpl. rewrite (wf_is_printed d Hd). destruct l as [|d' l].
  - simpl. by rewrite app_nil_r.
  - rewrite IH by done.
    rewrite (bool_decide_eq_false_2 (_ ++ _ ++ _ :: _ = []))
      by by destruct str.
    rewrite <-!app_assoc. done.
Qed.

Lemma string_text_nil_join l : Forall wf_domain l -> string_text l [] = join l.
Proof. intros Hl. destruct l; [done|]. by rewrite string_text_join. Qed.

Lemma permission_of_tag_Some op pe :
  op <> NUL -> permission_of_tag op = Some pe ->
  tag_of pe = op /\ (0 < pe < permission_count)%Z.
Proof.
  intros Hop H. unfold permission_of_tag in H. apply fmap_Some in H as ([i t] & H & ->).
  apply list_find_Some in H as (Hi & <- & _). simpl. unfold tag_of, permission_count.
  rewrite Nat2Z.id. split; [by apply nth_lookup_Some|].
  do 4 (destruct i as [|i]; [try lia; by injection Hi as <-|]). done.
Qed.

Lemma permission_of_tag_of pe :
  (0 < pe < permission_count)%Z -> permission_of_tag (tag_of pe) = Some pe.
Proof.
  unfold permission_count. intros H.
  assert (pe = 1 \/ pe = 2 \/ pe = 3)%Z as [->|[->| ->]] by lia; reflexivity.
Qed.

Lemma not_comma_forall s : ","%char ∉ s -> Forall (fun c => not_comma c = true) s.
Proof.
  intros H. apply Forall_forall. intros c Hc. unfold not_comma.
  rewrite bool_decide_eq_false_2; [done|]. by intros ->.
Qed.

Lemma not_comma_take_while s : ","%char ∉ take_while not_comma s.
Proof.
  intros H. pose proof (Forall_take_while not_comma s) as HF.
  rewrite Forall_forall in HF. by specialize (HF _ H).
Qed.

Lemma drop_while_not_comma s :
  drop_while not_comma s = [] \/ exists k, drop_while not_comma s = ","%char :: k.
Proof.
  destruct (drop_while not_comma s) as [|c k] eqn:E; [by left|right].
  apply drop_while_head in E. unfold not_comma in E. bool_hyps. subst. eauto.
Qed.

(** What the parser accepts is the text of what it builds, up to a final
    comma, and what it builds is well formed. *)
Lemma parse_loop_sound fuel s spec o :
  length s <= fuel -> wf spec -> printable spec -> cstr s ->
  exists rc spec' o', parse_loop fuel s spec o = Some (rc, spec', o') /\
    wf spec' /\ printable spec' /\ ((rc = - ENOMEM)%Z -> false ∈ o) /\
    (rc = 0%Z -> exists items, spec' = rev items ++ spec /\
       (s = join items \/ (items <> [] /\ s = join items ++ [","%char]))).
Proof.
  revert s spec o. induction fuel as [|fuel IH]; intros s spec o Hl Hwf Hpr Hc.
  { destruct s; [|simpl in Hl; lia]. exists 0%Z, spec, o. split_and!; [done..|].
    exists []. auto. }
  destruct s as [|op s1].
  { exists 0%Z, spec, o. split_and!; [done..|]. exists []. auto. }
  simpl. apply cstr_cons in Hc as [Hop Hc1].
  destruct (permission_of_tag op) as [pe|] eqn:Et; [|eexists _, _, _; by split_and!].
  apply permission_of_tag_Some in Et as [Htag Hpe]; [|done].
  set (nm := take_while not_comma s1). case_bool_decide as Hlen; [eexists _, _, _; by split_and!|].
  assert (Hle : length nm <= length s1)
    by (pose proof (length_take_drop_while not_comma s1); subst nm; lia).
  pose proof (get_domain_len_abs spec s1 (length nm) Hwf Hc1 Hle) as Hg.
  destruct (get_domain_len spec s1 (length nm)) as [[i d]|]; [eexists _, _, _; by split_and!|].
  destruct Hg as [Hfresh _].
  assert (Hnm : take (length nm) s1 = nm) by apply take_length_take_while.
  destruct (add_domain_len spec pe s1 (length nm) o) as [[rc1 spec1] o1] eqn:Ea.
  destruct (add_domain_len_cases _ _ _ _ _ _ _ _ Hwf Hpe Hc1
    ltac:(rewrite Hnm; by destruct nm) Hfresh Ea) as (Hwf1 & [(-> & -> & Ho)|(-> & ->)] & u & ->).
  { eexists _, _, _. by split_and!. }
  rewrite bool_decide_eq_false_2 by (by intros []). rewrite Hnm in *.
  assert (Hdrop : drop (length nm) s1 = drop_while not_comma s1) by apply drop_length_take_while.
  rewrite Hdrop.
  pose proof (length_drop_while not_comma s1) as Hd1.
  destruct (IH (tail (drop_while not_comma s1)) (mk_domain pe nm :: spec) o1)
    as (rc & spec' & o' & Hrun & Hwf' & Hpr' & Hnomem & Hok).
  - destruct (drop_while not_comma s1); simpl in *; lia.
  - done.
  - constructor; [apply not_comma_take_while|done].
  - destruct (drop_while not_comma s1) eqn:E; simpl; [by apply not_elem_of_nil|].
    apply (cstr_drop_while not_comma) in Hc1. rewrite E in Hc1. by apply cstr_cons in Hc1 as [_ ?].
  - exists rc, spec', o'. split_and!; [done..|set_solver|].
    intros Hrc. destruct (Hok Hrc) as (items & -> & Hs). exists (mk_domain pe nm :: items).
    split; [simpl; by rewrite <-app_assoc|].
    assert (Hs1 : op :: s1 = item (mk_domain pe nm) ++ drop_while not_comma s1)
      by (unfold item; simpl; subst nm; rewrite take_drop_while; by rewrite Htag).
    rewrite Hs1. destruct (drop_while_not_comma s1) as [E|[k E]]; rewrite E in *; simpl in Hs.
    + left. destruct Hs as [Hs|[Hi Hs]]; [|by destruct (join items)].
      destruct items; [done|discriminate Hs].
    + destruct items as [|d' items'].
      * destruct Hs as [->|[? _]]; [|done]. right. simpl. rewrite app_nil_r. done.
      * rewrite join_cons by done. destruct Hs as [->|[_ ->]]; [by left|right].
        split; [done|]. rewrite <-app_assoc. done.
Qed.

(** The parser reads the text of a well-formed specification. *)
Lemma parse_loop_join fuel items spec :
  wf (rev items ++ spec) -> printable items -> length (join items) <= fuel ->
  parse_loop fuel (join items) spec [] = Some (0%Z, rev items ++ spec, []).
Proof.
  revert spec fuel. induction items as [|d items IH]; intros spec fuel Hwf Hpr Hl.
  { by destruct fuel. }
  simpl in Hwf. rewrite <-app_assoc in Hwf. simpl in Hwf.
  apply Forall_cons in Hpr as [Hd Hpr].
  assert (Hd' : wf_domain d /\ wf spec /\ name d ∉ name <$> spec).
  { destruct Hwf as [H1 H2]. apply Forall_app in H1 as [_ H1]. apply Forall_cons in H1 as [H1 H3].
    rewrite fmap_app, fmap_cons in H2. apply NoDup_app in H2 as (_ & _ & H2).
    apply NoDup_cons in H2 as [H2 H4]. split_and!; done. }
  destruct Hd' as ([Hp Hne Hcs] & Hwfs & Hfresh).
  set (rest := match items with [] => [] | _ => ","%char :: join items end).
  assert (Hj : join (d :: items) = item d ++ rest) by done. rewrite Hj in *.
  assert (Hrest : take_while not_comma rest = [] /\ drop_while not_comma rest = rest)
    by (unfold rest; by destruct items).
  destruct Hrest as [Hr1 Hr2].
  destruct fuel as [|fuel]; [simpl in Hl; lia|]. simpl.
  rewrite permission_of_tag_of by done.
  rewrite take_while_all, Hr1, app_nil_r by by apply not_comma_forall.
  rewrite bool_decide_eq_false_2 by by destruct (name d).
  assert (Hfind : get_domain_len spec (name d ++ rest) (length (name d)) = None).
  { apply list_find_None, Forall_forall. intros x Hx Hn.
    apply Hfresh, list_elem_of_fmap. exists x. split; [|done].
    assert (Hnx : name_is (name x) (name d) (length (name d)) = true).
    { unfold name_is in *. rewrite take_app_length in Hn. by rewrite firstn_all. }
    apply name_is_spec in Hnx; [by rewrite firstn_all in Hnx| |done..].
    apply list_elem_of_lookup in Hx as [i Hi]. by eapply wf_names_cstr. }
  rewrite Hfind. unfold add_domain_len. simpl. rewrite take_app_length, drop_app_length.
  rewrite <-app_assoc. simpl.
  replace (mk_domain (permission d) (name d)) with d by by destruct d.
  unfold item in Hl. simpl in Hl. rewrite length_app in Hl.
  replace (tail rest) with (join items) by (unfold rest; by destruct items).
  apply IH; [done..|]. unfold rest in Hl. destruct items; simpl in *; lia.
Qed.

(** What [is_domain_spec_able_to_sign] decides: every domain of the target
    is known of the authority with a greater permission, or as root. *)
Definition can_sign (auth target : gmap bytes Z) : Prop :=
  forall dom p, target !! dom = Some p ->
  exists q, auth !! dom = Some q /\ (p < q \/ q = permission_root)%Z.

Lemma able_to_sign_Forall auth target :
  is_domain_spec_able_to_sign auth target = true <->
  Forall (fun d => able_for auth d = true) target.
Proof.
  induction target as [|d target IH]; simpl; [by split|].
  rewrite Forall_cons. destruct (able_for auth d); naive_solver.
Qed.

Lemma able_for_spec auth d :
  wf auth -> cstr (name d) ->
  able_for auth d = true <->
  exists q, abs auth !! name d = Some q /\ (permission d < q \/ q = permission_root)%Z.
Proof.
  intros Hwf Hc. unfold able_for. pose proof (get_domain_abs auth (name d) Hwf Hc) as H.
  destruct (get_domain auth (name d)) as [[i a]|].
  - destruct H as (_ & _ & ->). rewrite orb_true_iff, Z.ltb_lt, Z.eqb_eq. naive_solver.
  - destruct H as (_ & ->). naive_solver.
Qed.

Lemma able_to_sign_spec auth target :
  wf auth -> wf target ->
  is_domain_spec_able_to_sign auth target = true <-> can_sign (abs auth) (abs target).
Proof.
  intros Ha Ht. rewrite able_to_sign_Forall, Forall_forall. unfold can_sign. split.
  - intros H dom p Hp. apply keyed_Some in Hp as (d & Hin & <- & <-); [|apply Ht].
    apply able_for_spec; [done| |by apply H].
    apply list_elem_of_lookup in Hin as [i Hi]. by eapply wf_names_cstr.
  - intros H d Hin. apply list_elem_of_lookup in Hin as [i Hi].
    apply able_for_spec; [done|by eapply wf_names_cstr|].
    apply H. eapply keyed_lookup; [apply Ht|done].
Qed.

(** the map after [domain_spec_add_grantings] *)
Definition grantings (from : spec_t) (m : gmap bytes Z) : gmap bytes Z :=
  foldl (fun m d => if (permission d =? permission_grants)%Z
                    then <[name d := permission_grants]> m else m) m from.

(** Granting capabilities are added one by one; a domain of [to] that had
    a greater permission is brought back to granting. *)
Lemma add_grantings_spec to from o rc to' o' :
  wf to -> wf from -> domain_spec_add_grantings to from o = (rc, to', o') ->
  wf to' /\ ((rc = (- ENOMEM)%Z /\ false ∈ o) \/ (rc = 0%Z /\ abs to' = grantings from (abs to))).
Proof.
  intros Hto [Hfrom _]. revert to o Hto. induction Hfrom as [|d from Hd Hfrom IH];
    intros to o Hto; cbn [domain_spec_add_grantings grantings foldl].
  { intros [= <- <- <-]. auto. }
  destruct (permission d =? permission_grants)%Z; [|by apply IH].
  assert (Hg : (0 < permission_grants < permission_count)%Z)
    by (unfold permission_grants, permission_count; lia).
  pose proof (get_domain_abs to (name d) Hto (wf_cstr _ Hd)) as H.
  destruct (get_domain to (name d)) as [[i t]|].
  - destruct H as (Hi & Hn & _). destruct (wf_insert to i t _ Hto Hi Hg) as [Hw Ha].
    intros Hrun. apply IH in Hrun; [|done]. by rewrite Ha, Hn in Hrun.
  - destruct H as [Hfr _]. unfold add_domain.
    destruct (add_domain_len _ _ _ _ _) as [[rc1 to1] o1] eqn:Ea.
    apply add_domain_len_cases in Ea as (H1 & Hc & u & ->);
      rewrite ?firstn_all in *; try done; [|apply Hd..].
    destruct Hc as [(-> & -> & Ho)|(-> & ->)]; simpl.
    + intros [= <- <- <-]. auto.
    + intros Hrun. apply IH in Hrun; [|done]. unfold abs in Hrun at 2.
      rewrite keyed_cons in Hrun. destruct Hrun as [Hw [[Hr Hf]|Hr]]; (split; [done|]);
        [left|by right]. set_solver.
Qed.

Lemma granting_spec spec domain :
  wf spec -> cstr domain ->
  (is_domain_spec_granting spec domain = true <-> abs spec !! domain = Some permission_grants).
Proof.
  intros Hwf Hc. unfold is_domain_spec_granting.
  pose proof (get_domain_abs spec domain Hwf Hc) as H.
  destruct (get_domain spec domain) as [[i d]|]; [destruct H as (_ & _ & ->)|destruct H as (_ & ->)];
    [rewrite Z.eqb_eq|]; split; congruence.
Qed.

(** ** Properties *)

(** Printing a well-formed specification whose names hold no comma and
    parsing the text gives the same domains in reverse order. *)
Theorem print_parse_roundtrip spec :
  wf spec -> printable spec ->
  get_domain_spec_of_string (string_text spec []) [] [] = Some (0%Z, rev spec, []).
Proof.
  intros Hwf Hpr. rewrite string_text_nil_join by apply Hwf.
  unfold get_domain_spec_of_string. simpl.
  rewrite parse_loop_join; [by rewrite app_nil_r| |done|done].
  rewrite app_nil_r. destruct Hwf as [H1 H2]. split; [by apply Forall_rev|].
  by rewrite <-(Permutation_rev spec).
Qed.

(** Parsing any string into an empty specification terminates.  On
    success the specification is well formed and its text, its domains
    taken in the order they were read, is the string itself, up to one
    comma at its end; on error the specification is left empty. *)
Theorem parse_sound str o :
  cstr str ->
  exists rc spec o', get_domain_spec_of_string str [] o = Some (rc, spec, o') /\
    wf spec /\ printable spec /\ (rc <> 0%Z -> spec = []) /\
    (rc = 0%Z -> string_text (rev spec) [] = str \/ string_text (rev spec) [] ++ [","%char] = str).
Proof.
  intros Hc. unfold get_domain_spec_of_string. simpl.
  destruct (parse_loop_sound (length str) str [] o) as (rc & spec & o' & -> & Hwf & Hpr & _ & Hok);
    [done|by split; constructor|constructor|done|].
  simpl. case_bool_decide as Hrc.
  - exists rc, [], o'. split; [done|]. split_and!; [by split; constructor|constructor|done|done].
  - exists rc, spec, o'. split; [done|]. split_and!; [done|done|done|].
    intros ->. destruct (Hok eq_refl) as (items & -> & Hs). rewrite app_nil_r in *.
    rewrite rev_involutive. destruct Hwf as [H1 _]. apply Forall_rev in H1.
    rewrite rev_involutive in H1. rewrite string_text_nil_join by done. naive_solver.
Qed.

Lemma parse_loop_rc fuel s spec o rc spec' o' :
  parse_loop fuel s spec o = Some (rc, spec', o') -> (rc <= 0)%Z.
Proof.
  revert s spec o. induction fuel as [|fuel IH]; intros [|c s] spec o; simpl; try done;
    try (intros [= <- _ _]; lia).
  unfold ENOKEY, ENODATA, EEXIST. destruct (permission_of_tag c); [|intros [= <- _ _]; lia].
  case_bool_decide; [intros [= <- _ _]; lia|].
  destruct (get_domain_len _ _ _); [intros [= <- _ _]; lia|].
  unfold add_domain_len. destruct (malloc o) as [[] o1]; simpl; [apply IH|].
  intros [= <- _ _]. unfold ENOMEM. lia.
Qed.

(** the specification read is well formed in any case *)
Lemma parse_wf str o rc spec o' :
  cstr str -> get_domain_spec_of_string str [] o = Some (rc, spec, o') -> wf spec /\ (rc <= 0)%Z.
Proof.
  intros Hc. unfold get_domain_spec_of_string. simpl.
  destruct (parse_loop_sound (length str) str [] o) as (rc1 & spec1 & o1 & E & Hwf & _);
    [done|by split; constructor|constructor|done|].
  rewrite E. simpl. intros [= <- <- <-]. apply parse_loop_rc in E.
  split; [|done]. case_bool_decide; [by split; constructor|done].
Qed.

(** the cases of [domain_spec_set], on the abstract specification *)
Lemma domain_spec_set_cases spec perm domain o rc spec' o' :
  wf spec -> cstr domain -> domain <> [] ->
  domain_spec_set spec perm domain o = (rc, spec', o') ->
  wf spec' /\
  ((rc = (- EINVAL)%Z /\ spec' = spec /\ is_domain_permission_valid perm = false) \/
   (rc = (- ENOMEM)%Z /\ spec' = spec /\ false ∈ o) \/
   (rc = 0%Z /\ is_domain_permission_valid perm = true /\
    abs spec' = if (perm =? permission_none)%Z then delete domain (abs spec)
                else <[domain := perm]> (abs spec))).
Proof.
  intros Hwf Hc Hne. unfold domain_spec_set, domain_spec_set_len.
  destruct (is_domain_permission_valid perm) eqn:Hv; simpl;
    [|intros [= <- <- <-]; split; [done|]; by left].
  assert (Hp : (0 <= perm < permission_count)%Z) by (unfold is_domain_permission_valid in Hv; lia).
  pose proof (get_domain_abs spec domain Hwf Hc) as Hg. unfold get_domain in Hg.
  destruct (get_domain_len spec domain (length domain)) as [[i d]|] eqn:E.
  - destruct Hg as (Hi & <- & Ha). destruct (Z.eqb_spec perm permission_none) as [->|Hn];
      intros [= <- <- <-].
    + destruct (wf_delete spec i d Hwf Hi) as [H1 H2]. split; [done|]. right; right. done.
    + unfold permission_none in Hn.
      destruct (wf_insert spec i d perm Hwf Hi) as [H1 H2]; [lia|].
      split; [done|]. right; right. done.
  - destruct Hg as [Hfr Ha]. destruct (Z.eqb_spec perm permission_none) as [->|Hn].
    + intros [= <- <- <-]. split; [done|]. right; right. split_and!; [done..|].
      by rewrite delete_id.
    + unfold permission_none in Hn. intros Hadd.
      apply add_domain_len_cases in Hadd as (H1 & [(-> & -> & ?)|(-> & ->)] & _);
        rewrite ?firstn_all in *; auto; [split; [done|]; right; by left| |lia].
      split; [done|]. right; right. split_and!; [done..|]. unfold abs. by rewrite keyed_cons.
Qed.

(** [domain_spec_set] refines the update of a finite map: an invalid
    permission is refused with [-EINVAL], memory depletion is [-ENOMEM],
    and both change nothing; the permission none removes the domain and any
    other one becomes its permission, no other domain changing. *)
Theorem set_refines spec perm domain o rc spec' o' :
  wf spec -> cstr domain -> domain <> [] ->
  domain_spec_set spec perm domain o = (rc, spec', o') ->
  wf spec' /\
  ((rc = (- EINVAL)%Z /\ spec' = spec /\ is_domain_permission_valid perm = false) \/
   (rc = (- ENOMEM)%Z /\ spec' = spec /\ false ∈ o) \/
   (rc = 0%Z /\ is_domain_permission_valid perm = true /\
    abs spec' = if (perm =? permission_none)%Z then delete domain (abs spec)
                else <[domain := perm]> (abs spec))).
Proof. apply domain_spec_set_cases. Qed.

Lemma able_trans a b c :
  wf a -> wf b -> wf c ->
  is_domain_spec_able_to_sign a b = true -> is_domain_spec_able_to_sign b c = true ->
  is_domain_spec_able_to_sign a c = true.
Proof.
  intros Ha Hb Hc. rewrite !able_to_sign_spec by done. unfold can_sign, permission_root.
  intros H1 H2 dom p Hp. destruct (H2 dom p Hp) as (q & Hq & Hpq).
  destruct (H1 dom q Hq) as (r & Hr & Hqr). exists r. split; [done|].
  assert (r < permission_count)%Z; [|unfold permission_count in *; lia].
  apply keyed_Some in Hr as (d & Hin & _ & <-); [|apply Ha].
  destruct Ha as [Ha _]. rewrite Forall_forall in Ha. by apply (Ha d Hin).
Qed.

(** C29: [is_domain_spec_able_to_sign] is transitive: an authority that may
    sign an intermediate specification may sign whatever the intermediate
    one may sign, so no chain of signatures raises a permission. *)
Theorem able_to_sign_trans a b c :
  wf a -> wf b -> wf c ->
  is_domain_spec_able_to_sign a b = true -> is_domain_spec_able_to_sign b c = true ->
  is_domain_spec_able_to_sign a c = true.
Proof.
  apply able_trans.
Qed.

(** The text printed for a specification that has something to print,
    with its final NUL, exactly fills the block allocated for it, while for
    an empty one nothing is allocated although the NUL is written. *)
Theorem string_fits spec :
  Forall wf_domain spec ->
  (spec <> [] -> length (string_text spec []) + 1 = string_size spec) /\
  (spec = [] -> string_size spec = 0 /\ length (string_text spec []) + 1 = 1).
Proof.
  intros Hwf. split; [|by intros ->]. intros Hne. rewrite string_text_nil_join by done.
  induction Hwf as [|d l Hd Hl IH]; [done|]. simpl. rewrite wf_is_printed by done.
  destruct l as [|d' l]; [unfold item; simpl; rewrite app_nil_r; lia|].
  specialize (IH ltac:(done)). unfold item. simpl in *.
  rewrite !length_app in *. simpl in *. rewrite !length_app in *. simpl in *. lia.
Qed.

(** [domain_spec_set_len] ignores its length when it adds a domain:
    setting the first character of [ab] records the name [ab]. *)
Theorem set_len_ignores_length :
  domain_spec_set_len [] permission_grants (B "ab") 1 [] =
    (0%Z, [mk_domain permission_grants (B "ab")], []) /\
  get_domain_len [mk_domain permission_grants (B "ab")] (B "ab") 1 = None.
Proof. split; vm_compute; reflexivity. Qed.

(** ** Witnesses *)

Definition sample : spec_t :=
  [mk_domain permission_root (B "sys"); mk_domain permission_auth (B "app")].
Definition sample_low : spec_t :=
  [mk_domain permission_grants (B "app"); mk_domain permission_auth (B "sys")].
Definition sample_leaf : spec_t := [mk_domain permission_grants (B "sys")].

Ltac solve_wf :=
  split; [repeat constructor; simpl; try done; apply (bool_decide_unpack _); vm_compute; exact I
         |apply (bool_decide_unpack _); vm_compute; exact I].

Lemma sample_spec_wf : wf sample.
Proof. solve_wf. Defined.
Lemma sample_low_wf : wf sample_low.
Proof. solve_wf. Defined.
Lemma sample_leaf_wf : wf sample_leaf.
Proof. solve_wf. Defined.

Lemma print_parse_roundtrip_witness :
  wf sample /\ get_domain_spec_of_string (B "@sys,#app") [] [] = Some (0%Z, rev sample, []).
Proof.
  split; [exact sample_spec_wf|]. apply (print_parse_roundtrip sample sample_spec_wf).
  repeat constructor; apply (bool_decide_unpack _); vm_compute; exact I.
Defined.

Lemma parse_sound_witness :
  exists rc spec o', get_domain_spec_of_string (B "@sys,#app,") [] [] = Some (rc, spec, o') /\ wf spec.
Proof.
  destruct (parse_sound (B "@sys,#app,") []) as (rc & spec & o' & H1 & H2 & _).
  - apply (bool_decide_unpack _); vm_compute; exact I.
  - exists rc, spec, o'. split; assumption.
Defined.

Lemma set_refines_witness :
  wf sample /\ wf (mk_domain permission_grants (B "x") :: sample).
Proof.
  split; [exact sample_spec_wf|].
  refine (proj1 (set_refines sample permission_grants (B "x") [] 0%Z _ [] sample_spec_wf _ _ _)).
  - apply (bool_decide_unpack _); vm_compute; exact I.
  - done.
  - vm_compute. reflexivity.
Defined.

Lemma able_to_sign_trans_witness :
  is_domain_spec_able_to_sign sample sample_leaf = true.
Proof.
  assert (H : is_domain_spec_able_to_sign sample sample_low = true) by (vm_compute; reflexivity).
  apply (able_to_sign_trans sample sample_low sample_leaf
    sample_spec_wf sample_low_wf sample_leaf_wf H). vm_compute. reflexivity.
Defined.

Lemma string_fits_witness : length (string_text sample []) + 1 = string_size sample.
Proof.
  apply (string_fits sample (wf_domains _ sample_spec_wf)). done.
Defined.

End domain_spec.
