(* ===== verification/PathEntry.v ===== *)
(** * The tree of the files of a package: [src/src/utils/path-entry.c]

    A [path_entry_t] is a node of a tree: the name of one component of a
    path, two flags, attached variables and the list of its children
    (linked by [sibling]).  A pointer to a node of the tree is modelled by
    its handle, the names on the way from the top of the tree to it: the
    names of siblings are distinct ([wf]), so a handle designates one node
    and equality of pointers is equality of handles. The field [parent] is
    the handle without its last name, and the field [length] is the length
    of the name. *)
From S2P Require Import Prelude CString.

Module path_entry.

(** ** Data *)

Definition FLAGS_IS_ADDED : Z := 1.
Definition FLAGS_HAS_SLASH : Z := 2.

(** variables: keys, values and disposal functions are addresses *)
Record var_t := mk_var { var_key : Z; var_value : Z; var_dispose : Z }.
Definition NULL : Z := 0.

Inductive path_entry :=
  Entry (name : bytes) (flags : Z) (vars : list var_t) (children : list path_entry).

Abbreviation handle := (list bytes).

Definition name (e : path_entry) : bytes := let 'Entry n _ _ _ := e in n.
Definition flags (e : path_entry) : Z := let 'Entry _ f _ _ := e in f.
Definition vars (e : path_entry) : list var_t := let 'Entry _ _ v _ := e in v.
Definition children (e : path_entry) : list path_entry := let 'Entry _ _ _ c := e in c.

Definition with_flags (e : path_entry) (f : Z) : path_entry :=
  Entry (name e) f (vars e) (children e).
Definition with_vars (e : path_entry) (v : list var_t) : path_entry :=
  Entry (name e) (flags e) v (children e).
Definition with_children (e : path_entry) (c : list path_entry) : path_entry :=
  Entry (name e) (flags e) (vars e) c.

(** ** Following handles *)

Fixpoint find_child (n : bytes) (l : list path_entry) : option path_entry :=
  match l with
  | [] => None
  | c :: l' => if beq (name c) n then Some c else find_child n l'
  end.

(** the node of handle [h] in the tree [e] *)
Fixpoint sub (h : handle) (e : path_entry) : option path_entry :=
  match h with
  | [] => Some e
  | n :: h' => match find_child n (children e) with
               | Some c => sub h' c
               | None => None
               end
  end.

(** the list with its child of name [n] changed by [f] *)
Fixpoint alter_child (f : path_entry -> path_entry) (n : bytes) (l : list path_entry)
  : list path_entry :=
  match l with
  | [] => []
  | c :: l' => if beq (name c) n then f c :: l' else c :: alter_child f n l'
  end.

(** the tree with its node of handle [h] changed by [f] *)
Fixpoint alter_at (f : path_entry -> path_entry) (h : handle) (e : path_entry) : path_entry :=
  match h with
  | [] => f e
  | n :: h' => with_children e (alter_child (alter_at f h') n (children e))
  end.

(** ** Searching and creating children

    [nm] is the string at the pointer [name], of which only the first
    [length] characters are the name. *)

Definition search_child (parent : path_entry) (nm : bytes) (length : nat) : option bytes :=
  name <$> find_child (take length nm) (children parent).

(** the insertion loop of [make_child]: [strcmp] reads both strings up to
    their NUL *)
Fixpoint insert_child (nm : bytes) (entry : path_entry) (l : list path_entry) : list path_entry :=
  match l with
  | [] => [entry]
  | c :: l' => if strcmp_lt (cstring (name c)) (cstring nm) then c :: insert_child nm entry l' else entry :: l
  end.

Definition make_child (parent : path_entry) (nm : bytes) (length : nat) (flgs : Z) (o : oracle)
  : option bytes * path_entry * oracle :=
  let '(ok, o') := malloc o in
  if ok then
    (Some (take length nm),
     with_children parent
       (insert_child nm (Entry (take length nm) flgs [] []) (children parent)), o')
  else (None, parent, o').

Definition get_child (parent : path_entry) (nm : bytes) (length : nat) (flgs : Z) (o : oracle)
  : option bytes * path_entry * oracle :=
  match search_child parent nm length with
  | Some c => (Some c, parent, o)
  | None => make_child parent nm length flgs o
  end.

(** [search_child] as an argument of [process] *)
Definition lookup_child (parent : path_entry) (nm : bytes) (length : nat) (flgs : Z) (o : oracle)
  : option bytes * path_entry * oracle := (search_child parent nm length, parent, o).

Definition is_slash (c : ascii) : bool := bool_decide (c = SLASH).
Definition not_slash (c : ascii) : bool := negb (is_slash c).

(** The loop of [process]: [s] is the path from [beg] to [length] and
    [after] what follows it up to the NUL. *)
Fixpoint process_loop (fuel : nat)
  (get : path_entry -> bytes -> nat -> Z -> oracle -> option bytes * path_entry * oracle)
  (entry : path_entry) (s after : bytes) (flgs : Z) (o : oracle)
  : option handle * path_entry * oracle :=
  match s with
  | [] => (Some [], entry, o)
  | _ :: _ =>
      match fuel with
      | O => (None, entry, o)
      | S fuel' =>
          let n := length (take_while not_slash s) in
          let '(r, entry1, o1) := get entry (s ++ after) n flgs o in
          match r with
          | None => (None, entry1, o1)
          | Some c =>
              match find_child c (children entry1) with
              | None => (None, entry1, o1)
              | Some child =>
                  let '(h, child', o2) :=
                    process_loop fuel' get child (drop_while is_slash (drop n s)) after
                      FLAGS_HAS_SLASH o1 in
                  (cons c <$> h,
                   with_children entry1 (alter_child (fun _ => child') c (children entry1)), o2)
              end
          end
      end
  end.

Definition process
  (get : path_entry -> bytes -> nat -> Z -> oracle -> option bytes * path_entry * oracle)
  (root : path_entry) (path : bytes) (len : Z) (o : oracle)
  : option handle * path_entry * oracle :=
  let n := Z.to_nat (u32 len) in
  let s := take n path in
  process_loop (length s) get root (drop_while is_slash s) (drop n path)
    (if bool_decide (take_while is_slash s = []) then 0%Z else FLAGS_HAS_SLASH) o.

(** ** Public operations *)

Definition path_entry_is_root (h : handle) : bool := bool_decide (h = []).

Definition path_entry_create_root (o : oracle) : Z * option path_entry * oracle :=
  let '(ok, o') := malloc o in
  if ok then (0%Z, Some (Entry [] 0 [] []), o') else ((- ENOMEM)%Z, None, o').

(** removal of a child from the list of its siblings *)
Fixpoint unlink_child (n : bytes) (l : list path_entry) : list path_entry :=
  match l with
  | [] => []
  | c :: l' => if beq (name c) n then l' else c :: unlink_child n l'
  end.

(** the tree that remains, if any *)
Definition path_entry_destroy (root : path_entry) (entry : handle) : option path_entry :=
  match last entry with
  | None => None
  | Some n => Some (alter_at (fun p => with_children p (unlink_child n (children p)))
                      (removelast entry) root)
  end.

(** operations at the top of the tree; the handle of the result is relative
    to [root] *)
Definition path_entry_add_length (root : path_entry) (path : bytes) (len : Z) (o : oracle)
  : Z * option handle * path_entry * oracle :=
  let '(h, root', o') := process get_child root path len o in
  match h with
  | None => ((- ENOMEM)%Z, None, root', o')
  | Some h => (0%Z, Some h,
               alter_at (fun e => with_flags e (Z.lor (flags e) FLAGS_IS_ADDED)) h root', o')
  end.

Definition path_entry_add (root : path_entry) (path : bytes) (o : oracle) :=
  path_entry_add_length root path (Z.of_nat (length path)) o.

Definition path_entry_get_length (root : path_entry) (path : bytes) (len : Z) : Z * option handle :=
  let '(h, _, _) := process lookup_child root path len [] in
  match h with
  | None => ((- ENOENT)%Z, None)
  | Some h => (0%Z, Some h)
  end.

Definition path_entry_get (root : path_entry) (path : bytes) : Z * option handle :=
  path_entry_get_length root path (Z.of_nat (length path)).

(** [isroot] tells whether the entry has no parent *)
Definition path_entry_root_prepend_length (isroot : bool) (root : path_entry) (path : bytes)
  (len : Z) (o : oracle) : Z * option handle * path_entry * oracle :=
  if negb isroot then ((- EINVAL)%Z, None, root, o)
  else
    let childs := children root in
    let '(tail, root', o') := process get_child (with_children root []) path len o in
    match tail with
    | None => ((- ENOMEM)%Z, None, with_children root' childs, o')
    | Some h => (0%Z, Some h, alter_at (fun e => with_children e childs) h root', o')
    end.

Definition path_entry_root_prepend (isroot : bool) (root : path_entry) (path : bytes) (o : oracle) :=
  path_entry_root_prepend_length isroot root path (Z.of_nat (length path)) o.

Definition path_entry_was_added (e : path_entry) : bool := has_flag (flags e) FLAGS_IS_ADDED.
Definition has_slash (e : path_entry) : bool := has_flag (flags e) FLAGS_HAS_SLASH.
Definition path_entry_name (e : path_entry) : bytes := name e.
Definition path_entry_length (e : path_entry) : nat := length (name e).
Definition path_entry_parent (h : handle) : option handle :=
  match h with [] => None | _ => Some (removelast h) end.
Definition path_entry_has_child (e : path_entry) : bool := negb (bool_decide (length (children e) = 0)).

(** ** Path of an entry *)

Definition PATH_ENTRY_NO_LEADING_SLASH : Z := 1.
Definition PATH_ENTRY_FORCE_LEADING_SLASH : Z := 2.
Definition PATH_ENTRY_FORALL_ONLY_ADDED : Z := 4.
Definition PATH_ENTRY_FORALL_NO_PATH : Z := 8.
Definition PATH_ENTRY_FORALL_BEFORE : Z := 16.
Definition PATH_ENTRY_FORALL_AFTER : Z := 32.
Definition PATH_ENTRY_FORALL_ABSOLUTE : Z := 64.
Definition PATH_ENTRY_FORALL_SILENT_ROOT : Z := 128.

(** In this part the handles are reversed, the name of the entry coming
    first, so that the parent is the tail; [top] is the whole tree. *)
Section Relpath.
Context (top : path_entry) (root : option handle) (flgs : Z).

Definition name_at (rh : handle) : bytes :=
  match sub (rev rh) top with Some e => name e | None => [] end.

Definition has_slash_at (rh : handle) : bool :=
  match sub (rev rh) top with Some e => has_slash e | None => false end.

Definition forced : bool := has_flag flgs PATH_ENTRY_FORCE_LEADING_SLASH.

(** the loop that skips the ancestors without name; [None] is NULL *)
Fixpoint skip_parents (rp : handle) : option handle :=
  if bool_decide (root = Some rp) then Some rp
  else if bool_decide (name_at rp = []) then
    match rp with
    | [] => None
    | _ :: rp' => skip_parents rp'
    end
  else Some rp.

(** is the entry of parent [rp] the first one of the path? *)
Definition at_start (rp : handle) : bool :=
  match skip_parents rp with
  | None => true
  | Some q => bool_decide (root = Some q) || bool_decide (name_at q = [])
  end.

(** write the name of the entry, after a slash on need, at the offset *)
Definition put_name (rh : handle) (slash : bool) (offset : nat) (buffer : bytes) (length : nat)
  : nat * bytes :=
  let nm := name_at rh in
  let result := offset + List.length nm in
  let '(result, offset, buffer) :=
    if slash then
      if bool_decide (offset < length)
      then (S result, S offset, <[offset := SLASH]> buffer)
      else (S result, offset, buffer)
    else (result, offset, buffer) in
  let buffer :=
    if bool_decide (offset < length) then
      if bool_decide (result < length)
      then list_inserts offset (nm ++ [NUL]) buffer
      else list_inserts offset (take (length - offset) nm) buffer
    else buffer in
  (result, buffer).

(** [path_entry_relpath]: the length of the path and the buffer; [None]
    when the code dereferences a null pointer *)
Fixpoint path_entry_relpath (rh : handle) (buffer : bytes) (length : nat) : option (nat * bytes) :=
  if bool_decide (root = Some rh) then
    if negb forced then Some (0, buffer)
    else Some (1, if bool_decide (name_at rh = []) then buffer else <[0 := SLASH]> buffer)
  else if bool_decide (name_at rh = []) then
    match rh with
    | [] => if negb forced then Some (0, buffer) else None
    | _ :: rp => path_entry_relpath rp buffer length
    end
  else
    let start_slash :=
      forced || (negb (has_flag flgs PATH_ENTRY_NO_LEADING_SLASH) && has_slash_at rh) in
    match rh with
    | [] => Some (put_name rh start_slash 0 buffer length)
    | _ :: rp =>
        if at_start rp then Some (put_name rh start_slash 0 buffer length)
        else match path_entry_relpath rp buffer length with
             | None => None
             | Some (offset, buffer') => Some (put_name rh true offset buffer' length)
             end
    end.

End Relpath.

Definition path_entry_path (top : path_entry) (rh : handle) (buffer : bytes) (length : nat) (flgs : Z) :=
  path_entry_relpath top None flgs rh buffer length.

Definition path_entry_get_relpath (top : path_entry) (rh : handle) (buffer : bytes) (length : nat)
  (root : option handle) := path_entry_relpath top root 0 rh buffer length.

Definition path_entry_get_path (top : path_entry) (rh : handle) (buffer : bytes) (length : nat) :=
  path_entry_relpath top None 0 rh buffer length.

(** ** Iteration

    The callback receives the handle of the entry (relative to the root of
    the iteration) and its path, and threads its closure; iteration stops
    on a status that is not zero.  Of the buffer only the characters before
    [fe->length] are ever read back, so the path built so far stands for
    both. *)
Section Foreach.
Context {S : Type} (fun_ : S -> handle -> bytes -> S * Z) (flgs : Z) (size : nat).

Definition no_path : bool := has_flag flgs PATH_ENTRY_FORALL_NO_PATH.
Definition only_added : bool := has_flag flgs PATH_ENTRY_FORALL_ONLY_ADDED.
Definition before : bool := has_flag flgs PATH_ENTRY_FORALL_BEFORE.
Definition after : bool := has_flag flgs PATH_ENTRY_FORALL_AFTER.

(** the path of an entry under an entry of path [path] *)
Definition extend (path : bytes) (e : path_entry) : bytes :=
  if negb (bool_decide (name e = [])) && negb no_path
  then path ++ (if negb (bool_decide (path = [])) || has_slash e then [SLASH] else []) ++ name e
  else path.

(** [fe->length + entry->length + 2 > fe->size] *)
Definition too_long (path : bytes) (e : path_entry) : bool :=
  negb (bool_decide (name e = [])) && negb no_path
  && bool_decide (size < length path + length (name e) + 2).

Fixpoint do_foreach (silent : bool) (e : path_entry) (h : handle) (path : bytes) (closure : S)
  : S * Z :=
  if negb silent && too_long path e then (closure, (- ENAMETOOLONG)%Z)
  else
    let memo := if silent then path else extend path e in
    let emit := negb silent && (negb only_added || path_entry_was_added e) in
    let '(closure1, rc1) :=
      if emit && before then fun_ closure h memo else (closure, 0%Z) in
    let '(closure2, rc2) :=
      (fix loop (l : list path_entry) (closure : S) (rc : Z) : S * Z :=
         match l with
         | [] => (closure, rc)
         | child :: l' =>
             if (rc =? 0)%Z then
               let '(closure', rc') := do_foreach false child (h ++ [name child]) memo closure in
               loop l' closure' rc'
             else (closure, rc)
         end) (children e) closure1 rc1 in
    if emit && (rc2 =? 0)%Z && after then fun_ closure2 h memo else (closure2, rc2).

End Foreach.

(** [prefix] is the path of the root in the buffer, used when only
    [PATH_ENTRY_FORALL_ABSOLUTE] of both flags is set *)
Definition path_entry_for_each_in_buffer {S} (flgs : Z) (root : option path_entry)
  (fun_ : S -> handle -> bytes -> S * Z) (closure : S) (prefix : bytes) (size : nat) : S * Z :=
  let flgs' :=
    if (Z.land flgs (Z.lor PATH_ENTRY_FORALL_BEFORE PATH_ENTRY_FORALL_AFTER) =? 0)%Z
    then Z.lor flgs PATH_ENTRY_FORALL_AFTER else flgs in
  let path :=
    if (Z.land flgs' (Z.lor PATH_ENTRY_FORALL_ABSOLUTE PATH_ENTRY_FORALL_NO_PATH)
        =? PATH_ENTRY_FORALL_ABSOLUTE)%Z then prefix else [] in
  match root with
  | None => (closure, 0%Z)
  | Some e => do_foreach fun_ flgs' size (has_flag flgs' PATH_ENTRY_FORALL_SILENT_ROOT) e [] path closure
  end.

Definition path_entry_for_each {S} (flgs : Z) (root : option path_entry)
  (fun_ : S -> handle -> bytes -> S * Z) (closure : S) (prefix : bytes) : S * Z :=
  if has_flag flgs PATH_ENTRY_FORALL_NO_PATH
  then path_entry_for_each_in_buffer flgs root fun_ closure prefix 0
  else path_entry_for_each_in_buffer flgs root fun_ closure prefix PATH_MAX.

(** ** Variables *)

Fixpoint search_var (l : list var_t) (key : Z) : option var_t :=
  match l with
  | [] => None
  | v :: l' => if (key =? var_key v)%Z then Some v else search_var l' key
  end.

Definition varval (v : option var_t) : Z :=
  match v with None => NULL | Some v => var_value v end.

Definition path_entry_var_exists (e : path_entry) (key : Z) : bool :=
  match search_var (vars e) key with Some _ => true | None => false end.

Definition path_entry_var (e : path_entry) (key : Z) : Z := varval (search_var (vars e) key).

(** overwrite the value of the first variable of the key *)
Fixpoint assign_var (l : list var_t) (key value dispose : Z) : list var_t :=
  match l with
  | [] => []
  | v :: l' => if (key =? var_key v)%Z then mk_var key value dispose :: l'
               else v :: assign_var l' key value dispose
  end.

(** status, entry, and the disposal calls made: function and value *)
Definition path_entry_var_set (e : path_entry) (key value dispose : Z) (o : oracle)
  : Z * path_entry * list (Z * Z) * oracle :=
  match search_var (vars e) key with
  | None =>
      let '(ok, o') := malloc o in
      if ok then (0%Z, with_vars e (mk_var key value dispose :: vars e), [], o')
      else ((- ENOMEM)%Z, e, [], o')
  | Some v =>
      (0%Z, with_vars e (assign_var (vars e) key value dispose),
       if (var_dispose v =? NULL)%Z then [] else [(var_dispose v, var_value v)], o)
  end.

Fixpoint delete_var (l : list var_t) (key : Z) : list var_t :=
  match l with
  | [] => []
  | v :: l' => if (var_key v =? key)%Z then l' else v :: delete_var l' key
  end.

Definition path_entry_var_del (e : path_entry) (key : Z) : path_entry * list (Z * Z) :=
  (with_vars e (delete_var (vars e) key),
   match search_var (vars e) key with
   | Some v => if (var_dispose v =? NULL)%Z then [] else [(var_dispose v, var_value v)]
   | None => []
   end).

Definition path_entry_var_count (e : path_entry) : nat := length (vars e).

Definition path_entry_var_at (e : path_entry) (index : nat) : Z := varval (vars e !! index).

(** ** Reading a file *)

(** removal of the blanks at the end *)
Definition rtrim (s : bytes) : bytes := rev (drop_while isspace (rev s)).

(** [lines] are the successive results of [fgets] and [ferr] is [errno]
    when [ferror] tells an error, or 0 *)
Fixpoint path_entry_add_from_file (root : path_entry) (lines : list bytes) (ferr : Z) (o : oracle)
  : Z * path_entry * oracle :=
  match lines with
  | [] => ((- ferr)%Z, root, o)
  | path :: lines' =>
      let text := rtrim path in
      match text with
      | "#"%char :: _ =>
          if beq text (B "#STOP#") then ((- ferr)%Z, root, o)
          else path_entry_add_from_file root lines' ferr o
      | _ =>
          let start := drop_while isspace text in
          match start with
          | [] => path_entry_add_from_file root lines' ferr o
          | _ =>
              let idx := length text - length start in
              let '(rc, _, root', o') :=
                path_entry_add_length root (drop idx path) (Z.of_nat (length start)) o in
              if (rc =? 0)%Z then path_entry_add_from_file root' lines' ferr o'
              else (rc, root', o')
          end
      end
  end.

(** ** Abstract view *)

(** the components of a path: its words between slashes *)
Definition components (path : bytes) : handle := words_of is_slash path.

(** what is recorded for the handle [h] *)
Definition info (h : handle) (e : path_entry) : option (Z * list var_t) :=
  (fun x => (flags x, vars x)) <$> sub h e.

Definition added (h : handle) (e : path_entry) : Prop :=
  exists x, sub h e = Some x /\ path_entry_was_added x = true.

(** invariant: siblings have distinct names, and a name is a component *)
Definition ok_name (n : bytes) : Prop := n <> [] /\ Forall (fun c => is_slash c = false) n.

Inductive wf : path_entry -> Prop :=
| wf_entry n f v l :
    NoDup (name <$> l) -> Forall (fun c => ok_name (name c)) l -> Forall wf l ->
    wf (Entry n f v l).

(** ** Lemmas on children *)

Lemma find_child_name n l c : find_child n l = Some c -> name c = n.
Proof.
  induction l as [|d l IH]; simpl; [done|].
  destruct (beq (name d) n) eqn:E; [|done]. apply beq_true in E. by intros [= ->].
Qed.

Lemma find_child_in n l c : find_child n l = Some c -> c ∈ l.
Proof.
  induction l as [|d l IH]; simpl; [done|]. destruct (beq (name d) n); [|right; auto].
  intros [= ->]. left.
Qed.

Lemma find_child_None n l : find_child n l = None <-> n ∉ name <$> l.
Proof.
  induction l as [|d l IH]; simpl; [by split; [intros _; apply not_elem_of_nil|]|].
  rewrite not_elem_of_cons. destruct (beq (name d) n) eqn:E.
  - apply beq_true in E. naive_solver.
  - apply beq_false in E. naive_solver.
Qed.

Lemma find_child_insert nm new l m :
  find_child (name new) l = None ->
  find_child m (insert_child nm new l) = if beq (name new) m then Some new else find_child m l.
Proof.
  intros Hf. induction l as [|d l IH]; simpl in *; [done|].
  destruct (beq (name d) (name new)) eqn:Ed; [done|].
  destruct (strcmp_lt _ _); simpl; [|done]. rewrite IH by done.
  destruct (beq (name d) m) eqn:E1, (beq (name new) m) eqn:E2; try done.
  apply beq_true in E1, E2. apply beq_false in Ed. congruence.
Qed.

Lemma find_child_alter f n l m :
  (forall c, find_child n l = Some c -> name (f c) = n) ->
  find_child m (alter_child f n l) =
  if beq n m then f <$> find_child n l else find_child m l.
Proof.
  intros Hf. induction l as [|d l IH]; simpl in *; [by destruct (beq n m)|].
  destruct (beq (name d) n) eqn:Ed; simpl.
  - rewrite (Hf d eq_refl). apply beq_true in Ed. rewrite Ed. by destruct (beq n m).
  - rewrite IH by done. destruct (beq (name d) m) eqn:E1, (beq n m) eqn:E2; try done.
    apply beq_true in E1, E2. apply beq_false in Ed. congruence.
Qed.

Lemma name_alter_child f n l :
  (forall c, find_child n l = Some c -> name (f c) = n) ->
  name <$> alter_child f n l = name <$> l.
Proof.
  intros Hf. induction l as [|d l IH]; simpl in *; [done|].
  destruct (beq (name d) n) eqn:Ed; simpl; f_equal; auto.
  rewrite (Hf d eq_refl). symmetry. by apply beq_true in Ed.
Qed.

Lemma alter_child_id n l c : find_child n l = Some c -> alter_child (fun _ => c) n l = l.
Proof.
  induction l as [|d l IH]; simpl; [done|].
  destruct (beq (name d) n); [by intros [= ->]|]. intros. f_equal. auto.
Qed.

Lemma Forall_alter_child (P : path_entry -> Prop) f n l :
  Forall P l -> (forall c, find_child n l = Some c -> P c -> P (f c)) ->
  Forall P (alter_child f n l).
Proof.
  induction 1 as [|d l Hd Hl IH]; simpl; [constructor|].
  destruct (beq (name d) n) eqn:E; intros Hf; constructor; auto.
Qed.

Lemma insert_child_perm nm new l : insert_child nm new l ≡ₚ new :: l.
Proof.
  induction l as [|d l IH]; simpl; [done|]. destruct (strcmp_lt _ _); [|done].
  rewrite IH. apply Permutation_swap.
Qed.

(** ** Lemmas on handles *)

Lemma sub_app h k e : sub (h ++ k) e = x ← sub h e; sub k x.
Proof. revert e; induction h as [|n h IH]; intros e; simpl; [done|]. by destruct (find_child n _). Qed.

Lemma info_nil e : info [] e = Some (flags e, vars e).
Proof. done. Qed.

Lemma info_cons n h e :
  info (n :: h) e = match find_child n (children e) with Some c => info h c | None => None end.
Proof. unfold info. simpl. by destruct (find_child n _). Qed.

Lemma sub_info h e : is_Some (sub h e) <-> is_Some (info h e).
Proof. unfold info. by rewrite fmap_is_Some. Qed.

(** Changing flags or variables of a node changes no other node. *)
Lemma info_alter_at f h k e :
  (forall x, name (f x) = name x /\ children (f x) = children x) ->
  info k (alter_at f h e) =
  if bool_decide (k = h) then (fun x => (flags (f x), vars (f x))) <$> sub h e else info k e.
Proof.
  intros Hf. revert k e. induction h as [|n h IH]; intros k e; simpl.
  - case_bool_decide as Hk; [by subst|]. destruct k as [|m k]; [done|].
    rewrite !info_cons. by destruct (Hf e) as [_ ->].
  - destruct k as [|m k]; [by rewrite bool_decide_eq_false_2|]. rewrite !info_cons. simpl.
    rewrite find_child_alter.
    2: { intros c Hc. rewrite <-(find_child_name _ _ _ Hc).
         destruct h; simpl; [by destruct (Hf c)|done]. }
    destruct (beq n m) eqn:E.
    + apply beq_true in E as ->. destruct (find_child m (children e)) as [c|]; simpl.
      * rewrite IH. by rewrite (bool_decide_ext (m :: k = m :: h) (k = h)) by naive_solver.
      * by case_bool_decide.
    + apply beq_false in E. rewrite bool_decide_eq_false_2 by naive_solver. done.
Qed.

Lemma name_alter_at f h e :
  (forall x, name (f x) = name x) -> name (alter_at f h e) = name e.
Proof. intros Hf. by destruct h; simpl. Qed.

Lemma wf_alter_at f h e :
  (forall x, name (f x) = name x) -> (forall x, wf x -> wf (f x)) -> wf e -> wf (alter_at f h e).
Proof.
  intros Hn Hf. revert e. induction h as [|n h IH]; intros e He; simpl; [auto|].
  destruct He as [nm fl v l Hd Hok Hl]. simpl.
  assert (Hna : forall c, find_child n l = Some c -> name (alter_at f h c) = n).
  { intros c Hc. rewrite name_alter_at by done. by eapply find_child_name. }
  constructor.
  - by rewrite name_alter_child.
  - apply Forall_alter_child; [done|]. intros c _ Hc. by rewrite name_alter_at.
  - apply Forall_alter_child; auto.
Qed.

Lemma wf_with_flags e f : wf e -> wf (with_flags e f).
Proof. intros []. by constructor. Qed.

Lemma wf_with_vars e v : wf e -> wf (with_vars e v).
Proof. intros []. by constructor. Qed.

#[export] Hint Resolve wf_with_flags wf_with_vars : afm.

Lemma wf_children e : wf e -> Forall wf (children e).
Proof. by intros []. Qed.

Lemma wf_find_child e n c : wf e -> find_child n (children e) = Some c -> wf c.
Proof.
  intros He Hc. apply wf_children in He. rewrite Forall_forall in He.
  eauto using find_child_in.
Qed.

Lemma wf_sub h e x : wf e -> sub h e = Some x -> wf x.
Proof.
  revert e. induction h as [|n h IH]; intros e He; simpl; [by intros [= <-]|].
  destruct (find_child n (children e)) as [c|] eqn:E; [|done]. eauto using wf_find_child.
Qed.

(** ** Lemmas on [process] *)

Lemma is_slash_negb s : take_while (fun c => negb (is_slash c)) s = take_while not_slash s.
Proof. done. Qed.

(** The next component and what follows it. *)
Lemma components_cons s :
  s <> [] -> drop_while is_slash s = s ->
  components s = take_while not_slash s ::
    components (drop_while is_slash (drop (length (take_while not_slash s)) s)) /\
  take_while not_slash s <> [].
Proof. intros Hs Hk. rewrite drop_length_take_while. exact (words_of_cons is_slash s Hs Hk). Qed.

Lemma length_next s :
  take_while not_slash s <> [] ->
  length (drop_while is_slash (drop (length (take_while not_slash s)) s)) < length s.
Proof.
  intros Hn. pose proof (length_drop_while is_slash (drop (length (take_while not_slash s)) s)).
  rewrite length_drop in *. pose proof (length_take_drop_while not_slash s).
  destruct (take_while not_slash s); [done|]. simpl in *. lia.
Qed.

(** Searching follows the components and changes nothing. *)
Lemma process_lookup fuel e s aft flgs o :
  drop_while is_slash s = s -> length s <= fuel ->
  process_loop fuel lookup_child e s aft flgs o =
  ((fun _ => components s) <$> sub (components s) e, e, o).
Proof.
  revert e s flgs. induction fuel as [|fuel IH]; intros e s flgs Hk Hl.
  { destruct s; [done|simpl in Hl; lia]. }
  destruct (decide (s = [])) as [->|Hs]; [done|].
  destruct (components_cons s Hs Hk) as [Hc Hne]. rewrite Hc.
  pose proof (length_next s Hne) as Hlt.
  assert (Hunf : forall T (a b : T), match s with [] => a | _ :: _ => b end = b)
    by by destruct s.
  cbn [process_loop]. rewrite Hunf. unfold lookup_child at 1, search_child.
  rewrite take_app_le by (pose proof (length_take_drop_while not_slash s); lia).
  rewrite take_length_take_while. set (c := take_while not_slash s) in *.
  destruct (find_child c (children e)) as [child|] eqn:Ef; simpl; rewrite Ef; [|done].
  rewrite (find_child_name _ _ _ Ef), Ef, IH by (apply drop_while_idem || lia).
  rewrite (alter_child_id _ _ _ Ef).
  replace (with_children e (children e)) with e by by destruct e.
  by destruct (sub _ child).
Qed.

(** the records of a tree after the entries of the path [p] were created
    on need, the first one with the flags [flgs] *)
Definition grow (e : path_entry) (p : handle) (flgs : Z) (k : handle) : option (Z * list var_t) :=
  match info k e with
  | Some i => Some i
  | None => if bool_decide (k `prefix_of` p)
            then Some (if bool_decide (length k = 1) then flgs else FLAGS_HAS_SLASH, [])
            else None
  end.

Lemma grow_nil e flgs k : grow e [] flgs k = info k e.
Proof.
  unfold grow. destruct (info k e) eqn:E; [done|].
  rewrite bool_decide_eq_false_2; [done|]. intros ->%prefix_nil_inv. done.
Qed.

(** growing below a child is growing *)
Lemma grow_child e child c p flgs e' m k :
  find_child c (children e) = Some child \/
    (find_child c (children e) = None /\ child = Entry c flgs [] []) ->
  (forall k, info k e' = grow child p FLAGS_HAS_SLASH k) ->
  match (if beq c m then Some e' else find_child m (children e)) with
  | Some x => info k x
  | None => None
  end = grow e (c :: p) flgs (m :: k).
Proof.
  intros Hc He'. unfold grow. rewrite info_cons. destruct (beq c m) eqn:E.
  - apply beq_true in E as <-. rewrite He'. unfold grow.
    rewrite (bool_decide_ext (c :: k `prefix_of` c :: p) (k `prefix_of` p))
      by (split; [apply prefix_cons_inv_2|apply prefix_cons]).
    destruct Hc as [->|[-> ->]].
    + destruct (info k child) eqn:Ek; [done|]. destruct k as [|x k]; [done|]. simpl.
      by rewrite Tauto.if_same.
    + destruct k as [|x k]; [done|].
      simpl. by rewrite Tauto.if_same.
  - apply beq_false in E. rewrite (bool_decide_eq_false_2 (m :: k `prefix_of` c :: p))
      by (intros Hp; by apply prefix_cons_inv_1 in Hp).
    destruct (find_child m (children e)) as [x|]; [by destruct (info k x)|done].
Qed.

Lemma ok_name_component s : take_while not_slash s <> [] -> ok_name (take_while not_slash s).
Proof.
  intros H. split; [done|]. eapply Forall_impl; [apply Forall_take_while|].
  intros c Hc. unfold not_slash in Hc. by bool_hyps.
Qed.

Lemma wf_insert_child e nm new :
  wf e -> wf new -> ok_name (name new) -> find_child (name new) (children e) = None ->
  wf (with_children e (insert_child nm new (children e))).
Proof.
  intros [n f v l Hd Hok Hl] Hw Hn Hf. simpl in *. apply find_child_None in Hf.
  constructor; rewrite insert_child_perm; [|by constructor..].
  rewrite fmap_cons. by constructor.
Qed.

Lemma wf_replace_child e c child child' :
  wf e -> find_child c (children e) = Some child -> wf child' -> name child' = c ->
  wf (with_children e (alter_child (fun _ => child') c (children e))).
Proof.
  intros [n f v l Hd Hok Hl] Hf Hw Hn. simpl in *. constructor.
  - by rewrite name_alter_child.
  - apply Forall_alter_child; [done|]. intros d Hdc Hd'. rewrite Hf in Hdc. injection Hdc as <-.
    by rewrite Hn, <-(find_child_name _ _ _ Hf).
  - by apply Forall_alter_child.
Qed.

(** One step down: [e1] is [e], or [e] with a new child [c], and the child
    grew along [p]. *)
Lemma descend e e1 c child child' p flgs :
  wf e1 -> name e1 = name e -> flags e1 = flags e -> vars e1 = vars e ->
  find_child c (children e1) = Some child ->
  (forall m, m <> c -> find_child m (children e1) = find_child m (children e)) ->
  (find_child c (children e) = Some child \/
   find_child c (children e) = None /\ child = Entry c flgs [] []) ->
  (forall k, info k child' = grow child p FLAGS_HAS_SLASH k) -> wf child' -> name child' = name child ->
  let e' := with_children e1 (alter_child (fun _ => child') c (children e1)) in
  (forall k, info k e' = grow e (c :: p) flgs k) /\ wf e' /\ name e' = name e.
Proof.
  intros He1 Hn1 Hfl Hv Hf1 Hother Hcase Hinfo Hw Hn.
  assert (Hnc : name child' = c) by (rewrite Hn; by eapply find_child_name).
  cbv zeta. split; [|split; [by eapply wf_replace_child|done]].
  intros [|m k]; [by rewrite info_nil; unfold grow; rewrite info_nil, <-Hfl, <-Hv|].
  rewrite <-(grow_child e child c p flgs child' m k) by done.
  rewrite info_cons. simpl. rewrite find_child_alter, Hf1 by done. simpl.
  destruct (beq c m) eqn:E; [done|]. apply beq_false in E. by rewrite Hother.
Qed.

(** The child that [get_child] yields. *)
Lemma get_child_cases e s aft c flgs o r e1 o1 :
  wf e -> c = take_while not_slash s -> c <> [] ->
  get_child e (s ++ aft) (length c) flgs o = (r, e1, o1) ->
  wf e1 /\ name e1 = name e /\ flags e1 = flags e /\ vars e1 = vars e /\
  (exists used, o = used ++ o1) /\
  (forall m, m <> c -> find_child m (children e1) = find_child m (children e)) /\
  ((r = None /\ e1 = e /\ false ∈ o) \/
   exists child, r = Some c /\ find_child c (children e1) = Some child /\
     (find_child c (children e) = Some child \/
      find_child c (children e) = None /\ child = Entry c flgs [] [])).
Proof.
  intros He -> Hne. unfold get_child, search_child, make_child.
  rewrite take_app_le by (pose proof (length_take_drop_while not_slash s); lia).
  rewrite take_length_take_while. set (c := take_while not_slash s) in *.
  destruct (find_child c (children e)) as [child|] eqn:Ef; simpl.
  - rewrite (find_child_name _ _ _ Ef). intros [= <- <- <-]. split_and!; eauto; [by exists []|].
    right. eauto.
  - destruct (malloc o) as [[] o2] eqn:Em; apply malloc_cases in Em as (u & -> & Hu);
      intros [= <- <- <-].
    + split_and!; eauto.
      * apply wf_insert_child; [done|by repeat constructor|by apply ok_name_component|done].
      * intros m Hm. simpl. rewrite find_child_insert by done. simpl.
        destruct (beq c m) eqn:E; [|done]. apply beq_true in E. congruence.
      * right. exists (Entry c flgs [] []). simpl. rewrite find_child_insert by done. simpl.
        rewrite beq_refl. auto.
    + split_and!; eauto. left. set_solver.
Qed.

(** Creating follows the components, creates those that miss and changes
    nothing else; it only stops before the end on a failing allocation. *)
Lemma process_create fuel e s aft flgs o r e' o' :
  wf e -> drop_while is_slash s = s -> length s <= fuel ->
  process_loop fuel get_child e s aft flgs o = (r, e', o') ->
  exists p, p `prefix_of` components s /\ (forall k, info k e' = grow e p flgs k) /\
    wf e' /\ name e' = name e /\
    ((r = Some (components s) /\ p = components s) \/
     (r = None /\ false ∈ o /\ p <> components s)).
Proof.
  revert e s flgs o r e' o'. induction fuel as [|fuel IH]; intros e s flgs o r e' o' He Hk Hl.
  { destruct s; [|simpl in Hl; lia]. intros [= <- <- <-]. exists []. split_and!; auto using prefix_nil.
    intros. by rewrite grow_nil. }
  destruct (decide (s = [])) as [->|Hs].
  { intros [= <- <- <-]. exists []. split_and!; auto using prefix_nil. intros. by rewrite grow_nil. }
  destruct (components_cons s Hs Hk) as [Hc Hne]. rewrite Hc.
  pose proof (length_next s Hne) as Hlt.
  assert (Hunf : forall T (a b : T), match s with [] => a | _ :: _ => b end = b) by by destruct s.
  cbn [process_loop]. rewrite Hunf. set (c := take_while not_slash s) in *.
  set (rest := drop_while is_slash (drop (length c) s)) in *.
  destruct (get_child e (s ++ aft) (length c) flgs o) as [[r1 e1] o1] eqn:Eg.
  destruct (get_child_cases _ _ _ c _ _ _ _ _ He eq_refl Hne Eg)
    as (He1 & Hn1 & Hfl & Hv & (u & ->) & Hother & [(-> & -> & Ho)|(child & -> & Hf & Hcase)]).
  { intros [= <- <- <-]. exists []. split_and!; auto using prefix_nil. intros. by rewrite grow_nil. }
  rewrite Hf.
  destruct (process_loop fuel get_child child rest aft FLAGS_HAS_SLASH o1) as [[h child'] o2] eqn:Ep.
  intros [= <- <- <-].
  apply IH in Ep as (p & Hpre & Hinfo & Hw & Hn & Hres);
    [|eauto using wf_find_child|apply drop_while_idem|lia].
  destruct (descend e e1 c child child' p flgs) as (Hi & Hw' & Hn'); [done..|].
  exists (c :: p). split_and!; [by apply prefix_cons|done..|].
  destruct Hres as [[-> ->]|(-> & Hf' & Hne')]; [by left|right].
  split_and!; [done|set_solver|congruence].
Qed.

(** ** Lemmas on adding and getting *)

Lemma u32_length (s : bytes) : (Z.of_nat (length s) < 2 ^ 32)%Z -> Z.to_nat (u32 (Z.of_nat (length s))) = length s.
Proof. intros H. unfold u32. rewrite Z.mod_small by lia. lia. Qed.

Lemma get_length_spec root path len :
  path_entry_get_length root path len =
  let h := components (take (Z.to_nat (u32 len)) path) in
  match sub h root with Some _ => (0%Z, Some h) | None => ((- ENOENT)%Z, None) end.
Proof.
  unfold path_entry_get_length, process. set (s := take _ path). cbv zeta.
  rewrite process_lookup by (apply drop_while_idem || apply length_drop_while).
  change (components (drop_while is_slash s)) with (words_of is_slash (drop_while is_slash s)).
  rewrite words_of_skip. fold (components s). by destruct (sub (components s) root).
Qed.

Lemma get_spec root path :
  (Z.of_nat (length path) < 2 ^ 32)%Z ->
  path_entry_get root path =
  match sub (components path) root with
  | Some _ => (0%Z, Some (components path))
  | None => ((- ENOENT)%Z, None)
  end.
Proof.
  intros H. unfold path_entry_get. rewrite get_length_spec, u32_length by done.
  by rewrite firstn_all.
Qed.

Lemma added_info h e :
  added h e <-> exists f v, info h e = Some (f, v) /\ has_flag f FLAGS_IS_ADDED = true.
Proof.
  unfold added, info, path_entry_was_added. split.
  - intros (x & -> & H). simpl. eauto.
  - intros (f & v & H & Hf). apply fmap_Some in H as (x & Hx & [= -> ->]). eauto.
Qed.

Lemma has_flag_set f m : (m <> 0)%Z -> has_flag (Z.lor f m) m = true.
Proof.
  intros Hm. unfold has_flag. rewrite Z.land_lor_distr_l, Z.land_diag.
  rewrite negb_true_iff, Z.eqb_neq, Z.lor_eq_0_iff. lia.
Qed.

(** the flags given to the first component of a path *)
Definition first_flags (s : bytes) : Z :=
  if bool_decide (take_while is_slash s = []) then 0%Z else FLAGS_HAS_SLASH.

(** What [path_entry_add_length] does to the records, on both outcomes. *)
Lemma add_length_cases root path len o rc h root' o' :
  wf root -> path_entry_add_length root path len o = (rc, h, root', o') ->
  let s := take (Z.to_nat (u32 len)) path in
  wf root' /\ name root' = name root /\
  ((rc = 0%Z /\ h = Some (components s) /\
    forall k, info k root' =
      if bool_decide (k = components s)
      then (fun i => (Z.lor i.1 FLAGS_IS_ADDED, i.2)) <$> grow root (components s) (first_flags s) k
      else grow root (components s) (first_flags s) k) \/
   (rc = (- ENOMEM)%Z /\ h = None /\ false ∈ o /\
    exists p, p `prefix_of` components s /\ p <> components s /\
      forall k, info k root' = grow root p (first_flags s) k)).
Proof.
  intros Hwf. unfold path_entry_add_length, process. set (s := take _ path). fold (first_flags s).
  destruct (process_loop _ _ _ _ _ _ _) as [[r root1] o1] eqn:Ep.
  apply process_create in Ep as (p & Hpre & Hinfo & Hw & Hn & Hres);
    [|done|apply drop_while_idem|apply length_drop_while].
  change (components (drop_while is_slash s)) with (words_of is_slash (drop_while is_slash s)) in *.
  rewrite words_of_skip in *. fold (components s) in *.
  destruct Hres as [[-> ->]|(-> & Hf & Hne)]; intros [= <- <- <- <-]; cbv zeta.
  - split; [by apply wf_alter_at; auto with afm|]. split; [by rewrite name_alter_at|].
    left. split; [done|]. split; [done|]. intros k.
    rewrite info_alter_at by done. case_bool_decide as Hk; [|done]. subst k.
    rewrite <-Hinfo. unfold info. by destruct (sub _ root1).
  - split; [done|]. split; [done|]. right. eauto 10.
Qed.

Lemma first_flags_not_added s : has_flag (first_flags s) FLAGS_IS_ADDED = false.
Proof. unfold first_flags. by case_bool_decide. Qed.

(** Created entries are not flagged as added. *)
Lemma grow_added e p s k f v :
  grow e p (first_flags s) k = Some (f, v) -> has_flag f FLAGS_IS_ADDED = true ->
  info k e = Some (f, v).
Proof.
  unfold grow. destruct (info k e) as [i|]; [done|]. case_bool_decide; [|done].
  intros [= <- <-]. case_bool_decide; [by rewrite first_flags_not_added|done].
Qed.

Lemma grow_is_Some e p flgs k : is_Some (grow e p flgs k) <-> is_Some (info k e) \/ k `prefix_of` p.
Proof.
  unfold grow. destruct (info k e) as [i|]; [split; eauto|].
  case_bool_decide; split; eauto; intros [[]|]; naive_solver.
Qed.

(** Allocations only consume the oracle. *)
Lemma process_oracle fuel e s aft flgs o r e' o' :
  process_loop fuel get_child e s aft flgs o = (r, e', o') -> o' `suffix_of` o.
Proof.
  revert e s flgs o r e' o'. induction fuel as [|fuel IH]; intros e s flgs o r e' o'.
  { destruct s; by intros [= <- <- <-]. }
  destruct s as [|x s]; [by intros [= <- <- <-]|]. cbn [process_loop]. set (s0 := x :: s). clearbody s0.
  destruct (get_child _ _ _ _ _) as [[r1 e1] o1] eqn:Eg.
  assert (Ho : o1 `suffix_of` o).
  { unfold get_child, make_child in Eg. destruct (search_child _ _ _); [by injection Eg as <- <- <-|].
    destruct (malloc o) as [[] o2] eqn:Em; apply malloc_cases in Em as (u & -> & _);
      injection Eg as <- <- <-; by apply suffix_app_r. }
  destruct r1 as [c|]; [|by intros [= <- <- <-]].
  destruct (find_child c _) as [d|]; [|by intros [= <- <- <-]].
  destruct (process_loop _ _ d _ _ _ _) as [[h d'] o2] eqn:Ep. intros [= <- <- <-].
  apply IH in Ep. by trans o1.
Qed.

(** The added entries after a successful addition. *)
Lemma added_after_add root root' path k :
  (forall k, info k root' =
      if bool_decide (k = components path)
      then (fun i => (Z.lor i.1 FLAGS_IS_ADDED, i.2)) <$> grow root (components path) (first_flags path) k
      else grow root (components path) (first_flags path) k) ->
  added k root' <-> added k root \/ k = components path.
Proof.
  intros Hinfo.
  assert (Hmine : is_Some (grow root (components path) (first_flags path) (components path)))
    by (apply grow_is_Some; by right).
  rewrite !added_info, Hinfo. case_bool_decide as Hk.
  - subst k. split; [by right|]. intros _. destruct Hmine as [[f v] ->]. simpl.
    eexists _, _. split; [done|]. by apply has_flag_set.
  - split.
    + intros (f & v & Hg & Hf). left. eauto using grow_added.
    + intros [(f & v & Hg & Hf)|]; [|done]. exists f, v. split; [|done]. unfold grow. by rewrite Hg.
Qed.

(** Without failing allocation, adding a path of known length succeeds. *)
Lemma add_length_ok root path o :
  wf root -> (Z.of_nat (length path) < 2 ^ 32)%Z -> false ∉ o ->
  exists root' o', path_entry_add_length root path (Z.of_nat (length path)) o =
      (0%Z, Some (components path), root', o') /\ wf root' /\ name root' = name root /\ (false ∉ o') /\
    (forall k, added k root' <-> added k root \/ k = components path).
Proof.
  intros Hwf Hl Ho.
  destruct (path_entry_add_length root path _ o) as [[[rc h] root'] o'] eqn:E.
  exists root', o'. pose proof E as Hadd. apply add_length_cases in Hadd as (Hw & Hn & Hres); [|done].
  rewrite u32_length, firstn_all in Hres by done.
  destruct Hres as [(-> & -> & Hinfo)|(_ & _ & Hin & _)]; [|done].
  split; [done|]. split; [done|]. split; [done|]. split.
  - unfold path_entry_add_length, process in E.
    destruct (process_loop _ _ _ _ _ _ _) as [[r1 root1] o1] eqn:Ep.
    apply process_oracle in Ep as [u ->]. destruct r1; injection E as; subst; set_solver.
  - intros k. by apply added_after_add.
Qed.

(** ** Properties: adding and getting *)

(** [path_entry_get] finds a path exactly when the entry of its
    components exists, and yields that entry; slashes only separate
    components. *)
Theorem get_components root p q :
  (Z.of_nat (length p) < 2 ^ 32)%Z -> (Z.of_nat (length q) < 2 ^ 32)%Z ->
  (path_entry_get root p = (0%Z, Some (components p)) <-> is_Some (sub (components p) root)) /\
  (components p = components q -> path_entry_get root p = path_entry_get root q).
Proof.
  intros Hp Hq. rewrite !get_spec by done. split.
  - destruct (sub _ _); naive_solver.
  - by intros ->.
Qed.

(** C23: when [path_entry_add] succeeds, the tree stays well formed, the
    result is the entry of the components of the path, the added entries
    are the former ones and that one, the paths that exist are the former
    ones and the prefixes of that path, and the records of the other
    entries are kept. *)
Theorem add_spec root path o h root' o' :
  wf root -> (Z.of_nat (length path) < 2 ^ 32)%Z ->
  path_entry_add root path o = (0%Z, h, root', o') ->
  wf root' /\ h = Some (components path) /\
  (forall k, added k root' <-> added k root \/ k = components path) /\
  (forall k, is_Some (sub k root') <-> is_Some (sub k root) \/ k `prefix_of` components path) /\
  (forall k, is_Some (sub k root) -> k <> components path -> info k root' = info k root).
Proof.
  intros Hwf Hl Hadd. apply add_length_cases in Hadd as (Hw & _ & Hres); [|done].
  rewrite u32_length, firstn_all in Hres by done.
  destruct Hres as [(_ & -> & Hinfo)|(? & _)]; [|done].
  split_and!; [done|done| | |].
  - intros k. by apply added_after_add.
  - intros k. rewrite !sub_info, Hinfo, <-(grow_is_Some _ _ (first_flags path)).
    case_bool_decide as Hk; [|done]. by rewrite fmap_is_Some.
  - intros k Hk Hne. rewrite Hinfo, bool_decide_eq_false_2 by done.
    apply sub_info in Hk as [i Hi]. unfold grow. by rewrite Hi.
Qed.

(** When [path_entry_add] fails, it is for a failing allocation, with
    [-ENOMEM]; the tree stays well formed, keeps its records, and has no
    new added entry, only some of the intermediate entries of the path. *)
Theorem add_error root path o rc h root' o' :
  wf root -> (Z.of_nat (length path) < 2 ^ 32)%Z ->
  path_entry_add root path o = (rc, h, root', o') -> rc <> 0%Z ->
  rc = (- ENOMEM)%Z /\ h = None /\ false ∈ o /\ wf root' /\
  (forall k, added k root' <-> added k root) /\
  (forall k, is_Some (sub k root) -> info k root' = info k root) /\
  (forall k, is_Some (sub k root') -> is_Some (sub k root) \/
     (k `prefix_of` components path /\ k <> components path)).
Proof.
  intros Hwf Hl Hadd Hrc. apply add_length_cases in Hadd as (Hw & _ & Hres); [|done].
  rewrite u32_length, firstn_all in Hres by done.
  destruct Hres as [(-> & _)|(-> & -> & Ho & p & Hp & Hne & Hinfo)]; [done|].
  split_and!; [done..| | |].
  - intros k. rewrite !added_info, Hinfo. split; intros (f & v & Hg & Hf); exists f, v.
    + eauto using grow_added.
    + split; [|done]. unfold grow. by rewrite Hg.
  - intros k Hk. rewrite Hinfo. apply sub_info in Hk as [i Hi]. unfold grow. by rewrite Hi.
  - intros k. rewrite !sub_info, Hinfo, grow_is_Some. intros [Hk|Hk]; [by left|right].
    split; [by etrans|]. intros ->. apply Hne. by apply (anti_symm prefix).
Qed.

(** a tree with the entries of "/usr" and "/usr/bin", the latter added *)
Definition sample : path_entry :=
  Entry [] 0 [] [Entry (B "usr") FLAGS_HAS_SLASH []
    [Entry (B "bin") (Z.lor FLAGS_HAS_SLASH FLAGS_IS_ADDED) [] []]].

Lemma wf_sample : wf sample.
Proof.
  repeat constructor; try apply not_elem_of_nil; try (by intros [=]); try done.
Qed.

Lemma get_components_witness :
  path_entry_get sample (B "/usr//bin/") = path_entry_get sample (B "usr/bin").
Proof. by apply (get_components sample (B "/usr//bin/") (B "usr/bin")). Defined.

Lemma add_spec_witness :
  exists h root' o', path_entry_add sample (B "/usr/lib") [true] = (0%Z, h, root', o') /\
    added [B "usr"; B "lib"] root' /\ ~ added [B "usr"] root'.
Proof.
  eexists _, _, _. split; [vm_compute; reflexivity|].
  destruct (add_spec sample (B "/usr/lib") [true] _ _ _ wf_sample eq_refl eq_refl) as (_ & _ & H & _).
  split; [apply H; by right|]. rewrite H. intros [(x & [= <-] & [=])|[=]].
Defined.

Lemma add_error_witness :
  exists h root' o', path_entry_add sample (B "/usr/lib/a") [true; false] = ((- ENOMEM)%Z, h, root', o')
    /\ forall k, added k root' <-> added k sample.
Proof.
  eexists _, _, _. split; [vm_compute; reflexivity|].
  apply (add_error sample (B "/usr/lib/a") [true; false] _ _ _ _ wf_sample eq_refl eq_refl). done.
Defined.

(** ** Iteration: the visits as a list *)

Section Visits.
Context {S : Type} (fun_ : S -> handle -> bytes -> S * Z) (flgs : Z) (size : nat).

(** calling the function along a list, up to the first status that is not 0 *)
Fixpoint run (l : list (handle * bytes)) (closure : S) : S * Z :=
  match l with
  | [] => (closure, 0%Z)
  | (h, p) :: l' =>
      let '(closure', rc) := fun_ closure h p in
      if (rc =? 0)%Z then run l' closure' else (closure', rc)
  end.

Definition path_in (silent : bool) (path : bytes) (e : path_entry) : bytes :=
  if silent then path else extend flgs path e.

Definition emits (silent : bool) (e : path_entry) : bool :=
  negb silent && (negb (only_added flgs) || path_entry_was_added e).

(** the visits of a tree: entry and path *)
Fixpoint visits (silent : bool) (e : path_entry) (h : handle) (path : bytes)
  : list (handle * bytes) :=
  let memo := path_in silent path e in
  (if emits silent e && before flgs then [(h, memo)] else []) ++
  flat_map (fun child => visits false child (h ++ [name child]) memo) (children e) ++
  (if emits silent e && after flgs then [(h, memo)] else []).

(** no path is too long for the buffer *)
Fixpoint fits (silent : bool) (e : path_entry) (path : bytes) : bool :=
  (silent || negb (too_long flgs size path e)) &&
  forallb (fun child => fits false child (path_in silent path e)) (children e).

Lemma run_app l l' c :
  run (l ++ l') c = let '(c', rc) := run l c in if (rc =? 0)%Z then run l' c' else (c', rc).
Proof.
  revert c. induction l as [|[h p] l IH]; intros c; simpl; [done|].
  destruct (fun_ c h p) as [c' rc]. destruct (rc =? 0)%Z eqn:E; [apply IH|by rewrite E].
Qed.

Lemma run_opt (b : bool) h p c :
  run (if b then [(h, p)] else []) c = if b then fun_ c h p else (c, 0%Z).
Proof.
  destruct b; simpl; [|done]. destruct (fun_ c h p) as [c' rc].
  destruct (rc =? 0)%Z eqn:E; [|done]. apply Z.eqb_eq in E. by subst.
Qed.

(** the induction principle of trees, with the hypothesis on all children *)
Lemma entry_ind (P : path_entry -> Prop) :
  (forall n f v l, Forall P l -> P (Entry n f v l)) -> forall e, P e.
Proof.
  intros H. fix IH 1. intros [n f v l]. apply H. induction l; constructor; auto.
Qed.

Lemma do_foreach_run e silent h path c :
  fits silent e path = true ->
  do_foreach fun_ flgs size silent e h path c = run (visits silent e h path) c.
Proof.
  revert silent h path c. induction e as [n f v l IH] using entry_ind. intros silent h path c Hf.
  cbn [fits children] in Hf. apply andb_true_iff in Hf as [Hlong Hf].
  cbn [do_foreach visits children].
  replace (negb silent && too_long flgs size path (Entry n f v l)) with false
    by (destruct silent; [done|]; simpl in *; by apply negb_true_iff in Hlong).
  fold (path_in silent path (Entry n f v l)) in *. fold (emits silent (Entry n f v l)).
  set (memo := path_in silent path (Entry n f v l)) in *.
  set (emit := emits silent (Entry n f v l)).
  assert (Hloop : forall c rc,
    (fix loop (l : list path_entry) (closure : S) (rc : Z) : S * Z :=
         match l with
         | [] => (closure, rc)
         | child :: l' =>
             if (rc =? 0)%Z then
               let '(closure', rc') :=
                 do_foreach fun_ flgs size false child (h ++ [name child]) memo closure in
               loop l' closure' rc'
             else (closure, rc)
         end) l c rc =
    if (rc =? 0)%Z
    then run (flat_map (fun child => visits false child (h ++ [name child]) memo) l) c
    else (c, rc)).
  { clear Hlong. induction IH as [|x l Hx Hl IHl]; intros c0 rc0; simpl in *.
    { destruct (rc0 =? 0)%Z eqn:E; [|done]. apply Z.eqb_eq in E. by subst. }
    apply andb_true_iff in Hf as [Hf1 Hf2]. destruct (rc0 =? 0)%Z; [|done].
    rewrite (Hx false), run_app by done. destruct (run _ c0) as [c' rc']. by apply IHl. }
  rewrite !run_app, <-run_opt. destruct (run (if emit && before flgs then _ else _) c) as [c1 rc1].
  rewrite Hloop. destruct (rc1 =? 0)%Z eqn:E1; [rewrite run_app|by rewrite E1, andb_false_r].
  destruct (run _ c1) as [c2 rc2]. destruct (rc2 =? 0)%Z eqn:E2; [|by rewrite andb_false_r].
  rewrite andb_true_r, run_opt. apply Z.eqb_eq in E2. subst. by destruct (emit && after flgs).
Qed.

End Visits.

(** the path of the entry of handle [h] below [e], of path [path] *)
Fixpoint path_text (flgs : Z) (h : handle) (e : path_entry) (path : bytes) : bytes :=
  match h with
  | [] => path
  | n :: h' => match find_child n (children e) with
               | Some c => path_text flgs h' c (extend flgs path c)
               | None => path
               end
  end.

Lemma find_child_elem l c : NoDup (name <$> l) -> c ∈ l -> find_child (name c) l = Some c.
Proof.
  induction l as [|d l IH]; simpl; intros Hn Hc; [by apply elem_of_nil in Hc|].
  apply NoDup_cons in Hn as [Hd Hn]. apply elem_of_cons in Hc as [->|Hc].
  - by rewrite beq_refl.
  - destruct (beq (name d) (name c)) eqn:E; [|auto]. apply beq_true in E. destruct Hd.
    rewrite E. by apply list_elem_of_fmap_2.
Qed.

Lemma elem_flat_map {A B} (f : A -> list B) l y : y ∈ flat_map f l <-> exists x, x ∈ l /\ y ∈ f x.
Proof.
  rewrite list_elem_of_In, in_flat_map. setoid_rewrite list_elem_of_In. done.
Qed.

(** the visits of a tree are its entries, with their path *)
Lemma visits_elem flgs e silent h path k p :
  wf e -> (before flgs || after flgs) = true ->
  (k, p) ∈ visits flgs silent e h path <->
  exists j x, k = h ++ j /\ sub j e = Some x /\ emits flgs (silent && bool_decide (j = [])) x = true /\
    p = path_text flgs j e (path_in flgs silent path e).
Proof.
  intros He Hba. revert silent h path. induction e as [n f v l IH] using entry_ind.
  intros silent h path. cbn [visits children]. rewrite !elem_of_app, elem_flat_map.
  set (e := Entry n f v l) in *. set (memo := path_in _ _ _ _).
  assert (Hchild : forall c, c ∈ l -> find_child (name c) l = Some c /\ wf c /\
     forall silent h path, (k, p) ∈ visits flgs silent c h path <->
       exists j x, k = h ++ j /\ sub j c = Some x /\
         emits flgs (silent && bool_decide (j = [])) x = true /\
         p = path_text flgs j c (path_in flgs silent path c)).
  { intros c Hc. inversion_clear He as [? ? ? ? Hd _ Hw]. rewrite Forall_forall in IH, Hw. 
    split; [by apply find_child_elem|]. split; [auto|]. apply IH; auto. }
  trans ((emits flgs silent e = true /\ k = h /\ p = memo) \/
    exists c, c ∈ l /\ (k, p) ∈ visits flgs false c (h ++ [name c]) memo).
  { destruct (emits flgs silent e), (before flgs), (after flgs); simpl in *; try done;
      rewrite ?list_elem_of_singleton, ?elem_of_nil; naive_solver. }
  split.
  - intros [(Hm & -> & ->)|(c & Hc & Hv)].
    + exists [], e. rewrite app_nil_r, bool_decide_eq_true_2, andb_true_r by done. done.
    + destruct (Hchild c Hc) as (Hf & _ & Hrec). apply Hrec in Hv as (j & x & -> & Hs & Hm & ->).
      exists (name c :: j), x. rewrite bool_decide_eq_false_2, andb_false_r by done.
      simpl. rewrite Hf. split_and!; [by rewrite <-app_assoc|done..].
  - intros ([|m j] & x & -> & Hs & Hm & ->).
    + left. injection Hs as <-. rewrite app_nil_r.
      by destruct silent.
    + right. simpl in *. destruct (find_child m l) as [c|] eqn:Ef; [|done].
      pose proof (find_child_in _ _ _ Ef) as Hc. pose proof (find_child_name _ _ _ Ef) as <-.
      exists c. split; [done|]. apply Hchild; [done|]. exists j, x.
      rewrite andb_false_r in Hm. simpl.
      split_and!; [by rewrite <-app_assoc|done..].
Qed.

Lemma visits_under flgs e silent h path k p :
  (k, p) ∈ visits flgs silent e h path -> h `prefix_of` k.
Proof.
  revert silent h path. induction e as [n f v l IH] using entry_ind. intros silent h path.
  cbn [visits children]. rewrite !elem_of_app, elem_flat_map. rewrite Forall_forall in IH.
  set (memo := path_in _ _ _ _).
  intros [H|[(c & Hc & Hv)|H]]; [destruct (_ && _)| |destruct (_ && _)];
    try (apply list_elem_of_singleton in H); try (by apply elem_of_nil in H); try (by injection H as -> ->).
  apply IH in Hv; [|done]. etrans; [|done]. by apply prefix_app_r.
Qed.

(** an entry is visited once when the calls are either before or after *)
Lemma visits_NoDup flgs e silent h path :
  wf e -> (before flgs && after flgs) = false -> NoDup (visits flgs silent e h path).*1.
Proof.
  intros He Hba. revert silent h path. induction e as [n f v l IH] using entry_ind.
  intros silent h path. cbn [visits children]. set (memo := path_in _ _ _ _).
  assert (Hsub : forall k p, (k, p) ∈ flat_map (fun c => visits flgs false c (h ++ [name c]) memo) l ->
    exists c j, c ∈ l /\ k = h ++ name c :: j).
  { intros k p (c & Hc & Hv)%elem_flat_map. apply visits_under in Hv as [j ->].
    exists c, j. by rewrite <-app_assoc. }
  assert (Hflat : NoDup (flat_map (fun c => visits flgs false c (h ++ [name c]) memo) l).*1).
  { clear Hsub. inversion_clear He as [? ? ? ? Hd _ Hw]. induction l as [|c l IHl]; simpl; [constructor|].
    inversion IH as [|? ? Hc Hl]; subst. inversion Hw as [|? ? Hwc Hwl]; subst. simpl in Hd.
    apply NoDup_cons in Hd as [Hcl Hd]. rewrite fmap_app. apply NoDup_app. split_and!; auto.
    intros k ([k1 p1] & -> & Hv1)%list_elem_of_fmap ([k2 p2] & Heq & Hv2)%list_elem_of_fmap.
    simpl in Heq. subst k2. apply visits_under in Hv1 as [j1 ->].
    apply elem_flat_map in Hv2 as (d & Hdl & Hv2). apply visits_under in Hv2 as [j2 Hj].
    rewrite <-!app_assoc in Hj. apply app_inv_head in Hj. injection Hj as Hn _.
    apply Hcl. rewrite Hn. by apply list_elem_of_fmap_2. }
  set (rec := flat_map _ l) in *.
  assert (Hh : h ∉ rec.*1).
  { intros ([k p] & -> & Hv)%list_elem_of_fmap. apply Hsub in Hv as (c & j & _ & Hk). simpl in Hk.
    apply (f_equal length) in Hk. rewrite length_app in Hk. simpl in Hk. lia. }
  rewrite !fmap_app.
  destruct (emits _ _ _), (before flgs), (after flgs); simpl; try done;
    rewrite ?app_nil_r; try done; [by constructor|].
  apply NoDup_app. split_and!; [done| |apply NoDup_singleton].
  intros k Hk Hk'%list_elem_of_singleton. by subst.
Qed.

(** the iteration is after the children when no order is asked *)
Lemma after_default flgs :
  let flgs' := if (Z.land flgs (Z.lor PATH_ENTRY_FORALL_BEFORE PATH_ENTRY_FORALL_AFTER) =? 0)%Z
    then Z.lor flgs PATH_ENTRY_FORALL_AFTER else flgs in
  (forall m, Z.land PATH_ENTRY_FORALL_AFTER m = 0%Z -> has_flag flgs' m = has_flag flgs m) /\
  (before flgs' || after flgs') = true /\
  ((before flgs && after flgs) = false -> (before flgs' && after flgs') = false).
Proof.
  cbv zeta. unfold before, after, has_flag.
  destruct (_ =? 0)%Z eqn:E; [|split_and!; [done| |done]].
  - apply Z.eqb_eq in E. rewrite Z.land_lor_distr_r, Z.lor_eq_0_iff in E. destruct E as [E1 E2].
    split_and!.
    + intros m Hm. by rewrite Z.land_lor_distr_l, Hm, Z.lor_0_r.
    + by rewrite !Z.land_lor_distr_l, E1, E2.
    + by rewrite !Z.land_lor_distr_l, E1, E2.
  - apply Z.eqb_neq in E. rewrite Z.land_lor_distr_r, Z.lor_eq_0_iff in E.
    rewrite <-negb_andb, negb_true_iff, andb_false_iff, !Z.eqb_neq. lia.
Qed.

(** without the flag [a], both flags are not exactly [a] *)
Lemma land_two f a b :
  (0 < a)%Z -> Z.land a b = 0%Z -> has_flag f a = false -> (Z.land f (Z.lor a b) =? a)%Z = false.
Proof.
  intros Ha Hab Hf. unfold has_flag in Hf. apply negb_false_iff, Z.eqb_eq in Hf.
  apply Z.eqb_neq. rewrite Z.land_lor_distr_r, Hf, Z.lor_0_l. intros E.
  apply (f_equal (Z.land a)) in E. rewrite Z.land_diag, (Z.land_comm f b), Z.land_assoc, Hab in E.
  rewrite Z.land_0_l in E. lia.
Qed.

(** The flags of an iteration, its first path, and its visits. *)
Definition order_flags (flgs : Z) : Z :=
  if (Z.land flgs (Z.lor PATH_ENTRY_FORALL_BEFORE PATH_ENTRY_FORALL_AFTER) =? 0)%Z
  then Z.lor flgs PATH_ENTRY_FORALL_AFTER else flgs.

Definition first_path (flgs : Z) (prefix : bytes) : bytes :=
  if (Z.land (order_flags flgs) (Z.lor PATH_ENTRY_FORALL_ABSOLUTE PATH_ENTRY_FORALL_NO_PATH)
      =? PATH_ENTRY_FORALL_ABSOLUTE)%Z then prefix else [].

Definition all_visits (flgs : Z) (root : path_entry) (prefix : bytes) : list (handle * bytes) :=
  visits (order_flags flgs) false root [] (first_path flgs prefix).

Lemma extend_order flgs path e : extend (order_flags flgs) path e = extend flgs path e.
Proof. destruct (after_default flgs) as (Hsame & _). unfold extend, no_path. by rewrite Hsame. Qed.

Lemma path_text_order flgs k e path : path_text (order_flags flgs) k e path = path_text flgs k e path.
Proof.
  revert e path. induction k as [|n k IH]; intros e path; simpl; [done|].
  destruct (find_child n _); [|done]. by rewrite extend_order.
Qed.

Lemma fits_order flgs size silent e path :
  fits (order_flags flgs) size silent e path = fits flgs size silent e path.
Proof.
  destruct (after_default flgs) as (Hsame & _). revert silent path.
  induction e as [n f v l IH] using entry_ind. intros silent path. simpl.
  unfold too_long, no_path, path_in. rewrite Hsame, extend_order by done. f_equal.
  generalize (if silent then path else extend flgs path (Entry n f v l)). intros memo.
  induction IH as [|c l Hc Hl IHl]; simpl; [done|]. by rewrite Hc, IHl.
Qed.

(** without paths, nothing is too long *)
Lemma fits_no_path flgs size silent e path : no_path flgs = true -> fits flgs size silent e path = true.
Proof.
  intros Hn. revert silent path. induction e as [n f v l IH] using entry_ind. intros silent path.
  simpl. unfold too_long. rewrite Hn, andb_false_r. simpl. rewrite orb_true_r. simpl.
  generalize (path_in flgs silent path (Entry n f v l)). intros memo.
  induction IH as [|c l Hc Hl IHl]; simpl; [done|]. by rewrite Hc, IHl.
Qed.

(** An iteration calls the function along the visits of the tree. *)
Lemma for_each_run {S} (fun_ : S -> handle -> bytes -> S * Z) flgs root closure prefix :
  has_flag flgs PATH_ENTRY_FORALL_SILENT_ROOT = false ->
  (no_path flgs = false -> fits flgs PATH_MAX false root (first_path flgs prefix) = true) ->
  path_entry_for_each flgs (Some root) fun_ closure prefix = run fun_ (all_visits flgs root prefix) closure.
Proof.
  intros Hsil Hfit. unfold path_entry_for_each, path_entry_for_each_in_buffer.
  fold (order_flags flgs). fold (first_path flgs prefix). fold (no_path flgs).
  destruct (after_default flgs) as (Hsame & _). fold (order_flags flgs) in Hsame.
  rewrite Hsame, Hsil by done.
  destruct (no_path flgs) eqn:E; apply do_foreach_run; rewrite fits_order; auto using fits_no_path.
Qed.

Lemma all_visits_NoDup flgs root prefix :
  wf root -> (before flgs && after flgs) = false -> NoDup (all_visits flgs root prefix).*1.
Proof.
  intros Hwf Hba. destruct (after_default flgs) as (_ & _ & Hboth). apply visits_NoDup; auto.
Qed.

Lemma all_visits_elem flgs root prefix k p :
  wf root -> (k, p) ∈ all_visits flgs root prefix <->
  (if only_added flgs then added k root else is_Some (sub k root)) /\
  p = path_text flgs k root (extend flgs (first_path flgs prefix) root).
Proof.
  intros Hwf. destruct (after_default flgs) as (Hsame & Hsome & _).
  fold (order_flags flgs) in Hsame, Hsome. unfold all_visits.
  rewrite visits_elem by auto. unfold emits, path_in. simpl.
  unfold only_added. rewrite Hsame, extend_order by done.
  setoid_rewrite path_text_order. unfold added.
  destruct (has_flag flgs PATH_ENTRY_FORALL_ONLY_ADDED); simpl.
  - naive_solver.
  - unfold is_Some. naive_solver.
Qed.

Lemma all_visits_fst flgs root prefix k :
  wf root -> k ∈ (all_visits flgs root prefix).*1 <->
  (if only_added flgs then added k root else is_Some (sub k root)).
Proof.
  intros Hwf. rewrite list_elem_of_fmap. split.
  - intros ([j p] & -> & Hj). by apply all_visits_elem in Hj as [? _].
  - intros Hk. exists (k, path_text flgs k root (extend flgs (first_path flgs prefix) root)).
    split; [done|]. by apply all_visits_elem.
Qed.

(** Iterating without path overflow calls the function once on each
    entry of the tree (each added one when only these are asked), with the
    path of the entry, up to the first status that is not zero, which is
    the result. *)
Theorem for_each_visits {S} (fun_ : S -> handle -> bytes -> S * Z) flgs root closure prefix :
  wf root -> (before flgs && after flgs) = false ->
  has_flag flgs PATH_ENTRY_FORALL_SILENT_ROOT = false ->
  has_flag flgs PATH_ENTRY_FORALL_ABSOLUTE = false ->
  has_flag flgs PATH_ENTRY_FORALL_NO_PATH = false ->
  fits flgs PATH_MAX false root [] = true ->
  exists l, path_entry_for_each flgs (Some root) fun_ closure prefix = run fun_ l closure /\
    NoDup l.*1 /\
    forall k p, (k, p) ∈ l <->
      (if only_added flgs then added k root else is_Some (sub k root)) /\
      p = path_text flgs k root (extend flgs [] root).
Proof.
  intros Hwf Hba Hsil Habs Hnp Hfit. exists (all_visits flgs root prefix).
  assert (Hf : first_path flgs prefix = []).
  { unfold first_path. destruct (after_default flgs) as (Hsame & _). fold (order_flags flgs) in Hsame.
    by rewrite land_two by (done || by rewrite Hsame). }
  split_and!.
  - apply for_each_run; [done|]. by rewrite Hf.
  - by apply all_visits_NoDup.
  - intros k p. by rewrite all_visits_elem, Hf.
Qed.

Lemma for_each_visits_witness :
  path_entry_for_each PATH_ENTRY_FORALL_ONLY_ADDED (Some sample)
    (fun c (h : handle) p => (c ++ [p], 0%Z)) [] [] = ([B "/usr/bin"], 0%Z) /\
  exists l, NoDup l.*1 /\ forall k p, (k, p) ∈ l <-> added k sample /\
    p = path_text PATH_ENTRY_FORALL_ONLY_ADDED k sample [].
Proof.
  split; [vm_compute; reflexivity|].
  destruct (for_each_visits (fun c (h : handle) p => (c ++ [p], 0%Z)) PATH_ENTRY_FORALL_ONLY_ADDED
    sample [] [] wf_sample eq_refl eq_refl eq_refl eq_refl) as (l & _ & Hn & Hl).
  { vm_compute. reflexivity. }
  exists l. split; [exact Hn|exact Hl].
Defined.

(** ** The text of a path in a buffer *)

(** what a buffer [b] of former content [b0] holds after the text [t] *)
Definition holds (t b b0 : bytes) : Prop :=
  length b = length b0 /\ take (length t) b = take (length b0) t /\
  drop (S (length t)) b = drop (S (length t)) b0.

Lemma holds_nil b : holds [] b b.
Proof. split; [done|]. split; [|done]. simpl. by rewrite take_nil. Qed.

Lemma holds_store t b0 : holds t (store (t ++ [NUL]) b0) b0.
Proof.
  unfold store. rewrite length_app. simpl. set (n := length b0).
  destruct (decide (length t < n)) as [H|H].
  - rewrite (take_ge (t ++ [NUL])) by (rewrite length_app; simpl; lia).
    split_and!.
    + rewrite !length_app, length_drop. simpl. fold n. lia.
    + rewrite <-(assoc_L (++)), take_app_length, take_ge by lia. done.
    + rewrite drop_app_ge by (rewrite length_app; simpl; lia).
      rewrite length_app, drop_drop. simpl. f_equal. lia.
  - rewrite (drop_ge b0), app_nil_r, take_app_le by (fold n; lia). split_and!.
    + rewrite length_take. lia.
    + rewrite take_take. f_equal. lia.
    + rewrite !drop_ge; rewrite ?length_take; fold n; lia || done.
Qed.

(** the name written at its offset, as far as the buffer holds *)
Lemma put_store p nm r :
  (if bool_decide (length p < length (p ++ r)) then
     if bool_decide (length p + length nm < length (p ++ r))
     then list_inserts (length p) (nm ++ [NUL]) (p ++ r)
     else list_inserts (length p) (take (length (p ++ r) - length p) nm) (p ++ r)
   else p ++ r) = store (p ++ nm ++ [NUL]) (p ++ r).
Proof.
  unfold store. rewrite !length_app. simpl.
  rewrite take_app_ge, drop_app_ge, <-(assoc_L (++)) by lia.
  replace (length p + length r - length p) with (length r) by lia.
  replace (length p + (length nm + 1) - length p) with (length nm + 1) by lia.
  case_bool_decide; [case_bool_decide|].
  - rewrite inserts_app by (rewrite length_app; simpl; lia). f_equal.
    rewrite take_ge, length_app by (rewrite length_app; simpl; lia). done.
  - rewrite inserts_app by (rewrite length_take; lia). f_equal.
    rewrite length_take, !drop_ge by lia. rewrite take_app_le by lia. done.
  - destruct r; [|simpl in *; lia]. by rewrite drop_nil.
Qed.

Lemma put_name_spec top rh slash t b b0 :
  name_at top rh <> [] -> holds t b b0 ->
  let t' := t ++ (if slash : bool then [SLASH] else []) ++ name_at top rh in
  put_name top rh slash (length t) b (length b0) = (length t', store (t' ++ [NUL]) b0).
Proof.
  intros Hne (Hlen & Htake & Hdrop). cbv zeta. unfold put_name.
  set (nm := name_at top rh) in *. assert (0 < length nm) by (destruct nm; simpl; [done|lia]).
  destruct (decide (length t < length b0)) as [Ht|Ht].
  - rewrite (take_ge t) in Htake by lia. rewrite (bool_decide_eq_true_2 (length t < _)) by done.
    pose proof (take_drop (length t) b) as Hb. rewrite Htake in Hb.
    destruct (drop (length t) b) as [|x r]; [apply (f_equal length) in Hb; rewrite app_nil_r in Hb; lia|].
    subst b. rewrite drop_app_ge in Hdrop by lia.
    replace (S (length t) - length t) with 1 in Hdrop by lia. simpl in Hdrop. rewrite drop_0 in Hdrop.
    assert (Hfin : forall p q, length p = S (length t) \/ length p = length t /\ length q = S (length r) ->
      drop (S (length t)) (p ++ q) = r -> length (p ++ q) = length b0 ->
      (if bool_decide (length p < length b0) then
         if bool_decide (length p + length nm < length b0)
         then list_inserts (length p) (nm ++ [NUL]) (p ++ q)
         else list_inserts (length p) (take (length b0 - length p) nm) (p ++ q)
       else p ++ q) = store (p ++ nm ++ [NUL]) b0).
    { intros p q Hp Hq Hl. rewrite <-Hl, put_store. apply store_eq; [done|].
      rewrite !length_app. simpl.
      replace (length p + (length nm + 1)) with (S (length t) + (length p + length nm - length t)) by lia.
      rewrite <-(drop_drop (p ++ q)), <-(drop_drop b0). by rewrite Hq, <-Hdrop. }
    rewrite length_app in Hlen. simpl in Hlen. destruct slash; f_equal; rewrite ?length_app; simpl; try lia.
    + rewrite insert_app_r_alt, Nat.sub_diag by lia. simpl.
      replace (t ++ SLASH :: r) with ((t ++ [SLASH]) ++ r) by (by rewrite <-(assoc_L (++))).
      replace (S (length t)) with (length (t ++ [SLASH])) by (rewrite length_app; simpl; lia).
      replace (S (length t + length nm)) with (length (t ++ [SLASH]) + length nm)
        by (rewrite length_app; simpl; lia).
      rewrite Hfin; [by rewrite <-!(assoc_L (++))| | |];
        rewrite ?drop_app_length', ?length_app by (rewrite length_app; simpl; lia); simpl; auto; lia.
    + rewrite Hfin; [by rewrite <-!(assoc_L (++))|by right| |by rewrite length_app].
      rewrite drop_app_ge by lia. by replace (S (length t) - length t) with 1 by lia.
  - rewrite (bool_decide_eq_false_2 (length t < _)) by lia.
    rewrite take_ge in Htake by lia. subst b.
    destruct slash; simpl; rewrite (bool_decide_eq_false_2 (length t < _)) by lia.
    all: unfold store; f_equal; rewrite ?length_app; simpl; [lia|].
    all: rewrite drop_ge, app_nil_r by (rewrite ?length_app; simpl; lia).
    all: by rewrite <-(assoc_L (++)), take_app_le by lia.
Qed.

Lemma path_text_snoc flgs h n e path x c :
  sub h e = Some x -> find_child n (children x) = Some c ->
  path_text flgs (h ++ [n]) e path = extend flgs (path_text flgs h e path) c.
Proof.
  revert e path. induction h as [|m h IH]; intros e path; simpl; [by intros [= ->] ->|].
  destruct (find_child m (children e)) as [d|]; [apply IH|done].
Qed.

Lemma wf_child_ok e c : wf e -> c ∈ children e -> ok_name (name c).
Proof. intros [n f v l _ Hok _] Hc. rewrite Forall_forall in Hok. auto. Qed.

Lemma path_text_nonempty flgs h e path :
  wf e -> h <> [] -> is_Some (sub h e) -> no_path flgs = false -> path_text flgs h e path <> [].
Proof.
  intros He Hh Hs Hnp. revert e path He Hs. induction h as [|n h IH]; intros e path He Hs; [done|].
  simpl in *. destruct (find_child n (children e)) as [c|] eqn:Ef; [|by destruct Hs].
  pose proof (find_child_in _ _ _ Ef) as Hin. destruct (wf_child_ok _ _ He Hin) as [Hne _].
  destruct h as [|m h]; [|apply IH; eauto using wf_find_child].
  simpl. unfold extend. rewrite Hnp, bool_decide_eq_false_2 by done. simpl. intros H.
  apply app_nil in H as [_ [_ H]%app_nil]. done.
Qed.

(** The path of an existing entry from the top of its tree. *)
Lemma relpath_text top h x b :
  wf top -> name top = [] -> sub h top = Some x -> h <> [] ->
  path_entry_relpath top None 0 (rev h) b (length b) =
  Some (length (path_text 0 h top []), store (path_text 0 h top [] ++ [NUL]) b).
Proof.
  intros Hwf Htop. revert x. induction h as [|n h IH] using rev_ind; intros x Hs Hne; [done|].
  rewrite sub_app in Hs. destruct (sub h top) as [y|] eqn:Ey; [|done]. simpl in Hs.
  destruct (find_child n (children y)) as [c|] eqn:Ef; [|done]. injection Hs as ->.
  assert (Hsub : sub (h ++ [n]) top = Some x) by (rewrite sub_app, Ey; simpl; by rewrite Ef).
  pose proof (find_child_in _ _ _ Ef) as Hin. pose proof (find_child_name _ _ _ Ef) as Hnx.
  assert (Hname : name x <> []) by (apply (wf_child_ok y); eauto using wf_sub).
  rewrite (path_text_snoc _ _ _ _ _ _ _ Ey Ef). unfold extend at 1 2.
  rewrite (bool_decide_eq_false_2 (name x = [])) by done. simpl.
  rewrite rev_app_distr. simpl.
  assert (Hat : name_at top (n :: rev h) = name x).
  { unfold name_at. simpl. by rewrite rev_involutive, Hsub. }
  rewrite (bool_decide_eq_false_2 (name_at top (n :: rev h) = [])) by by rewrite Hat.
  assert (Hsl : has_slash_at top (n :: rev h) = has_slash x).
  { unfold has_slash_at. simpl. by rewrite rev_involutive, Hsub. }
  rewrite Hsl. change (forced 0) with false. simpl.
  destruct (decide (h = [])) as [->|Hh].
  - simpl in Hat |- *. unfold at_start. simpl. rewrite (bool_decide_eq_true_2 (name_at top [] = [])) by exact Htop.
    change 0 with (length (@nil ascii)).
    rewrite (put_name_spec top [n] (has_slash x) [] b b); [|by rewrite Hat|apply holds_nil].
    simpl. by rewrite Hat.
  - pose proof (path_text_nonempty 0 h top [] Hwf Hh ltac:(eauto) eq_refl) as Htne.
    assert (Hp : name_at top (rev h) <> []).
    { unfold name_at. rewrite rev_involutive, Ey.
      destruct h as [|m h _] using rev_ind; [done|]. rewrite sub_app in Ey.
      destruct (sub h top) as [z|] eqn:Ez; [|done]. simpl in Ey.
      destruct (find_child m (children z)) as [d|] eqn:Ed; [|done]. injection Ey as <-.
      apply (wf_child_ok z); eauto using wf_sub, find_child_in. }
    assert (Hstart : at_start top None (rev h) = false).
    { unfold at_start. destruct (rev h) as [|m r] eqn:Er; simpl.
      - apply (f_equal (@rev bytes)) in Er. rewrite rev_involutive in Er. done.
      - rewrite (bool_decide_eq_false_2 (name_at top (m :: r) = [])) by done. 
        by rewrite (bool_decide_eq_false_2 (name_at top (m :: r) = [])). }
    rewrite Hstart, (IH y eq_refl Hh).
    rewrite (put_name_spec _ _ true _ _ b); [|by rewrite Hat|apply holds_store].
    rewrite Hat, (bool_decide_eq_false_2 (path_text 0 h top [] = [])) by done. done.
Qed.

(** The path of an entry of a tree is written at the start of the
    buffer, with its final NUL, as far as the buffer holds it; the length
    of the whole path is returned, so that a result lower than the size of
    the buffer means that the path is complete. *)
Theorem get_path_text top h b :
  wf top -> name top = [] -> is_Some (sub h top) -> h <> [] ->
  path_entry_get_path top (rev h) b (length b) =
  Some (length (path_text 0 h top []), store (path_text 0 h top [] ++ [NUL]) b).
Proof. intros Hwf Htop [x Hx] Hh. by eapply relpath_text. Qed.

Lemma get_path_text_witness :
  path_entry_get_path sample [B "bin"; B "usr"] (B "0123456789") 10 =
  Some (8, B "/usr/bin" ++ [NUL] ++ B "9").
Proof.
  exact (get_path_text sample [B "usr"; B "bin"] (B "0123456789") wf_sample eq_refl
    (mk_is_Some _ _ eq_refl) ltac:(done)).
Defined.

(** Asked with a forced leading slash, the path of the top of a tree,
    which has no name, dereferences a null pointer. *)
Theorem forced_root_path top b n :
  name top = [] -> path_entry_path top [] b n PATH_ENTRY_FORCE_LEADING_SLASH = None.
Proof. intros Hn. unfold path_entry_path. simpl.
  by rewrite (bool_decide_eq_true_2 (name_at top [] = [])).
Qed.

Lemma forced_root_path_witness :
  path_entry_path sample [] [] 0 PATH_ENTRY_FORCE_LEADING_SLASH = None.
Proof. by apply (forced_root_path sample [] 0). Defined.

End path_entry.
