(* ===== verification/PathVars.v ===== *)
(** * The shape of a tree of files

    Setting variables on the entries of a tree changes neither its entries
    nor their flags: the trees have the same shape, and what depends on the
    shape only (iterations, paths, searches) is the same for both. *)
From S2P Require Import Prelude CString PathEntry.

Module path_vars.
Import path_entry.

(** a tree without its variables *)
Fixpoint erase (e : path_entry) : path_entry :=
  let 'Entry n f _ l := e in Entry n f [] (map erase l).

Definition same_shape (e e' : path_entry) : Prop := erase e = erase e'.

#[export] Instance same_shape_equiv : Equivalence same_shape.
Proof.
  split; unfold same_shape; [done|by intros ??|]. intros ??? -> ->. done.
Qed.

(** the variables of an entry *)
Definition vars_at (t : path_entry) (k : handle) : list var_t :=
  match sub k t with Some e => vars e | None => [] end.

Lemma name_erase e : name (erase e) = name e.
Proof. by destruct e. Qed.

Lemma flags_erase e : flags (erase e) = flags e.
Proof. by destruct e. Qed.

Lemma children_erase e : children (erase e) = map erase (children e).
Proof. by destruct e. Qed.

Lemma find_child_erase n l : find_child n (map erase l) = erase <$> find_child n l.
Proof. induction l as [|c l IH]; simpl; [done|]. rewrite name_erase. by destruct (beq _ _). Qed.

Lemma sub_erase h e : sub h (erase e) = erase <$> sub h e.
Proof.
  revert e. induction h as [|n h IH]; intros e; simpl; [done|].
  rewrite children_erase, find_child_erase. destruct (find_child n (children e)); simpl; auto.
Qed.

Lemma added_erase h e : added h (erase e) <-> added h e.
Proof.
  unfold added. rewrite sub_erase. unfold path_entry_was_added.
  destruct (sub h e) as [x|]; simpl; [|naive_solver]. pose proof (flags_erase x). naive_solver congruence.
Qed.

Lemma extend_erase flgs path e : extend flgs path (erase e) = extend flgs path e.
Proof. unfold extend, has_slash. by rewrite name_erase, flags_erase. Qed.

Lemma path_text_erase flgs h e path : path_text flgs h (erase e) path = path_text flgs h e path.
Proof.
  revert e path. induction h as [|n h IH]; intros e path; simpl; [done|].
  rewrite children_erase, find_child_erase. destruct (find_child n (children e)); simpl; [|done].
  by rewrite extend_erase.
Qed.

Lemma visits_erase flgs silent e h path : visits flgs silent (erase e) h path = visits flgs silent e h path.
Proof.
  revert silent h path. induction e as [n f v l IH] using entry_ind. intros silent h path. simpl.
  unfold path_in. change (Entry n f [] (map erase l)) with (erase (Entry n f v l)). rewrite extend_erase.
  unfold emits, path_entry_was_added. rewrite flags_erase. f_equal. f_equal.
  generalize (if silent then path else extend flgs path (Entry n f v l)). intros memo.
  induction IH as [|c l Hc Hl IHl]; simpl; [done|]. by rewrite IHl, Hc, name_erase.
Qed.

Lemma fits_erase flgs size silent e path : fits flgs size silent (erase e) path = fits flgs size silent e path.
Proof.
  revert silent path. induction e as [n f v l IH] using entry_ind. intros silent path. simpl.
  unfold path_in, too_long. change (Entry n f [] (map erase l)) with (erase (Entry n f v l)).
  rewrite extend_erase, name_erase. f_equal.
  generalize (if silent then path else extend flgs path (Entry n f v l)). intros memo.
  induction IH as [|c l Hc Hl IHl]; simpl; [done|]. by rewrite IHl, Hc.
Qed.

Lemma wf_erase e : wf (erase e) <-> wf e.
Proof.
  induction e as [n f v l IH] using entry_ind. simpl.
  assert (Hn : name <$> map erase l = name <$> l).
  { clear IH. induction l as [|c l IH]; [done|]. exact (f_equal2 cons (name_erase c) IH). }
  assert (Ho : Forall (fun c => ok_name (name c)) (map erase l) <-> Forall (fun c => ok_name (name c)) l).
  { clear IH Hn. change (map erase l) with (erase <$> l). rewrite Forall_fmap.
    apply Forall_iff. intros c. simpl. by rewrite name_erase. }
  assert (Hw : Forall wf (map erase l) <-> Forall wf l).
  { clear Hn Ho. induction IH as [|c l Hc Hl IHl]; simpl; [split; constructor|].
    rewrite !Forall_cons. naive_solver. }
  split; intros Hwf; inversion Hwf as [? ? ? ? Hd Hok Hl]; subst.
  - constructor; [by rewrite <-Hn|by apply Ho|by apply Hw].
  - constructor; [by rewrite Hn|by apply Ho|by apply Hw].
Qed.

Lemma erase_alter_child f n l :
  (forall c, erase (f c) = erase c) -> map erase (alter_child f n l) = map erase l.
Proof.
  intros Hf. induction l as [|c l IH]; simpl; [done|].
  destruct (beq (name c) n); simpl; congruence.
Qed.

Lemma erase_alter_vars (v : path_entry -> list var_t) h e :
  erase (alter_at (fun x => with_vars x (v x)) h e) = erase e.
Proof.
  revert e. induction h as [|n h IH]; intros [m f w l]; simpl; [done|].
  by rewrite erase_alter_child.
Qed.

Lemma sub_same_shape h e e' : erase e = erase e' -> is_Some (sub h e) -> is_Some (sub h e').
Proof.
  intros He [x Hx]. pose proof (sub_erase h e) as H1. rewrite He, sub_erase, Hx in H1.
  destruct (sub h e'); [by eexists|done].
Qed.

(** the visited paths fit in the buffer *)
Lemma visits_fit flgs size e silent h path k p :
  fits flgs size silent e path = true -> no_path flgs = false ->
  (silent = false -> length path < size \/ name e <> []) ->
  wf e -> (k, p) ∈ visits flgs silent e h path -> length p < size.
Proof.
  intros Hf Hnp. revert silent h path Hf. induction e as [n f v l IH] using entry_ind.
  intros silent h path Hf Hl Hwf. cbn [fits visits children] in *.
  apply andb_true_iff in Hf as [Hlong Hf]. rewrite forallb_forall in Hf. rewrite Forall_forall in IH.
  set (memo := path_in _ _ _ _) in *. rewrite !elem_of_app, elem_flat_map.
  assert (Hm : silent = false -> length memo < size).
  { intros ->. subst memo. unfold path_in, extend, too_long in *. simpl in *.
    rewrite Hnp in *. simpl in *. destruct (decide (n = [])) as [->|Hn].
    - simpl. destruct (Hl eq_refl) as [?|Hne]; [done|by destruct Hne].
    - rewrite (bool_decide_eq_false_2 (n = [])) in * by done. simpl in *.
      apply negb_true_iff, bool_decide_eq_false in Hlong. rewrite !length_app.
      destruct (negb _ || _); simpl; lia. }
  intros [Hx|[(c & Hc & Hx)|Hx]].
  - destruct silent; simpl in Hx; [by apply elem_of_nil in Hx|]. destruct (_ && _).
    + apply list_elem_of_singleton in Hx. injection Hx as -> ->. auto.
    + by apply elem_of_nil in Hx.
  - inversion_clear Hwf as [? ? ? ? _ Hok Hw]. rewrite Forall_forall in Hok, Hw.
    eapply IH in Hx; eauto.
    + apply Hf. by apply list_elem_of_In.
    + intros _. right. by destruct (Hok c Hc).
  - destruct silent; simpl in Hx; [by apply elem_of_nil in Hx|]. destruct (_ && _).
    + apply list_elem_of_singleton in Hx. injection Hx as -> ->. auto.
    + by apply elem_of_nil in Hx.
Qed.

(** ** Trees of the same shape *)

Section Shape.
Context (e e' : path_entry) (Hs : same_shape e e').

Lemma shape_sub h : is_Some (sub h e) <-> is_Some (sub h e').
Proof using Hs.
  pose proof (sub_erase h e) as E. rewrite Hs, sub_erase in E. unfold is_Some.
  destruct (sub h e), (sub h e'); simplify_eq/=; naive_solver.
Qed.

Lemma shape_added h : added h e <-> added h e'.
Proof using Hs. rewrite <-(added_erase h e), Hs. apply added_erase. Qed.

Lemma shape_name : name e = name e'.
Proof using Hs. by rewrite <-(name_erase e), Hs, name_erase. Qed.

Lemma shape_path_text flgs h path : path_text flgs h e path = path_text flgs h e' path.
Proof using Hs. by rewrite <-(path_text_erase _ _ e), Hs, path_text_erase. Qed.

Lemma shape_visits flgs silent h path : visits flgs silent e h path = visits flgs silent e' h path.
Proof using Hs. by rewrite <-(visits_erase _ _ e), Hs, visits_erase. Qed.

Lemma shape_all_visits flgs prefix : all_visits flgs e prefix = all_visits flgs e' prefix.
Proof using Hs. apply shape_visits. Qed.

Lemma shape_fits flgs size silent path : fits flgs size silent e path = fits flgs size silent e' path.
Proof using Hs. by rewrite <-(fits_erase _ _ _ e), Hs, fits_erase. Qed.

Lemma shape_wf : wf e <-> wf e'.
Proof using Hs. by rewrite <-(wf_erase e), Hs, wf_erase. Qed.

End Shape.

(** ** Setting variables *)

(** the variables of the entry [k] become [v] *)
Definition set_vars (k : handle) (v : list var_t) (t : path_entry) : path_entry :=
  alter_at (fun x => with_vars x v) k t.

Lemma set_vars_shape k v t : same_shape (set_vars k v t) t.
Proof. apply (erase_alter_vars (fun _ => v)). Qed.

Lemma vars_at_set_vars k v t j :
  is_Some (sub k t) -> vars_at (set_vars k v t) j = if bool_decide (j = k) then v else vars_at t j.
Proof.
  intros [x Hx]. pose proof (info_alter_at (fun x => with_vars x v) k j t ltac:(done)) as Hi.
  fold (set_vars k v t) in Hi. unfold vars_at, info in *. rewrite Hx in Hi.
  case_bool_decide.
  - destruct (sub j (set_vars k v t)); simplify_eq/=. done.
  - destruct (sub j (set_vars k v t)), (sub j t); simplify_eq/=; done.
Qed.

Lemma search_assign l key v d key' :
  search_var l key <> None ->
  search_var (assign_var l key v d) key' =
  if bool_decide (key' = key) then Some (mk_var key v d) else search_var l key'.
Proof.
  induction l as [|x l IH]; simpl; [done|]. destruct (Z.eqb_spec key (var_key x)) as [->|Hn]; simpl.
  - intros _. destruct (Z.eqb_spec key' (var_key x)) as [->|]; [by rewrite bool_decide_eq_true_2|].
    by rewrite bool_decide_eq_false_2.
  - intros Hl. destruct (Z.eqb_spec key' (var_key x)) as [->|]; [|by apply IH].
    rewrite bool_decide_eq_false_2; congruence.
Qed.

(** ** Texts of paths *)

Lemma path_text_flags f f' h e path : no_path f = no_path f' -> path_text f h e path = path_text f' h e path.
Proof.
  intros Hf. revert e path. induction h as [|n h IH]; intros e path; simpl; [done|].
  destruct (find_child n (children e)) as [c|]; [|done]. unfold extend. by rewrite Hf.
Qed.

Lemma fits_flags f f' size silent e path :
  no_path f = no_path f' -> fits f size silent e path = fits f' size silent e path.
Proof.
  intros Hf. revert silent path. induction e as [n g v l IH] using entry_ind. intros silent path. simpl.
  unfold too_long, path_in, extend. rewrite Hf. f_equal.
  generalize (if silent then path else if negb (bool_decide (name (Entry n g v l) = [])) && negb (no_path f')
    then path ++ (if negb (bool_decide (path = [])) || has_slash (Entry n g v l) then [SLASH] else [])
           ++ name (Entry n g v l) else path). intros memo.
  induction IH as [|c l Hc Hl IHl]; simpl; [done|]. by rewrite IHl, Hc.
Qed.

Lemma fits_path_text flgs size h e path :
  wf e -> fits flgs size false e path = true -> no_path flgs = false -> h <> [] \/ name e <> [] ->
  is_Some (sub h e) -> length (path_text flgs h e (extend flgs path e)) < size.
Proof.
  intros Hwf Hf Hnp. revert e path Hwf Hf. induction h as [|n h IH]; intros e path Hwf Hf Hh Hs.
  - destruct Hh as [?|Hn]; [done|]. destruct e as [n f v l]. simpl in *.
    apply andb_true_iff in Hf as [Hl _]. unfold too_long, extend in *. simpl in *.
    rewrite Hnp, (bool_decide_eq_false_2 (n = [])) in * by done. simpl in *. bool_hyps.
    rewrite !length_app. destruct (negb _ || _); simpl; lia.
  - simpl in *. destruct (find_child n (children e)) as [c|] eqn:Ef; [|by destruct Hs].
    pose proof (find_child_in _ _ _ Ef) as Hin.
    apply IH; [by eapply wf_find_child| |by right; eapply (wf_child_ok e c)|done].
    destruct e as [m f v l]. simpl in *. apply andb_true_iff in Hf as [_ Hf].
    rewrite forallb_forall in Hf. by apply Hf, list_elem_of_In.
Qed.

(** The components of the path of an entry are its handle. *)
Lemma components_path_text h e :
  wf e -> is_Some (sub h e) -> components (path_text 0 h e []) = h.
Proof.
  intros Hwf. induction h as [|n h IH] using rev_ind; intros [x Hx]; [done|].
  rewrite sub_app in Hx. destruct (sub h e) as [y|] eqn:Ey; [|done]. simpl in Hx.
  destruct (find_child n (children y)) as [c|] eqn:Ef; [|done].
  pose proof (find_child_name _ _ _ Ef) as <-. rewrite (path_text_snoc _ _ _ _ _ _ _ Ey Ef).
  destruct (wf_child_ok y c) as [Hne Hok]; eauto using wf_sub, find_child_in.
  unfold extend. rewrite bool_decide_eq_false_2 by done. simpl.
  destruct (decide (h = [])) as [->|Hh].
  - simpl. unfold components, words_of. destruct (has_slash c); simpl; by rewrite words_from_word.
  - rewrite bool_decide_eq_false_2 by (eapply path_text_nonempty; eauto). simpl.
    unfold components, words_of. rewrite words_from_sep by by apply bool_decide_eq_true_2.
    fold (words_of is_slash (path_text 0 h e [])). fold (components (path_text 0 h e [])).
    rewrite IH by done. f_equal. unfold words_of. by rewrite words_from_word.
Qed.

(** ** Iterations that always go on *)

Lemma run_foldl {S} (f : S -> handle -> bytes -> S * Z) l c :
  (forall c h p, (f c h p).2 = 0%Z) ->
  run f l c = (foldl (fun c hp => (f c hp.1 hp.2).1) c l, 0%Z).
Proof.
  intros Hf. revert c. induction l as [|[h p] l IH]; intros c; simpl; [done|].
  rewrite (surjective_pairing (f c h p)), Hf. simpl. apply IH.
Qed.

End path_vars.
