(* ===== verification/PathType.v ===== *)
(** * Types of paths and mime types: [src/src/utils/path-type.c] and
    [src/src/utils/mime-type.c] *)
From S2P Require Import Prelude CString.

Module path_type.

(** ** Types of paths *)

Inductive path_type :=
  | Unset | Default | Conf | Data | Exec | Http | Icon | Id | Lib | Plug
  | Public | Public_Exec | Public_Lib.

#[export] Instance path_type_eq : EqDecision path_type.
Proof. solve_decision. Defined.

(** the values of the enumeration in C *)
Definition value (t : path_type) : Z :=
  match t with
  | Unset => 0 | Default => 1 | Conf => 2 | Data => 3 | Exec => 4 | Http => 5 | Icon => 6
  | Id => 7 | Lib => 8 | Plug => 9 | Public => 10 | Public_Exec => 11 | Public_Lib => 12
  end.
Definition count_ : Z := 13.

Definition path_type_slm : list bytes :=
  [B "default"; B "default"; B "conf"; B "data"; B "exec"; B "http"; B "icon"; B "id"; B "lib";
   B "plug"; B "public"; B "public"; B "public"].

(** type, key, directory *)
Definition filetypes : list (path_type * bytes * option bytes) :=
  [(Conf, B "config", Some (B "etc"));
   (Data, B "data", None);
   (Exec, B "executable", Some (B "bin"));
   (Http, B "www", Some (B "htdocs"));
   (Lib, B "library", Some (B "lib"));
   (Plug, B "plug", None);
   (Public, B "public", Some (B "public"));
   (Public_Exec, B "public-executable", None);
   (Public_Lib, B "public-library", None)].

(** the loop that goes down from the last row *)
Fixpoint search (P : path_type * bytes * option bytes -> bool)
  (rows : list (path_type * bytes * option bytes)) : path_type :=
  match rows with
  | [] => Unset
  | row :: rows' => if P row then row.1.1 else search P rows'
  end.

Definition path_type_of_property_key (key : bytes) : path_type :=
  search (fun row => beq key row.1.2) (rev filetypes).

Definition path_type_of_dirname (dir : bytes) : path_type :=
  search (fun row => match row.2 with Some d => beq dir d | None => false end) (rev filetypes).

(** [type] is any value given for the enumeration *)
Definition path_type_for_slm (type : Z) : option bytes :=
  if ((type <? value Unset) || (type >=? count_))%Z then None
  else path_type_slm !! Z.to_nat type.

(** ** Mime types *)

Definition exec_type_strings : list bytes :=
  [B "application/x-executable"; B "application/vnd.redpesk.native"; B "application/vnd.agl.native"].

(** [while (i && rc == 0)], from the last one *)
Fixpoint mime_loop (type : bytes) (l : list bytes) (rc : bool) : bool :=
  match l with
  | [] => rc
  | x :: l' => if rc then rc else mime_loop type l' (strcaseeq type x)
  end.

Definition mime_type_is_executable (type : bytes) : bool :=
  mime_loop type (rev exec_type_strings) false.

(** ** Lemmas *)

Lemma search_Some P rows t :
  t <> Unset -> search P rows = t -> exists row, row ∈ rows /\ P row = true /\ row.1.1 = t.
Proof.
  intros Ht. induction rows as [|row rows IH]; simpl; [congruence|].
  destruct (P row) eqn:E.
  - intros <-. exists row. split; [left|done].
  - intros H. destruct (IH H) as (r & Hr & HP). exists r. split; [by right|done].
Qed.

Lemma mime_loop_spec type l rc :
  mime_loop type l rc = true <-> rc = true \/ exists x, x ∈ l /\ strcaseeq type x = true.
Proof.
  revert rc. induction l as [|x l IH]; intros rc; simpl.
  - split; [by left|]. intros [|(x & Hx & _)]; [done|by apply elem_of_nil in Hx].
  - destruct rc; [by split; [left|]|]. rewrite IH. setoid_rewrite elem_of_cons. naive_solver.
Qed.

(** the keys of the table are distinct, in a form that computes *)
Lemma filetypes_keys t k d :
  (t, k, d) ∈ filetypes -> path_type_of_property_key k = t /\ t <> Unset /\ t <> Default.
Proof.
  intros H. unfold filetypes in H.
  repeat (apply elem_of_cons in H as [[= -> -> ->]|H]; [by split; [vm_compute|]|]).
  by apply elem_of_nil in H.
Qed.

(** ** Properties *)

(** A property key gives a type exactly when the table has a row for
    both, the result for any other key being the unset type; every type of
    the enumeration, and nothing else, has a name for the security manager. *)
Theorem path_type_of_key_spec (key : bytes) (t : path_type) (type : Z) :
  (path_type_of_property_key key = t <->
   (exists d, (t, key, d) ∈ filetypes) \/
   (t = Unset /\ forall t' d, (t', key, d) ∉ filetypes)) /\
  (is_Some (path_type_for_slm type) <-> exists u, value u = type).
Proof.
  split.
  - split.
    + intros Hk. destruct (decide (t = Unset)) as [->|Ht].
      * right. split; [done|]. intros t' d Hin. apply filetypes_keys in Hin as (Hk' & Hne & _).
        congruence.
      * left. apply search_Some in Hk as ([[t' k] d] & Hin & Hkey & <-); [|done].
        apply beq_true in Hkey. cbn [fst snd] in *. subst. exists d.
        rewrite list_elem_of_In, <-in_rev, <-list_elem_of_In in Hin. done.
    + intros [[d Hin]|[-> Hno]].
      * by apply filetypes_keys in Hin as [].
      * destruct (decide (path_type_of_property_key key = Unset)) as [|Hne]; [done|].
        pose proof (search_Some _ _ _ Hne eq_refl) as ([[t' k] d] & Hin & Hkey & _).
        apply beq_true in Hkey. cbn [fst snd] in *. subst. destruct (Hno t' d).
        rewrite list_elem_of_In, <-in_rev, <-list_elem_of_In in Hin. done.
  - unfold path_type_for_slm. split.
    + destruct (_ || _)%Z eqn:E; [by intros []|]. intros _. apply orb_false_iff in E as [E1 E2].
      unfold count_, value in *.
      assert (H : type ∈ seqZ 0 13) by (apply elem_of_seqZ; lia).
      assert (Hall : Forall (fun z => exists u, value u = z) (seqZ 0 13)).
      { vm_compute. repeat constructor; [by exists Unset|by exists Default|by exists Conf|
          by exists Data|by exists Exec|by exists Http|by exists Icon|by exists Id|by exists Lib|
          by exists Plug|by exists Public|by exists Public_Exec|by exists Public_Lib]. }
      rewrite Forall_forall in Hall. by apply Hall.
    + intros [u <-]. destruct u; vm_compute; eauto.
Qed.

(** a type is executable when it is one of the table, without case *)
Lemma mime_type_spec type :
  mime_type_is_executable type = true <->
  exists x, x ∈ exec_type_strings /\ strcaseeq type x = true.
Proof.
  unfold mime_type_is_executable. rewrite mime_loop_spec.
  setoid_rewrite list_elem_of_In. setoid_rewrite <-in_rev. naive_solver.
Qed.

End path_type.
