(* ===== verification/UnitFs.v ===== *)
(** * Files of units: [src/src/units/unit-fs.c] and [src/src/units/unit-desc.c]

    The text built by [snprintf] is computed whole; the functions fail with
    -1 when the buffer does not hold it with its NUL. *)
From S2P Require Import Prelude CString.

Module unit_fs.

(** ** Paths *)

(** [check_snprintf_result] for the text [s]: its length and the text, or
    [None] for -1 ([ENAMETOOLONG]) *)
Definition check_snprintf (s : bytes) (buflen : nat) : option bytes :=
  if bool_decide (length s < buflen) then Some s else None.

(** the value of [afm_units_root] is a state of the file *)
Definition units_fs_set_root_dir (afm_units_root : bytes) (dir : option bytes) : bytes * bytes :=
  (afm_units_root, default afm_units_root dir).

Section Root.
Context (afm_units_root : bytes).

Definition scope_dir (isuser : bool) : bytes := if isuser then B "user" else B "system".

Definition units_fs_get_afm_units_dir (pathlen : nat) (isuser : bool) : option bytes :=
  check_snprintf (afm_units_root ++ [SLASH] ++ scope_dir isuser) pathlen.

Definition unit_path_text (isuser : bool) (unit uext : bytes) : bytes :=
  afm_units_root ++ [SLASH] ++ scope_dir isuser ++ [SLASH] ++ unit ++ B "." ++ uext.

Definition units_fs_get_afm_unit_path (pathlen : nat) (isuser : bool) (unit uext : bytes) : option bytes :=
  check_snprintf (unit_path_text isuser unit uext) pathlen.

Definition wants_path_text (isuser : bool) (wanter unit uext : bytes) : bytes :=
  afm_units_root ++ [SLASH] ++ scope_dir isuser ++ [SLASH] ++ wanter ++ B ".wants/" ++
  unit ++ B "." ++ uext.

Definition units_fs_get_afm_wants_unit_path (pathlen : nat) (isuser : bool) (wanter unit uext : bytes)
  : option bytes :=
  check_snprintf (wants_path_text isuser wanter unit uext) pathlen.

Definition units_fs_get_wants_target (pathlen : nat) (unit uext : bytes) : option bytes :=
  check_snprintf (B "../" ++ unit ++ B "." ++ uext) pathlen.

(** ** Listing *)

(** an entry of a directory: a regular file, another known type, or an
    unknown type with the result of [fstatat]: whether it is a regular file,
    or [None] when it fails *)
Inductive d_type := DT_REG | DT_OTHER | DT_UNKNOWN (stat : option bool).
Record dirent := mk_dirent { dt : d_type; d_name : bytes }.

(** the result of [opendir] on a path: an error, or the entries and whether
    the reading ends without error *)
Definition directory : Type := Z + list dirent * bool.

Context {S : Type} (opendir : bytes -> directory)
  (callback : S -> bytes -> bytes -> bool -> S * Z).

Fixpoint list_loop (entries : list dirent) (ended : bool) (isuser : bool) (dir : bytes) (s : S) : S * Z :=
  match entries with
  | [] => (s, if ended then 0%Z else (-1)%Z)
  | e :: entries' =>
      let found :=
        match dt e with
        | DT_REG => Some true
        | DT_OTHER => Some false
        | DT_UNKNOWN st => st
        end in
      match found with
      | None => (s, (-1)%Z)
      | Some false => list_loop entries' ended isuser dir s
      | Some true =>
          let path := dir ++ [SLASH] ++ d_name e in
          if bool_decide (PATH_MAX + 1 <= length path) then (s, (-1)%Z)
          else
            let '(s', rc) := callback s (d_name e) path isuser in
            if (rc =? 0)%Z then list_loop entries' ended isuser dir s' else (s', rc)
      end
  end.

Definition units_fs_list (isuser relax : bool) (s : S) : S * Z :=
  match units_fs_get_afm_units_dir PATH_MAX isuser with
  | None => (s, (-1)%Z)
  | Some dir =>
      match opendir dir with
      | inl err => (s, if relax && (err =? ENOENT)%Z then 0%Z else (-1)%Z)
      | inr (entries, ended) => list_loop entries ended isuser dir s
      end
  end.

Definition units_fs_list_all (relax : bool) (s : S) : S * Z :=
  let '(s', rc) := units_fs_list true relax s in
  if (rc =? 0)%Z then units_fs_list false relax s' else (s', rc).

End Root.

(** ** Descriptions of units *)

Inductive unitscope := unitscope_unknown | unitscope_system | unitscope_user.
Inductive unittype := unittype_unknown | unittype_service | unittype_socket.

#[export] Instance unitscope_eq : EqDecision unitscope.
Proof. solve_decision. Defined.
#[export] Instance unittype_eq : EqDecision unittype.
Proof. solve_decision. Defined.

(** [name] and [wanted_by] carry their lengths *)
Record unitdesc := mk_unitdesc {
  scope : unitscope;
  type : unittype;
  u_name : option bytes;
  content : bytes;
  wanted_by : option bytes
}.

(** 0 or -1 *)
Definition unit_desc_check (d : unitdesc) : bool :=
  negb (bool_decide (scope d = unitscope_unknown)) && negb (bool_decide (type d = unittype_unknown)) &&
  match u_name d with Some (_ :: _) => true | _ => false end.

Definition u_ext (d : unitdesc) : bytes :=
  if bool_decide (type d = unittype_socket) then B "socket" else B "service".
Definition u_isuser (d : unitdesc) : bool := bool_decide (scope d = unitscope_user).
Definition name_of (d : unitdesc) : bytes := default [] (u_name d).

Section Desc.
Context (afm_units_root : bytes).

Definition unit_desc_get_path (d : unitdesc) (pathlen : nat) : option bytes :=
  units_fs_get_afm_unit_path afm_units_root pathlen (u_isuser d) (name_of d) (u_ext d).

Definition unit_desc_get_wants_path (d : unitdesc) (pathlen : nat) : option bytes :=
  units_fs_get_afm_wants_unit_path afm_units_root pathlen (u_isuser d) (default [] (wanted_by d))
    (name_of d) (u_ext d).

Definition unit_desc_get_wants_target (d : unitdesc) (pathlen : nat) : option bytes :=
  units_fs_get_wants_target pathlen (name_of d) (u_ext d).

(** the pattern of the services of a unit: a template has a star *)
Definition unit_desc_get_service (d : unitdesc) (servlen : nat) : option bytes :=
  let star := if bool_decide (last (name_of d) = Some "@"%char) then B "*" else [] in
  check_snprintf (name_of d ++ star ++ B "." ++ u_ext d) servlen.

End Desc.

(** ** Lemmas *)

Lemma check_snprintf_Some s n t : check_snprintf s n = Some t <-> s = t /\ length s < n.
Proof. unfold check_snprintf. case_bool_decide; naive_solver. Qed.

(** a listing with a callback that never stops calls it on each file *)
Lemma list_loop_fold {S} (callback : S -> bytes -> bytes -> bool -> S) entries isuser dir s :
  Forall (fun e => match dt e with DT_UNKNOWN None => False | _ => True end /\
            length (dir ++ [SLASH] ++ d_name e) < PATH_MAX + 1) entries ->
  list_loop (fun s n p u => (callback s n p u, 0%Z)) entries true isuser dir s =
  (foldl (fun s e => match dt e with
                     | DT_REG | DT_UNKNOWN (Some true) =>
                         callback s (d_name e) (dir ++ [SLASH] ++ d_name e) isuser
                     | _ => s
                     end) s entries, 0%Z).
Proof.
  intros HF. revert s. induction HF as [|e entries [He Hl] _ IH]; intros s; [done|]. cbn [list_loop foldl].
  destruct (dt e) as [| |[[]|]]; try done; rewrite ?bool_decide_eq_false_2 by lia; apply IH.
Qed.

(** two listings with callbacks that keep a relation and agree on statuses *)
Lemma units_fs_list_rel {S T} (R : S -> T -> Prop) root opendir
  (f : S -> bytes -> bytes -> bool -> S * Z) (g : T -> bytes -> bytes -> bool -> T * Z) isuser relax s t :
  (forall s t n p, R s t -> R (f s n p isuser).1 (g t n p isuser).1 /\ (f s n p isuser).2 = (g t n p isuser).2) ->
  R s t ->
  R (units_fs_list root opendir f isuser relax s).1 (units_fs_list root opendir g isuser relax t).1 /\
  (units_fs_list root opendir f isuser relax s).2 = (units_fs_list root opendir g isuser relax t).2.
Proof.
  intros Hfg Hst. unfold units_fs_list. destruct (units_fs_get_afm_units_dir _ _ _) as [dir|]; [|done].
  destruct (opendir dir) as [err|[entries ended]]; [by destruct (_ && _)|].
  revert s t Hst. induction entries as [|e entries IH]; intros s t Hst; cbn [list_loop]; [by destruct ended|].
  destruct (match dt e with DT_REG => _ | _ => _ end) as [[]|]; [|by apply IH|done].
  case_bool_decide; [done|]. destruct (Hfg s t (d_name e) (dir ++ [SLASH] ++ d_name e) Hst) as [H1 H2].
  destruct (f s _ _ _) as [s' rc], (g t _ _ _) as [t' rc']. simpl in *. subst rc'.
  destruct (rc =? 0)%Z; [by apply IH|done].
Qed.

(** a listing whose callback always goes on gives 0 or -1 *)
Lemma units_fs_list_status {S} root opendir (f : S -> bytes -> bytes -> bool -> S * Z) isuser relax s :
  (forall s n p, (f s n p isuser).2 = 0%Z) ->
  (units_fs_list root opendir f isuser relax s).2 = 0%Z \/ (units_fs_list root opendir f isuser relax s).2 = (-1)%Z.
Proof.
  intros Hf. unfold units_fs_list. destruct (units_fs_get_afm_units_dir _ _ _) as [dir|]; [|by right].
  destruct (opendir dir) as [err|[entries ended]]; [simpl; destruct (_ && _); auto|].
  revert s. induction entries as [|e entries IH]; intros s; cbn [list_loop]; [simpl; destruct ended; auto|].
  destruct (match dt e with DT_REG => _ | _ => _ end) as [[]|]; [|auto|by right].
  case_bool_decide; [by right|]. specialize (Hf s (d_name e) (dir ++ [SLASH] ++ d_name e)).
  destruct (f s _ _ _) as [s' rc]. simpl in Hf. subst rc. apply IH.
Qed.

End unit_fs.
