(* ===== verification/Client.v ===== *)
(** * Client of the installer daemon: [src/src/afmpkg/afmpkg-client.c]

    The client composes a request, line by line, in a buffer that starts
    inside the structure ([buffer0]) and is allocated when it is too small.
    A cell of the buffer is [Some c], or [None] when it was never written. *)
From S2P Require Import Prelude CString.

Module client.

(** ** The protocol: [afmpkg-proto.h] *)

Definition AFMPKG_OPERATION_ADD : bytes := B "ADD".
Definition AFMPKG_OPERATION_REMOVE : bytes := B "REMOVE".
Definition AFMPKG_OPERATION_CHECK_ADD : bytes := B "CHECK-ADD".
Definition AFMPKG_OPERATION_CHECK_REMOVE : bytes := B "CHECK-REMOVE".

Definition AFMPKG_KEY_BEGIN : bytes := B "BEGIN".
Definition AFMPKG_KEY_COUNT : bytes := B "COUNT".
Definition AFMPKG_KEY_END : bytes := B "END".
Definition AFMPKG_KEY_ERROR : bytes := B "ERROR".
Definition AFMPKG_KEY_FILE : bytes := B "FILE".
Definition AFMPKG_KEY_INDEX : bytes := B "INDEX".
Definition AFMPKG_KEY_OK : bytes := B "OK".
Definition AFMPKG_KEY_PACKAGE : bytes := B "PACKAGE".
Definition AFMPKG_KEY_REDPAKID : bytes := B "REDPAKID".
Definition AFMPKG_KEY_ROOT : bytes := B "ROOT".
Definition AFMPKG_KEY_STATUS : bytes := B "STATUS".
Definition AFMPKG_KEY_TRANSID : bytes := B "TRANSID".

(** ** Data *)

Definition MEMO_ROOTDIR : Z := 1.
Definition MEMO_TRANSID : Z := 2.
Definition MEMO_REDPAKID : Z := 4.

Definition AFMPKG_CLIENT_BUFFER0_SIZE : Z := 4050.

Inductive client_state := None_ | Started | Ready.

(** [operation] is any value given for the enumeration of C *)
Record client_t := mk_client {
  is_buffer0 : bool;               (** [buffer == buffer0] *)
  content : list (option ascii);   (** the cells before [length] *)
  size : Z;
  operation : Z;
  state : client_state;
  memo : Z
}.

Definition operations : list bytes :=
  [AFMPKG_OPERATION_ADD; AFMPKG_OPERATION_REMOVE;
   AFMPKG_OPERATION_CHECK_ADD; AFMPKG_OPERATION_CHECK_REMOVE].

Definition operation_Add : Z := 0.
Definition operation_Check_Remove : Z := 3.

Definition operation_name (op : Z) : bytes := default [] (operations !! Z.to_nat op).

Definition length_ (c : client_t) : Z := Z.of_nat (length (content c)).

(** ** Composing *)

(** the loop that doubles the size: the new size, or [None] on overflow *)
Fixpoint grow_size (fuel : nat) (fpos size : Z) : option Z :=
  match fuel with
  | O => None
  | S fuel' =>
      if (fpos >=? size)%Z then
        let nxtsz := u64 (Z.shiftl size 1) in
        if (nxtsz <? size)%Z then None else grow_size fuel' fpos nxtsz
      else Some size
  end.

(** one turn per bit of the size, and one to leave *)
Definition SIZE_FUEL : nat := 65.
#[global] Arguments grow_size : simpl never.

Definition put_key_val_nl (c : client_t) (key val : bytes) (o : oracle) : Z * client_t * oracle :=
  match state c with
  | Started =>
      let fpos := u64 (length_ c + 2 + Z.of_nat (length val) + Z.of_nat (length key)) in
      let text := Some <$> (key ++ [SPACE] ++ val ++ [NL]) in
      if (fpos >=? size c)%Z then
        match grow_size SIZE_FUEL fpos (size c) with
        | None => ((- EINVAL)%Z, c, o)
        | Some size' =>
            let '(ok, o') := malloc o in
            if ok then
              (** [malloc] gives a new memory, [realloc] keeps what is written *)
              let cells := if is_buffer0 c then replicate (length (content c)) None else content c in
              (0%Z, mk_client false (cells ++ text) size' (operation c) (state c) (memo c), o')
            else ((- ENOMEM)%Z, c, o')
        end
      else
        (0%Z, mk_client (is_buffer0 c) (content c ++ text) (size c) (operation c) (state c) (memo c), o)
  | _ => ((- EINVAL)%Z, c, o)
  end.

Definition put_key_val_nl_memo (c : client_t) (key val : bytes) (m : Z) (o : oracle)
  : Z * client_t * oracle :=
  if negb (Z.land (memo c) m =? 0)%Z then ((- EINVAL)%Z, c, o)
  else
    let '(rc, c', o') := put_key_val_nl c key val o in
    if (rc =? 0)%Z
    then (rc, mk_client (is_buffer0 c') (content c') (size c') (operation c') (state c')
                (Z.lor (memo c') m), o')
    else (rc, c', o').

(** the buffer of the digits has room for 24 of them *)
Definition itoa (value : Z) : bytes := dec_loop 24 value [].

Definition afmpkg_client_init (c : client_t) : client_t :=
  mk_client true [] AFMPKG_CLIENT_BUFFER0_SIZE (operation c) None_ (memo c).

Definition afmpkg_client_release (c : client_t) : client_t := afmpkg_client_init c.

(** the operator [?:] *)
Definition or_else (r : Z * client_t * oracle) (f : client_t -> oracle -> Z * client_t * oracle)
  : Z * client_t * oracle :=
  let '(rc, c, o) := r in if (rc =? 0)%Z then f c o else (rc, c, o).

Definition afmpkg_client_begin (c : client_t) (op : Z) (package_name : bytes) (index count : Z)
  (o : oracle) : Z * client_t * oracle :=
  if ((op <? operation_Add) || (op >? operation_Check_Remove))%Z then ((- EINVAL)%Z, c, o)
  else
    let c := mk_client (is_buffer0 c) [] (size c) op Started 0 in
    or_else (or_else (or_else
      (put_key_val_nl c AFMPKG_KEY_BEGIN (operation_name op) o)
      (fun c => put_key_val_nl c AFMPKG_KEY_PACKAGE package_name))
      (fun c => put_key_val_nl c AFMPKG_KEY_INDEX (itoa index)))
      (fun c => put_key_val_nl c AFMPKG_KEY_COUNT (itoa count)).

(** the NUL written after the text is never sent *)
Definition afmpkg_client_end (c : client_t) (o : oracle) : Z * client_t * oracle :=
  let '(rc, c', o') := put_key_val_nl c AFMPKG_KEY_END (operation_name (operation c)) o in
  (rc, mk_client (is_buffer0 c') (content c') (size c') (operation c') Ready (memo c'), o').

Definition afmpkg_client_put_file (c : client_t) (value : bytes) (o : oracle) :=
  put_key_val_nl c AFMPKG_KEY_FILE value o.

Definition afmpkg_client_put_rootdir (c : client_t) (value : bytes) (o : oracle) :=
  put_key_val_nl_memo c AFMPKG_KEY_ROOT value MEMO_ROOTDIR o.

Definition afmpkg_client_put_transid (c : client_t) (value : bytes) (o : oracle) :=
  put_key_val_nl_memo c AFMPKG_KEY_TRANSID value MEMO_TRANSID o.

Definition afmpkg_client_put_redpakid (c : client_t) (value : bytes) (o : oracle) :=
  put_key_val_nl_memo c AFMPKG_KEY_REDPAKID value MEMO_REDPAKID o.

(** ** Dialing *)

(** removal of the newlines at the end *)
Definition strip_nl (s : bytes) : bytes := rev (drop_while (fun c => bool_decide (c = NL)) (rev s)).

(** [recv_framework] after its [recv]: status and argument; [input] has at
    most 999 characters *)
Definition recv_framework (input : bytes) : Z * option bytes :=
  let text := cstring (strip_nl input) in
  let extract (rc : Z) (tail : bytes) : Z * option bytes :=
    match tail with
    | [] => (rc, None)
    | d :: _ =>
        if bool_decide (d = SPACE) then
          match drop_while (fun x => bool_decide (x = SPACE)) tail with
          | [] => (rc, None)
          | arg => (rc, Some arg)
          end
        else ((- EBADMSG)%Z, None)
    end in
  if starts_with AFMPKG_KEY_OK text then extract 1%Z (drop (length AFMPKG_KEY_OK) text)
  else if starts_with AFMPKG_KEY_ERROR text then extract 0%Z (drop (length AFMPKG_KEY_ERROR) text)
  else ((- EBADMSG)%Z, None).

(** the socket: the status of [connect_framework], of the sending of some
    cells, and what [recv] yields, an error or some characters *)
Record network := mk_network {
  net_connect : Z;
  net_send : list (option ascii) -> Z;
  net_recv : Z + bytes
}.

Definition afmpkg_client_dial (net : network) (c : client_t) : Z * option bytes :=
  if (net_connect net >=? 0)%Z then
    let rc := net_send net (content c) in
    if (rc >=? 0)%Z then
      match net_recv net with
      | inl err => (err, None)
      | inr input => recv_framework (take 999 input)
      end
    else (rc, None)
  else (net_connect net, None).

(** ** Lemmas *)

(** the line of a key and its value *)
Definition line (key val : bytes) : bytes := key ++ [SPACE] ++ val.
Definition lines_text (ls : list bytes) : bytes := concat (map (fun l => l ++ [NL]) ls).

Lemma lines_text_app l1 l2 : lines_text (l1 ++ l2) = lines_text l1 ++ lines_text l2.
Proof. unfold lines_text. by rewrite map_app, concat_app. Qed.

Lemma length_line key val : length (lines_text [line key val]) = length key + length val + 2.
Proof.
  unfold lines_text, line. simpl. rewrite app_nil_r. repeat (rewrite length_app; simpl). lia.
Qed.

(** a client composing the lines [ls] in its first buffer *)
Definition composing (c : client_t) (op m : Z) (ls : list bytes) : Prop :=
  c = mk_client true (Some <$> lines_text ls) AFMPKG_CLIENT_BUFFER0_SIZE op Started m.

Lemma put_line c op m ls key val o :
  composing c op m ls ->
  (Z.of_nat (length (lines_text (ls ++ [line key val]))) < AFMPKG_CLIENT_BUFFER0_SIZE)%Z ->
  exists c', put_key_val_nl c key val o = (0%Z, c', o) /\ composing c' op m (ls ++ [line key val]).
Proof.
  intros -> Hl. rewrite lines_text_app, length_app, length_line in Hl.
  unfold put_key_val_nl, length_. simpl. rewrite length_fmap.
  unfold AFMPKG_CLIENT_BUFFER0_SIZE, u64 in *. rewrite Z.mod_small by lia.
  destruct (_ >=? 4050)%Z eqn:E; [lia|]. eexists. split; [done|]. unfold composing. f_equal.
  rewrite <-fmap_app, lines_text_app. f_equal. f_equal. unfold lines_text, line. simpl.
  rewrite app_nil_r, <-(assoc_L (++)). done.
Qed.

Lemma put_line_memo c op m bit ls key val o :
  composing c op m ls -> Z.land m bit = 0%Z ->
  (Z.of_nat (length (lines_text (ls ++ [line key val]))) < AFMPKG_CLIENT_BUFFER0_SIZE)%Z ->
  exists c', put_key_val_nl_memo c key val bit o = (0%Z, c', o) /\
    composing c' op (Z.lor m bit) (ls ++ [line key val]).
Proof.
  intros Hc Hm Hl. destruct (put_line c op m ls key val o Hc Hl) as (c' & Hp & Hc').
  unfold put_key_val_nl_memo. replace (memo c) with m by by rewrite Hc. rewrite Hm, Hp. simpl.
  eexists. split; [done|]. by rewrite Hc'.
Qed.

(** ** Composing a whole request *)

(** what can be put between the beginning and the end *)
Inductive item :=
  | File (path : bytes) | Rootdir (path : bytes) | Transid (id : bytes) | Redpakid (id : bytes).

Definition put_item (it : item) : client_t -> oracle -> Z * client_t * oracle :=
  fun c => match it with
  | File v => afmpkg_client_put_file c v
  | Rootdir v => afmpkg_client_put_rootdir c v
  | Transid v => afmpkg_client_put_transid c v
  | Redpakid v => afmpkg_client_put_redpakid c v
  end.

Definition put_items (r : Z * client_t * oracle) (items : list item) : Z * client_t * oracle :=
  foldl (fun r it => or_else r (put_item it)) r items.

(** the usage of the interface: begin, put, end *)
Definition compose (c : client_t) (op : Z) (pkg : bytes) (index count : Z) (items : list item)
  (o : oracle) : Z * client_t * oracle :=
  or_else (put_items (afmpkg_client_begin c op pkg index count o) items) afmpkg_client_end.

Definition item_line (it : item) : bytes :=
  match it with
  | File v => line AFMPKG_KEY_FILE v
  | Rootdir v => line AFMPKG_KEY_ROOT v
  | Transid v => line AFMPKG_KEY_TRANSID v
  | Redpakid v => line AFMPKG_KEY_REDPAKID v
  end.

(** the mark of the items that are put once *)
Definition mark_of (it : item) : option Z :=
  match it with
  | File _ => None
  | Rootdir _ => Some MEMO_ROOTDIR
  | Transid _ => Some MEMO_TRANSID
  | Redpakid _ => Some MEMO_REDPAKID
  end.

Definition request_lines (op : Z) (pkg : bytes) (index count : Z) (items : list item) : list bytes :=
  [line AFMPKG_KEY_BEGIN (operation_name op); line AFMPKG_KEY_PACKAGE pkg;
   line AFMPKG_KEY_INDEX (itoa index); line AFMPKG_KEY_COUNT (itoa count)] ++
  (item_line <$> items) ++ [line AFMPKG_KEY_END (operation_name op)].

Lemma lines_text_le l1 l2 : length (lines_text l1) <= length (lines_text (l1 ++ l2)).
Proof. rewrite lines_text_app, length_app. lia. Qed.

(** does the mark [b] belong to the memo [m]? *)
Definition unmarked (m : Z) (items : list item) : Prop :=
  NoDup (omap mark_of items) /\ Forall (fun b => Z.land m b = 0%Z) (omap mark_of items).

Lemma marks_disjoint i j a b :
  mark_of i = Some a -> mark_of j = Some b -> a <> b -> Z.land a b = 0%Z.
Proof. destruct i, j; simpl; intros [= <-] [= <-]; vm_compute; congruence. Qed.

Lemma unmarked_cons m it items :
  unmarked m (it :: items) ->
  unmarked (match mark_of it with Some b => Z.lor m b | None => m end) items.
Proof.
  unfold unmarked. simpl. destruct (mark_of it) as [b|] eqn:E; [|done].
  intros [[Hb Hn]%NoDup_cons [Hm HF]%Forall_cons]. split; [done|].
  apply Forall_forall. intros x Hx. rewrite Forall_forall in HF.
  rewrite Z.land_lor_distr_l, HF by done.
  apply list_elem_of_omap in Hx as (j & Hj & Hmj).
  rewrite (marks_disjoint _ _ _ _ E Hmj); [done|]. intros <-. apply Hb.
  apply list_elem_of_omap. eauto.
Qed.

Lemma put_items_lines items c op m ls o :
  composing c op m ls -> unmarked m items ->
  (Z.of_nat (length (lines_text (ls ++ (item_line <$> items)))) < AFMPKG_CLIENT_BUFFER0_SIZE)%Z ->
  exists c' m', put_items (0%Z, c, o) items = (0%Z, c', o) /\
    composing c' op m' (ls ++ (item_line <$> items)).
Proof.
  revert c m ls. induction items as [|it items IH]; intros c m ls Hc Hu Hl.
  { simpl. rewrite app_nil_r. eauto. }
  rewrite fmap_cons, cons_middle, (assoc_L (++)) in Hl |- *.
  assert (Hl1 : (Z.of_nat (length (lines_text (ls ++ [item_line it]))) < AFMPKG_CLIENT_BUFFER0_SIZE)%Z).
  { pose proof (lines_text_le (ls ++ [item_line it]) (item_line <$> items)). lia. }
  assert (Hput : exists c', put_item it c o = (0%Z, c', o) /\
    composing c' op (match mark_of it with Some b => Z.lor m b | None => m end) (ls ++ [item_line it])).
  { destruct Hu as [_ Hf]. destruct it; simpl in *; [by eapply put_line|..];
      apply Forall_cons in Hf as [Hm _]; by eapply put_line_memo. }
  destruct Hput as (c1 & Hp & Hc1). unfold put_items. simpl. rewrite Hp.
  apply IH in Hc1; [done| |done]. by apply unmarked_cons.
Qed.

Lemma begin_lines op pkg index count o :
  (operation_Add <= op <= operation_Check_Remove)%Z ->
  let ls := take 4 (request_lines op pkg index count []) in
  (Z.of_nat (length (lines_text ls)) < AFMPKG_CLIENT_BUFFER0_SIZE)%Z ->
  forall c, is_buffer0 c = true -> size c = AFMPKG_CLIENT_BUFFER0_SIZE ->
  exists c', afmpkg_client_begin c op pkg index count o = (0%Z, c', o) /\ composing c' op 0 ls.
Proof.
  intros Hop ls Hl c Hb Hs. unfold afmpkg_client_begin.
  destruct ((op <? operation_Add) || (op >? operation_Check_Remove))%Z eqn:E; [lia|]. clear E.
  rewrite Hb, Hs. set (c0 := mk_client _ _ _ _ _ _).
  assert (H0 : composing c0 op 0 []) by done.
  assert (Hsub : forall n, (Z.of_nat (length (lines_text (take n ls))) < AFMPKG_CLIENT_BUFFER0_SIZE)%Z).
  { intros n. pose proof (lines_text_le (take n ls) (drop n ls)) as H. rewrite take_drop in H. lia. }
  destruct (put_line _ _ _ _ AFMPKG_KEY_BEGIN (operation_name op) o H0 (Hsub 1)) as (c1 & -> & H1).
  destruct (put_line _ _ _ _ AFMPKG_KEY_PACKAGE pkg o H1 (Hsub 2)) as (c2 & E2 & H2).
  destruct (put_line _ _ _ _ AFMPKG_KEY_INDEX (itoa index) o H2 (Hsub 3)) as (c3 & E3 & H3).
  destruct (put_line _ _ _ _ AFMPKG_KEY_COUNT (itoa count) o H3 (Hsub 4)) as (c4 & E4 & H4).
  exists c4. unfold or_else. cbn [Z.eqb]. rewrite E2. cbn [Z.eqb]. rewrite E3. cbn [Z.eqb]. by rewrite E4.
Qed.

(** A request that fits the first buffer is composed line after line. *)
Lemma compose_lines op pkg index count items o c :
  (operation_Add <= op <= operation_Check_Remove)%Z ->
  is_buffer0 c = true -> size c = AFMPKG_CLIENT_BUFFER0_SIZE -> NoDup (omap mark_of items) ->
  let text := lines_text (request_lines op pkg index count items) in
  (Z.of_nat (length text) < AFMPKG_CLIENT_BUFFER0_SIZE)%Z ->
  exists c', compose c op pkg index count items o = (0%Z, c', o) /\
    content c' = Some <$> text /\ state c' = Ready.
Proof.
  intros Hop Hb Hs Hn text Hl. unfold text, request_lines in Hl.
  rewrite (assoc_L (++)) in Hl. set (ls := [_; _; _; _]) in Hl.
  pose proof (lines_text_le (ls ++ (item_line <$> items)) [line AFMPKG_KEY_END (operation_name op)]).
  pose proof (lines_text_le ls (item_line <$> items)).
  destruct (begin_lines op pkg index count o Hop) with (c := c) as (c1 & E1 & H1);
    [change (take 4 _) with ls; lia|done..|]. change (take 4 _) with ls in H1.
  assert (Hu : unmarked 0 items).
  { split; [done|]. apply Forall_forall. intros x _. apply Z.land_0_l. }
  destruct (put_items_lines items c1 op 0 ls o H1 Hu) as (c2 & m & E2 & H2); [lia|].
  destruct (put_line c2 op m _ AFMPKG_KEY_END (operation_name op) o H2 Hl) as (c3 & E3 & H3).
  unfold compose. rewrite E1, E2. unfold or_else. cbn [Z.eqb]. unfold afmpkg_client_end.
  replace (operation c2) with op by by rewrite H2. rewrite E3.
  eexists. split; [done|]. split; [|done]. cbn [content]. rewrite H3. cbn [content].
  unfold text, request_lines. by rewrite (assoc_L (++) [_; _; _; _]).
Qed.

End client.
