(* ===== verification/Package.v ===== *)
(** * The packaging request: [src/src/afmpkg/afmpkg.h]

    The data of a package to install or to uninstall, and the interface
    between the framework's part that processes packages and the back end
    that applies its decisions. *)
From S2P Require Import Prelude CString PathEntry PathType UnitFs.

Module package.
Export path_entry path_type.

(** [afmpkg_t]; a field is [None] for NULL *)
Record afmpkg_t := mk_afmpkg {
  package : option bytes;
  files : path_entry;
  root : option bytes;
  redpakid : option bytes;
  redpak_auto : option bytes
}.

(** [afmpkg_mode_t] *)
Inductive afmpkg_mode := Nop | Install | Uninstall.
#[global] Instance afmpkg_mode_eq : EqDecision afmpkg_mode.
Proof. solve_decision. Defined.

(** [afmpkg_operations_t]: the operations of the back end, that thread its
    closure and return a status *)
Record operations (C : Type) := mk_operations {
  begin_ : C -> option bytes -> afmpkg_mode -> C * Z;
  tagfile : C -> bytes -> path_type -> C * Z;
  setperm : C -> bytes -> C * Z;
  setplug : C -> bytes -> bytes -> bytes -> C * Z;
  setunits : C -> list unit_fs.unitdesc -> C * Z;
  end_ : C -> Z -> C * Z
}.
#[global] Arguments begin_ {C}.
#[global] Arguments tagfile {C}.
#[global] Arguments setperm {C}.
#[global] Arguments setplug {C}.
#[global] Arguments setunits {C}.
#[global] Arguments end_ {C}.

End package.
