(* ===== verification/Request.v ===== *)
(** * Requests received by the installer daemon: [src/src/afmpkg/afmpkg-request.c]

    A request is filled line by line, then processed; the requests of a
    same transaction are counted together. *)
From S2P Require Import Prelude CString PathEntry Package Client.

Module request.
Import client.
Export Package.package.

(** ** Data *)

Inductive request_state := Request_Pending | Request_Ready | Request_Ok | Request_Error.

Inductive request_kind :=
  | Request_Unset | Request_Add_Package | Request_Remove_Package
  | Request_Check_Add_Package | Request_Check_Remove_Package | Request_Get_Status.

#[export] Instance request_state_eq : EqDecision request_state.
Proof. solve_decision. Defined.
#[export] Instance request_kind_eq : EqDecision request_kind.
Proof. solve_decision. Defined.

Record request_t := mk_request {
  rq_state : request_state;
  rq_kind : request_kind;
  rq_scode : Z;
  rq_index : Z;
  rq_count : Z;
  rq_transid : option bytes;
  rq_scratch : option bytes;
  rq_msg : option bytes;
  rq_apkg : afmpkg_t
}.

Definition set_state (r : request_t) v := mk_request v (rq_kind r) (rq_scode r) (rq_index r)
  (rq_count r) (rq_transid r) (rq_scratch r) (rq_msg r) (rq_apkg r).
Definition set_kind (r : request_t) v := mk_request (rq_state r) v (rq_scode r) (rq_index r)
  (rq_count r) (rq_transid r) (rq_scratch r) (rq_msg r) (rq_apkg r).
Definition set_index (r : request_t) v := mk_request (rq_state r) (rq_kind r) (rq_scode r) v
  (rq_count r) (rq_transid r) (rq_scratch r) (rq_msg r) (rq_apkg r).
Definition set_count (r : request_t) v := mk_request (rq_state r) (rq_kind r) (rq_scode r)
  (rq_index r) v (rq_transid r) (rq_scratch r) (rq_msg r) (rq_apkg r).
Definition set_transid (r : request_t) v := mk_request (rq_state r) (rq_kind r) (rq_scode r)
  (rq_index r) (rq_count r) v (rq_scratch r) (rq_msg r) (rq_apkg r).
Definition set_reply (r : request_t) v := mk_request (rq_state r) (rq_kind r) (rq_scode r)
  (rq_index r) (rq_count r) (rq_transid r) v v (rq_apkg r).
Definition set_apkg (r : request_t) v := mk_request (rq_state r) (rq_kind r) (rq_scode r)
  (rq_index r) (rq_count r) (rq_transid r) (rq_scratch r) (rq_msg r) v.

Definition set_files (a : afmpkg_t) v := mk_afmpkg (package a) v (root a) (redpakid a) (redpak_auto a).
Definition set_package (a : afmpkg_t) v := mk_afmpkg v (files a) (root a) (redpakid a) (redpak_auto a).
Definition set_root (a : afmpkg_t) v := mk_afmpkg (package a) (files a) v (redpakid a) (redpak_auto a).
Definition set_redpakid (a : afmpkg_t) v := mk_afmpkg (package a) (files a) (root a) v (redpak_auto a).

(** ** Initialisation and errors *)

(** When the root of the files can't be allocated, [files] is NULL: the
    empty tree stands for it, nothing reads it then. *)
Definition afmpkg_request_init (o : oracle) : Z * request_t * oracle :=
  let '(rc, files, o') := path_entry_create_root o in
  (rc, mk_request Request_Pending Request_Unset 0 0 0 None None None
         (mk_afmpkg None (default (Entry [] 0 [] []) files) None None None), o').

Definition afmpkg_request_error (r : request_t) (scode : Z) (msg : bytes) : Z * request_t :=
  (scode,
   if (rq_scode r =? 0)%Z
   then mk_request Request_Error (rq_kind r) scode (rq_index r) (rq_count r) (rq_transid r)
          (rq_scratch r) (Some msg) (rq_apkg r)
   else r).

(** ** Lines *)

Definition get_operation_kind (s : bytes) : request_kind :=
  if beq s AFMPKG_OPERATION_ADD then Request_Add_Package
  else if beq s AFMPKG_OPERATION_REMOVE then Request_Remove_Package
  else if beq s AFMPKG_OPERATION_CHECK_ADD then Request_Check_Add_Package
  else if beq s AFMPKG_OPERATION_CHECK_REMOVE then Request_Check_Remove_Package
  else Request_Unset.

(** the test of the macro [IF]: the line is the key, a space and the rest *)
Definition is_key (key line : bytes) : bool := starts_with (key ++ [SPACE]) line.

(** the line after the key and the space *)
Definition arg_of (key line : bytes) : bytes := drop (S (length key)) line.

(** the value of COUNT and INDEX: the errors are the index of the message *)
Definition get_number (s : bytes) : Z + Z :=
  let '(val, str, erange) := strtol s in
  if negb (bool_decide (str = [])) then inl 0%Z
  else if ((val <? 1) || (UINT_MAX <? val) || ((val =? LONG_MAX) && erange))%Z then inl 1%Z
  else inr val.

(** [strdup] in a field *)
Definition dup_in (r : request_t) (s : bytes) (set : option bytes -> request_t) (o : oracle)
  : Z * request_t * oracle :=
  let '(ok, o') := malloc o in
  if ok then (0%Z, set (Some (cstring s)), o')
  else (afmpkg_request_error r (-1016) (B "out of memory"), o').

Definition is_unset (r : request_t) : bool := bool_decide (rq_kind r = Request_Unset).

Definition afmpkg_request_add_line (r : request_t) (line : bytes) (o : oracle)
  : Z * request_t * oracle :=
  if negb (bool_decide (rq_state r = Request_Pending)) then
    (afmpkg_request_error r (-1000) (B "line after end"), o)
  else if is_key AFMPKG_KEY_BEGIN line then
    let s := cstring (arg_of AFMPKG_KEY_BEGIN line) in
    if negb (is_unset r) then (afmpkg_request_error r (-1001) (B "unexpected BEGIN"), o)
    else
      let r' := set_kind r (get_operation_kind s) in
      if is_unset r' then (afmpkg_request_error r' (-1002) (B "invalid BEGIN"), o)
      else (0%Z, r', o)
  else if is_key AFMPKG_KEY_COUNT line then
    if negb (rq_count r =? 0)%Z || is_unset r
    then (afmpkg_request_error r (-1003) (B "unexpected COUNT"), o)
    else match get_number (cstring (arg_of AFMPKG_KEY_COUNT line)) with
         | inl 0%Z => (afmpkg_request_error r (-1004) (B "invalid COUNT"), o)
         | inl _ => (afmpkg_request_error r (-1005) (B "COUNT out of range"), o)
         | inr val =>
             if negb (rq_index r =? 0)%Z && (u32 val <? rq_index r)%Z
             then (afmpkg_request_error r (-1006) (B "COUNT out of INDEX"), o)
             else (0%Z, set_count r (u32 val), o)
         end
  else if is_key AFMPKG_KEY_END line then
    if negb (bool_decide (rq_kind r = get_operation_kind (cstring (arg_of AFMPKG_KEY_END line))))
    then (afmpkg_request_error r (-1008) (B "invalid END"), o)
    else (0%Z, set_state r Request_Ready, o)
  else if is_key AFMPKG_KEY_FILE line then
    if is_unset r then (afmpkg_request_error r (-1009) (B "unexpected FILE"), o)
    else
      let path := arg_of AFMPKG_KEY_FILE line in
      let '(rc, _, files', o') :=
        path_entry_add_length (files (rq_apkg r)) path (Z.of_nat (length path)) o in
      let r' := set_apkg r (set_files (rq_apkg r) files') in
      if (rc <? 0)%Z then (afmpkg_request_error r' (-1010) (B "can't add FILE"), o')
      else (0%Z, r', o')
  else if is_key AFMPKG_KEY_INDEX line then
    if negb (rq_index r =? 0)%Z || is_unset r
    then (afmpkg_request_error r (-1011) (B "unexpected INDEX"), o)
    else match get_number (cstring (arg_of AFMPKG_KEY_INDEX line)) with
         | inl 0%Z => (afmpkg_request_error r (-1012) (B "invalid INDEX"), o)
         | inl _ => (afmpkg_request_error r (-1013) (B "INDEX out of range"), o)
         | inr val =>
             if negb (rq_count r =? 0)%Z && (rq_count r <? u32 val)%Z
             then (afmpkg_request_error r (-1014) (B "INDEX out of COUNT"), o)
             else (0%Z, set_index r (u32 val), o)
         end
  else if is_key AFMPKG_KEY_PACKAGE line then
    if bool_decide (is_Some (package (rq_apkg r))) || is_unset r
    then (afmpkg_request_error r (-1015) (B "unexpected PACKAGE"), o)
    else dup_in r (arg_of AFMPKG_KEY_PACKAGE line)
           (fun v => set_apkg r (set_package (rq_apkg r) v)) o
  else if is_key AFMPKG_KEY_REDPAKID line then
    if bool_decide (is_Some (redpakid (rq_apkg r))) || is_unset r
    then (afmpkg_request_error r (-1017) (B "unexpected REDPAKID"), o)
    else dup_in r (arg_of AFMPKG_KEY_REDPAKID line)
           (fun v => set_apkg r (set_redpakid (rq_apkg r) v)) o
  else if is_key AFMPKG_KEY_ROOT line then
    if bool_decide (is_Some (root (rq_apkg r))) || is_unset r
    then (afmpkg_request_error r (-1018) (B "unexpected ROOT"), o)
    else dup_in r (arg_of AFMPKG_KEY_ROOT line)
           (fun v => set_apkg r (set_root (rq_apkg r) v)) o
  else if is_key AFMPKG_KEY_TRANSID line then
    if bool_decide (is_Some (rq_transid r)) || is_unset r
    then (afmpkg_request_error r (-1019) (B "unexpected TRANSID"), o)
    else dup_in r (arg_of AFMPKG_KEY_TRANSID line) (set_transid r) o
  else if is_key AFMPKG_KEY_STATUS line then
    if negb (is_unset r) || bool_decide (is_Some (rq_transid r))
    then (afmpkg_request_error r (-1020) (B "unexpected STATUS"), o)
    else dup_in r (arg_of AFMPKG_KEY_STATUS line)
           (fun v => set_state (set_kind (set_transid r v) Request_Get_Status) Request_Ready) o
  else (afmpkg_request_error r (-1021) (B "bad line"), o).

(** ** Transactions *)

Definition RETENTION_SECONDS : Z := 3600.

Record transaction := mk_transaction {
  tr_expire : Z;
  tr_count : Z;
  tr_success : Z;
  tr_fail : Z;
  tr_id : bytes
}.

Definition cleanup_transactions (now : Z) (all : list transaction) : list transaction :=
  filter (fun t => (now < tr_expire t)%Z) all.

Fixpoint find_transaction (id : bytes) (all : list transaction) : option transaction :=
  match all with
  | [] => None
  | t :: l => if beq id (tr_id t) then Some t else find_transaction id l
  end.

(** [now] is the time read by the cleaning, [now'] by the creation; a
    pointer to a transaction is its identifier, unique in the list *)
Definition get_transaction (now now' : Z) (transid : bytes) (count : Z) (all : list transaction)
  (o : oracle) : option transaction * list transaction * oracle :=
  let all := cleanup_transactions now all in
  match find_transaction transid all with
  | Some t => (Some t, all, o)
  | None =>
      if (count =? 0)%Z then (None, all, o)
      else
        let '(ok, o') := malloc o in
        if ok then
          let t := mk_transaction (now' + RETENTION_SECONDS) count 0 0 transid in
          (Some t, t :: all, o')
        else (None, all, o')
  end.

(** the change of a transaction of the list, through its pointer *)
Fixpoint update_transaction (f : transaction -> transaction) (id : bytes) (all : list transaction)
  : list transaction :=
  match all with
  | [] => []
  | t :: l => if beq id (tr_id t) then f t :: l else t :: update_transaction f id l
  end.

Fixpoint put_transaction (id : bytes) (all : list transaction) : list transaction :=
  match all with
  | [] => []
  | t :: l => if beq id (tr_id t) then l else t :: put_transaction id l
  end.

Definition incr_success (t : transaction) : transaction :=
  mk_transaction (tr_expire t) (tr_count t) (u32 (tr_success t + 1)) (tr_fail t) (tr_id t).
Definition decr_fail (t : transaction) : transaction :=
  mk_transaction (tr_expire t) (tr_count t) (tr_success t) (u32 (tr_fail t - 1)) (tr_id t).

(** the format "%d %d %d" *)
Definition status_text (t : transaction) : bytes :=
  fmt_d (i32 (tr_count t)) ++ [SPACE] ++ fmt_d (i32 (tr_success t)) ++ [SPACE] ++ fmt_d (i32 (tr_fail t)).

(** ** Processing

    [install] and [uninstall] are the functions of the back end, which
    change the world [W]. *)
Section Process.
Context {W : Type} (install uninstall : afmpkg_t -> W -> Z * W).

Definition afmpkg_request_process (now now' : Z) (r : request_t) (all : list transaction) (w : W)
  (o : oracle) : Z * request_t * list transaction * W * oracle :=
  match rq_kind r with
  | Request_Unset => (afmpkg_request_error r (- EINVAL) (B "invalid state"), all, w, o)
  | Request_Add_Package | Request_Remove_Package =>
      let add := bool_decide (rq_kind r = Request_Add_Package) in
      let '(rc, w') := (if add then install else uninstall) (rq_apkg r) w in
      let r1 :=
        if (rc <? 0)%Z
        then (afmpkg_request_error r rc (if add then B "can't install" else B "can't uninstall")).2
        else r in
      match rq_transid r with
      | None => (rc, r1, all, w', o)
      | Some transid =>
          let '(trans, all', o') := get_transaction now now' transid (rq_count r) all o in
          match trans with
          | None => (afmpkg_request_error r1 (- ENOMEM) (B "out of memory"), all', w', o')
          | Some _ =>
              if (rc >=? 0)%Z
              then (rc, r1, update_transaction incr_success transid all', w', o')
              else (rc, r1, update_transaction decr_fail transid all', w', o')
          end
      end
  | Request_Check_Add_Package | Request_Check_Remove_Package => (0%Z, r, all, w, o)
  | Request_Get_Status =>
      match rq_transid r with
      | None => (afmpkg_request_error r (- EINVAL) (B "invalid state"), all, w, o)
      | Some transid =>
          let '(trans, all', o') := get_transaction now now' transid 0 all o in
          match trans with
          | None => (afmpkg_request_error r (- ENOMEM) (B "out of memory"), all', w, o')
          | Some t =>
              let '(ok, o'') := malloc o' in
              let all'' := put_transaction transid all' in
              if ok then
                (Z.of_nat (length (status_text t)), set_reply r (Some (status_text t)), all'', w, o'')
              else (afmpkg_request_error r (- ENOMEM) (B "out of memory"), all'', w, o'')
          end
      end
  end.

End Process.

Definition afmpkg_request_can_stop (now : Z) (all : list transaction) : bool * list transaction :=
  let all' := cleanup_transactions now all in (bool_decide (all' = []), all').

(** ** The reply *)

(** the state of the writing loops: the line and the index *)
Definition put_char (length : nat) (st : bytes * nat) (c : ascii) : bytes * nat :=
  let '(line, idx) := st in
  (if bool_decide (idx < length) then <[idx := c]> line else line, S idx).

Definition put_chars (length : nat) (st : bytes * nat) (s : bytes) : bytes * nat :=
  fold_left (put_char length) s st.

Definition afmpkg_request_make_reply_line (r : request_t) (line : bytes) (length : nat)
  : nat * bytes :=
  let st := put_chars length (line, 0)
              (if (rq_scode r >=? 0)%Z then AFMPKG_KEY_OK else AFMPKG_KEY_ERROR) in
  let st := match rq_msg r with
            | Some (c :: s) => put_chars length (put_char length st SPACE) (c :: s)
            | _ => st
            end in
  let '(line, idx) := put_char length st NL in
  (idx, if bool_decide (idx < length) then <[idx := NUL]> line else line).

(** ** Lemmas on lines *)

(** the lines one after the other, up to the first error *)
Fixpoint add_lines (r : request_t) (ls : list bytes) (o : oracle) : Z * request_t * oracle :=
  match ls with
  | [] => (0%Z, r, o)
  | l :: ls' =>
      let '(rc, r', o') := afmpkg_request_add_line r l o in
      if (rc <? 0)%Z then (rc, r', o') else add_lines r' ls' o'
  end.

Lemma add_lines_cons r l ls o r' o' :
  afmpkg_request_add_line r l o = (0%Z, r', o') -> add_lines r (l :: ls) o = add_lines r' ls o'.
Proof. simpl. by intros ->. Qed.

Lemma get_number_itoa v : (1 <= v <= INT_MAX)%Z -> get_number (itoa v) = inr v.
Proof.
  intros Hv. unfold itoa, get_number, INT_MAX in *.
  destruct (dec_loop_spec 24 v []) as (ds & -> & Hne & HF & Hd); [lia..|done|].
  rewrite app_nil_r, strtol_digits by (done || unfold LONG_MAX; lia). rewrite Hd.
  rewrite bool_decide_eq_true_2 by done. simpl. unfold UINT_MAX, LONG_MAX.
  destruct (_ || _ || _)%Z eqn:E; [|done]. lia.
Qed.

Lemma cstr_itoa v : (0 <= v <= INT_MAX)%Z -> cstr (itoa v) /\ NL ∉ itoa v.
Proof.
  intros Hv. unfold itoa, INT_MAX in *.
  destruct (dec_loop_spec 24 v []) as (ds & -> & Hne & HF & Hd); [lia..|done|].
  rewrite app_nil_r. rewrite Forall_forall in HF. split; intros Hin; by apply HF in Hin.
Qed.

Lemma malloc_ok o : false ∉ o -> exists o', malloc o = (true, o') /\ false ∉ o'.
Proof.
  intros Ho. destruct (malloc o) as [ok o'] eqn:E. apply malloc_cases in E as (u & -> & Hu).
  exists o'. destruct ok; [|set_solver]. split; [done|set_solver].
Qed.

#[local] Arguments itoa : simpl never.
#[local] Arguments get_number : simpl never.
#[local] Arguments cstring : simpl never.
#[local] Arguments operation_name : simpl never.
#[local] Arguments get_operation_kind : simpl never.

Lemma arg_of_line key v : arg_of key (line key v) = v.
Proof.
  unfold arg_of, line. rewrite (assoc_L (++)).
  replace (S (length key)) with (length (key ++ [SPACE])) by (rewrite length_app; simpl; lia).
  apply drop_app_length.
Qed.

(** tells the key of a line *)
Ltac find_key :=
  repeat match goal with
  | |- context [is_key ?k (line ?k' ?v)] =>
      first [ change (is_key k (line k' v)) with false
            | change (is_key k (line k' v)) with true ]; cbv beta iota
  end; rewrite ?arg_of_line.

(** Each kind of line in a request that accepts it. *)
Section Lines.
Context (r : request_t) (o : oracle) (Hs : rq_state r = Request_Pending) (Ho : false ∉ o).

Lemma add_begin op :
  (operation_Add <= op <= operation_Check_Remove)%Z -> rq_kind r = Request_Unset ->
  afmpkg_request_add_line r (line AFMPKG_KEY_BEGIN (operation_name op)) o =
  (0%Z, set_kind r (get_operation_kind (operation_name op)), o).
Proof.
  intros Hop Hk. unfold afmpkg_request_add_line, is_unset, operation_Add, operation_Check_Remove in *.
  rewrite Hs, Hk. find_key.
  assert (op = 0 \/ op = 1 \/ op = 2 \/ op = 3)%Z as [->|[->|[->| ->]]] by lia; reflexivity.
Qed.

Context (Hk : rq_kind r <> Request_Unset).

Lemma not_unset : is_unset r = false.
Proof. unfold is_unset. by rewrite bool_decide_eq_false_2. Qed.

Lemma add_index v :
  (1 <= v <= INT_MAX)%Z -> rq_index r = 0%Z -> rq_count r = 0%Z ->
  afmpkg_request_add_line r (line AFMPKG_KEY_INDEX (itoa v)) o = (0%Z, set_index r v, o).
Proof.
  intros Hv Hi Hc. unfold afmpkg_request_add_line. rewrite Hs. find_key.
  cbn. rewrite not_unset, Hi, cstring_id, get_number_itoa by (done || apply cstr_itoa; lia).
  cbn. rewrite Hc. cbn. unfold u32, INT_MAX in *. by rewrite Z.mod_small by lia.
Qed.

Lemma add_count v :
  (1 <= v <= INT_MAX)%Z -> rq_count r = 0%Z -> (rq_index r <= v)%Z ->
  afmpkg_request_add_line r (line AFMPKG_KEY_COUNT (itoa v)) o = (0%Z, set_count r v, o).
Proof.
  intros Hv Hc Hi. unfold afmpkg_request_add_line. rewrite Hs. find_key.
  cbn. rewrite not_unset, Hc, cstring_id, get_number_itoa by (done || apply cstr_itoa; lia).
  cbn. unfold u32, INT_MAX in *. rewrite Z.mod_small by lia.
  destruct (Z.ltb_spec v (rq_index r)); [lia|]. by rewrite andb_false_r.
Qed.

Lemma add_end op :
  rq_kind r = get_operation_kind (operation_name op) -> cstr (operation_name op) ->
  afmpkg_request_add_line r (line AFMPKG_KEY_END (operation_name op)) o =
  (0%Z, set_state r Request_Ready, o).
Proof.
  intros Hop Hn. unfold afmpkg_request_add_line. rewrite Hs. find_key.
  by rewrite cstring_id, (bool_decide_eq_true_2 (rq_kind r = _)) by done.
Qed.

Lemma add_package v :
  cstr v -> package (rq_apkg r) = None ->
  exists o', afmpkg_request_add_line r (line AFMPKG_KEY_PACKAGE v) o =
    (0%Z, set_apkg r (set_package (rq_apkg r) (Some v)), o') /\ false ∉ o'.
Proof.
  intros Hv Hp. unfold afmpkg_request_add_line. rewrite Hs. find_key.
  cbn. rewrite not_unset, Hp. cbn. unfold dup_in. rewrite cstring_id by done.
  destruct (malloc_ok o Ho) as (o' & -> & Ho'). eauto.
Qed.

(** the field of an item that is put once *)
Definition field_of (it : item) (r : request_t) : option bytes :=
  match it with
  | File _ => None
  | Rootdir _ => root (rq_apkg r)
  | Transid _ => rq_transid r
  | Redpakid _ => redpakid (rq_apkg r)
  end.

Definition item_value (it : item) : bytes :=
  match it with File v | Rootdir v | Transid v | Redpakid v => v end.

(** the request after an item, but for its files *)
Definition with_item (it : item) (r : request_t) : request_t :=
  match it with
  | File _ => r
  | Rootdir v => set_apkg r (set_root (rq_apkg r) (Some v))
  | Transid v => set_transid r (Some v)
  | Redpakid v => set_apkg r (set_redpakid (rq_apkg r) (Some v))
  end.

Definition with_files (r : request_t) (f : path_entry) : request_t :=
  set_apkg r (set_files (rq_apkg r) f).

Lemma add_item it :
  cstr (item_value it) -> (Z.of_nat (length (item_value it)) < 2 ^ 32)%Z -> field_of it r = None ->
  wf (files (rq_apkg r)) ->
  exists f o', afmpkg_request_add_line r (item_line it) o = (0%Z, with_files (with_item it r) f, o') /\
    (false ∉ o') /\ wf f /\
    (forall k, added k f <-> added k (files (rq_apkg r)) \/
       exists p, it = File p /\ k = components p).
Proof.
  intros Hv Hl Hf Hw. unfold afmpkg_request_add_line, item_line. rewrite Hs.
  destruct it; simpl in Hv, Hl, Hf; find_key; cbn; rewrite not_unset, ?Hf; cbn.
  1: { destruct (add_length_ok _ _ o Hw Hl Ho) as (f & o' & -> & Hwf & _ & Ho' & Ha).
       exists f, o'. split; [done|]. split; [done|]. split; [done|]. intros k. rewrite Ha. naive_solver. }
  all: unfold dup_in; rewrite cstring_id by done; destruct (malloc_ok o Ho) as (o' & -> & Ho').
  all: exists (files (rq_apkg r)), o'; split; [by destruct r as [? ? ? ? ? ? ? ? []]|].
  all: split; [done|]; split; [done|]; intros k; naive_solver.
Qed.

End Lines.

(** the values that the items leave in a request; [v] is its former one *)
Definition latest (it_of : item -> option bytes) (v : option bytes) (items : list item) : option bytes :=
  foldl (fun v it => match it_of it with Some x => Some x | None => v end) v items.

Definition rootdir_of (it : item) := match it with Rootdir v => Some v | _ => None end.
Definition transid_of (it : item) := match it with Transid v => Some v | _ => None end.
Definition redpakid_of (it : item) := match it with Redpakid v => Some v | _ => None end.

(** the items that are put once, put for the first time *)
Definition fresh (items : list item) (r : request_t) : Prop :=
  NoDup (omap mark_of items) /\ Forall (fun it => field_of it r = None) items.

Definition ok_value (v : bytes) : Prop := cstr v /\ (NL ∉ v) /\ (Z.of_nat (length v) < 2 ^ 32)%Z.

Lemma fresh_cons it items r f :
  fresh (it :: items) r -> fresh items (with_files (with_item it r) f).
Proof.
  intros [Hn HF]. apply Forall_cons in HF as [_ HF]. split.
  { simpl in Hn. destruct (mark_of it); [by apply NoDup_cons in Hn as []|done]. }
  apply Forall_forall. intros j Hj. rewrite Forall_forall in HF. specialize (HF j Hj).
  assert (Hm : forall b, mark_of it = Some b -> mark_of j <> Some b).
  { intros b Hb Hjb. simpl in Hn. rewrite Hb in Hn. apply NoDup_cons in Hn as [Hn _].
    apply Hn, list_elem_of_omap. eauto. }
  destruct it, j; simpl in *; try done; by destruct (Hm _ eq_refl).
Qed.

Lemma add_items items r o :
  rq_state r = Request_Pending -> rq_kind r <> Request_Unset -> false ∉ o ->
  Forall (fun it => ok_value (item_value it)) items -> fresh items r -> wf (files (rq_apkg r)) ->
  exists f o', (forall more, add_lines r ((item_line <$> items) ++ more) o =
      add_lines (mk_request Request_Pending (rq_kind r) (rq_scode r) (rq_index r) (rq_count r)
        (latest transid_of (rq_transid r) items) (rq_scratch r) (rq_msg r)
        (mk_afmpkg (package (rq_apkg r)) f (latest rootdir_of (root (rq_apkg r)) items)
           (latest redpakid_of (redpakid (rq_apkg r)) items) (redpak_auto (rq_apkg r)))) more o') /\
    (false ∉ o') /\ wf f /\
    (forall k, added k f <-> added k (files (rq_apkg r)) \/ exists p, File p ∈ items /\ k = components p).
Proof.
  revert r o. induction items as [|it items IH]; intros r o Hs Hk Ho Hok Hfr Hw.
  { exists (files (rq_apkg r)), o. split.
    - intros more. simpl. rewrite <-Hs. by destruct r as [? ? ? ? ? ? ? ? []].
    - split; [done|]. split; [done|]. intros k. split; [by left|].
      intros [|(p & Hp & _)]; [done|by apply elem_of_nil in Hp]. }
  apply Forall_cons in Hok as [[Hc [_ Hl]] Hok]. pose proof Hfr as [_ [Hf _]%Forall_cons].
  destruct (add_item r o Hs Ho Hk it Hc Hl Hf Hw) as (f1 & o1 & E1 & Ho1 & Hw1 & Ha1).
  destruct (IH (with_files (with_item it r) f1) o1) as (f & o' & E & Ho' & Hwf & Ha);
    [by destruct it|by destruct it|done|done|by apply fresh_cons|by destruct it|].
  exists f, o'. split; [|split; [done|split; [done|]]].
  - intros more. rewrite fmap_cons. simpl app. rewrite (add_lines_cons _ _ _ _ _ _ E1), E.
    by destruct it.
  - intros k. rewrite Ha. replace (files (rq_apkg (with_files (with_item it r) f1))) with f1
      by by destruct it.
    rewrite Ha1. setoid_rewrite elem_of_cons. naive_solver.
Qed.

(** the request that the lines of a whole request build *)
Lemma add_request op pkg index count items o f0 :
  (operation_Add <= op <= operation_Check_Remove)%Z -> ok_value pkg ->
  (1 <= index <= count)%Z -> (count <= INT_MAX)%Z -> NoDup (omap mark_of items) ->
  Forall (fun it => ok_value (item_value it)) items -> false ∉ o -> wf f0 ->
  exists f o', add_lines (mk_request Request_Pending Request_Unset 0 0 0 None None None
      (mk_afmpkg None f0 None None None)) (request_lines op pkg index count items) o =
      (0%Z, mk_request Request_Ready (get_operation_kind (operation_name op)) 0 index count
        (latest transid_of None items) None None
        (mk_afmpkg (Some pkg) f (latest rootdir_of None items) (latest redpakid_of None items) None), o') /\
    (false ∉ o') /\ wf f /\
    (forall k, added k f <-> added k f0 \/ exists p, File p ∈ items /\ k = components p).
Proof.
  intros Hop [Hpc _] Hi Hc Hn Hok Ho Hw.
  assert (Hop' : get_operation_kind (operation_name op) <> Request_Unset /\ cstr (operation_name op)).
  { unfold operation_Add, operation_Check_Remove in Hop.
    assert (op = 0 \/ op = 1 \/ op = 2 \/ op = 3)%Z as [->|[->|[->| ->]]] by lia; (split; [done|]);
      apply (bool_decide_unpack _); vm_compute; exact I. }
  destruct Hop' as [Hkind Hcs]. unfold request_lines. simpl app.
  erewrite add_lines_cons by (apply add_begin; done).
  edestruct add_package as (o1 & E1 & Ho1);
    [|exact Ho| |exact Hpc| |erewrite add_lines_cons by exact E1]; [done..|].
  erewrite add_lines_cons by (apply add_index; cbn; done || lia).
  erewrite add_lines_cons by (apply add_count; cbn; done || lia).
  edestruct (add_items items) as (f & o' & E & Ho' & Hwf & Ha);
    [..|exists f, o'; split; [rewrite E|]]; try done.
  { split; [done|]. apply Forall_forall. by intros []. }
  erewrite add_lines_cons by (apply add_end; done). done.
Qed.

(** ** The states of a request being filled *)

(** a request without error *)
Record sound (r : request_t) : Prop := {
  sound_scode : rq_scode r = 0%Z;
  sound_state : rq_state r = Request_Pending \/ rq_state r = Request_Ready;
  sound_index : (0 <= rq_index r <= UINT_MAX)%Z;
  sound_count : (0 <= rq_count r <= UINT_MAX)%Z;
  sound_order : rq_index r <> 0%Z -> rq_count r <> 0%Z -> (rq_index r <= rq_count r)%Z;
  sound_files : wf (files (rq_apkg r));
  sound_status : rq_kind r = Request_Get_Status ->
    is_Some (rq_transid r) /\ rq_state r = Request_Ready
}.

(** a request that failed with the status [rc] *)
Definition failed (rc : Z) (r : request_t) : Prop :=
  (rc < 0)%Z /\ rq_state r = Request_Error /\ rq_scode r = rc /\ is_Some (rq_msg r).

Lemma error_failed r code msg :
  rq_scode r = 0%Z -> (code < 0)%Z ->
  (afmpkg_request_error r code msg).1 = code /\ failed code (afmpkg_request_error r code msg).2.
Proof. intros Hr Hc. unfold afmpkg_request_error, failed. rewrite Hr. simpl. eauto. Qed.

(** the outcome of a line *)
Definition outcome (res : Z * request_t) : Prop :=
  (res.1 = 0%Z /\ sound res.2) \/ failed res.1 res.2.

Lemma outcome_error r code msg :
  rq_scode r = 0%Z -> (code < 0)%Z -> outcome (afmpkg_request_error r code msg).
Proof.
  intros Hr Hc. right. destruct (error_failed r code msg Hr Hc) as [-> H]. done.
Qed.

Lemma outcome_dup r s set o :
  rq_scode r = 0%Z -> (forall v, sound (set (Some v))) -> outcome (dup_in r s set o).1.
Proof.
  intros Hr Hset. unfold dup_in. destruct (malloc o) as [[] o']; simpl.
  - left. simpl. auto.
  - by apply outcome_error.
Qed.

Lemma wf_add_length root path len o rc h root' o' :
  wf root -> path_entry_add_length root path len o = (rc, h, root', o') -> wf root'.
Proof. intros Hw Ha. by apply add_length_cases in Ha as [? _]. Qed.

Lemma get_number_range s v : get_number s = inr v -> (1 <= v <= UINT_MAX)%Z.
Proof.
  unfold get_number. destruct (strtol s) as [[val str] e]. destruct (negb _); [done|].
  destruct (_ || _ || _)%Z eqn:E; [done|]. intros [= <-]. lia.
Qed.

Lemma u32_small v : (0 <= v <= UINT_MAX)%Z -> u32 v = v.
Proof. unfold UINT_MAX, u32. intros. apply Z.mod_small. lia. Qed.

Lemma get_operation_kind_status s : get_operation_kind s <> Request_Get_Status.
Proof. unfold get_operation_kind. by repeat case_match. Qed.

#[local] Hint Resolve outcome_error outcome_dup : afm.
#[local] Hint Extern 1 (_ < _)%Z => lia : afm.

Lemma add_line_outcome r l o : sound r -> outcome (afmpkg_request_add_line r l o).1.
Proof.
  intros Hr. pose proof (sound_scode r Hr) as Hz.
  assert (Hnk : rq_state r = Request_Pending -> rq_kind r <> Request_Get_Status).
  { intros Hp Hk. destruct (sound_status r Hr Hk) as [_ Hrd]. congruence. }
  destruct Hr as [_ Hst Hi Hc Hord Hw Hstat].
  unfold afmpkg_request_add_line. case_bool_decide as Hp; simpl; [|auto with afm].
  specialize (Hnk Hp).
  destruct (is_key AFMPKG_KEY_BEGIN l).
  { destruct (is_unset r); simpl; [|auto with afm].
    destruct (is_unset (set_kind _ _)); simpl; [by apply outcome_error|].
    left. split; [done|]. constructor; simpl; auto. by intros ?%get_operation_kind_status. }
  destruct (is_key AFMPKG_KEY_COUNT l).
  { destruct (_ || _); [simpl; auto with afm|].
    destruct (get_number _) as [[]|v] eqn:En; simpl; auto with afm.
    apply get_number_range in En. rewrite u32_small by (unfold UINT_MAX in *; lia).
    destruct (negb _ && _)%Z eqn:Eo; simpl; [auto with afm|].
    left. split; [done|]. constructor; simpl; auto; lia. }
  destruct (is_key AFMPKG_KEY_END l).
  { case_bool_decide as Hk; simpl; [|auto with afm].
    left. split; [done|]. constructor; simpl; auto. rewrite Hk. by intros ?%get_operation_kind_status. }
  destruct (is_key AFMPKG_KEY_FILE l).
  { destruct (is_unset r); [simpl; auto with afm|].
    destruct (path_entry_add_length _ _ _ _) as [[[rc h] f] o'] eqn:Ea.
    apply wf_add_length in Ea; [|done]. destruct (rc <? 0)%Z; simpl; [by apply outcome_error|].
    left. split; [done|]. by constructor. }
  destruct (is_key AFMPKG_KEY_INDEX l).
  { destruct (_ || _); [simpl; auto with afm|].
    destruct (get_number _) as [[]|v] eqn:En; simpl; auto with afm.
    apply get_number_range in En. rewrite u32_small by (unfold UINT_MAX in *; lia).
    destruct (negb _ && _)%Z eqn:Eo; simpl; [auto with afm|].
    left. split; [done|]. constructor; simpl; auto; lia. }
  destruct (is_key AFMPKG_KEY_PACKAGE l), (is_key AFMPKG_KEY_REDPAKID l), (is_key AFMPKG_KEY_ROOT l),
    (is_key AFMPKG_KEY_TRANSID l), (is_key AFMPKG_KEY_STATUS l).
  all: simpl; try (destruct (_ || _); simpl); auto with afm.
  all: apply outcome_dup; [done|]; intros v; constructor; simpl; auto.
  all: try (intros Hk; split; [by eexists|]); auto; by destruct Hstat.
Qed.

(** C24: filling a request line after line either succeeds with status 0 and
    a request without error, or stops with the negative status of the first
    wrong line, that the request records with a message; in the absence of
    error, INDEX is not above COUNT, both hold in 32 bits and the tree of
    files is well formed. *)
Theorem add_lines_outcome ls o o1 :
  let r0 := (afmpkg_request_init (true :: o)).1.2 in
  let '(rc, r, _) := add_lines r0 ls o1 in
  (rc = 0%Z /\ sound r) \/ failed rc r.
Proof.
  simpl. set (r0 := mk_request _ _ _ _ _ _ _ _ _). assert (Hr : sound r0).
  { constructor; simpl; auto; unfold UINT_MAX; try lia; [|done]. by repeat constructor. }
  clearbody r0. revert r0 o1 Hr. induction ls as [|l ls IH]; intros r0 o1 Hr; simpl; [auto|].
  pose proof (add_line_outcome r0 l o1 Hr) as Hl.
  destruct (afmpkg_request_add_line r0 l o1) as [[rc r] o2]. unfold outcome in Hl. simpl in Hl.
  destruct Hl as [[-> Hs]|Hf]; [apply (IH _ _ Hs)|].
  destruct (rc <? 0)%Z eqn:E; [by right|]. destruct Hf. lia.
Qed.

(** a request that failed refuses any other line and keeps its status *)
Lemma failed_line rc r l o :
  failed rc r -> afmpkg_request_add_line r l o = ((-1000)%Z, r, o).
Proof.
  intros (Hneg & Hs & Hc & _). unfold afmpkg_request_add_line, afmpkg_request_error. rewrite Hs. simpl.
  destruct (rq_scode r =? 0)%Z eqn:E; [lia|done].
Qed.

(** ** Transactions over a sequence of requests *)

Lemma find_cleanup now id all t :
  find_transaction id all = Some t -> (now < tr_expire t)%Z ->
  find_transaction id (cleanup_transactions now all) = Some t.
Proof.
  unfold cleanup_transactions. induction all as [|x all IH]; simpl; [done|].
  destruct (beq id (tr_id x)) eqn:E; intros Hf Ht.
  - injection Hf as ->. rewrite filter_cons_True by done. simpl. by rewrite E.
  - destruct (decide (now < tr_expire x)%Z); [rewrite filter_cons_True by done|by rewrite filter_cons_False; auto].
    simpl. rewrite E. auto.
Qed.

Lemma find_cleanup_None now id all :
  find_transaction id all = None -> find_transaction id (cleanup_transactions now all) = None.
Proof.
  unfold cleanup_transactions. induction all as [|x all IH]; simpl; [done|].
  destruct (beq id (tr_id x)) eqn:E; [done|]. intros Hf.
  destruct (decide (now < tr_expire x)%Z); [rewrite filter_cons_True by done|by rewrite filter_cons_False; auto].
  simpl. rewrite E. auto.
Qed.

Lemma find_update f id all :
  (forall t, tr_id (f t) = tr_id t) ->
  find_transaction id (update_transaction f id all) = f <$> find_transaction id all.
Proof.
  intros Hf. induction all as [|x all IH]; simpl; [done|].
  destruct (beq id (tr_id x)) eqn:E; simpl; [by rewrite Hf, E|by rewrite E].
Qed.

Section Trace.
Context {W : Type} (install uninstall : afmpkg_t -> W -> Z * W).

(** requests processed one after the other, each with its two times: the
    statuses *)
Fixpoint process_all (reqs : list (Z * Z * request_t)) (all : list transaction) (w : W) (o : oracle)
  : list Z * list transaction * W * oracle :=
  match reqs with
  | [] => ([], all, w, o)
  | (now, now', r) :: reqs' =>
      let '(rc, _, all', w', o') := afmpkg_request_process install uninstall now now' r all w o in
      let '(rcs, all'', w'', o'') := process_all reqs' all' w' o' in
      (rc :: rcs, all'', w'', o'')
  end.

(** a request to add or to remove in the transaction [id] of [n] requests *)
Definition in_transaction (id : bytes) (n : Z) (r : request_t) : Prop :=
  (rq_kind r = Request_Add_Package \/ rq_kind r = Request_Remove_Package) /\
  rq_transid r = Some id /\ rq_count r = n.

Definition successes (rcs : list Z) : nat := length (filter (fun rc => (0 <= rc)%Z) rcs).
Definition failures (rcs : list Z) : nat := length (filter (fun rc => (rc < 0)%Z) rcs).

(** a transaction with its counts *)
Definition counted (id : bytes) (n expire : Z) (s f : nat) (t : transaction) : Prop :=
  t = mk_transaction expire n (u32 (Z.of_nat s)) (u32 (- Z.of_nat f)) id.

Lemma counted_next id n expire s f t (rc : Z) :
  counted id n expire s f t ->
  counted id n expire (s + successes [rc]) (f + failures [rc])
    (if (rc >=? 0)%Z then incr_success t else decr_fail t).
Proof.
  unfold counted. intros ->. unfold successes, failures, incr_success, decr_fail. simpl.
  destruct (Z.geb_spec rc 0) as [Hr|Hr].
  - rewrite filter_cons_True, filter_cons_False by lia. simpl. rewrite Nat.add_0_r.
    replace (u32 (u32 (Z.of_nat s) + 1)) with (u32 (Z.of_nat (s + 1))); [done|].
    unfold u32. rewrite Zplus_mod_idemp_l. f_equal. lia.
  - rewrite filter_cons_False, filter_cons_True by lia. simpl. rewrite Nat.add_0_r.
    replace (u32 (u32 (- Z.of_nat f) - 1)) with (u32 (- Z.of_nat (f + 1))); [done|].
    unfold u32. rewrite Zminus_mod_idemp_l. f_equal. lia.
Qed.

(** A request of a transaction, once its record is got. *)
Lemma process_counts now now' r all w o id n expire s f t all1 o1 rc r' all' w' o' :
  in_transaction id n r -> get_transaction now now' id n all o = (Some t, all1, o1) ->
  find_transaction id all1 = Some t -> counted id n expire s f t ->
  afmpkg_request_process install uninstall now now' r all w o = (rc, r', all', w', o') ->
  exists t', find_transaction id all' = Some t' /\
    counted id n expire (s + successes [rc]) (f + failures [rc]) t' /\ o' = o1.
Proof.
  intros (Hk & Htr & Hn) Hg Hf Hc. unfold afmpkg_request_process. rewrite Htr, Hn, Hg.
  assert (Hfin : forall rc0 (w0 : W) r0,
    (if (rc0 >=? 0)%Z then (rc0, r0, update_transaction incr_success id all1, w0, o1)
     else (rc0, r0, update_transaction decr_fail id all1, w0, o1)) = (rc, r', all', w', o') ->
    find_transaction id all' = Some (if (rc >=? 0)%Z then incr_success t else decr_fail t) /\ o' = o1).
  { intros rc0 w0 r0 HE.
    destruct (rc0 >=? 0)%Z eqn:E; injection HE as -> <- <- <- <-; rewrite E, find_update by done;
      by rewrite Hf. }
  destruct Hk as [Hk|Hk]; rewrite Hk; simpl.
  - destruct (install _ w) as [rc0 w0]. intros HE. apply Hfin in HE as [? ->].
    eexists. eauto using counted_next.
  - destruct (uninstall _ w) as [rc0 w0]. intros HE. apply Hfin in HE as [? ->].
    eexists. eauto using counted_next.
Qed.

Lemma get_known now now' id n all o t :
  find_transaction id all = Some t -> (now < tr_expire t)%Z ->
  get_transaction now now' id n all o = (Some t, cleanup_transactions now all, o) /\
  find_transaction id (cleanup_transactions now all) = Some t.
Proof.
  intros Hf Ht. pose proof (find_cleanup now _ _ _ Hf Ht) as Hc.
  unfold get_transaction. by rewrite Hc.
Qed.

Lemma process_all_known reqs all w o id n expire s f t rcs all' w' o' :
  Forall (fun '(now, _, r) => (now < expire)%Z /\ in_transaction id n r) reqs ->
  find_transaction id all = Some t -> counted id n expire s f t ->
  process_all reqs all w o = (rcs, all', w', o') ->
  exists t', find_transaction id all' = Some t' /\
    counted id n expire (s + successes rcs) (f + failures rcs) t' /\ o' = o.
Proof.
  revert all w s f t rcs. induction reqs as [|[[now now'] r] reqs IH]; intros all w s f t rcs HF Hf Hc; simpl.
  { intros [= <- <- <- <-]. exists t. unfold successes, failures. simpl. by rewrite !Nat.add_0_r. }
  apply Forall_cons in HF as [[Hnow Hr] HF].
  destruct (afmpkg_request_process _ _ _ _ _ _ _ _) as [[[[rc r1] all1] w1] o1] eqn:Ep.
  destruct (process_all reqs all1 w1 o1) as [[[rcs1 all2] w2] o2] eqn:Ea. intros [= <- <- <- <-].
  destruct (get_known now now' id n all o t Hf) as [Hg Hf1]; [unfold counted in Hc; by subst|].
  destruct (process_counts _ _ _ _ _ _ _ _ _ _ _ _ _ _ _ _ _ _ _ Hr Hg Hf1 Hc Ep) as (t1 & Hf2 & Hc1 & ->).
  destruct (IH _ _ _ _ _ _ HF Hf2 Hc1 Ea) as (t2 & Hf3 & Hc2 & ->). exists t2. split; [done|].
  split; [|done]. unfold successes, failures in *.
  change (rc :: rcs1) with ([rc] ++ rcs1). rewrite !filter_app, !length_app, !Nat.add_assoc. done.
Qed.

Lemma i32_u32 v : (- 2 ^ 31 <= v < 2 ^ 31)%Z -> i32 (u32 v) = v.
Proof. intros H. unfold i32, u32. rewrite Zplus_mod_idemp_l, Z.mod_small; lia. Qed.

Lemma length_counts rcs : length rcs = successes rcs + failures rcs.
Proof.
  unfold successes, failures. induction rcs as [|rc rcs IH]; [done|].
  rewrite !filter_cons. destruct (decide (0 <= rc)%Z), (decide (rc < 0)%Z); simpl; lia.
Qed.

Lemma length_process_all reqs all w o rcs all' w' o' :
  process_all reqs all w o = (rcs, all', w', o') -> length rcs = length reqs.
Proof.
  revert all w o rcs all' w' o'. induction reqs as [|[[now now'] r] reqs IH]; intros all w o rcs all' w' o'; simpl.
  { by intros [= <- <- <- <-]. }
  destruct (afmpkg_request_process _ _ _ _ _ _ _ _) as [[[[rc r1] all1] w1] o1].
  destruct (process_all reqs all1 w1 o1) as [[[rcs1 all2] w2] o2] eqn:Ea. intros [= <- <- <- <-].
  simpl. f_equal. eauto.
Qed.


End Trace.

(** a back end that refuses one package *)
Definition sample_install (a : afmpkg_t) (w : unit) : Z * unit :=
  (if bool_decide (package a = Some (B "bad")) then (- EINVAL)%Z else 0%Z, w).

Definition sample_request (pkg : bytes) (k : request_kind) : request_t :=
  mk_request Request_Ready k 0 1 2 (Some (B "T")) None None
    (mk_afmpkg (Some pkg) (Entry [] 0 [] []) None None None).


End request.
