(* ===== verification/Server.v ===== *)
(** * Serving a client of the installer daemon: [src/src/afmpkg/afmpkg-server.c] *)
From S2P Require Import Prelude CString PathEntry Package Client Request.

Module server.
Import client request.

(** ** Receiving *)

(** what the socket delivers, one item per segment; the end of the list is
    the end of the stream *)
Inductive segment := Data (b : bytes) | Failure.

Definition BUFFER_SIZE : Z := 32768.

Definition is_nl (c : ascii) : bool := bool_decide (c = NL).

(** The loop on the characters of the buffer: [buf] holds what was ever
    written in the array, at least [len] characters.  The result is the
    status, the request, the array and the new value of [length]. *)
Fixpoint scan (fuel : nat) (r : request_t) (buf : bytes) (it len : nat) (o : oracle)
  : Z * request_t * bytes * nat * oracle :=
  match fuel with
  | O => (0%Z, r, buf, len, o)
  | S fuel' =>
      if bool_decide (it < len) then
        let rest := take (len - it) (drop it buf) in
        let n := length (take_while (fun c => negb (is_nl c)) rest) in
        if bool_decide (it + n = len) then (0%Z, r, rest ++ drop (len - it) buf, len - it, o)
        else if bool_decide (n = 0) then scan fuel' r buf (S it) len o
        else
          let '(rc, r', o') := afmpkg_request_add_line r (take n rest) o in
          let buf' := <[it + n := NUL]> buf in
          if (rc <? 0)%Z then (rc, r', buf', len, o') else scan fuel' r' buf' (it + n + 1) len o'
      else (0%Z, r, buf, len, o)
  end.

(** the loop on the segments; [None] when the fuel is exhausted *)
Fixpoint receive_loop (fuel : nat) (segs : list segment) (r : request_t) (buf : bytes) (length_ : nat)
  (o : oracle) : option (Z * request_t * oracle) :=
  match fuel with
  | O => None
  | S fuel' =>
      match segs with
      | [] => Some (0%Z, r, o)
      | Failure :: _ => Some (afmpkg_request_error r (-2000) (B "receive error"), o)
      | Data chunk :: segs' =>
          let room := Z.to_nat (BUFFER_SIZE - Z.of_nat length_) in
          let got := take room chunk in
          if bool_decide (got = []) then Some (0%Z, r, o)
          else
            let later := drop room chunk in
            let sz := length got in
            let '(rc, r', buf', len', o') :=
              scan sz r (take length_ buf ++ got ++ drop (length_ + sz) buf) 0 sz o in
            if (rc <? 0)%Z then Some (rc, r', o')
            else receive_loop fuel' (if bool_decide (later = []) then segs' else Data later :: segs')
                   r' buf' len' o'
      end
  end.

(** every turn takes a segment or, at least, a character *)
Fixpoint weight (segs : list segment) : nat :=
  match segs with
  | [] => 1
  | Failure :: _ => 1
  | Data b :: segs' => S (length b) + weight segs'
  end.

Definition receive (segs : list segment) (r : request_t) (o : oracle)
  : option (Z * request_t * oracle) :=
  receive_loop (weight segs) segs r [] 0 o.

(** ** Replying *)

(** the characters sent; [buffer] is the array of 512 characters *)
Definition reply (r : request_t) (buffer : bytes) : bytes :=
  let '(length, buffer) := afmpkg_request_make_reply_line r buffer 512 in
  if bool_decide (512 <= length) then take 512 (<[511 := NL]> buffer) else take length buffer.

(** ** Serving *)
Section Serve.
Context {W : Type} (install uninstall : afmpkg_t -> W -> Z * W) (sighup_all : W -> W).

(** status, reply, transactions and world *)
Definition afmpkg_serve (now now' : Z) (segs : list segment) (buffer : bytes)
  (all : list transaction) (w : W) (o : oracle)
  : option (Z * bytes * list transaction * W * oracle) :=
  let '(rc, r, o) := afmpkg_request_init o in
  if (rc >=? 0)%Z then
    match receive segs r o with
    | None => None
    | Some (rc, r, o) =>
        if (rc >=? 0)%Z then
          let '(rc, r, all, w, o) := afmpkg_request_process install uninstall now now' r all w o in
          let w := match rq_kind r with
                   | Request_Add_Package | Request_Remove_Package => sighup_all w
                   | _ => w
                   end in
          Some (rc, reply r buffer, all, w, o)
        else Some (rc, reply r buffer, all, w, o)
    end
  else Some (rc, reply r buffer, all, w, o).

End Serve.

(** ** Lemmas *)

(** a line as the scanner finds it *)
Definition ok_line (l : bytes) : Prop := l <> [] /\ NL ∉ l.

Lemma take_line l rest : NL ∉ l -> take_while (fun c => negb (is_nl c)) (l ++ NL :: rest) = l.
Proof.
  intros Hl. induction l as [|c l IH]; simpl; [done|]. apply not_elem_of_cons in Hl as [Hc Hl].
  unfold is_nl at 1. rewrite bool_decide_eq_false_2 by done. simpl. by rewrite IH.
Qed.

(** The scanner gives the lines one after the other. *)
Lemma scan_lines ls fuel r pre o rc r' o' :
  Forall ok_line ls -> length (lines_text ls) <= fuel -> add_lines r ls o = (rc, r', o') ->
  exists buf' len', scan fuel r (pre ++ lines_text ls) (length pre)
    (length pre + length (lines_text ls)) o = (rc, r', buf', len', o').
Proof.
  revert fuel r pre o. induction ls as [|l ls IH]; intros fuel r pre o Hok Hf Hadd; simpl in Hadd.
  { injection Hadd as <- <- <-. simpl. rewrite app_nil_r, Nat.add_0_r.
    destruct fuel; simpl; [eauto|]. rewrite bool_decide_eq_false_2 by lia. eauto. }
  apply Forall_cons in Hok as [[Hne Hnl] Hok].
  assert (Htext : lines_text (l :: ls) = l ++ NL :: lines_text ls).
  { unfold lines_text. simpl. by rewrite <-(assoc_L (++)). }
  rewrite Htext in *. rewrite length_app in *. simpl in Hf. simpl length.
  destruct fuel as [|fuel]; [lia|]. cbn [scan].
  assert (0 < length l) by (destruct l; simpl; [done|lia]).
  rewrite bool_decide_eq_true_2 by lia. rewrite drop_app_length.
  rewrite (take_ge (l ++ _)) by (rewrite length_app; simpl; lia).
  rewrite take_line by done. rewrite (bool_decide_eq_false_2 (_ = _ + _)) by lia.
  rewrite (bool_decide_eq_false_2 (length l = 0)) by lia. rewrite take_app_length.
  destruct (afmpkg_request_add_line r l o) as [[rc1 r1] o1].
  destruct (rc1 <? 0)%Z; [injection Hadd as <- <- <-; eauto|].
  replace (<[length pre + length l:=NUL]> (pre ++ l ++ NL :: lines_text ls))
    with ((pre ++ l ++ [NUL]) ++ lines_text ls).
  2: { rewrite (insert_app_r pre), (insert_app_r_alt l), Nat.sub_diag by lia. simpl.
       by rewrite <-!(assoc_L (++)). }
  replace (length pre + length l + 1) with (length (pre ++ l ++ [NUL]))
    by (rewrite !length_app; simpl; lia).
  replace (length pre + (length l + S (length (lines_text ls))))
    with (length (pre ++ l ++ [NUL]) + length (lines_text ls)) by (rewrite !length_app; simpl; lia).
  apply IH; [done|lia|done].
Qed.

(** A text of lines received at once gives its lines. *)
Lemma receive_lines ls r o rc r' o' :
  Forall ok_line ls -> ls <> [] -> (Z.of_nat (length (lines_text ls)) <= BUFFER_SIZE)%Z ->
  add_lines r ls o = (rc, r', o') -> (rc <= 0)%Z ->
  receive [Data (lines_text ls)] r o = Some (rc, r', o').
Proof.
  intros Hok Hne Hl Hadd Hrc. unfold receive. cbn [weight receive_loop Nat.add].
  assert (Hroom : length (lines_text ls) <= Z.to_nat (BUFFER_SIZE - Z.of_nat 0))
    by (unfold BUFFER_SIZE in *; lia).
  set (room := Z.to_nat _) in *. clearbody room.
  rewrite (take_ge (lines_text ls) room), (drop_ge (lines_text ls) room) by exact Hroom.
  rewrite (bool_decide_eq_false_2 (lines_text ls = [])).
  2: { destruct ls as [|l ls]; [done|]. unfold lines_text. simpl. intros H.
       apply (f_equal length) in H. rewrite !length_app in H. simpl in H. lia. }
  rewrite take_0, drop_nil, app_nil_r, (bool_decide_eq_true_2 ([] = [])) by done.
  destruct (scan_lines ls (length (lines_text ls)) r [] o rc r' o') as (buf' & len' & E); [done|lia|done|].
  simpl in E |- *. rewrite E. destruct (rc <? 0)%Z eqn:Erc; [done|].
  replace rc with 0%Z by lia. by destruct (length (lines_text ls)).
Qed.

Lemma request_lines_ok op pkg index count items :
  (operation_Add <= op <= operation_Check_Remove)%Z -> ok_value pkg ->
  (1 <= index <= count)%Z -> (count <= INT_MAX)%Z ->
  Forall (fun it => ok_value (item_value it)) items ->
  Forall ok_line (request_lines op pkg index count items).
Proof.
  intros Hop (_ & Hp & _) Hi Hc Hok. unfold operation_Add, operation_Check_Remove in Hop.
  assert (Hline : forall k v, k ≠ [] -> NL ∉ k -> NL ∉ v -> ok_line (line k v)).
  { intros k v Hk Hkn Hv. unfold ok_line, line. split; [by destruct k|].
    rewrite !not_elem_of_app, list_elem_of_singleton. naive_solver. }
  assert (Hop' : NL ∉ operation_name op).
  { assert (op = 0 \/ op = 1 \/ op = 2 \/ op = 3)%Z as [->|[->|[->| ->]]] by lia;
      apply (bool_decide_unpack _); vm_compute; exact I. }
  assert (Hkey : forall k, bool_decide (k ≠ [] /\ NL ∉ k) = true -> forall v, NL ∉ v -> ok_line (line k v)).
  { intros k [? ?]%bool_decide_eq_true v Hv. auto. }
  unfold request_lines. rewrite Forall_app, Forall_app. split; [|split].
  - repeat apply Forall_cons_2; try apply Forall_nil_2; apply Hkey; try done; apply cstr_itoa; lia.
  - rewrite Forall_fmap. eapply Forall_impl; [exact Hok|]. intros [v|v|v|v] (_ & Hv & _); simpl;
      by apply Hkey.
  - apply Forall_cons_2; [by apply Hkey|apply Forall_nil_2].
Qed.

(** the request that is being filled when nothing was received *)
Definition request0 : request_t :=
  mk_request Request_Pending Request_Unset 0 0 0 None None None (mk_afmpkg None (Entry [] 0 [] []) None None None).

(** The server rebuilds the request whose text it receives at once. *)
Lemma text_received op pkg index count items o :
  (operation_Add <= op <= operation_Check_Remove)%Z -> ok_value pkg ->
  (1 <= index <= count)%Z -> (count <= INT_MAX)%Z -> NoDup (omap mark_of items) ->
  Forall (fun it => ok_value (item_value it)) items -> false ∉ o ->
  (Z.of_nat (length (lines_text (request_lines op pkg index count items))) < AFMPKG_CLIENT_BUFFER0_SIZE)%Z ->
  exists f o2,
    receive [Data (lines_text (request_lines op pkg index count items))] request0 o = Some (0%Z,
      mk_request Request_Ready (get_operation_kind (operation_name op)) 0 index count
        (latest transid_of None items) None None
        (mk_afmpkg (Some pkg) f (latest rootdir_of None items) (latest redpakid_of None items) None), o2) /\
    wf f /\ forall k, added k f <-> exists p, File p ∈ items /\ k = components p.
Proof.
  intros Hop Hpkg Hi Hc Hn Hok Ho Hl.
  destruct (add_request op pkg index count items o (Entry [] 0 [] [])) as (f & o2 & Ea & _ & Hw & Ha);
    [done..|by repeat constructor|].
  exists f, o2. split_and!; [|done|].
  - apply receive_lines; [by apply request_lines_ok|done| |done|done].
    unfold BUFFER_SIZE, AFMPKG_CLIENT_BUFFER0_SIZE in *. lia.
  - intros k. rewrite Ha. split; [|by right]. intros [(x & Hx & Hadd)|]; [|done].
    destruct k; [|done]. injection Hx as <-. done.
Qed.

(** ** Properties *)

(** C10: a request composed by the client through its interface, that fits
    the buffer of the client, is complete in the buffer, and the server
    that receives it at once rebuilds it: kind, package, index, count,
    root, transaction and redpak identifiers, and the files, exactly those
    that the client put. *)
Theorem client_server_roundtrip op pkg index count items c oc o :
  (operation_Add <= op <= operation_Check_Remove)%Z -> ok_value pkg ->
  (1 <= index <= count)%Z -> (count <= INT_MAX)%Z -> NoDup (omap mark_of items) ->
  Forall (fun it => ok_value (item_value it)) items -> false ∉ o ->
  (Z.of_nat (length (lines_text (request_lines op pkg index count items))) < AFMPKG_CLIENT_BUFFER0_SIZE)%Z ->
  exists c' text r0 o1 f o2,
    compose (afmpkg_client_init c) op pkg index count items oc = (0%Z, c', oc) /\
    content c' = Some <$> text /\ state c' = Ready /\
    afmpkg_request_init (true :: o) = (0%Z, r0, o1) /\
    receive [Data text] r0 o1 = Some (0%Z,
      mk_request Request_Ready (get_operation_kind (operation_name op)) 0 index count
        (latest transid_of None items) None None
        (mk_afmpkg (Some pkg) f (latest rootdir_of None items) (latest redpakid_of None items) None), o2) /\
    wf f /\ forall k, added k f <-> exists p, File p ∈ items /\ k = components p.
Proof.
  intros Hop Hpkg Hi Hc Hn Hok Ho Hl.
  destruct (compose_lines op pkg index count items oc (afmpkg_client_init c)) as (c' & E & Hcont & Hst);
    [done..|].
  destruct (text_received op pkg index count items o) as (f & o2 & Er & Hw & Ha); [done..|].
  exists c', (lines_text (request_lines op pkg index count items)), request0, o, f, o2. by split_and!.
Qed.

Lemma client_server_roundtrip_witness :
  exists c' text r0 o1 f o2,
    compose (afmpkg_client_init (mk_client true [] 0 0 None_ 0)) 0 (B "pkg") 1 2
      [File (B "/usr/a"); Transid (B "T"); File (B "/usr/b")] [] = (0%Z, c', []) /\
    content c' = Some <$> text /\ state c' = Ready /\
    afmpkg_request_init [true] = (0%Z, r0, o1) /\
    receive [Data text] r0 o1 = Some (0%Z,
      mk_request Request_Ready Request_Add_Package 0 1 2 (Some (B "T")) None None
        (mk_afmpkg (Some (B "pkg")) f None None None), o2) /\
    wf f /\ forall k, added k f <->
      exists p, File p ∈ [File (B "/usr/a"); Transid (B "T"); File (B "/usr/b")] /\ k = components p.
Proof.
  apply (client_server_roundtrip 0 (B "pkg") 1 2
    [File (B "/usr/a"); Transid (B "T"); File (B "/usr/b")] (mk_client true [] 0 0 None_ 0) [] []).
  - vm_compute. split; intros [=].
  - apply (bool_decide_unpack _). vm_compute. exact I.
  - lia.
  - unfold INT_MAX. lia.
  - apply (bool_decide_unpack _). vm_compute. exact I.
  - apply (bool_decide_unpack _). vm_compute. exact I.
  - apply not_elem_of_nil.
  - vm_compute. reflexivity.
Defined.

(** The reception always ends, whatever is received. *)
Theorem receive_ends segs r o : is_Some (receive segs r o).
Proof.
  unfold receive. remember (weight segs) as fuel eqn:Ef.
  assert (Hw : weight segs <= fuel) by lia. clear Ef.
  generalize (@nil ascii) as buf, 0 as len. intros buf len.
  revert segs r buf len o Hw. induction fuel as [|fuel IH]; intros segs r buf len o Hw.
  { destruct segs as [|[b|] segs]; simpl in Hw; lia. }
  cbn [receive_loop]. destruct segs as [|[chunk|] segs]; [by eexists|..|by eexists].
  set (room := Z.to_nat _). case_bool_decide as Hg; [by eexists|].
  destruct (scan _ _ _ _ _ _) as [[[[rc r'] buf'] len'] o']. destruct (rc <? 0)%Z; [by eexists|].
  apply IH. simpl in Hw. case_bool_decide as Hd; [lia|]. simpl. rewrite length_drop.
  assert (length (take room chunk) <> 0) by (by destruct (take room chunk)).
  rewrite length_take in *. lia.
Qed.

(** *** The reply *)

(** the text of the reply *)
Definition reply_text (r : request_t) : bytes :=
  (if (rq_scode r >=? 0)%Z then AFMPKG_KEY_OK else AFMPKG_KEY_ERROR) ++
  match rq_msg r with Some (c :: s) => SPACE :: c :: s | _ => [] end ++ [NL].

(** the line holds the start of the text [t] *)
Definition wrote (n : nat) (st : bytes * nat) (t : bytes) : Prop :=
  length st.1 = n /\ st.2 = length t /\ take (length t) st.1 = take n t.

Lemma put_char_wrote n st t c : wrote n st t -> wrote n (put_char n st c) (t ++ [c]).
Proof.
  destruct st as [b i]. intros (Hn & Hi & Ht). simpl in *. subst i. unfold wrote. simpl.
  rewrite length_app. simpl. case_bool_decide as H.
  - rewrite length_insert. split; [done|]. split; [lia|].
    rewrite (insert_take_drop b) by lia. rewrite Ht, (take_ge t) by lia.
    rewrite !take_app_ge by lia. replace (length t + 1 - length t) with 1 by lia. simpl.
    rewrite (take_ge [c]) by (simpl; lia). by destruct (drop _ b).
  - split; [done|]. split; [lia|]. rewrite take_app_le, <-Ht, !take_ge by lia. done.
Qed.

Lemma put_chars_wrote n s st t : wrote n st t -> wrote n (put_chars n st s) (t ++ s).
Proof.
  revert st t. induction s as [|c s IH]; intros st t H; simpl; [by rewrite app_nil_r|].
  rewrite cons_middle, (assoc_L (++)). by apply IH, put_char_wrote.
Qed.

Lemma reply_spec r buffer :
  length buffer = 512 ->
  reply r buffer = if bool_decide (length (reply_text r) < 512) then reply_text r
                   else take 511 (reply_text r) ++ [NL].
Proof.
  intros Hb. unfold reply, afmpkg_request_make_reply_line.
  assert (H0 : wrote 512 (buffer, 0) []) by (by split_and!).
  apply (put_chars_wrote 512 (if (rq_scode r >=? 0)%Z then AFMPKG_KEY_OK else AFMPKG_KEY_ERROR)) in H0.
  simpl app in H0. set (st0 := put_chars _ _ _) in *. clearbody st0.
  set (tag := if (rq_scode r >=? 0)%Z then _ else _) in *.
  set (st1 := match rq_msg r with Some (c :: s) => _ | _ => st0 end).
  assert (H1 : wrote 512 (put_char 512 st1 NL) (reply_text r)).
  { unfold reply_text, st1. fold tag. rewrite (assoc_L (++)). apply put_char_wrote.
    destruct (rq_msg r) as [[|c s]|]; rewrite ?app_nil_r; [done| |done].
    rewrite cons_middle, (assoc_L (++)). by apply put_chars_wrote, put_char_wrote. }
  destruct (put_char 512 st1 NL) as [line idx]. destruct H1 as (Hl & Hi & Ht). simpl in Hl, Hi, Ht. subst idx.
  set (t := reply_text r) in *. clearbody t. clear H0 st0 st1.
  destruct (decide (length t < 512)) as [Hlt|Hge].
  - rewrite (bool_decide_eq_true_2 (length t < 512)), bool_decide_eq_false_2 by lia.
    rewrite take_insert_ge by lia. rewrite Ht. apply take_ge. lia.
  - rewrite (bool_decide_eq_false_2 (length t < 512)), bool_decide_eq_true_2 by lia.
    rewrite take_ge by (rewrite length_insert; lia).
    rewrite insert_take_drop by lia. rewrite (drop_ge line) by lia. f_equal.
    apply (f_equal (take 511)) in Ht. rewrite !take_take in Ht.
    by rewrite !(Nat.min_l 511) in Ht by lia.
Qed.

(** a message that the reply carries whole *)
Definition ok_msg (msg : bytes) : Prop :=
  msg <> [] /\ cstr msg /\ (NL ∉ msg) /\ head msg <> Some SPACE /\ length msg < 500.

Lemma strip_nl_snoc t : NL ∉ t -> strip_nl (t ++ [NL]) = t.
Proof.
  intros Ht. unfold strip_nl. rewrite rev_app_distr. simpl.
  destruct (rev t) as [|c u] eqn:E.
  - apply (f_equal (@rev ascii)) in E. by rewrite rev_involutive in E.
  - rewrite drop_while_stop, <-E, rev_involutive; [done|].
    rewrite bool_decide_eq_false_2; [done|]. intros ->. apply Ht.
    rewrite list_elem_of_In, in_rev, E. by left.
Qed.

(** The client gets from the reply of the server the status of the
    request and its message. *)
Theorem reply_roundtrip r buffer msg :
  length buffer = 512 -> rq_msg r = Some msg -> ok_msg msg ->
  recv_framework (take 999 (reply r buffer)) =
  (if (rq_scode r >=? 0)%Z then 1%Z else 0%Z, Some msg).
Proof.
  intros Hb Hm (Hne & Hc & Hnl & Hsp & Hl). rewrite reply_spec by done.
  unfold reply_text. rewrite Hm. destruct msg as [|c s]; [done|].
  set (tag := if (rq_scode r >=? 0)%Z then _ else _).
  assert (Htag : length tag <= 5 /\ (NL ∉ tag) /\ cstr tag).
  { unfold tag. destruct (_ >=? _)%Z; apply (bool_decide_unpack _); vm_compute; exact I. }
  destruct Htag as (Htl & Htn & Htc).
  rewrite bool_decide_eq_true_2 by (rewrite !length_app; simpl in *; lia).
  rewrite take_ge by (rewrite !length_app; simpl in *; lia).
  unfold recv_framework. rewrite (assoc_L (++)), strip_nl_snoc.
  2: { rewrite elem_of_app, elem_of_cons. intros [|[[=]|]]; auto. }
  rewrite cstring_id by (apply cstr_app; split; [done|]; by apply cstr_cons).
  assert (Hd : drop_while (fun x => bool_decide (x = SPACE)) (SPACE :: c :: s) = c :: s).
  { simpl. rewrite bool_decide_eq_false_2; [done|]. intros ->. by apply Hsp. }
  unfold tag. destruct (rq_scode r >=? 0)%Z; cbn -[drop_while]; rewrite Hd; done.
Qed.

Lemma reply_roundtrip_witness :
  recv_framework (take 999 (reply (mk_request Request_Error Request_Add_Package (-1016) 0 0 None None
    (Some (B "out of memory")) (mk_afmpkg None (Entry [] 0 [] []) None None None)) (replicate 512 NUL))) =
  (0%Z, Some (B "out of memory")).
Proof.
  apply (reply_roundtrip (mk_request Request_Error Request_Add_Package (-1016) 0 0 None None
    (Some (B "out of memory")) (mk_afmpkg None (Entry [] 0 [] []) None None None)) (replicate 512 NUL)
    (B "out of memory")); [reflexivity|reflexivity|].
  apply (bool_decide_unpack _). vm_compute. exact I.
Defined.

(** *** Two weaknesses *)

(** The outcome depends on how the stream is cut: a request that is
    accepted when it is received at once is refused when its first line is
    received apart, because the buffer is then read again from its start. *)
Theorem segmentation_matters :
  let first := lines_text [line AFMPKG_KEY_BEGIN (B "ADD")] in
  let second := lines_text [line AFMPKG_KEY_PACKAGE (B "app"); line AFMPKG_KEY_FILE (B "/f");
                            line AFMPKG_KEY_END (B "ADD")] in
  let r0 := (afmpkg_request_init []).1.2 in
  (exists r o, receive [Data (first ++ second)] r0 [] = Some (0%Z, r, o) /\ rq_state r = Request_Ready) /\
  (exists r o, receive [Data first; Data second] r0 [] = Some ((-1001)%Z, r, o) /\
     rq_msg r = Some (B "unexpected BEGIN")).
Proof. split; do 2 eexists; (split; [vm_compute; reflexivity|reflexivity]). Qed.

(** A request that ends before its END line is processed as well: the
    package of a connection closed too early is removed. *)
Theorem incomplete_request_processed {W} (install uninstall : afmpkg_t -> W -> Z * W) sighup
  now now' pkg buffer all w o :
  ok_value pkg -> (Z.of_nat (length pkg) <= 1000)%Z -> false ∉ o ->
  let a := mk_afmpkg (Some pkg) (Entry [] 0 [] []) None None None in
  exists rep o',
    afmpkg_serve install uninstall sighup now now'
      [Data (lines_text [line AFMPKG_KEY_BEGIN (B "REMOVE"); line AFMPKG_KEY_PACKAGE pkg])]
      buffer all w o = Some ((uninstall a w).1, rep, all, sighup (uninstall a w).2, o').
Proof.
  intros (Hc & Hnl & _) Hl Ho a. unfold afmpkg_serve.
  destruct (malloc_ok o Ho) as (o1 & Em & Ho1).
  unfold afmpkg_request_init, path_entry_create_root. rewrite Em. cbv beta iota. cbn [default Z.geb Z.compare].
  set (r0 := mk_request _ _ _ _ _ _ _ _ _).
  assert (Hb : afmpkg_request_add_line r0 (line AFMPKG_KEY_BEGIN (B "REMOVE")) o1 =
               (0%Z, set_kind r0 Request_Remove_Package, o1)) by reflexivity.
  destruct (add_package (set_kind r0 Request_Remove_Package) o1 eq_refl Ho1 ltac:(done) pkg Hc eq_refl)
    as (o2 & Ep & _).
  set (ls := [_; _]).
  assert (Hadd : add_lines r0 ls o1 = (0%Z, set_apkg (set_kind r0 Request_Remove_Package) a, o2)).
  { unfold ls. by rewrite (add_lines_cons _ _ _ _ _ _ Hb), (add_lines_cons _ _ _ _ _ _ Ep). }
  assert (Hok : Forall ok_line ls).
  { constructor; [by split; [|apply (bool_decide_unpack _); vm_compute; exact I]|].
    constructor; [|constructor]. split; [done|]. unfold line. rewrite !not_elem_of_app.
    split; [by apply (bool_decide_unpack _); vm_compute|]. split; [|done].
    by rewrite list_elem_of_singleton. }
  assert (Hlen : (Z.of_nat (length (lines_text ls)) <= BUFFER_SIZE)%Z).
  { change ls with ([line AFMPKG_KEY_BEGIN (B "REMOVE")] ++ [line AFMPKG_KEY_PACKAGE pkg]).
    rewrite lines_text_app, length_app, !length_line.
    unfold BUFFER_SIZE. simpl. lia. }
  rewrite (receive_lines ls r0 o1 0 _ o2 Hok ltac:(done) Hlen Hadd ltac:(lia)).
  assert (Hp : exists r, afmpkg_request_process install uninstall now now'
      (set_apkg (set_kind r0 Request_Remove_Package) a) all w o2 =
      ((uninstall a w).1, r, all, (uninstall a w).2, o2) /\ rq_kind r = Request_Remove_Package).
  { unfold afmpkg_request_process. simpl. destruct (uninstall a w) as [rc w'].
    destruct (rc <? 0)%Z; eexists; split; reflexivity. }
  destruct Hp as (r & -> & Hk). change (0 >=? 0)%Z with true. cbv beta iota. rewrite Hk. eauto.
Qed.

Lemma incomplete_request_processed_witness :
  exists rep o',
    afmpkg_serve (fun _ w => (0%Z, w)) (fun a (w : list (option bytes)) => (0%Z, package a :: w)) id 0 0
      [Data (lines_text [line AFMPKG_KEY_BEGIN (B "REMOVE"); line AFMPKG_KEY_PACKAGE (B "app")])]
      (replicate 512 NUL) [] [] [] = Some (0%Z, rep, [], [Some (B "app")], o').
Proof.
  refine (incomplete_request_processed (fun _ w => (0%Z, w))
    (fun a (w : list (option bytes)) => (0%Z, package a :: w)) id 0 0 (B "app") (replicate 512 NUL) [] [] []
    _ _ (not_elem_of_nil _)).
  - apply (bool_decide_unpack _). vm_compute. exact I.
  - simpl. lia.
Defined.

End server.
