(* ===== verification/RpmPlugin.v ===== *)
(** * Plugin of rpm: [src/src/rpm-plugin/redpesk.c]

    For each package that a transaction set of rpm adds or removes, the plugin
    sends a request to the daemon of [Server.v], through the client of
    [Client.v]: before the transaction for the packages removed, after it for
    the packages added. The library of rpm is a class; [getenv] and the
    network are parameters. The logs are left out, and so is the variant that
    is built without the daemon. *)
From S2P Require Import Prelude CString Client PathEntry Request Server.

Module rpm_plugin.
Import client path_entry request server.

(** ** Interface of rpm *)

Inductive rpmElementType := TR_ADDED | TR_REMOVED | TR_other.
#[export] Instance rpmElementType_eq_dec : EqDecision rpmElementType.
Proof. solve_decision. Defined.

Inductive rpmRC := RPMRC_OK | RPMRC_FAIL.

Class Rpm (Ts Te : Type) := {
  #[global] ts_eq_dec :: EqDecision Ts;
  rpmtsElements : Ts -> list Te;
  rpmtsRootDir : Ts -> option bytes;
  (** the flags TEST, NOPREUN and NOPOST of [rpmtsFlags] *)
  flag_test : Ts -> bool;
  flag_nopreun : Ts -> bool;
  flag_nopost : Ts -> bool;
  rpmteType : Te -> rpmElementType;
  rpmteN : Te -> bytes;
  (** the names of the files of [rpmteFiles] *)
  rpmteFiles : Te -> list bytes
}.

Section Plugin.
Context {Ts Te : Type} `{Rpm Ts Te} (getenv : bytes -> option bytes).

(** the network at each dial *)
Context (net : nat -> network).

(** the values in memory that is not set *)
Context (junk : Z).

Definition AFMPKG_ENVVAR_TRANSID : bytes := B "AFMPKG_TRANSID".
Definition AFMPKG_ENVVAR_REDPAKID : bytes := B "AFMPKG_REDPAKID".

Record record_t := mk_record {
  r_ts : Ts; r_type : rpmElementType; r_index : Z; r_count : Z; r_te : Te; r_files : list bytes
}.

(** the records, what was given to dial and the memory *)
Record plugin := mk_plugin { records : list record_t; dialed : list (list (option ascii)); mem : oracle }.

(** ** One element *)

(** the loop on the files *)
Fixpoint put_files (r : Z * client_t * oracle) (files : list bytes) : Z * client_t * oracle :=
  match files with
  | [] => r
  | filename :: files' =>
      let '(rc, c, o) := r in
      if (rc =? 0)%Z then put_files (afmpkg_client_put_file c filename o) files' else r
  end.

Definition make_message (c : client_t) (r : record_t) (op : Z) (o : oracle) : Z * client_t * oracle :=
  let res := afmpkg_client_begin c op (rpmteN (r_te r)) (r_index r) (r_count r) o in
  let res := match rpmtsRootDir (r_ts r) with
             | Some rootdir => or_else res (fun c => afmpkg_client_put_rootdir c rootdir)
             | None => res end in
  let res := match getenv AFMPKG_ENVVAR_TRANSID with
             | Some transid => or_else res (fun c => afmpkg_client_put_transid c transid)
             | None => res end in
  let res := match getenv AFMPKG_ENVVAR_REDPAKID with
             | Some redpakid => or_else res (fun c => afmpkg_client_put_redpakid c redpakid)
             | None => res end in
  or_else (put_files res (r_files r)) afmpkg_client_end.

(** the values of [afmpkg_operation_t] *)
Definition get_operation (type : rpmElementType) (onlycheck : bool) : Z :=
  match type with
  | TR_ADDED => if onlycheck then 2 else 0
  | TR_REMOVED => if onlycheck then 3 else 1
  | TR_other => -1
  end.

(** the structure of the client is not set before [afmpkg_client_init] *)
Definition client0 : client_t := mk_client true [] junk junk None_ junk.

(** what the callbacks share: the status, the dials and the memory *)
Record closure := Closure { prc : rpmRC; c_dialed : list (list (option ascii)); c_mem : oracle }.

(** whether to drop the record *)
Definition perform (type : rpmElementType) (onlycheck : bool) (r : record_t) (cl : closure) : bool * record_t * closure :=
  if negb (bool_decide (r_type r = type)) then (false, r, cl)
  else
    let operation := get_operation type onlycheck in
    let '(rc, c, o) := make_message (afmpkg_client_init client0) r operation (c_mem cl) in
    if (rc <? 0)%Z then (true, r, Closure RPMRC_FAIL (c_dialed cl) o)
    else
      let '(rc, _) := afmpkg_client_dial (net (length (c_dialed cl))) c in
      (true, r, Closure (if (rc <=? 0)%Z then RPMRC_FAIL else prc cl) (c_dialed cl ++ [content c]) o).

Definition perform_remove := perform TR_REMOVED false.
Definition perform_add := perform TR_ADDED false.
Definition perform_check_remove := perform TR_REMOVED true.
Definition perform_check_add := perform TR_ADDED true.

(** ** All the records *)

(** without function the records of the set are dropped *)
Fixpoint for_each_record {A} (ts : Ts) (fun_ : option (record_t -> A -> bool * record_t * A)) (rs : list record_t) (a : A)
    : list record_t * A :=
  match rs with
  | [] => ([], a)
  | it :: rs' =>
      let '(drop, it, a) :=
        if negb (bool_decide (r_ts it = ts)) then (false, it, a)
        else match fun_ with
             | Some f => f it a
             | None => (true, it, a)
             end in
      let '(rs', a) := for_each_record ts fun_ rs' a in
      (if drop then rs' else it :: rs', a)
  end.

Definition number_count (r : record_t) (count : Z) : bool * record_t * Z :=
  (false, mk_record (r_ts r) (r_type r) (r_index r) count (r_te r) (r_files r), count).

Definition set_index (r : record_t) (i : Z) : record_t := mk_record (r_ts r) (r_type r) i (r_count r) (r_te r) (r_files r).

Definition number_removes (r : record_t) (i : Z) : bool * record_t * Z :=
  if bool_decide (r_type r = TR_REMOVED) then (false, set_index r (i + 1), (i + 1)%Z) else (false, r, i).

Definition number_adds (r : record_t) (i : Z) : bool * record_t * Z :=
  if bool_decide (r_type r = TR_ADDED) then (false, set_index r (i + 1), (i + 1)%Z) else (false, r, i).

(** the allocation of the records and their count; [None] when it fails *)
Fixpoint record_all (ts : Ts) (tes : list Te) (rs : list record_t) (elecnt : Z) (o : oracle)
    : option Z * list record_t * oracle :=
  match tes with
  | [] => (Some elecnt, rs, o)
  | te :: tes' =>
      match rpmteType te with
      | TR_ADDED | TR_REMOVED =>
          let '(ok, o) := malloc o in
          if ok then
            record_all ts tes' (mk_record ts (rpmteType te) junk junk te (rpmteFiles te) :: rs) (elecnt + 1) o
          else (None, rs, o)
      | TR_other => record_all ts tes' rs elecnt o
      end
  end.

Definition clean (ts : Ts) (rs : list record_t) : list record_t := (for_each_record ts None rs tt).1.

(** the calls of a function on the records *)
Definition perform_all (ts : Ts) (f : record_t -> closure -> bool * record_t * closure) (s : plugin) : plugin :=
  let '(rs, cl) := for_each_record ts (Some f) (records s) (Closure RPMRC_OK (dialed s) (mem s)) in
  mk_plugin rs (c_dialed cl) (c_mem cl).

Definition tsm_pre_cb (ts : Ts) (s : plugin) : rpmRC * plugin :=
  let '(elecnt, rs, o) := record_all ts (rpmtsElements ts) (records s) 0 (mem s) in
  match elecnt with
  | None => (RPMRC_FAIL, mk_plugin (clean ts rs) (dialed s) o)
  | Some elecnt =>
      let '(rs, _) := for_each_record ts (Some number_count) rs elecnt in
      let '(rs, eleidx) := for_each_record ts (Some number_removes) rs 0%Z in
      let '(rs, eleidx) := for_each_record ts (Some number_adds) rs eleidx in
      let s := mk_plugin rs (dialed s) o in
      (RPMRC_OK,
       match flag_test ts, flag_nopreun ts with
       | false, false => perform_all ts perform_remove s
       | false, true => s
       | true, _ => perform_all ts perform_check_remove s
       end)
  end.

Definition tsm_post_cb (ts : Ts) (res : rpmRC) (s : plugin) : rpmRC * plugin :=
  let s :=
    match res with
    | RPMRC_OK =>
        match flag_test ts, flag_nopost ts with
        | false, false => perform_all ts perform_add s
        | false, true => s
        | true, _ => perform_all ts perform_check_add s
        end
    | RPMRC_FAIL => s
    end in
  (RPMRC_OK, mk_plugin (clean ts (records s)) (dialed s) (mem s)).

(** ** Messages *)

(** what is put in the request of an element *)
Definition te_items (ts : Ts) (te : Te) : list item :=
  match rpmtsRootDir ts with Some d => [Rootdir d] | None => [] end ++
  match getenv AFMPKG_ENVVAR_TRANSID with Some v => [Transid v] | None => [] end ++
  match getenv AFMPKG_ENVVAR_REDPAKID with Some v => [Redpakid v] | None => [] end ++
  (File <$> rpmteFiles te).

(** the request of the operation [op] for the element [i] of [n] *)
Definition request_of (ts : Ts) (op i n : Z) (te : Te) : bytes :=
  lines_text (request_lines op (rpmteN te) i n (te_items ts te)).

Lemma or_else_error rc c o f : (rc =? 0)%Z = false -> or_else (rc, c, o) f = (rc, c, o).
Proof. unfold or_else. by intros ->. Qed.

Lemma put_items_error rc c o items : (rc =? 0)%Z = false -> put_items (rc, c, o) items = (rc, c, o).
Proof. intros E. induction items as [|it items IH]; [done|]. unfold put_items. cbn [foldl]. by rewrite or_else_error. Qed.

Lemma put_files_items r files : put_files r files = put_items r (File <$> files).
Proof.
  revert r. induction files as [|f files IH]; intros [[rc c] o]; [done|]. cbn [put_files].
  destruct (rc =? 0)%Z eqn:E; [|by rewrite put_items_error].
  rewrite IH. apply Z.eqb_eq in E as ->. reflexivity.
Qed.

Lemma make_message_compose ts ty i n te c op o :
  make_message c (mk_record ts ty i n te (rpmteFiles te)) op o = compose c op (rpmteN te) i n (te_items ts te) o.
Proof.
  unfold make_message, compose, te_items. cbn [r_ts r_te r_index r_count r_files]. rewrite put_files_items.
  f_equal. unfold put_items. rewrite !foldl_app. f_equal.
  by destruct (rpmtsRootDir ts), (getenv AFMPKG_ENVVAR_TRANSID), (getenv AFMPKG_ENVVAR_REDPAKID).
Qed.

Lemma te_items_marks ts te : NoDup (omap mark_of (te_items ts te)).
Proof.
  unfold te_items. rewrite !omap_app.
  assert (Hf : omap mark_of (File <$> rpmteFiles te) = []) by (by induction (rpmteFiles te)).
  rewrite Hf. destruct (rpmtsRootDir ts), (getenv AFMPKG_ENVVAR_TRANSID), (getenv AFMPKG_ENVVAR_REDPAKID);
    apply (bool_decide_unpack _); by vm_compute.
Qed.

Definition fits (text : bytes) : Prop := (Z.of_nat (length text) < AFMPKG_CLIENT_BUFFER0_SIZE)%Z.

(** a request that fits the buffer of the client is given to dial, whatever
    the network does *)
Lemma perform_dials ts (ty : rpmElementType) (check : bool) i n te cl :
  ty <> TR_other -> fits (request_of ts (get_operation ty check) i n te) ->
  exists v, perform ty check (mk_record ts ty i n te (rpmteFiles te)) cl =
    (true, mk_record ts ty i n te (rpmteFiles te),
     Closure v (c_dialed cl ++ [Some <$> request_of ts (get_operation ty check) i n te]) (c_mem cl)).
Proof.
  intros Hty Hf. unfold perform. cbn [r_type]. rewrite bool_decide_eq_true_2 by done. cbn [negb].
  rewrite make_message_compose.
  destruct (compose_lines (get_operation ty check) (rpmteN te) i n (te_items ts te) (c_mem cl) (afmpkg_client_init (client0)))
    as (c & -> & Hc & _); [by destruct ty, check|done|done|apply te_items_marks|exact Hf|].
  cbn [Z.ltb Z.compare]. destruct (afmpkg_client_dial _ _) as [rc err]. rewrite Hc. by eexists.
Qed.

(** ** Iterations *)

Definition mine (ts : Ts) (rs : list record_t) : Prop := Forall (fun r => r_ts r = ts) rs.
Definition others (ts : Ts) (rs : list record_t) : Prop := Forall (fun r => r_ts r <> ts) rs.

Lemma for_each_others {A} ts (f : option (record_t -> A -> bool * record_t * A)) rs (a : A) : others ts rs -> for_each_record ts f rs a = (rs, a).
Proof.
  intros Ho. induction Ho as [|r rs Hr _ IH]; [done|]. cbn [for_each_record].
  rewrite bool_decide_eq_false_2 by done. cbn [negb]. by rewrite IH.
Qed.

Lemma for_each_app {A} ts (f : option (record_t -> A -> bool * record_t * A)) rs1 rs2 (a : A) :
  for_each_record ts f (rs1 ++ rs2) a =
    let '(l1, a1) := for_each_record ts f rs1 a in let '(l2, a2) := for_each_record ts f rs2 a1 in (l1 ++ l2, a2).
Proof.
  revert a. induction rs1 as [|r rs1 IH]; intros a; simpl.
  { by destruct (for_each_record ts f rs2 a). }
  destruct (bool_decide (r_ts r = ts)); simpl; [destruct f as [g|]; [destruct (g r a) as [[[] ?] ?]|]|]; rewrite IH;
    repeat (destruct (for_each_record ts _ _ _) as [? ?]); done.
Qed.

Lemma for_each_mine {A} ts (f : option (record_t -> A -> bool * record_t * A)) rs1 rs2 (a : A) :
  others ts rs2 ->
  for_each_record ts f (rs1 ++ rs2) a = let '(l, a') := for_each_record ts f rs1 a in (l ++ rs2, a').
Proof.
  intros Ho. rewrite for_each_app. destruct (for_each_record ts f rs1 a) as [l a']. by rewrite for_each_others.
Qed.

Lemma clean_mine ts rs1 rs2 : mine ts rs1 -> others ts rs2 -> clean ts (rs1 ++ rs2) = rs2.
Proof.
  intros Hm Ho. unfold clean. rewrite for_each_mine by done.
  assert (Hc : for_each_record (A := unit) ts None rs1 tt = ([], tt)); [|by rewrite Hc].
  induction Hm as [|r rs Hr _ IH]; [done|]. cbn [for_each_record]. rewrite bool_decide_eq_true_2 by done. cbn [negb].
  by rewrite IH.
Qed.

(** the record of an element *)
Definition record_of (ts : Ts) (i n : Z) (te : Te) : record_t := mk_record ts (rpmteType te) i n te (rpmteFiles te).

(** the elements that are handled, in the order of their records *)
Definition handled (tes : list Te) : list Te := filter (fun te => rpmteType te <> TR_other) (reverse tes).

Lemma handled_cons te tes :
  handled (te :: tes) = handled tes ++ if bool_decide (rpmteType te = TR_other) then [] else [te].
Proof.
  unfold handled. rewrite reverse_cons, filter_app. f_equal. case_bool_decide.
  - rewrite filter_cons_False by naive_solver. done.
  - rewrite filter_cons_True by done. done.
Qed.

Lemma malloc_true o : false ∉ o -> exists o', malloc o = (true, o') /\ false ∉ o'.
Proof.
  intros Ho. destruct o as [|b o]; [by exists []|]. apply not_elem_of_cons in Ho as [Hb Ho]. exists o. by destruct b.
Qed.

Lemma record_all_spec ts tes rs n o :
  false ∉ o ->
  exists o', record_all ts tes rs n o =
    (Some (n + Z.of_nat (length (handled tes)))%Z, (record_of ts junk junk <$> handled tes) ++ rs, o') /\ false ∉ o'.
Proof.
  revert rs n o. induction tes as [|te tes IH]; intros rs n o Ho.
  { exists o. split; [|done]. simpl. by rewrite Z.add_0_r. }
  destruct (malloc_true o Ho) as (o1 & Hm & Ho1). cbn [record_all]. rewrite handled_cons, fmap_app, length_app, Hm.
  destruct (bool_decide (rpmteType te = TR_other)) eqn:E.
  - apply bool_decide_eq_true_1 in E. rewrite E. destruct (IH rs n o Ho) as (o' & -> & Ho'). exists o'.
    split; [|done]. simpl. by rewrite Nat.add_0_r, app_nil_r.
  - apply bool_decide_eq_false_1 in E.
    destruct (IH (record_of ts junk junk te :: rs) (n + 1)%Z o1 Ho1) as (o' & E' & Ho'). exists o'. split; [|done].
    rewrite <-(assoc_L (++)). cbn [fmap list_fmap app length].
    replace (n + Z.of_nat (length (handled tes) + 1))%Z with (n + 1 + Z.of_nat (length (handled tes)))%Z by lia.
    rewrite <-E'. unfold record_of. by destruct (rpmteType te).
Qed.

(** ** The numbers *)

(** the elements of a type are numbered from [k] *)
Fixpoint number (ty : rpmElementType) (k : Z) (rs : list record_t) : list record_t :=
  match rs with
  | [] => []
  | r :: rs' => if bool_decide (r_type r = ty) then set_index r (k + 1) :: number ty (k + 1) rs' else r :: number ty k rs'
  end.

Definition count (ty : rpmElementType) (rs : list record_t) : Z := Z.of_nat (length (filter (fun r => r_type r = ty) rs)).

Lemma number_mine ts ty k rs : mine ts rs -> mine ts (number ty k rs).
Proof.
  intros Hm. revert k. induction Hm as [|r rs Hr _ IH]; intros k; simpl; [constructor|].
  case_bool_decide; constructor; try done; apply IH.
Qed.

Lemma count_cons ty r rs : count ty (r :: rs) = ((if bool_decide (r_type r = ty) then 1 else 0) + count ty rs)%Z.
Proof. unfold count. rewrite filter_cons. case_decide; case_bool_decide; simpl; try done; lia. Qed.

Lemma number_with ts ty rs k (f : record_t -> Z -> bool * record_t * Z) :
  mine ts rs ->
  (forall r i, f r i = if bool_decide (r_type r = ty) then (false, set_index r (i + 1), (i + 1)%Z) else (false, r, i)) ->
  for_each_record ts (Some f) rs k = (number ty k rs, (k + count ty rs)%Z).
Proof.
  intros Hm Hf. revert k. induction Hm as [|r rs Hr _ IH]; intros k; [unfold count; simpl; by rewrite Z.add_0_r|].
  cbn [for_each_record number]. rewrite bool_decide_eq_true_2 by done. cbn [negb]. rewrite Hf, count_cons.
  case_bool_decide; rewrite IH; f_equal; lia.
Qed.

Lemma count_all ts tes k n m :
  for_each_record ts (Some number_count) (record_of ts k m <$> tes) n = (record_of ts k n <$> tes, n).
Proof.
  induction tes as [|te tes IH]; [done|]. cbn [fmap list_fmap for_each_record]. rewrite bool_decide_eq_true_2 by done.
  cbn [negb number_count]. by rewrite IH.
Qed.

(** ** Performing *)

Definition of_type (ty : rpmElementType) (r : record_t) : Prop := r_type r = ty.
#[local] Instance of_type_dec ty r : Decision (of_type ty r).
Proof. unfold of_type. apply _. Defined.

(** a record of the set, with the count [n] *)
Definition good (ts : Ts) (n : Z) (r : record_t) : Prop := r = record_of ts (r_index r) n (r_te r).

Lemma good_ts ts n r : good ts n r -> r_ts r = ts.
Proof. by intros ->. Qed.

Lemma good_mine ts n rs : Forall (good ts n) rs -> mine ts rs.
Proof. intros Hg. eapply Forall_impl; [exact Hg|]. by intros r ->. Qed.

Lemma good_number ts n ty k rs : Forall (good ts n) rs -> Forall (good ts n) (number ty k rs).
Proof.
  intros Hg. revert k. induction Hg as [|r rs Hr _ IH]; intros k; simpl; [constructor|].
  case_bool_decide; constructor; try done; [|by apply IH..].
  unfold good in *. rewrite Hr. done.
Qed.

Definition text_of (ts : Ts) (op n : Z) (r : record_t) : bytes := request_of ts op (r_index r) n (r_te r).

Lemma perform_records ts n ty (check : bool) rs cl :
  ty <> TR_other -> Forall (good ts n) rs ->
  Forall fits (text_of ts (get_operation ty check) n <$> filter (of_type ty) rs) ->
  exists v, for_each_record ts (Some (perform ty check)) rs cl =
    (filter (fun r => ~ of_type ty r) rs,
     Closure v (c_dialed cl ++ ((fun t : bytes => Some <$> t) <$> (text_of ts (get_operation ty check) n <$> filter (of_type ty) rs))) (c_mem cl)).
Proof.
  intros Hty Hg. revert cl. induction Hg as [|r rs Hr _ IH]; intros cl Hf.
  { destruct cl as [v d m]. exists v. simpl. by rewrite app_nil_r. }
  cbn [for_each_record]. rewrite bool_decide_eq_true_2 by (by apply (good_ts ts n)). cbn [negb].
  destruct (decide (of_type ty r)) as [Ht|Ht].
  - rewrite (filter_cons_True (of_type ty)) in Hf |- * by done. rewrite (filter_cons_False (fun r => ~ of_type ty r)) by naive_solver.
    rewrite fmap_cons in Hf. apply Forall_cons in Hf as [Hf1 Hf].
    unfold of_type in Ht. assert (Hr' : r = mk_record ts ty (r_index r) n (r_te r) (rpmteFiles (r_te r))).
    { rewrite Hr at 1. unfold record_of. f_equal. rewrite <-Ht. by rewrite Hr. }
    destruct (perform_dials ts ty check (r_index r) n (r_te r) cl Hty Hf1) as [v E]. rewrite <-Hr' in E. rewrite E.
    destruct (IH (Closure v (c_dialed cl ++ [Some <$> request_of ts (get_operation ty check) (r_index r) n (r_te r)]) (c_mem cl)) Hf)
      as [v' E']. rewrite E'. exists v'. cbn [c_dialed c_mem]. by rewrite <-(assoc_L (++)).
  - rewrite (filter_cons_False (of_type ty)) in Hf |- * by done. rewrite (filter_cons_True (fun r => ~ of_type ty r)) by done.
    unfold perform at 1. rewrite bool_decide_eq_false_2 by done. cbn [negb].
    destruct (IH cl Hf) as [v E]. rewrite E. by exists v.
Qed.

Lemma filter_number_other ty ty' k rs :
  ty <> ty' -> filter (of_type ty) (number ty' k rs) = filter (of_type ty) rs.
Proof.
  intros Hty. revert k. induction rs as [|r rs IH]; intros k; [done|]. cbn [number].
  case_bool_decide as E; rewrite !filter_cons, IH; [|done]. unfold of_type.
  rewrite !decide_False; [done|..]; simpl; congruence.
Qed.

(** the requests for elements numbered from [k] *)
Fixpoint messages (ts : Ts) (op k n : Z) (tes : list Te) : list bytes :=
  match tes with
  | [] => []
  | te :: tes' => request_of ts op (k + 1) n te :: messages ts op (k + 1) n tes'
  end.

Lemma text_number ts op n ty k rs :
  text_of ts op n <$> filter (of_type ty) (number ty k rs) = messages ts op k n (r_te <$> filter (of_type ty) rs).
Proof.
  revert k. induction rs as [|r rs IH]; intros k; [done|]. cbn [number]. rewrite filter_cons.
  case_bool_decide as E; rewrite filter_cons.
  - rewrite !decide_True by done. rewrite !fmap_cons. cbn [messages]. by rewrite IH.
  - rewrite !decide_False by done. apply IH.
Qed.

Lemma filter_records ts ty i n (tes : list Te) :
  r_te <$> filter (of_type ty) (record_of ts i n <$> tes) = filter (fun te => rpmteType te = ty) tes.
Proof.
  induction tes as [|te tes IH]; [done|]. rewrite fmap_cons. destruct (decide (rpmteType te = ty)) as [E|E].
  - rewrite (filter_cons_True (of_type ty)), (filter_cons_True (fun te => rpmteType te = ty)) by done.
    by rewrite fmap_cons, IH.
  - by rewrite (filter_cons_False (of_type ty)), (filter_cons_False (fun te => rpmteType te = ty)) by done.
Qed.

Lemma count_records ts ty i n (tes : list Te) :
  count ty (record_of ts i n <$> tes) = Z.of_nat (length (filter (fun te => rpmteType te = ty) tes)).
Proof. rewrite <-(filter_records ts ty i n), length_fmap. done. Qed.

Lemma Forall_kept (P Q : record_t -> Prop) `{!forall r, Decision (Q r)} (rs : list record_t) : Forall P rs -> Forall P (filter Q rs).
Proof. rewrite !Forall_forall. intros HP r [_ Hr]%list_elem_of_filter. by apply HP. Qed.

Lemma filter_not_other ty ty' (rs : list record_t) : ty <> ty' -> filter (of_type ty) (filter (fun r => ~ of_type ty' r) rs) = filter (of_type ty) rs.
Proof.
  intros Hty. rewrite list_filter_filter. apply list_filter_iff. unfold of_type. intros r. split; [tauto|]. intros ->. naive_solver.
Qed.

Lemma perform_all_spec ts n ty (check : bool) rs old d o :
  ty <> TR_other -> Forall (good ts n) rs -> others ts old ->
  Forall fits (text_of ts (get_operation ty check) n <$> filter (of_type ty) rs) ->
  perform_all ts (perform ty check) (mk_plugin (rs ++ old) d o) =
    mk_plugin (filter (fun r => ~ of_type ty r) rs ++ old)
      (d ++ ((fun t : bytes => Some <$> t) <$> (text_of ts (get_operation ty check) n <$> filter (of_type ty) rs))) o.
Proof.
  intros Hty Hg Ho Hf. unfold perform_all. cbn [records dialed mem]. rewrite for_each_mine by done.
  destruct (perform_records ts n ty check rs (Closure RPMRC_OK d o) Hty Hg Hf) as [v ->]. done.
Qed.

(** the records after their numbering *)
Lemma pre_numbers ts s :
  others ts (records s) -> false ∉ mem s ->
  let l := handled (rpmtsElements ts) in
  let n := Z.of_nat (length l) in
  let rs0 := record_of ts junk n <$> l in
  let rs := number TR_ADDED (count TR_REMOVED rs0) (number TR_REMOVED 0 rs0) in
  exists o,
    tsm_pre_cb ts s =
      (RPMRC_OK,
       let s := mk_plugin (rs ++ records s) (dialed s) o in
       match flag_test ts, flag_nopreun ts with
       | false, false => perform_all ts perform_remove s
       | false, true => s
       | true, _ => perform_all ts perform_check_remove s
       end) /\ Forall (good ts n) rs.
Proof.
  intros Ho Hm l n rs0 rs. destruct (record_all_spec ts (rpmtsElements ts) (records s) 0 (mem s) Hm) as (o & E & _).
  exists o. assert (Hg0 : Forall (good ts n) rs0) by (apply Forall_fmap, Forall_true; done).
  assert (Hg1 : Forall (good ts n) (number TR_REMOVED 0 rs0)) by (by apply good_number).
  split; [|by apply good_number]. unfold tsm_pre_cb. rewrite E, Z.add_0_l. fold l n.
  rewrite for_each_mine, count_all by done. fold rs0.
  rewrite for_each_mine, (number_with ts TR_REMOVED) by first [done|by eapply good_mine]. rewrite Z.add_0_l.
  rewrite for_each_mine, (number_with ts TR_ADDED) by first [done|by eapply good_mine]. done.
Qed.

Definition cells (ms : list bytes) : list (list (option ascii)) := (fun t : bytes => Some <$> t) <$> ms.

(** the elements of a type among those handled *)
Definition elements (ts : Ts) (ty : rpmElementType) : list Te :=
  filter (fun te => rpmteType te = ty) (handled (rpmtsElements ts)).
Definition total (ts : Ts) : Z := Z.of_nat (length (handled (rpmtsElements ts))).

(** the requests before the transaction, and those after it *)
Definition requests_pre (ts : Ts) : list bytes :=
  if flag_test ts || negb (flag_nopreun ts) then
    messages ts (get_operation TR_REMOVED (flag_test ts)) 0 (total ts) (elements ts TR_REMOVED)
  else [].
Definition requests_post (ts : Ts) (res : rpmRC) : list bytes :=
  match res with
  | RPMRC_OK =>
      if flag_test ts || negb (flag_nopost ts) then
        messages ts (get_operation TR_ADDED (flag_test ts)) (Z.of_nat (length (elements ts TR_REMOVED))) (total ts)
          (elements ts TR_ADDED)
      else []
  | RPMRC_FAIL => []
  end.

Lemma tsm_pre_cb_spec ts s :
  others ts (records s) -> (false ∉ mem s) -> Forall fits (requests_pre ts) ->
  exists rs o, tsm_pre_cb ts s = (RPMRC_OK, mk_plugin (rs ++ records s) (dialed s ++ cells (requests_pre ts)) o) /\
    Forall (good ts (total ts)) rs /\
    forall op, text_of ts op (total ts) <$> filter (of_type TR_ADDED) rs =
      messages ts op (Z.of_nat (length (elements ts TR_REMOVED))) (total ts) (elements ts TR_ADDED).
Proof.
  intros Ho Hm Hf. destruct (pre_numbers ts s Ho Hm) as (o & E & Hg). fold (total ts) in E, Hg.
  set (rs0 := record_of ts junk (total ts) <$> handled (rpmtsElements ts)) in *. set (rs := number TR_ADDED _ _) in *.
  assert (Hrem : forall op, text_of ts op (total ts) <$> filter (of_type TR_REMOVED) rs =
                   messages ts op 0 (total ts) (elements ts TR_REMOVED)).
  { intros op. unfold rs. rewrite filter_number_other by done. rewrite text_number. unfold rs0. by rewrite filter_records. }
  assert (Hadd : forall op, text_of ts op (total ts) <$> filter (of_type TR_ADDED) rs =
                   messages ts op (Z.of_nat (length (elements ts TR_REMOVED))) (total ts) (elements ts TR_ADDED)).
  { intros op. unfold rs. rewrite text_number, filter_number_other by done. unfold rs0. by rewrite filter_records, count_records. }
  exists (if flag_test ts || negb (flag_nopreun ts) then filter (fun r => ~ of_type TR_REMOVED r) rs else rs), o.
  split_and!.
  - rewrite E. f_equal. unfold requests_pre in *. destruct (flag_test ts), (flag_nopreun ts); cbn zeta; cbn [orb negb] in *;
      unfold perform_remove, perform_check_remove, cells; rewrite ?(perform_all_spec ts (total ts)) by (rewrite ?Hrem; done);
      rewrite ?Hrem, ?app_nil_r; done.
  - destruct (_ || _); [by apply Forall_kept|done].
  - intros op. rewrite <-Hadd. destruct (_ || _); [by rewrite filter_not_other|done].
Qed.

Lemma tsm_post_cb_spec ts res rs old d o :
  Forall (good ts (total ts)) rs -> others ts old ->
  (forall op, text_of ts op (total ts) <$> filter (of_type TR_ADDED) rs =
      messages ts op (Z.of_nat (length (elements ts TR_REMOVED))) (total ts) (elements ts TR_ADDED)) ->
  Forall fits (requests_post ts res) ->
  tsm_post_cb ts res (mk_plugin (rs ++ old) d o) = (RPMRC_OK, mk_plugin old (d ++ cells (requests_post ts res)) o).
Proof.
  intros Hg Ho Hadd Hf. unfold tsm_post_cb, requests_post in *. pose proof (good_mine _ _ _ Hg) as Hm.
  destruct res; [|cbn [records dialed mem cells fmap list_fmap]; by rewrite (clean_mine ts rs), app_nil_r].
  destruct (flag_test ts), (flag_nopost ts); cbn [orb negb] in *; unfold perform_add, perform_check_add, cells;
    rewrite ?(perform_all_spec ts (total ts)) by (rewrite ?Hadd; done); rewrite ?Hadd, ?app_nil_r; cbn [records dialed mem];
    rewrite clean_mine by first [done|by apply Forall_kept]; done.
Qed.


(** ** What the server receives *)

Lemma handled_split (tes : list Te) :
  length (handled tes) =
    length (filter (fun te => rpmteType te = TR_REMOVED) (handled tes)) + length (filter (fun te => rpmteType te = TR_ADDED) (handled tes)).
Proof.
  unfold handled. induction (reverse tes) as [|te l IH]; [done|]. destruct (rpmteType te) eqn:E.
  - rewrite (filter_cons_True (fun te => rpmteType te <> TR_other)) by congruence.
    rewrite filter_cons_False, filter_cons_True by congruence. simpl. lia.
  - rewrite (filter_cons_True (fun te => rpmteType te <> TR_other)) by congruence.
    rewrite filter_cons_True, filter_cons_False by congruence. simpl. lia.
  - by rewrite (filter_cons_False (fun te => rpmteType te <> TR_other)) by naive_solver.
Qed.

Lemma messages_lookup ts op k n tes i te :
  tes !! i = Some te -> messages ts op k n tes !! i = Some (request_of ts op (k + 1 + Z.of_nat i) n te).
Proof.
  revert k i. induction tes as [|te' tes IH]; intros k [|i] Hi; [done..| |].
  - injection Hi as <-. cbn. by rewrite Z.add_0_r.
  - etransitivity; [apply (IH (k + 1)%Z i Hi)|]. do 2 f_equal. lia.
Qed.

Lemma latest_items {A} (l : list A) (it_of : item -> option bytes) (f : A -> item) v :
  (forall x, it_of (f x) = None) -> latest it_of v (f <$> l) = v.
Proof. intros Hf. unfold latest. revert v. induction l as [|x l IH]; intros v; simpl; [done|]. by rewrite Hf, IH. Qed.

Lemma te_items_latest ts te :
  latest rootdir_of None (te_items ts te) = rpmtsRootDir ts /\
  latest transid_of None (te_items ts te) = getenv AFMPKG_ENVVAR_TRANSID /\
  latest redpakid_of None (te_items ts te) = getenv AFMPKG_ENVVAR_REDPAKID.
Proof.
  unfold te_items, latest. rewrite !foldl_app.
  destruct (rpmtsRootDir ts), (getenv AFMPKG_ENVVAR_TRANSID), (getenv AFMPKG_ENVVAR_REDPAKID); split_and!; by apply latest_items.
Qed.

(** the texts of the requests can be sent *)
Definition sendable (ts : Ts) (te : Te) : Prop :=
  ok_value (rpmteN te) /\ Forall ok_value (rpmteFiles te) /\
  forall v, rpmtsRootDir ts = Some v \/ getenv AFMPKG_ENVVAR_TRANSID = Some v \/ getenv AFMPKG_ENVVAR_REDPAKID = Some v ->
    ok_value v.

Lemma te_items_sendable ts te : sendable ts te -> Forall (fun it => ok_value (item_value it)) (te_items ts te).
Proof.
  intros (_ & Hf & Hv). unfold te_items. rewrite !Forall_app, Forall_fmap. split_and!; [| | |exact Hf];
    (case_match; [|apply Forall_nil_2]; apply Forall_singleton, Hv; tauto).
Qed.

(** the kind of the request for an element *)
Definition kind_of (ty : rpmElementType) (check : bool) : request_kind :=
  match ty, check with
  | TR_ADDED, false => Request_Add_Package
  | TR_ADDED, true => Request_Check_Add_Package
  | TR_REMOVED, false => Request_Remove_Package
  | TR_REMOVED, true => Request_Check_Remove_Package
  | TR_other, _ => Request_Unset
  end.

(** the count of the requests before those for a type *)
Definition before (ts : Ts) (ty : rpmElementType) : Z :=
  match ty with TR_ADDED => Z.of_nat (length (elements ts TR_REMOVED)) | _ => 0 end.


(** When memory lacks the transaction is refused before anything is dialed and
    no record of it remains. *)
Lemma record_all_fails ts tes rs n o rs' o' :
  record_all ts tes rs n o = (None, rs', o') -> exists new, rs' = new ++ rs /\ mine ts new.
Proof.
  revert rs n o. induction tes as [|te tes IH]; intros rs n o; [done|]. cbn [record_all].
  assert (Hone : forall ty i o, record_all ts tes (mk_record ts ty junk junk te (rpmteFiles te) :: rs) i o = (None, rs', o') ->
            exists new, rs' = new ++ rs /\ mine ts new).
  { intros ty i o1 (new & -> & Hm)%IH. exists (new ++ [mk_record ts ty junk junk te (rpmteFiles te)]).
    rewrite <-(assoc_L (++)). split; [done|]. apply Forall_app. split; [done|by constructor]. }
  destruct (rpmteType te); [destruct (malloc o) as [[] o1]; [apply Hone|intros [= <- <-]; exists []; split; [done|constructor]]..|apply IH].
Qed.

Lemma tsm_pre_cb_no_memory ts s rs o :
  others ts (records s) -> record_all ts (rpmtsElements ts) (records s) 0 (mem s) = (None, rs, o) ->
  tsm_pre_cb ts s = (RPMRC_FAIL, mk_plugin (records s) (dialed s) o).
Proof.
  intros Ho E. unfold tsm_pre_cb. rewrite E. destruct (record_all_fails _ _ _ _ _ _ _ E) as (new & -> & Hm).
  by rewrite clean_mine.
Qed.

End Plugin.

(** ** Example *)

Record sample_te := Sample { s_type : rpmElementType; s_name : bytes; s_files : list bytes }.

#[local] Instance sample_rpm : Rpm nat sample_te := {|
  rpmtsElements _ := [Sample TR_ADDED (B "new") [B "/usr/new/bin"]; Sample TR_other (B "any") []; Sample TR_REMOVED (B "old") [B "/usr/old"];
                      Sample TR_ADDED (B "more") []];
  rpmtsRootDir _ := Some (B "/");
  flag_test _ := false; flag_nopreun _ := false; flag_nopost _ := false;
  rpmteType := s_type; rpmteN := s_name; rpmteFiles := s_files
|}.

Definition sample_env (name : bytes) : option bytes := if beq name AFMPKG_ENVVAR_TRANSID then Some (B "T1") else None.
Definition sample_net (n : nat) : network := mk_network 0 (fun _ => 0%Z) (inr (B "OK")).



End rpm_plugin.
