(* ===== verification/Daemon.v ===== *)
(** * Daemon of the installer: [src/src/main/main-afmpkg-installerd.c]

    The main thread waits for clients and gives each of them to a thread that
    serves it as [Server.v] tells; it stops when no thread lives and no
    transaction is pending. What the mutexes of the program make atomic is one
    step, and the steps of the threads are interleaved in any order. The
    options of the command line are parameters. *)
From S2P Require Import Prelude CString PathEntry Request Server.

Module daemon.
Import path_entry request server.

Definition EINTR : Z := 4.
Definition SHUTDOWN_CHECK_SECONDS : Z := 300.

(** a client: its socket and the user of its process *)
Record client := Client { sock : Z; uid : Z }.

(** where the main thread is: waiting, after a turn with the status [rc],
    having found that no thread lives, or returned from [run] *)
Inductive main_pc := At_poll | At_check (rc : Z) | At_can_stop | Returned (status : Z).

(** what happens at [poll] *)
Inductive poll_event :=
  | Poll_error (err : Z)
  | Poll_timeout
  | Accept_error (err : Z)
  | Accepted (c : client).

Section Daemon.
Context {W : Type} (install uninstall : afmpkg_t -> W -> Z * W) (sighup_all : W -> W).

(** the options [--strict] and [--forever] *)
Context (strict run_forever : bool).

Record daemon := mk_daemon {
  pc : main_pc;
  errno : Z;
  living_threads : Z;
  serving : list client;   (** the threads, by their client *)
  closing : list client;   (** those whose client is served and closed *)
  all_transactions : list transaction;
  world : W
}.

Definition set_pc (d : daemon) (v : main_pc) : daemon :=
  mk_daemon v (errno d) (living_threads d) (serving d) (closing d) (all_transactions d) (world d).
Definition set_errno (d : daemon) (v : Z) : daemon :=
  mk_daemon (pc d) v (living_threads d) (serving d) (closing d) (all_transactions d) (world d).
Definition set_threads (d : daemon) (n : Z) (s c : list client) : daemon :=
  mk_daemon (pc d) (errno d) n s c (all_transactions d) (world d).
Definition set_transactions (d : daemon) (v : list transaction) : daemon :=
  mk_daemon (pc d) (errno d) (living_threads d) (serving d) (closing d) v (world d).

(** ** The main thread *)

(** [created]: the status of [pthread_create] is 0; otherwise the socket is
    closed *)
Definition launch_serve_thread (created : bool) (c : client) (d : daemon) : daemon :=
  let n := (living_threads d + 1)%Z in
  if created then set_threads d n (c :: serving d) (closing d)
  else set_threads d (n - 1) (serving d) (closing d).

(** [cred]: [getsockopt] succeeds, or its error; the socket is closed when
    the client is refused *)
Definition check_strict (cred : option Z) (c : client) (d : daemon) : Z * daemon :=
  match cred with
  | Some err => ((-1)%Z, set_errno d err)
  | None => if (uid c =? 0)%Z then (sock c, d) else ((-1)%Z, d)
  end.

(** from [poll] to the check of the status; [errno] is left by what succeeds *)
Definition poll_turn (ev : poll_event) (cred : option Z) (created : bool) (d : daemon) : daemon :=
  match ev with
  | Poll_error err => set_pc (set_errno d err) (At_check (-1))
  | Poll_timeout => set_pc d (At_check 0)
  | Accept_error err => set_pc (set_errno d err) (At_check (-1))
  | Accepted c =>
      let '(rc, d) := if strict then check_strict cred c d else (sock c, d) in
      let d := if (rc >=? 0)%Z then launch_serve_thread created c d else d in
      set_pc d (At_check rc)
  end.

(** the check of the status, then the first part of [can_stop] *)
Definition check_turn (rc : Z) (d : daemon) : daemon :=
  if (rc <? 0)%Z && negb (errno d =? EINTR)%Z then set_pc d (Returned 2)
  else if (living_threads d =? 0)%Z then set_pc d At_can_stop else set_pc d At_poll.

(** the second part of [can_stop] *)
Definition can_stop_turn (now : Z) (d : daemon) : daemon :=
  let '(result, all) := afmpkg_request_can_stop now (all_transactions d) in
  let d := set_transactions d all in
  if result && negb run_forever then set_pc d (Returned 0) else set_pc d At_poll.

(** [run]: [listening] is the result of [listen_clients] *)
Definition run_start (listening : Z) (w : W) (err : Z) : daemon :=
  mk_daemon (if (listening <? 0)%Z then Returned 1 else At_poll) err 0 [] [] [] w.

(** ** The threads *)

(** [serve_thread] up to the closing of the socket of [c] *)
Definition serve_client (now now' : Z) (segs : list segment) (buffer : bytes) (o : oracle) (c : client)
    (before after : list client) (d : daemon) : option daemon :=
  match afmpkg_serve install uninstall sighup_all now now' segs buffer (all_transactions d) (world d) o with
  | None => None
  | Some (_, _, all, w, _) =>
      Some (mk_daemon (pc d) (errno d) (living_threads d) (before ++ after) (c :: closing d) all w)
  end.

(** its end *)
Definition end_thread (before after : list client) (d : daemon) : daemon :=
  set_threads d (living_threads d - 1) (serving d) (before ++ after).

(** ** The steps

    When the main thread has returned the process ends: its threads do no
    more steps. [accept] gives a socket that is not open. *)
Inductive step : daemon -> daemon -> Prop :=
  | Step_poll ev cred created d :
      pc d = At_poll -> (forall c, ev = Accepted c -> (0 <= sock c)%Z /\ sock c ∉ sock <$> serving d) ->
      step d (poll_turn ev cred created d)
  | Step_check rc d : pc d = At_check rc -> step d (check_turn rc d)
  | Step_can_stop now d : pc d = At_can_stop -> step d (can_stop_turn now d)
  | Step_serve now now' segs buffer o before c after d d' :
      (forall v, pc d <> Returned v) -> serving d = before ++ c :: after ->
      serve_client now now' segs buffer o c before after d = Some d' -> step d d'
  | Step_end before c after d :
      (forall v, pc d <> Returned v) -> closing d = before ++ c :: after -> step d (end_thread before after d).

Definition reachable (d : daemon) : Prop := exists listening w err, rtc step (run_start listening w err) d.

(** ** Invariant *)

Record inv (d : daemon) : Prop := {
  inv_count : living_threads d = Z.of_nat (length (serving d) + length (closing d));
  inv_sockets : NoDup (sock <$> serving d);
  inv_strict : strict = true -> Forall (fun c => uid c = 0%Z) (serving d);
  inv_can_stop : pc d = At_can_stop \/ pc d = Returned 0 -> living_threads d = 0%Z;
  inv_stopped : pc d = Returned 0 -> all_transactions d = [] /\ run_forever = false
}.

Lemma inv_start listening w err : inv (run_start listening w err).
Proof.
  unfold run_start. split; cbn; try done; [apply NoDup_nil_2|].
  destruct (listening <? 0)%Z; naive_solver.
Qed.

(** a change of the main thread that lets the threads as they are *)
Lemma inv_pc d v err all :
  inv d -> (v = At_can_stop \/ v = Returned 0 -> living_threads d = 0%Z) ->
  (v = Returned 0 -> all = [] /\ run_forever = false) ->
  inv (mk_daemon v err (living_threads d) (serving d) (closing d) all (world d)).
Proof. intros [] H1 H2. by split. Qed.

Lemma inv_launch created c d v err :
  inv d -> (v <> At_can_stop /\ v <> Returned 0) -> (sock c ∉ sock <$> serving d) -> (strict = true -> uid c = 0%Z) ->
  inv (set_pc (launch_serve_thread created c (set_errno d err)) v).
Proof.
  intros [Hc Hs Hu _ _] [Hv1 Hv2] Hn Hst. unfold launch_serve_thread.
  destruct created; split; cbn; try (by intros [E|E]); try by intros E.
  - lia.
  - by apply NoDup_cons.
  - intros E. apply Forall_cons. auto.
  - lia.
  - done.
  - done.
Qed.

Lemma inv_step d d' : inv d -> step d d' -> inv d'.
Proof.
  intros Hi Hstep. destruct Hstep as [ev cred created d Hpc Hev|rc d Hpc|now d Hpc|now now' segs buffer o before c after d d' Hpc Hs E|before c after d Hpc Hc].
  - destruct ev as [err| |err|c]; cbn [poll_turn]; try (by apply (inv_pc d); [done|intros [?|?]|]).
    destruct (Hev c eq_refl) as [Hc Hn].
    assert (Hl : forall rc err, (strict = true -> uid c = 0%Z) -> inv (set_pc (launch_serve_thread created c (set_errno d err)) (At_check rc))).
    { intros rc err Hst. by apply inv_launch. }
    destruct strict eqn:Est.
    + destruct cred as [err|]; cbn [check_strict]; [by apply (inv_pc d); [done|intros [?|?]|]|].
      destruct (uid c =? 0)%Z eqn:Eu; [|by apply (inv_pc d); [done|intros [?|?]|]].
      replace (sock c >=? 0)%Z with true by lia. replace d with (set_errno d (errno d)) by (by destruct d). apply Hl. lia.
    + replace (sock c >=? 0)%Z with true by lia. replace d with (set_errno d (errno d)) by (by destruct d). by apply Hl.
  - unfold check_turn. destruct ((rc <? 0)%Z && _); [by apply (inv_pc d); [done|intros [?|?]|]|].
    destruct (living_threads d =? 0)%Z eqn:El; apply (inv_pc d); try done; [intros _; lia|by intros [?|?]].
  - unfold can_stop_turn, afmpkg_request_can_stop. destruct (bool_decide _ && _) eqn:E.
    + apply andb_true_iff in E as [E%bool_decide_eq_true_1 Ef%negb_true_iff].
      apply (inv_pc d); [done| |by split]. intros _. apply Hi. by left.
    + apply (inv_pc d); [done|by intros [?|?]|done].
  - unfold serve_client in E. destruct (afmpkg_serve _ _ _ _ _ _ _ _ _ _) as [[[[[? ?] all] w] ?]|]; [|done]. injection E as <-.
    destruct Hi as [Hcount Hsock Hst Hstop Hend]. rewrite Hs in *. split; cbn.
    + rewrite Hcount, !length_app. simpl. lia.
    + rewrite fmap_app, fmap_cons in Hsock. rewrite fmap_app. apply NoDup_app in Hsock as (H1 & H2 & H3).
      apply NoDup_app. apply NoDup_cons in H3 as [_ H3]. split_and!; [done| |done]. intros x Hx Hx'. apply (H2 x Hx).
      apply elem_of_cons. by right.
    + intros Es. specialize (Hst Es). rewrite Forall_app, Forall_cons in Hst. apply Forall_app. tauto.
    + intros [Hp|Hp]; [apply Hstop; by left|by destruct (Hpc 0%Z)].
    + intros Hp. by destruct (Hpc 0%Z).
  - destruct Hi as [Hcount Hsock Hst Hstop Hend]. unfold end_thread. rewrite Hc in *. split; cbn; try done.
    + rewrite Hcount, !length_app. simpl. lia.
    + intros Hp. specialize (Hstop Hp). rewrite length_app in Hcount. simpl in Hcount. lia.
Qed.

Lemma reachable_inv d : reachable d -> inv d.
Proof.
  intros (listening & w & err & Hr). pose proof (inv_start listening w err) as Hi. revert Hi.
  induction Hr as [|d1 d2 d3 Hs _ IH]; [done|]. intros Hi. by apply IH, (inv_step d1).
Qed.

(** C4: whatever the clients do and however the threads are interleaved, the
    count of living threads is the one of the threads that serve a client or
    that end, no socket is given to two threads, only root is served in
    strict mode, and the daemon that stops because it is unused serves nobody
    and has neither thread nor pending transaction. *)
Theorem daemon_invariant d :
  reachable d ->
  living_threads d = Z.of_nat (length (serving d) + length (closing d)) /\ NoDup (sock <$> serving d) /\
  (strict = true -> Forall (fun c => uid c = 0%Z) (serving d)) /\
  (pc d = Returned 0 -> run_forever = false /\ serving d = [] /\ closing d = [] /\ all_transactions d = []).
Proof.
  intros Hr%reachable_inv. destruct Hr as [Hc Hs Hu Hl He]. split_and!; [done..|]. intros Hp.
  specialize (Hl (or_intror Hp)). destruct (He Hp) as [-> ->]. rewrite Hc in Hl.
  destruct (serving d), (closing d); simpl in Hl; done || lia.
Qed.

(** ** Stopping *)

Lemma serve_ends now now' segs buffer all w o :
  is_Some (afmpkg_serve install uninstall sighup_all now now' segs buffer all w o).
Proof.
  unfold afmpkg_serve. destruct (afmpkg_request_init o) as [[rc r] o1]. destruct (rc >=? 0)%Z; [|done].
  destruct (receive_ends segs r o1) as [[[rc2 r2] o2] ->]. destruct (rc2 >=? 0)%Z; [|done].
  by destruct (afmpkg_request_process _ _ _ _ _ _ _ _) as [[[[rc3 r3] all3] w3] o3].
Qed.

(** the threads can end whatever the main thread does *)
Lemma threads_end d v :
  pc d = v -> (forall x, v <> Returned x) ->
  exists d', rtc step d d' /\ pc d' = v /\ serving d' = [] /\ closing d' = [].
Proof.
  intros Hp Hv. remember (length (serving d) + length (serving d) + length (closing d)) as n eqn:Hn.
  revert d Hp Hn. induction n as [n IH] using lt_wf_ind. intros d Hp ->.
  assert (Hnr : forall x, pc d <> Returned x) by (intros x; rewrite Hp; apply Hv).
  destruct (serving d) as [|c after] eqn:Es.
  - destruct (closing d) as [|c after] eqn:Ec; [by exists d|].
    destruct (IH (length after)) with (d := end_thread [] after d) as (d' & Hr & Hd); [simpl; lia|done|by cbn; rewrite Es|].
    exists d'. split; [|done]. eapply rtc_l; [|exact Hr]. by apply (Step_end [] c after).
  - destruct (serve_ends 0 0 [] [] (all_transactions d) (world d) []) as [[[[[rc rep] all] w] o] E].
    destruct (IH (length after + length after + length (c :: closing d)))
      with (d := mk_daemon (pc d) (errno d) (living_threads d) ([] ++ after) (c :: closing d) all w) as (d' & Hr & Hd);
      [simpl; lia|done|done|].
    exists d'. split; [|done]. eapply rtc_l; [|exact Hr].
    apply (Step_serve 0 0 [] [] [] [] c after); [done|done|]. unfold serve_client. by rewrite E.
Qed.

(** the transactions expire *)
Lemma transactions_expire (all : list transaction) : exists now, cleanup_transactions now all = [].
Proof.
  assert (Hc : forall now, Forall (fun t => (tr_expire t <= now)%Z) all -> cleanup_transactions now all = []).
  { intros now Ha. unfold cleanup_transactions. induction Ha as [|t l Ht _ IH]; [done|]. rewrite filter_cons_False by lia. done. }
  exists (foldr Z.max 0 (tr_expire <$> all))%Z. apply Hc. clear Hc.
  induction all as [|t all IH]; [constructor|]. rewrite fmap_cons. cbn [foldr]. constructor; [lia|].
  eapply Forall_impl; [exact IH|]. intros t0 Ht0. cbn beta in Ht0. lia.
Qed.


(** In strict mode a client that is not root stops the daemon, unless the
    last error of the system was an interruption. *)
Lemma strict_refusal_stops c created d :
  strict = true -> uid c <> 0%Z -> errno d <> EINTR ->
  pc (check_turn (-1) (poll_turn (Accepted c) None created d)) = Returned 2 /\
  pc (poll_turn (Accepted c) None created d) = At_check (-1).
Proof.
  intros Hst Hu He. assert (E : poll_turn (Accepted c) None created d = set_pc d (At_check (-1))).
  { unfold poll_turn, check_strict. rewrite Hst. by replace (uid c =? 0)%Z with false by lia. }
  rewrite E. split; [|done]. unfold check_turn. change (errno (set_pc d _)) with (errno d).
  by replace (errno d =? EINTR)%Z with false by lia.
Qed.

End Daemon.

(** ** Example: a client of root in strict mode *)

Definition sample_install (a : afmpkg_t) (w : unit) : Z * unit := (0%Z, w).
Definition sample_daemon : @daemon unit :=
  poll_turn true (Accepted (Client 5 0)) None true (run_start 3 tt 0).

Lemma sample_reachable : reachable sample_install sample_install (fun w => w) true false sample_daemon.
Proof.
  exists 3%Z, tt, 0%Z. apply rtc_once. apply (Step_poll _ _ _ true false (Accepted (Client 5 0)) None true); [done|].
  intros c [= <-]. split; [done|apply not_elem_of_nil].
Qed.

Lemma daemon_invariant_witness :
  living_threads sample_daemon = 1%Z /\ NoDup (sock <$> serving sample_daemon) /\
  (true = true -> Forall (fun c => uid c = 0%Z) (serving sample_daemon)) /\
  (pc sample_daemon = Returned 0 ->
     false = false /\ serving sample_daemon = [] /\ closing sample_daemon = [] /\ all_transactions sample_daemon = []).
Proof.
  exact (daemon_invariant sample_install sample_install (fun w => w) true false sample_daemon sample_reachable).
Defined.


End daemon.
