(* ===== verification/SetupUtils.v ===== *)
(** * Setup of directories: [src/src/setup]

    The programs that make the directories and the links of a user, or of the
    platform: reading the data bases of users and groups, expanding paths and
    doing the calls of the system. A text in memory is what remains of it from
    a pointer, its end being the NUL. The files that are read and the answers
    of the calls are parameters; a buffer for a path is taken to be large
    enough. A failure is the status 1. *)
From S2P Require Import Prelude CString.

Module setup_utils.

Definition EEXIST : Z := 17.
Definition ENODATA : Z := 61.

(** ** Paths *)

(** [putuint]: [div] works on an [int] *)
Fixpoint putuint_loop (fuel : nat) (value : Z) : bytes :=
  match fuel with
  | O => []
  | S fuel' =>
      let quot := Z.quot (i32 value) 10 in
      (if (quot =? 0)%Z then [] else putuint_loop fuel' (u32 quot)) ++ [chr (48 + Z.rem (i32 value) 10)]
  end.

(** an [int] has ten digits at most *)
Definition putuint (value : Z) : bytes := putuint_loop 25 value.

Fixpoint putpath (uid gid : Z) (src : bytes) : bytes :=
  match src with
  | [] => []
  | c :: src' =>
      if bool_decide (c = "%"%char) then
        match src' with
        | [] => [c]
        | d :: src'' =>
            if bool_decide (d = "u"%char) then putuint uid ++ putpath uid gid src''
            else if bool_decide (d = "g"%char) then putuint gid ++ putpath uid gid src''
            else if bool_decide (d = "%"%char) then c :: putpath uid gid src''
            else c :: putpath uid gid src'
        end
      else c :: putpath uid gid src'
  end.

(** ** Data bases *)

(** [nextcol]: [None] for the null pointer *)
Fixpoint nextcol (text : bytes) : option bytes :=
  match text with
  | [] => None
  | c :: text' =>
      if bool_decide (c = NL) then None
      else if bool_decide (c = ":"%char) then Some text' else nextcol text'
  end.

Fixpoint colat (text : option bytes) (col : nat) : option bytes :=
  match col, text with
  | S col', Some t => colat (nextcol t) col'
  | _, _ => text
  end.

(** the comparison of a key at [cur]: whether the whole key was met and the
    new [cur] *)
Fixpoint match_key (cur ik : bytes) : bool * bytes :=
  match ik with
  | [] => (true, cur)
  | k :: ik' =>
      match cur with
      | [] => (false, cur)
      | c :: cur' => if bool_decide (c <> NL) && bool_decide (k = c) then match_key cur' ik' else (false, cur)
      end
  end.

(** after the end of the line *)
Definition next_line (cur : bytes) : bytes := drop 1 (drop_while (fun c => negb (bool_decide (c = NL))) cur).

Definition ends_column (cur : bytes) : bool :=
  match cur with [] => true | c :: _ => bool_decide (c = NL) || bool_decide (c = ":"%char) end.

Fixpoint search_loop (fuel : nat) (listart key : bytes) (column : nat) : option bytes :=
  match fuel with
  | O => None
  | S fuel' =>
      match listart with
      | [] => None
      | _ =>
          match colat (Some listart) column with
          | None => search_loop fuel' (next_line listart) key column
          | Some cur =>
              let '(met, cur) := match_key cur key in
              if met && ends_column cur then Some listart else search_loop fuel' (next_line cur) key column
          end
      end
  end.

Definition search_entry (text key : bytes) (column : nat) : option bytes :=
  search_loop (S (length text)) text key column.

(** ** Calls of the system *)

Inductive call :=
  | Mkdir (path : bytes) (mode : Z)
  | Chmod (path : bytes) (mode : Z)
  | Symlink (target link : bytes)
  | Lchown (path : bytes) (uid gid : Z)
  | Lsetxattr (path key value : bytes)
  | Lremovexattr (path key : bytes).

(** a file that is open: its end, if [lseek] succeeds, whether the second
    [lseek] succeeds and what [read] gives for a size *)
Record file := File { f_end : option Z; f_rewind : bool; f_read : Z -> option bytes }.

Record descdir := Dir { d_path : bytes; d_mode : Z; d_label : bytes; d_transmute : bool }.
Record desclink := Link { l_target : bytes; l_link : bytes; l_mode : Z; l_label : bytes }.

Section Setup.

(** the files; the error of a call, or 0, after others; the value of a link *)
Context (open_ : bytes -> option file) (answer : list call -> call -> Z) (readlink : list call -> bytes -> option bytes).

Definition PATH_MAX : nat := 4096.
Definition XATTR_NAME_SMACK : bytes := B "security.SMACK64".
Definition XATTR_NAME_SMACKTRANSMUTE : bytes := B "security.SMACK64TRANSMUTE".

(** [read_file]: the content as a text, if any *)
Definition read_file (path : bytes) (o : oracle) : option bytes * oracle :=
  match open_ path with
  | None => (None, o)
  | Some f =>
      match f_end f with
      | None => (None, o)
      | Some pos =>
          if negb (f_rewind f) then (None, o)
          else
            let '(ok, o) := malloc o in
            if negb ok then (None, o)
            else
              match f_read f pos with
              | None => (None, o)
              | Some content => if (Z.of_nat (length content) =? pos)%Z then (Some (cstring content), o) else (None, o)
              end
      end
  end.

(** the texts that are memorised and the memory *)
Record memos := Memos { m_passwd : option bytes; m_group : option bytes; m_mem : oracle }.

(** [read_once]: the content, the memo and the memory *)
Definition read_once (memo : option bytes) (path : bytes) (o : oracle) : option bytes * option bytes * oracle :=
  match memo with
  | Some text => (Some text, memo, o)
  | None => let '(text, o) := read_file path o in (text, text, o)
  end.

Definition read_passwd (m : memos) : option bytes * memos :=
  let '(text, memo, o) := read_once (m_passwd m) (B "/etc/passwd") (m_mem m) in (text, Memos memo (m_group m) o).

Definition read_group (m : memos) : option bytes * memos :=
  let '(text, memo, o) := read_once (m_group m) (B "/etc/group") (m_mem m) in (text, Memos (m_passwd m) memo o).

(** an identifier given by its number *)
Definition id_of_number (lval : Z) : option Z :=
  if (lval <? 0)%Z || negb (u32 lval =? lval)%Z then None else Some (u32 lval).

(** [get_user]: the user and, when it is asked, the group *)
Definition get_user (user : option bytes) (with_gid : bool) (m : memos) : option (Z * option Z) * memos :=
  match user with
  | None | Some [] => (None, m)
  | Some user =>
      let '(lval, end_, _) := strtol user in
      let numeric := bool_decide (end_ = []) in
      if numeric && negb with_gid then ((fun u => (u, None)) <$> id_of_number lval, m)
      else
        let col := if numeric then 2 else 0 in
        match read_passwd m with
        | (None, m) => (None, m)
        | (Some text, m) =>
            match colat (search_entry text user col) 2 with
            | None => (None, m)
            | Some pwd =>
                let uid := u32 (atoi pwd) in
                if with_gid then
                  match nextcol pwd with
                  | None => (None, m)
                  | Some pwd => (Some (uid, Some (u32 (atoi pwd))), m)
                  end
                else (Some (uid, None), m)
            end
        end
  end.

Definition get_group (group : option bytes) (m : memos) : option Z * memos :=
  match group with
  | None | Some [] => (None, m)
  | Some group =>
      let '(lval, end_, _) := strtol group in
      if bool_decide (end_ = []) then (id_of_number lval, m)
      else
        match read_group m with
        | (None, m) => (None, m)
        | (Some text, m) =>
            match colat (search_entry text group 0) 2 with
            | None => (None, m)
            | Some grp => (Some (u32 (atoi grp)), m)
            end
        end
  end.

(** ** Making directories and links

    The status and the calls that were done. *)

Definition do_call (c : call) (s : list call) : Z * list call := (answer s c, s ++ [c]).

Definition setsmack (path label : bytes) (transmute : bool) (s : list call) : Z * list call :=
  let '(e, s) := do_call (Lsetxattr path XATTR_NAME_SMACK label) s in
  if negb (e =? 0)%Z then (1%Z, s)
  else if transmute then
    let '(e, s) := do_call (Lsetxattr path XATTR_NAME_SMACKTRANSMUTE (B "TRUE")) s in
    if negb (e =? 0)%Z then (1%Z, s) else (0%Z, s)
  else
    let '(e, s) := do_call (Lremovexattr path XATTR_NAME_SMACKTRANSMUTE) s in
    if negb (e =? 0)%Z && negb (e =? ENODATA)%Z then (1%Z, s) else (0%Z, s).

Definition make_link (uid gid : Z) (target link : bytes) (mode : Z) (label : bytes) (s : list call) : Z * list call :=
  let '(e, s) := do_call (Symlink target link) s in
  let bad :=
    if negb (e =? 0)%Z then
      if negb (e =? EEXIST)%Z then true
      else
        match readlink s link with
        | None => true
        | Some lval => bool_decide (PATH_MAX <= length lval) || negb (beq (cstring lval) target)
        end
    else false in
  if bad then (1%Z, s)
  else
    let '(e, s) := do_call (Lchown link uid gid) s in
    if negb (e =? 0)%Z then (1%Z, s) else setsmack link label false s.

Definition make_dir (uid gid : Z) (path : bytes) (mode : Z) (label : bytes) (transmute : bool) (s : list call) : Z * list call :=
  let '(e, s) := do_call (Mkdir path mode) s in
  let '(bad, s) :=
    if negb (e =? 0)%Z then
      if negb (e =? EEXIST)%Z then (true, s)
      else let '(e, s) := do_call (Chmod path mode) s in (negb (e =? 0)%Z, s)
    else (false, s) in
  if bad then (1%Z, s)
  else
    let '(e, s) := do_call (Lchown path uid gid) s in
    if negb (e =? 0)%Z then (1%Z, s) else setsmack path label transmute s.

Definition expand (subst : bool) (uid gid : Z) (path : bytes) : bytes := if subst then putpath uid gid path else path.

Fixpoint setup_dirs (uid gid : Z) (dirs : list descdir) (subst : bool) (s : list call) : Z * list call :=
  match dirs with
  | [] => (0%Z, s)
  | d :: dirs' =>
      let '(sts, s) := make_dir uid gid (expand subst uid gid (d_path d)) (d_mode d) (d_label d) (d_transmute d) s in
      if (sts =? 0)%Z then setup_dirs uid gid dirs' subst s else (sts, s)
  end.

Fixpoint setup_links (uid gid : Z) (links : list desclink) (subst : bool) (s : list call) : Z * list call :=
  match links with
  | [] => (0%Z, s)
  | l :: links' =>
      let '(sts, s) :=
        make_link uid gid (expand subst uid gid (l_target l)) (expand subst uid gid (l_link l)) (l_mode l) (l_label l) s in
      if (sts =? 0)%Z then setup_links uid gid links' subst s else (sts, s)
  end.

(** ** The programs *)

Context (AFM_USERS_RUNDIR AFM_PLATFORM_RUNDIR AFM_PLATFORM_DATADIR AFM_PLATFORM_USER : bytes) (WITH_PLATFORM_DEBUG : bool).

Definition LABEL_APP_SHARED : bytes := B "User:App-Shared".
Definition LABEL_SYS_SHARED : bytes := B "System:Shared".

(** 0700 and 0755 *)
Definition dirs : list descdir :=
  [Dir (AFM_USERS_RUNDIR ++ B "/%u") 448 LABEL_APP_SHARED true;
   Dir (AFM_USERS_RUNDIR ++ B "/%u/usrshr") 448 LABEL_APP_SHARED false;
   Dir (AFM_USERS_RUNDIR ++ B "/%u/apis") 448 LABEL_SYS_SHARED true;
   Dir (AFM_USERS_RUNDIR ++ B "/%u/apis/link") 448 LABEL_SYS_SHARED false;
   Dir (AFM_USERS_RUNDIR ++ B "/%u/apis/ws") 448 LABEL_SYS_SHARED false].

Definition lns : list desclink :=
  [Link (AFM_PLATFORM_RUNDIR ++ B "/display/wayland-0") (AFM_USERS_RUNDIR ++ B "/%u/wayland-0") 448 LABEL_APP_SHARED].

Definition setup (uid gid : Z) (s : list call) : Z * list call :=
  let '(sts, s) := setup_dirs uid gid dirs true s in
  if (sts =? 0)%Z then setup_links uid gid lns true s else (sts, s).

Definition setup_user (user : option bytes) (m : memos) (s : list call) : Z * memos * list call :=
  match get_user user true m with
  | (Some (uid, Some gid), m) => let '(sts, s) := setup uid gid s in (sts, m, s)
  | (_, m) => (1%Z, m, s)
  end.

Definition root_dirs : list descdir := [Dir AFM_USERS_RUNDIR 493 LABEL_SYS_SHARED true].

Definition platform_dirs : list descdir :=
  [Dir AFM_PLATFORM_RUNDIR 493 LABEL_SYS_SHARED true;
   Dir (AFM_PLATFORM_RUNDIR ++ B "/display") 493 LABEL_SYS_SHARED true;
   Dir (AFM_PLATFORM_RUNDIR ++ B "/apis") 493 LABEL_SYS_SHARED true;
   Dir (AFM_PLATFORM_RUNDIR ++ B "/apis/ws") 493 LABEL_SYS_SHARED false;
   Dir (AFM_PLATFORM_RUNDIR ++ B "/apis/link") 493 LABEL_SYS_SHARED false] ++
  (if WITH_PLATFORM_DEBUG then [Dir (AFM_PLATFORM_RUNDIR ++ B "/debug") 493 LABEL_SYS_SHARED false] else []) ++
  [Dir AFM_PLATFORM_DATADIR 493 LABEL_APP_SHARED true; Dir (AFM_PLATFORM_DATADIR ++ B "/share") 493 LABEL_SYS_SHARED false].

(** the program of the platform *)
Definition setup_platform (m : memos) (s : list call) : Z * memos * list call :=
  let '(sts, s) := setup_dirs 0 0 root_dirs false s in
  if (sts =? 0)%Z then
    match get_user (Some AFM_PLATFORM_USER) true m with
    | (Some (uid, Some gid), m) => let '(sts, s) := setup_dirs uid gid platform_dirs false s in (sts, m, s)
    | (_, m) => (1%Z, m, s)
    end
  else (sts, m, s).

End Setup.

(** ** Numbers and paths *)

Lemma putuint_dec fuel v acc : (0 <= v <= INT_MAX)%Z -> dec_loop fuel v acc = putuint_loop fuel v ++ acc.
Proof.
  revert v acc. induction fuel as [|fuel IH]; intros v acc Hv; [done|]. unfold INT_MAX in Hv. cbn [dec_loop putuint_loop].
  assert (Hi : i32 v = v) by (unfold i32; rewrite Z.mod_small; lia). rewrite Hi.
  assert (Hq : (0 <= Z.quot v 10 <= v)%Z) by (rewrite Z.quot_div_nonneg by lia; split; [apply Z.div_pos|apply Z.div_le_upper_bound]; lia).
  destruct (Z.quot v 10 =? 0)%Z; [done|]. rewrite IH by (unfold INT_MAX; lia).
  replace (u32 (Z.quot v 10)) with (Z.quot v 10) by (unfold u32; rewrite Z.mod_small; lia).
  by rewrite <-(assoc_L (++)).
Qed.

Lemma putuint_fmt v : (0 <= v <= INT_MAX)%Z -> putuint v = fmt_d v.
Proof.
  intros Hv. unfold fmt_d. replace (v <? 0)%Z with false by lia. rewrite putuint_dec by done. by rewrite app_nil_r.
Qed.

(** a path to expand, as its parts *)
Inductive part := Lit (t : bytes) | Uid | Gid | Percent.

Definition part_text (p : part) : bytes :=
  match p with Lit t => t | Uid => B "%u" | Gid => B "%g" | Percent => B "%%" end.

Definition part_value (uid gid : Z) (p : part) : bytes :=
  match p with Lit t => t | Uid => fmt_d uid | Gid => fmt_d gid | Percent => B "%" end.

Definition part_ok (p : part) : Prop := match p with Lit t => "%"%char ∉ t | _ => True end.

Lemma putpath_lit uid gid t rest : "%"%char ∉ t -> putpath uid gid (t ++ rest) = t ++ putpath uid gid rest.
Proof.
  induction t as [|c t IH]; [done|]. rewrite not_elem_of_cons. intros [Hc Ht]. cbn [app putpath].
  rewrite bool_decide_eq_false_2 by congruence. by rewrite IH.
Qed.

(** A path is expanded part by part. *)
Lemma putpath_parts uid gid ps :
  (0 <= uid <= INT_MAX)%Z -> (0 <= gid <= INT_MAX)%Z -> Forall part_ok ps ->
  putpath uid gid (concat (part_text <$> ps)) = concat (part_value uid gid <$> ps).
Proof.
  intros Hu Hg Hps. induction Hps as [|p ps Hp _ IH]; [done|]. rewrite !fmap_cons. cbn [concat]. rewrite <-IH.
  destruct p; cbn [part_text part_value].
  - by apply putpath_lit.
  - rewrite <-(putuint_fmt uid) by done. done.
  - rewrite <-(putuint_fmt gid) by done. done.
  - done.
Qed.

(** ** Texts of data bases *)

Fixpoint join_fields (fs : list bytes) : bytes :=
  match fs with
  | [] => []
  | f :: fs' => f ++ match fs' with [] => [] | _ => ":"%char :: join_fields fs' end
  end.

Definition base_text (es : list (list bytes)) : bytes := concat ((fun e => join_fields e ++ [NL]) <$> es).

Definition field_ok (f : bytes) : Prop := (":"%char ∉ f) /\ NL ∉ f.
Definition fields_ok (e : list bytes) : Prop := e <> [] /\ Forall field_ok e.

Lemma base_text_cons e es : base_text (e :: es) = join_fields e ++ NL :: base_text es.
Proof. unfold base_text. rewrite fmap_cons. cbn [concat]. by rewrite <-(assoc_L (++)). Qed.

Lemma nextcol_field f c r : field_ok f -> nextcol (f ++ c :: r) = nextcol (c :: r).
Proof.
  intros [Hc Hn]. induction f as [|d f IH]; [done|]. apply not_elem_of_cons in Hc as [Hd Hc], Hn as [Hd' Hn].
  change ((d :: f) ++ c :: r) with (d :: (f ++ c :: r)). cbn [nextcol].
  rewrite !bool_decide_eq_false_2 by congruence. by apply IH.
Qed.

Lemma nextcol_join e r : fields_ok e ->
  nextcol (join_fields e ++ NL :: r) = match drop 1 e with [] => None | d => Some (join_fields d ++ NL :: r) end.
Proof.
  intros [Hne Hf]. destruct e as [|f e]; [done|]. apply Forall_cons in Hf as [Hf He]. cbn [join_fields drop].
  destruct e as [|g e]; rewrite <-(assoc_L (++)).
  - cbn [app]. by rewrite nextcol_field.
  - rewrite <-app_comm_cons, nextcol_field by done. done.
Qed.

Lemma fields_ok_drop e n : fields_ok e -> drop n e <> [] -> fields_ok (drop n e).
Proof. intros [_ Hf] Hd. split; [done|]. by apply Forall_drop. Qed.

Lemma colat_join e r n : fields_ok e ->
  colat (Some (join_fields e ++ NL :: r)) n = match drop n e with [] => None | d => Some (join_fields d ++ NL :: r) end.
Proof.
  revert e. induction n as [|n IH]; intros e He; [by destruct e, He|]. cbn [colat]. rewrite nextcol_join by done.
  destruct (drop 1 e) as [|g e'] eqn:E.
  - replace (drop (S n) e) with (@nil bytes); [by destruct n|].
    change (S n) with (1 + n). by rewrite <-(drop_drop e n 1), E, drop_nil.
  - rewrite <-E in *. rewrite IH by (apply fields_ok_drop; [done|by rewrite E]). by rewrite drop_drop.
Qed.

Lemma next_line_skip f r : NL ∉ f -> next_line (f ++ NL :: r) = r.
Proof.
  intros Hn. unfold next_line. induction f as [|c f IH]; [done|]. apply not_elem_of_cons in Hn as [Hc Hn].
  cbn [app drop_while]. rewrite bool_decide_eq_false_2 by congruence. by apply IH.
Qed.

Lemma join_no_nl e : fields_ok e -> NL ∉ join_fields e.
Proof.
  intros [_ Hf]. induction Hf as [|f e [_ Hn] _ IH]; [apply not_elem_of_nil|]. cbn [join_fields]. apply not_elem_of_app.
  split; [done|]. destruct e; [apply not_elem_of_nil|]. by apply not_elem_of_cons.
Qed.

(** the comparison tells whether the field is the key *)
Lemma match_key_field f key c r :
  field_ok f -> field_ok key -> c = NL \/ c = ":"%char ->
  exists met cur, match_key (f ++ c :: r) key = (met, cur) /\ met && ends_column cur = beq f key /\
    next_line cur = next_line (f ++ c :: r).
Proof.
  intros Hf Hk Hc. revert key Hk. induction f as [|d f IH]; intros [|k key] Hk.
  - exists true, (c :: r). split_and!; [done| |done]. destruct Hc as [-> | ->]; done.
  - exists false, (c :: r). split_and!; [|done..]. cbn [app match_key]. destruct Hk as [H1 H2].
    apply not_elem_of_cons in H1 as [H1 _], H2 as [H2 _].
    rewrite (bool_decide_eq_false_2 (k = c)) by (destruct Hc as [-> | ->]; congruence). by rewrite andb_false_r.
  - destruct Hf as [H1 H2]. apply not_elem_of_cons in H1 as [H1 _], H2 as [H2 _].
    exists true, ((d :: f) ++ c :: r). split_and!; [done| |done]. cbn. rewrite !bool_decide_eq_false_2 by congruence. done.
  - assert (Hf' : field_ok f) by (destruct Hf as [H1 H2]; apply not_elem_of_cons in H1 as [_ H1], H2 as [_ H2]; done).
    assert (Hk' : field_ok key) by (destruct Hk as [H1 H2]; apply not_elem_of_cons in H1 as [_ H1], H2 as [_ H2]; done).
    destruct Hf as [_ H2]. apply not_elem_of_cons in H2 as [H2 _]. cbn [app match_key].
    rewrite (bool_decide_eq_true_2 (d <> NL)) by congruence. cbn [andb]. case_bool_decide as E.
    + subst k. destruct (IH Hf' key Hk') as (met & cur & -> & Hm & Hn). exists met, cur. split_and!; [done| |].
      * rewrite Hm. unfold beq. apply bool_decide_ext. naive_solver.
      * rewrite Hn. unfold next_line. cbn [drop_while]. by rewrite (bool_decide_eq_false_2 (d = NL)) by congruence.
    + exists false, (d :: f ++ c :: r). split_and!; [done| |done]. symmetry. apply beq_false. congruence.
Qed.

(** the entries from the first one that has the key in the column *)
Fixpoint find_entry (es : list (list bytes)) (key : bytes) (col : nat) : list (list bytes) :=
  match es with
  | [] => []
  | e :: es' => if bool_decide (e !! col = Some key) then es else find_entry es' key col
  end.

Lemma search_loop_find fuel es key col :
  Forall fields_ok es -> field_ok key -> length (base_text es) < fuel ->
  search_loop fuel (base_text es) key col =
    match find_entry es key col with [] => None | l => Some (base_text l) end.
Proof.
  intros Hes Hk. revert fuel. induction Hes as [|e es He _ IH]; intros fuel Hf; (destruct fuel as [|fuel]; [lia|]); [done|].
  rewrite base_text_cons in *. rewrite length_app in Hf. simpl in Hf. specialize (IH fuel ltac:(lia)). cbn [search_loop find_entry].
  pose proof (next_line_skip _ (base_text es) (join_no_nl e He)) as Hnext. rewrite <-base_text_cons in *.
  assert (Hne : exists c t, base_text (e :: es) = c :: t).
  { rewrite base_text_cons. destruct (join_fields e); simpl; eauto. }
  destruct Hne as (c0 & t0 & Hne). rewrite Hne at 1. rewrite <-(Nat.add_0_r col), <-lookup_drop.
  rewrite base_text_cons at 1. rewrite Nat.add_0_r, colat_join by done. destruct (drop col e) as [|f d] eqn:Ed.
  - rewrite bool_decide_eq_false_2 by done. by rewrite Hnext.
  - assert (Hd : fields_ok (f :: d)) by (rewrite <-Ed; apply fields_ok_drop; [done|by rewrite Ed]).
    assert (Hf1 : field_ok f) by (destruct Hd as [_ Hd]; by apply Forall_cons in Hd as [Hd _]).
    assert (Hskip : next_line (join_fields (f :: d) ++ NL :: base_text es) = base_text es) by (by apply next_line_skip, join_no_nl).
    assert (Hc : exists c r, join_fields (f :: d) ++ NL :: base_text es = f ++ c :: r /\ (c = NL \/ c = ":"%char)).
    { cbn [join_fields]. destruct d as [|g d]; rewrite <-(assoc_L (++)); [by eexists _, _; split; [done|left]|].
      cbn [app]. by eexists _, _; split; [done|right]. }
    destruct Hc as (c & r & Hc & Hcc). rewrite Hc in *.
    destruct (match_key_field f key c r Hf1 Hk Hcc) as (met & cur & -> & -> & Hn). rewrite Hn, Hskip.
    change ((f :: d) !! 0 = Some key) with (Some f = Some key). destruct (beq f key) eqn:E.
    + apply beq_true in E as ->. by rewrite bool_decide_eq_true_2.
    + apply beq_false in E. rewrite bool_decide_eq_false_2 by congruence. done.
Qed.

Lemma search_entry_find es key col :
  Forall fields_ok es -> field_ok key ->
  search_entry (base_text es) key col = match find_entry es key col with [] => None | l => Some (base_text l) end.
Proof. intros. apply search_loop_find; [done|done|lia]. Qed.

(** ** Numbers in the data bases *)

Lemma strtol_prefix ds c r :
  ds <> [] -> Forall (fun c => isdigit c = true) ds -> isdigit c = false -> (0 <= digits_value ds <= LONG_MAX)%Z ->
  (strtol (ds ++ c :: r)).1.1 = digits_value ds.
Proof.
  intros Hn HF Hc Hv. unfold strtol. destruct ds as [|d ds]; [done|]. pose proof (Forall_inv HF) as Hd. cbn [app].
  rewrite drop_while_stop by by apply isdigit_not_space. destruct (isdigit_not_sign d Hd) as [H1 H2].
  rewrite (bool_decide_eq_false_2 _ H1), (bool_decide_eq_false_2 _ H2).
  change (d :: ds ++ c :: r) with ((d :: ds) ++ c :: r).
  assert (Ht : take_while isdigit ((d :: ds) ++ c :: r) = d :: ds).
  { clear -HF Hc. induction HF as [|x l Hx _ IH]; simpl; [by rewrite Hc|]. by rewrite Hx, IH. }
  rewrite Ht, bool_decide_eq_false_2 by done. unfold LONG_MAX, LONG_MIN in *.
  destruct (Z.ltb_spec (2 ^ 63 - 1) (digits_value (d :: ds))); [lia|].
  destruct (Z.ltb_spec (digits_value (d :: ds)) (- 2 ^ 63)); [lia|]. done.
Qed.

Definition id_ok (v : Z) : Prop := (0 <= v < 2 ^ 32)%Z.

Lemma fmt_id v : id_ok v -> exists ds, fmt_d v = ds /\ ds <> [] /\ Forall (fun c => isdigit c = true) ds /\ digits_value ds = v.
Proof.
  intros Hv. unfold id_ok in Hv. unfold fmt_d. replace (v <? 0)%Z with false by lia.
  destruct (dec_loop_spec 25 v []) as (ds & -> & Hn & HF & HD); [split; [lia|]; etransitivity; [apply Hv|by vm_compute]|done|].
  exists ds. by rewrite app_nil_r.
Qed.

Lemma atoi_id v c r : id_ok v -> isdigit c = false -> u32 (atoi (fmt_d v ++ c :: r)) = v.
Proof.
  intros Hv Hc. destruct (fmt_id v Hv) as (ds & -> & Hn & HF & HD). unfold id_ok in Hv. unfold atoi.
  rewrite strtol_prefix by (done || (rewrite HD; unfold LONG_MAX; lia)). rewrite HD. unfold u32, i32.
  rewrite Zminus_mod_idemp_l by lia. replace (v + 2 ^ 31 - 2 ^ 31)%Z with v by lia. apply Z.mod_small. lia.
Qed.

Lemma fmt_id_field v : id_ok v -> field_ok (fmt_d v).
Proof.
  intros Hv. destruct (fmt_id v Hv) as (ds & -> & _ & HF & _). rewrite Forall_forall in HF.
  split; intros Hx; specialize (HF _ Hx); done.
Qed.

(** ** Users and groups *)

Record user := User { u_name : bytes; u_pass : bytes; u_uid : Z; u_gid : Z; u_others : list bytes }.
Record group := Group { g_name : bytes; g_pass : bytes; g_gid : Z; g_others : list bytes }.

Definition user_fields (u : user) : list bytes := u_name u :: u_pass u :: fmt_d (u_uid u) :: fmt_d (u_gid u) :: u_others u.
Definition group_fields (g : group) : list bytes := g_name g :: g_pass g :: fmt_d (g_gid g) :: g_others g.

Definition user_ok (u : user) : Prop :=
  field_ok (u_name u) /\ field_ok (u_pass u) /\ id_ok (u_uid u) /\ id_ok (u_gid u) /\ fields_ok (u_others u).
Definition group_ok (g : group) : Prop :=
  field_ok (g_name g) /\ field_ok (g_pass g) /\ id_ok (g_gid g) /\ fields_ok (g_others g).

Lemma user_fields_ok u : user_ok u -> fields_ok (user_fields u).
Proof.
  intros (H1 & H2 & H3 & H4 & [_ H5]). split; [done|]. repeat (apply Forall_cons; split; [first [done|by apply fmt_id_field]|]). done.
Qed.

Lemma group_fields_ok g : group_ok g -> fields_ok (group_fields g).
Proof.
  intros (H1 & H2 & H3 & [_ H5]). split; [done|]. repeat (apply Forall_cons; split; [first [done|by apply fmt_id_field]|]). done.
Qed.

(** the number in a column that another one follows *)
Lemma number_column v e r : id_ok v -> fields_ok e -> u32 (atoi (join_fields (fmt_d v :: e) ++ r)) = v.
Proof.
  intros Hv [He _]. cbn [join_fields]. destruct e as [|f e]; [done|]. rewrite <-(assoc_L (++)). by apply atoi_id.
Qed.

(** the first one of a list of records that has a field *)
Fixpoint find_first {A} (p : A -> bool) (l : list A) : option A :=
  match l with [] => None | x :: l' => if p x then Some x else find_first p l' end.

Lemma find_entry_first {A} (fields : A -> list bytes) l key col :
  match find_first (fun x => bool_decide (fields x !! col = Some key)) l with
  | None => find_entry (fields <$> l) key col = []
  | Some x => exists l', find_entry (fields <$> l) key col = fields x :: l'
  end.
Proof.
  induction l as [|x l IH]; [done|]. cbn [find_first fmap list_fmap find_entry]. case_bool_decide; [|done]. by eexists.
Qed.

Section Search.
Context (open_ : bytes -> option file).

(** what designates a user: its name or, for a number, its identifier *)
Definition designates (key : bytes) (u : user) : bool :=
  if bool_decide ((strtol key).1.2 = []) then beq (fmt_d (u_uid u)) key else beq (u_name u) key.

Lemma designates_column key u :
  designates key u = bool_decide (user_fields u !! (if bool_decide ((strtol key).1.2 = []) then 2 else 0) = Some key).
Proof. unfold designates, beq. case_bool_decide; apply bool_decide_ext; simpl; naive_solver. Qed.

Lemma find_first_ext {A} (p q : A -> bool) l : (forall x, p x = q x) -> find_first p l = find_first q l.
Proof. intros He. induction l as [|x l IH]; [done|]. simpl. by rewrite He, IH. Qed.

(** C27: when the data base of the users is the text of a list of users, the
    identifiers found for a user, given by its name or by its number, are
    those of the first user of this name or of this number, and nothing is
    found when there is none. *)
Theorem get_user_found us key m :
  Forall user_ok us -> key <> [] -> field_ok key ->
  (read_passwd open_ m).1 = Some (base_text (user_fields <$> us)) ->
  get_user open_ (Some key) true m =
    ((fun u => (u_uid u, Some (u_gid u))) <$> find_first (designates key) us, (read_passwd open_ m).2).
Proof.
  intros Hus Hne Hk Hr. unfold get_user. destruct key as [|k key]; [done|]. rewrite (find_first_ext _ _ us (designates_column (k :: key))).
  set (K := k :: key) in *. destruct (strtol K) as [[lval end_] err] eqn:Es. cbn [fst snd]. rewrite andb_false_r.
  destruct (read_passwd open_ m) as [t m']. cbn [fst snd] in Hr. rewrite Hr. clear Hr. set (col := if bool_decide (end_ = []) then 2 else 0).
  assert (Hes : Forall fields_ok (user_fields <$> us)).
  { rewrite Forall_fmap. eapply Forall_impl; [exact Hus|]. apply user_fields_ok. }
  rewrite search_entry_find by done. pose proof (find_entry_first user_fields us K col) as Hf.
  assert (Hin : forall u, find_first (fun x => bool_decide (user_fields x !! col = Some K)) us = Some u -> user_ok u).
  { intros u. clear -Hus. induction Hus as [|x us Hx _ IH]; [done|]. cbn [find_first]. case_bool_decide; [by intros [= <-]|apply IH]. }
  destruct (find_first _ us) as [u|]; [|by rewrite Hf]. destruct Hf as [l ->]. specialize (Hin u eq_refl).
  pose proof (user_fields_ok u Hin) as Hu. destruct Hin as (H1 & H2 & H3 & H4 & H5).
  rewrite base_text_cons, colat_join by done. cbn [user_fields drop]. rewrite nextcol_join.
  2: { split; [done|]. repeat (apply Forall_cons; split; [by apply fmt_id_field|]). apply H5. }
  cbn [drop]. rewrite !number_column; [done|done|done|done|]. split; [done|]. apply Forall_cons. split; [by apply fmt_id_field|apply H5].
Qed.

(** The same for a group given by its name. *)
Lemma get_group_found gs key m :
  Forall group_ok gs -> key <> [] -> field_ok key -> (strtol key).1.2 <> [] ->
  (read_group open_ m).1 = Some (base_text (group_fields <$> gs)) ->
  get_group open_ (Some key) m =
    (g_gid <$> find_first (fun g => bool_decide (group_fields g !! 0 = Some key)) gs, (read_group open_ m).2).
Proof.
  intros Hgs Hne Hk Hn Hr. unfold get_group. destruct key as [|k key]; [done|]. set (K := k :: key) in *.
  destruct (strtol K) as [[lval end_] err] eqn:Es. cbn [fst snd] in Hn. rewrite bool_decide_eq_false_2 by done.
  destruct (read_group open_ m) as [t m']. cbn [fst snd] in Hr |- *. rewrite Hr. clear Hr.
  assert (Hes : Forall fields_ok (group_fields <$> gs)).
  { rewrite Forall_fmap. eapply Forall_impl; [exact Hgs|]. apply group_fields_ok. }
  rewrite search_entry_find by done. pose proof (find_entry_first group_fields gs K 0) as Hf.
  assert (Hin : forall g, find_first (fun x => bool_decide (group_fields x !! 0 = Some K)) gs = Some g -> group_ok g).
  { intros g. clear -Hgs. induction Hgs as [|x gs Hx _ IH]; [done|]. cbn [find_first]. case_bool_decide; [by intros [= <-]|apply IH]. }
  destruct (find_first _ gs) as [g|]; [|by rewrite Hf]. destruct Hf as [l ->]. specialize (Hin g eq_refl).
  pose proof (group_fields_ok g Hin) as Hg. destruct Hin as (H1 & H2 & H3 & H4).
  rewrite base_text_cons, colat_join by done. cbn [group_fields drop]. by rewrite number_column.
Qed.

End Search.

(** ** The calls of a setup *)

Section Calls.
Context (answer : list call -> call -> Z).

Definition smack_calls (path label : bytes) (transmute : bool) : list call :=
  [Lsetxattr path XATTR_NAME_SMACK label;
   if transmute then Lsetxattr path XATTR_NAME_SMACKTRANSMUTE (B "TRUE") else Lremovexattr path XATTR_NAME_SMACKTRANSMUTE].

(** what is done for a directory, that may exist *)
Definition dir_calls (uid gid : Z) (subst existed : bool) (d : descdir) : list call :=
  let path := expand subst uid gid (d_path d) in
  Mkdir path (d_mode d) :: (if existed then [Chmod path (d_mode d)] else []) ++
  Lchown path uid gid :: smack_calls path (d_label d) (d_transmute d).

Lemma setsmack_calls path label transmute s :
  setsmack answer path label transmute s = (0%Z, s ++ smack_calls path label transmute) \/
  (setsmack answer path label transmute s).1 = 1%Z.
Proof.
  unfold setsmack, do_call, smack_calls. destruct (negb _); [by right|]. destruct transmute.
  - destruct (negb _); [by right|]. left. by rewrite <-(assoc_L (++)).
  - destruct (negb _ && _); [by right|]. left. by rewrite <-(assoc_L (++)).
Qed.

Lemma make_dir_calls uid gid subst d s :
  let r := make_dir answer uid gid (expand subst uid gid (d_path d)) (d_mode d) (d_label d) (d_transmute d) s in
  (exists existed, r = (0%Z, s ++ dir_calls uid gid subst existed d)) \/ r.1 = 1%Z.
Proof.
  set (path := expand subst uid gid (d_path d)). cbn zeta. unfold make_dir, do_call.
  assert (Hrest : forall existed s1, s1 = s ++ Mkdir path (d_mode d) :: (if existed : bool then [Chmod path (d_mode d)] else []) ->
    let r := (if negb (answer s1 (Lchown path uid gid) =? 0)%Z then (1%Z, s1 ++ [Lchown path uid gid])
              else setsmack answer path (d_label d) (d_transmute d) (s1 ++ [Lchown path uid gid])) in
    (exists existed, r = (0%Z, s ++ dir_calls uid gid subst existed d)) \/ r.1 = 1%Z).
  { intros existed s1 ->. cbn zeta. destruct (negb _); [by right|].
    destruct (setsmack_calls path (d_label d) (d_transmute d) ((s ++ Mkdir path (d_mode d) :: if existed then [Chmod path (d_mode d)] else []) ++ [Lchown path uid gid]))
      as [E|E]; [left|by right]. exists existed. rewrite E. f_equal. unfold dir_calls. fold path. by rewrite <-!(assoc_L (++)). }
  destruct (negb (answer s _ =? 0)%Z); [|by apply (Hrest false)].
  destruct (negb (_ =? EEXIST)%Z); [by right|]. destruct (negb _); [by right|]. apply (Hrest true). by rewrite <-(assoc_L (++)).
Qed.

(** Each directory, in order, is made or given its mode, then its owner, its
    label and its attribute, or the status is 1. *)
Lemma setup_dirs_calls uid gid dirs subst s :
  let r := setup_dirs answer uid gid dirs subst s in
  (exists existed, length existed = length dirs /\
     r = (0%Z, s ++ concat (zip_with (dir_calls uid gid subst) existed dirs))) \/ r.1 = 1%Z.
Proof.
  cbn zeta. revert s. induction dirs as [|d dirs IH]; intros s; cbn [setup_dirs].
  { left. exists []. simpl. by rewrite app_nil_r. }
  destruct (make_dir_calls uid gid subst d s) as [[existed E]|E].
  - cbn zeta in E. rewrite E. cbn. destruct (IH (s ++ dir_calls uid gid subst existed d)) as [(l & Hl & E')|E'].
    + left. exists (existed :: l). rewrite E'. cbn [length zip_with concat]. split; [congruence|].
      by rewrite <-(assoc_L (++)).
    + by right.
  - right. cbn zeta in E. destruct (make_dir _ _ _ _ _ _ _ _) as [sts s']. cbn in E. by subst sts.
Qed.

End Calls.

(** ** Example *)

Definition sample_users : list user :=
  [User (B "root") (B "x") 0 0 [[]; B "/root"; B "/bin/sh"]; User (B "daemon") (B "x") 1001 100 [[]; B "/"; []]].

Lemma get_user_found_witness :
  base_text (user_fields <$> sample_users) = B "root:x:0:0::/root:/bin/sh" ++ [NL] ++ B "daemon:x:1001:100::/:" ++ [NL] /\
  get_user (fun _ => None) (Some (B "1001")) true (Memos (Some (base_text (user_fields <$> sample_users))) None []) =
    (Some (1001%Z, Some 100%Z), Memos (Some (base_text (user_fields <$> sample_users))) None []).
Proof.
  split; [reflexivity|].
  assert (Hf : forall f, bool_decide ((":"%char ∉ f) /\ NL ∉ f) = true -> field_ok f) by (intros f Hf; by apply bool_decide_eq_true in Hf).
  refine (get_user_found (fun _ => None) sample_users (B "1001") (Memos (Some (base_text (user_fields <$> sample_users))) None []) _ _ _ _);
    [|discriminate|by apply Hf|reflexivity].
  repeat constructor; try (by apply Hf); try discriminate.
Defined.

(** beyond the values of [int] the digits are wrong *)
Example putuint_negative : putuint 4294967286 <> fmt_d 4294967286.
Proof. vm_compute. discriminate. Qed.

End setup_utils.
