(* ===== verification/Auth.v ===== *)
(** * Checking authorisations in the binding: [src/src/binding/auth.c]

    An authorisation is a boolean expression over permissions that an
    asynchronous service checks.  The code evaluates it with an explicit
    stack of bounded depth, in continuation passing style: each call of
    [cka_push], [cka_pop] and [cka_end] is the last action of its caller, so
    it is a state of a machine. *)
From S2P Require Import Prelude.

Module auth.

(** [afb_auth_t] of the binder's API *)
Inductive auth_t :=
  | Permission (text : bytes)
  | Or (first next : auth_t)
  | And (first next : auth_t)
  | Not (first : auth_t)
  | Yes | No | Token | LOA.

Definition CKAUTH_STACK_DEPTH : nat := 8.

(** the pending call; the top of [authstack] comes first and [idx] is its
    length *)
Inductive call :=
  | cka_push (authstack : list auth_t) (a : auth_t)
  | cka_pop (authstack : list auth_t) (status : Z)
  | cka_end (status : Z).

(** [check] is the status that the binder gives for a permission through
    [cka_perm_cb] *)
Section Machine.
Context (check : bytes -> Z).

(** the next call; [cka_end] is the last one: it calls the callback *)
Definition step (c : call) : call :=
  match c with
  | cka_end status => cka_end status
  | cka_pop [] status => cka_end status
  | cka_pop (a :: stack) status =>
      match a with
      | Or _ next => if (status <=? 0)%Z then cka_push stack next else cka_pop stack status
      | And _ next => if (status >? 0)%Z then cka_push stack next else cka_pop stack status
      | Not _ => cka_pop stack (if (status <=? 0)%Z then 1%Z else 0%Z)
      | _ => cka_pop stack status
      end
  | cka_push stack a =>
      if bool_decide (CKAUTH_STACK_DEPTH <= length stack) then cka_end (- E2BIG)
      else
        let stack' := a :: stack in
        match a with
        | Permission text => cka_pop stack' (check text)
        | Or first _ | And first _ | Not first => cka_push stack' first
        | Yes => cka_pop stack' 1
        | No | Token | LOA => cka_pop stack' 0
        end
  end.

Fixpoint run (n : nat) (c : call) : call :=
  match n with O => c | S n' => run n' (step c) end.

(** [auth_check]: the status given to the callback, if the machine ends in
    [n] steps *)
Definition auth_check (n : nat) (a : auth_t) (o : oracle) : option Z :=
  if (malloc o).1 then
    match run n (cka_push [] a) with
    | cka_end status => Some status
    | _ => None
    end
  else Some (- ENOMEM)%Z.

(** ** Specification *)

(** the meaning of an authorisation *)
Fixpoint eval (a : auth_t) : bool :=
  match a with
  | Permission text => (check text >? 0)%Z
  | Or f n => eval f || eval n
  | And f n => eval f && eval n
  | Not f => negb (eval f)
  | Yes => true
  | No | Token | LOA => false
  end.

(** the depth of the stack that the evaluation needs *)
Fixpoint depth (a : auth_t) : nat :=
  match a with
  | Or f n | And f n => S (depth f) `max` depth n
  | Not f => S (depth f)
  | _ => 1
  end.

(** the number of steps, at most *)
Fixpoint cost (a : auth_t) : nat :=
  match a with
  | Or f n | And f n => 2 + cost f + cost n
  | Not f => 2 + cost f
  | _ => 2
  end.

(** ** Lemmas *)

Lemma run_add n m c : run (n + m) c = run m (run n c).
Proof. revert c. induction n as [|n IH]; intros c; simpl; [done|]. apply IH. Qed.

Lemma run_end n s : run n (cka_end s) = cka_end s.
Proof. induction n; simpl; [done|]. done. Qed.

(** [c] leads to [c'] in at most [k] steps *)
Definition leads (k : nat) (c c' : call) : Prop := exists n, n <= k /\ run n c = c'.

Lemma leads_step k c c' : leads k (step c) c' -> leads (S k) c c'.
Proof. intros (n & Hn & H). exists (S n). split; [lia|done]. Qed.

Lemma leads_trans k1 k2 c1 c2 c3 : leads k1 c1 c2 -> leads k2 c2 c3 -> leads (k1 + k2) c1 c3.
Proof.
  intros (n1 & H1 & E1) (n2 & H2 & E2). exists (n1 + n2). split; [lia|]. by rewrite run_add, E1.
Qed.

Lemma leads_refl k c : leads k c c.
Proof. exists 0. split; [lia|done]. Qed.

Lemma leads_weaken k k' c c' : k <= k' -> leads k c c' -> leads k' c c'.
Proof. intros Hk (n & Hn & H). exists n. split; [lia|done]. Qed.

(** After the push of [a], its first part and the pop of [a]. *)
Lemma first_then stack a f s :
  leads (cost f) (cka_push (a :: stack) f) (cka_pop (a :: stack) s) ->
  bool_decide (CKAUTH_STACK_DEPTH <= length stack) = false ->
  step (cka_push stack a) = cka_push (a :: stack) f ->
  forall k c, leads k (step (cka_pop (a :: stack) s)) c ->
    leads (2 + cost f + k) (cka_push stack a) c.
Proof.
  intros Hl Hroom Hstep k c Hk.
  replace (2 + cost f + k) with (S (cost f + S k)) by lia. apply leads_step. rewrite Hstep.
  eapply leads_trans; [exact Hl|]. by apply leads_step.
Qed.

(** The evaluation pops a status of the sign of the value, or ends with an
    error when the expression is too deep for the stack. *)
Lemma push_leads a stack :
  (leads (S (cost a)) (cka_push stack a) (cka_end (- E2BIG)) /\
   CKAUTH_STACK_DEPTH < length stack + depth a) \/
  exists s, leads (cost a) (cka_push stack a) (cka_pop stack s) /\ (s >? 0)%Z = eval a.
Proof.
  revert stack. induction a as [t|f IHf n IHn|f IHf n IHn|f IHf| | | |]; intros stack; cbn [eval depth];
    (destruct (bool_decide (CKAUTH_STACK_DEPTH <= length stack)) eqn:Hroom;
     [left; apply bool_decide_eq_true in Hroom as Hdeep;
      split; [apply leads_step; cbn [step]; rewrite Hroom; apply leads_refl|lia]|]).
  1,5-8: right; eexists; (split; [do 2 (apply leads_step; cbn [step]; rewrite ?Hroom);
    apply leads_refl|done]).
  all: match goal with
    | |- context [eval ?f || eval ?n] => destruct (IHf (Or f n :: stack)) as [[Hl Hd]|(s & Hl & Hs)]
    | |- context [eval ?f && eval ?n] => destruct (IHf (And f n :: stack)) as [[Hl Hd]|(s & Hl & Hs)]
    | |- context [negb (eval ?f)] => destruct (IHf (Not f :: stack)) as [[Hl Hd]|(s & Hl & Hs)]
    end; [left; split; [|simpl in Hd; lia];
          apply (leads_weaken (S (S (cost f)))); [simpl; lia|];
          apply leads_step; cbn [step]; by rewrite Hroom|].
  all: pose proof (fun E => first_then _ _ _ _ Hl Hroom E) as Hthen; clear Hl.
  all: cbn [step] in Hthen; rewrite Hroom in Hthen; specialize (Hthen eq_refl); rename Hthen into Hl.
  - destruct (s <=? 0)%Z eqn:E.
    + destruct (IHn stack) as [[Hl' Hd]|(s' & Hl' & Hs')].
      * left. split; [|lia]. apply (leads_weaken (2 + cost f + S (cost n))); [simpl; lia|]. by apply Hl.
      * right. exists s'. rewrite <-Hs, Hs'. split; [by apply Hl|].
        destruct (Z.gtb_spec s 0); [lia|done].
    + right. exists s. split; [apply Hl, leads_refl|]. rewrite <-Hs.
      destruct (Z.gtb_spec s 0); [done|lia].
  - destruct (s >? 0)%Z eqn:E.
    + destruct (IHn stack) as [[Hl' Hd]|(s' & Hl' & Hs')].
      * left. split; [|lia]. apply (leads_weaken (2 + cost f + S (cost n))); [simpl; lia|]. by apply Hl.
      * right. exists s'. rewrite <-Hs, Hs'. split; [by apply Hl|done].
    + right. exists s. split; [apply Hl, leads_refl|]. by rewrite <-Hs.
  - right. eexists. split; [apply (leads_weaken (2 + cost f + 0)); [simpl; lia|]; apply Hl, leads_refl|].
    rewrite <-Hs. destruct (Z.leb_spec s 0), (Z.gtb_spec s 0); try lia; done.
Qed.

Lemma auth_check_cases a o n :
  2 + cost a <= n ->
  exists status, auth_check n a o = Some status /\
    ((status > 0)%Z -> eval a = true) /\
    (depth a <= CKAUTH_STACK_DEPTH -> (malloc o).1 = true -> (status > 0)%Z <-> eval a = true).
Proof.
  intros Hn. unfold auth_check. destruct (malloc o).1.
  2: { eexists. split; [done|]. unfold ENOMEM. split; [lia|done]. }
  destruct (push_leads a []) as [[(k & Hk & E) Hd]|(s & (k & Hk & E) & Hs)].
  - exists (- E2BIG)%Z. replace n with (k + (n - k)) by lia. rewrite run_add, E, run_end.
    split; [done|]. unfold E2BIG. simpl in Hd. split; lia.
  - exists s. replace n with (k + (1 + (n - k - 1))) by lia. rewrite !run_add, E. simpl.
    rewrite run_end. split; [done|]. rewrite <-Hs, Z.gtb_lt. split; [lia|]. intros _ _. lia.
Qed.

(** ** Properties *)

(** C38: The check of an authorisation calls its callback with a status, and
    that status is positive only when the authorisation holds; it is
    positive exactly then when the memory is there and the expression not
    deeper than the stack. *)
Theorem auth_check_spec a o n :
  2 + cost a <= n ->
  exists status, auth_check n a o = Some status /\
    ((status > 0)%Z -> eval a = true) /\
    (depth a <= CKAUTH_STACK_DEPTH -> (malloc o).1 = true -> (status > 0)%Z <-> eval a = true).
Proof. apply auth_check_cases. Qed.

End Machine.

Definition sample : auth_t := And (Not (Permission (B "banned"))) (Or No (Permission (B "admin"))).

Lemma auth_check_spec_witness :
  exists status, auth_check (fun p => if beq p (B "admin") then 1%Z else 0%Z) 20 sample [] = Some status /\
    (status > 0)%Z.
Proof.
  destruct (auth_check_spec (fun p => if beq p (B "admin") then 1%Z else 0%Z) sample [] 20)
    as (status & E & _ & H).
  - simpl. lia.
  - exists status. split; [exact E|]. apply H; [unfold CKAUTH_STACK_DEPTH; simpl; lia|reflexivity|reflexivity].
Defined.
End auth.
