(* ===== verification/Signature.v ===== *)
(** * Names of the files of signatures: [src/src/cert/signature-name.c] *)
From S2P Require Import Prelude CString.

Module signature.

Definition signature_extension : bytes := B ".p7".
Definition signature_prefix : bytes := B "signature-".
Definition author_name : bytes := B "author".

Inductive signature_type := Signature_None | Signature_Author | Signature_distributor.

(** the loop that goes back to the start of the name of the file *)
Fixpoint posbeg_loop (path : bytes) (posbeg : nat) : nat :=
  match posbeg with
  | O => 0
  | S p => if bool_decide (path !! p = Some SLASH) then posbeg else posbeg_loop path p
  end.

(** [path] holds at least [length] characters *)
Definition signature_name_type_length (path : bytes) (len : nat) : signature_type :=
  if bool_decide (length signature_extension <= len) then
    let posext := len - length signature_extension in
    if starts_with signature_extension (drop posext path) then
      let posbeg := posbeg_loop path posext in
      let l := posext - posbeg in
      if bool_decide (length signature_prefix <= l) && starts_with signature_prefix (drop posbeg path)
      then
        let posbeg := posbeg + length signature_prefix in
        let l := l - length signature_prefix in
        if bool_decide (l = length author_name) && starts_with author_name (drop posbeg path)
        then Signature_Author
        else Signature_distributor
      else Signature_None
    else Signature_None
  else Signature_None.

Definition signature_name_type (path : bytes) : signature_type :=
  signature_name_type_length path (length path).

(** new position and buffer *)
Definition copy (buffer : bytes) (pos size : nat) (value : bytes) : nat * bytes :=
  (pos + length value,
   if bool_decide (pos < size) then
     list_inserts pos (if bool_decide (pos + length value <= size) then value
                       else take (size - pos) value) buffer
   else buffer).

Definition make_signature_name_length (name buffer : bytes) (size : nat) : nat * bytes :=
  let '(pos, buffer) := copy buffer 0 size signature_prefix in
  let '(pos, buffer) := copy buffer pos size name in
  let '(pos, buffer) := copy buffer pos size signature_extension in
  (pos, if bool_decide (pos < size) then <[pos := NUL]> buffer else buffer).

Definition make_signature_name (name buffer : bytes) (size : nat) : nat * bytes :=
  make_signature_name_length name buffer size.

(** the digits hold in the 22 characters of the scratch *)
Definition make_signature_name_number (number : Z) (buffer : bytes) (size : nat) : nat * bytes :=
  make_signature_name_length (dec_loop 22 number []) buffer size.

Definition make_signature_name_author (buffer : bytes) (size : nat) : nat * bytes :=
  make_signature_name_length author_name buffer size.

(** ** Lemmas *)

(** the text of the name of a signature *)
Definition signature_text (name : bytes) : bytes := signature_prefix ++ name ++ signature_extension.

Lemma copy_store t v b :
  copy (store t b) (length t) (length b) v = (length (t ++ v), store (t ++ v) b).
Proof.
  unfold copy. rewrite length_app. f_equal. unfold store.
  destruct (decide (length t < length b)) as [H|H].
  - rewrite bool_decide_eq_true_2, (take_ge t) by lia. case_bool_decide.
    + rewrite inserts_app by (rewrite length_drop; lia).
      rewrite (take_ge (t ++ v)), length_app, drop_drop, <-(assoc_L (++)) by (rewrite length_app; lia). done.
    + rewrite inserts_app by (rewrite length_take, length_drop; lia).
      rewrite take_app_ge, <-(assoc_L (++)) by lia. f_equal. f_equal.
      rewrite !drop_ge; rewrite ?length_app, ?length_drop, ?length_take; lia || done.
  - rewrite bool_decide_eq_false_2 by done. rewrite take_app_le by lia.
    rewrite !drop_ge; rewrite ?length_app; lia || done.
Qed.

Lemma cstr_text name : cstr name -> cstr (signature_text name).
Proof.
  intros Hn. unfold signature_text. rewrite !cstr_app. split; [|split; [done|]];
    apply (bool_decide_unpack _); vm_compute; exact I.
Qed.

(** The name is written as far as the buffer holds, its length returned. *)
Lemma make_signature_name_spec name b :
  make_signature_name_length name b (length b) =
  (length (signature_text name), store (signature_text name ++ [NUL]) b).
Proof.
  unfold make_signature_name_length.
  assert (H0 : b = store [] b) by (unfold store; by rewrite take_nil, drop_0).
  rewrite H0 at 1. change 0 with (length (@nil ascii)). rewrite copy_store, app_nil_l.
  rewrite copy_store, copy_store, <-(assoc_L (++)). fold (signature_text name).
  set (t := signature_text name). clearbody t. f_equal. unfold store. rewrite length_app. simpl.
  case_bool_decide.
  - rewrite !take_ge by (rewrite ?length_app; simpl; lia).
    rewrite insert_app_r_alt, Nat.sub_diag, <-(assoc_L (++)) by lia.
    destruct (drop (length t) b) as [|x r] eqn:E.
    { apply (f_equal length) in E. rewrite length_drop in E. simpl in E. lia. }
    rewrite <-(drop_drop b 1 (length t)), E.
    done.
  - rewrite !(drop_ge b), take_app_le by lia. done.
Qed.

Lemma posbeg_spec dir base :
  (SLASH ∉ base) -> (dir = [] \/ last dir = Some SLASH) -> forall rest,
  posbeg_loop (dir ++ base ++ rest) (length dir + length base) = length dir.
Proof.
  intros Hb Hd rest. rewrite (assoc_L (++)). 
  induction base as [|c base IH] using rev_ind in Hb, rest |- *.
  - rewrite app_nil_r, Nat.add_0_r. destruct Hd as [->|Hl]; [done|].
    destruct dir as [|x dir _] using rev_ind; [done|]. rewrite last_snoc in Hl. injection Hl as ->.
    rewrite length_app, Nat.add_comm. cbn [length Nat.add posbeg_loop].
    rewrite bool_decide_eq_true_2; [done|]. rewrite <-(assoc_L (++)).
    by rewrite lookup_app_r, Nat.sub_diag by lia.
  - rewrite not_elem_of_app, not_elem_of_cons in Hb. destruct Hb as (Hb & Hc & _).
    rewrite length_app, Nat.add_assoc, (Nat.add_comm _ (length [c])). cbn [length Nat.add posbeg_loop].
    rewrite (assoc_L (++) dir), <-(assoc_L (++) (dir ++ base)).
    rewrite bool_decide_eq_false_2; [by apply IH|].
    rewrite lookup_app_r by (rewrite length_app; lia).
    replace (length dir + length base - length (dir ++ base)) with 0 by (rewrite length_app; lia).
    simpl. congruence.
Qed.

(** the last component of a path *)
Lemma split_base path : exists dir base, path = dir ++ base /\ (SLASH ∉ base) /\
  (dir = [] \/ last dir = Some SLASH).
Proof.
  induction path as [|c path (dir & base & -> & Hb & Hd)] using rev_ind.
  { exists [], []. split; [done|]. split; [apply not_elem_of_nil|by left]. }
  destruct (decide (c = SLASH)) as [->|Hc].
  - exists (dir ++ base ++ [SLASH]), []. rewrite app_nil_r, (assoc_L (++)). split; [done|].
    split; [apply not_elem_of_nil|]. right. by rewrite last_snoc.
  - exists dir, (base ++ [c]). rewrite (assoc_L (++)). split; [done|]. split; [|done].
    rewrite not_elem_of_app, list_elem_of_singleton. naive_solver.
Qed.

(** the type of the name [name] of a signature *)
Definition type_of (name : bytes) : signature_type :=
  if bool_decide (name = author_name) then Signature_Author else Signature_distributor.

Lemma type_text dir name :
  (SLASH ∉ name) -> (dir = [] \/ last dir = Some SLASH) ->
  signature_name_type (dir ++ signature_text name) = type_of name.
Proof.
  intros Hn Hd. unfold signature_name_type, signature_name_type_length, signature_text.
  set (p := dir ++ signature_prefix ++ name ++ signature_extension).
  assert (Hlen : length p = length dir + 10 + length name + 3)
    by (unfold p; rewrite !length_app; cbn [length signature_prefix signature_extension B]; simpl; lia).
  rewrite bool_decide_eq_true_2 by (rewrite Hlen; simpl; lia).
  replace (length p - length signature_extension)
    with (length dir + length (signature_prefix ++ name)) by (rewrite Hlen, length_app; simpl; lia).
  assert (Hp : p = dir ++ (signature_prefix ++ name) ++ signature_extension)
    by (unfold p; by rewrite <-!(assoc_L (++))).
  rewrite Hp, posbeg_spec; [|rewrite not_elem_of_app; split; [by apply (bool_decide_unpack _); vm_compute|done]|done].
  rewrite drop_app_ge by lia. rewrite drop_app_ge by lia.
  replace (length dir + _ - length dir - _) with 0 by lia.
  change (drop 0 signature_extension) with signature_extension. 
  change (starts_with signature_extension signature_extension) with true. cbv beta iota.
  rewrite drop_app_length, <-(assoc_L (++)), starts_with_app.
  rewrite bool_decide_eq_true_2 by (rewrite length_app; lia). cbn [andb].
  replace (length dir + length (signature_prefix ++ name) - length dir - length signature_prefix)
    with (length name) by (rewrite length_app; lia).
  rewrite drop_app_ge by lia.
  replace (length dir + length signature_prefix - length dir) with (length signature_prefix) by lia.
  rewrite drop_app_length. unfold type_of.
  case_bool_decide as Hl; cbn [andb]; [|rewrite bool_decide_eq_false_2; [done|congruence]].
  destruct (starts_with author_name (name ++ signature_extension)) eqn:E.
  - apply starts_with_spec in E as [r E]. apply app_inj_1 in E as [-> _]; [|done].
    by rewrite bool_decide_eq_true_2.
  - rewrite bool_decide_eq_false_2; [done|]. intros ->. by rewrite starts_with_app in E.
Qed.

(** A path that has a type is the path of a name of signature. *)
Lemma typed_text path :
  signature_name_type path <> Signature_None ->
  exists dir name, path = dir ++ signature_text name /\ (SLASH ∉ name) /\
    (dir = [] \/ last dir = Some SLASH).
Proof.
  unfold signature_name_type, signature_name_type_length. case_bool_decide as Hl; [|done].
  set (posext := length path - length signature_extension).
  destruct (starts_with signature_extension (drop posext path)) eqn:Ee; [|done].
  apply starts_with_spec in Ee as [r Er].
  assert (Hr : r = []).
  { apply (f_equal length) in Er. rewrite length_drop, length_app in Er.
    unfold posext in Er. destruct r; [done|]. cbn [length] in Er. lia. }
  rewrite Hr, app_nil_r in Er.
  destruct (split_base (take posext path)) as (dir & base & Hq & Hb & Hd).
  assert (Hpath : path = dir ++ base ++ signature_extension).
  { rewrite <-(take_drop posext path) at 1. by rewrite Er, Hq, <-(assoc_L (++)). }
  assert (Hpos : posext = length dir + length base).
  { unfold posext. rewrite Hpath, !length_app. lia. }
  rewrite Hpos, Hpath, posbeg_spec by done. rewrite drop_app_length.
  destruct (_ && _) eqn:E; [|done]. intros _. apply andb_true_iff in E as [El Es].
  apply bool_decide_eq_true in El. apply starts_with_spec in Es as [k Ek].
  assert (Hbase : base = signature_prefix ++ drop 10 base).
  { apply (f_equal (take 10)) in Ek. rewrite take_app_le in Ek by (simpl in El; lia).
    rewrite <-(take_drop 10 base) at 1. f_equal. by rewrite Ek. }
  exists dir, (drop 10 base). split; [|split; [|done]].
  - unfold signature_text. rewrite (assoc_L (++) signature_prefix), <-Hbase. done.
  - rewrite Hbase, not_elem_of_app in Hb. apply Hb.
Qed.

(** The type of a path is exactly told by the name of its file:
    a name "signature-NAME.p7" is the signature of the author when NAME is
    "author" and of a distributor for any other NAME, and no other path is
    the one of a signature. *)
Theorem signature_type_spec path T :
  signature_name_type path = T <->
  (exists dir name, path = dir ++ signature_text name /\ (SLASH ∉ name) /\
     (dir = [] \/ last dir = Some SLASH) /\ T = type_of name) \/
  (T = Signature_None /\ forall dir name, path = dir ++ signature_text name -> (SLASH ∉ name) ->
     ~ (dir = [] \/ last dir = Some SLASH)).
Proof.
  split.
  - intros <-. destruct (signature_name_type path) eqn:E.
    + right. split; [done|]. intros dir name -> Hn Hd. rewrite type_text in E by done.
      unfold type_of in E. by case_bool_decide.
    + left. destruct (typed_text path) as (dir & name & -> & Hn & Hd); [congruence|].
      rewrite type_text in E by done. eauto 10.
    + left. destruct (typed_text path) as (dir & name & -> & Hn & Hd); [congruence|].
      rewrite type_text in E by done. eauto 10.
  - intros [(dir & name & -> & Hn & Hd & ->)|[-> Hno]]; [by apply type_text|].
    destruct (signature_name_type path) eqn:E; [done|..];
      (destruct (typed_text path) as (dir & name & -> & Hn & Hd); [congruence|]);
      by destruct (Hno dir name).
Qed.

(** The name made for a signature is written with its final NUL as far
    as the buffer holds, its length being returned, and when it fits its
    type is the one asked: distributor for a number, author for the author. *)
Theorem make_signature_roundtrip number b :
  (0 <= number <= UINT_MAX)%Z ->
  (let '(len, b') := make_signature_name_number number b (length b) in
   length b' = length b /\
   (len < length b -> signature_name_type (cstring b') = Signature_distributor)) /\
  (let '(len, b') := make_signature_name_author b (length b) in
   length b' = length b /\
   (len < length b -> signature_name_type (cstring b') = Signature_Author)).
Proof.
  intros Hn. unfold make_signature_name_number, make_signature_name_author, UINT_MAX in *.
  rewrite !make_signature_name_spec.
  destruct (dec_loop_spec 22 number []) as (ds & -> & Hne & HF & _); [lia|done|]. rewrite app_nil_r.
  assert (Hds : (SLASH ∉ ds) /\ cstr ds /\ ds <> author_name).
  { rewrite Forall_forall in HF. split_and!; [by intros H%HF|by intros H%HF|].
    intros ->. specialize (HF "a"%char). discriminate HF. left. }
  destruct Hds as (Hs & Hc & Ha).
  split; (split; [apply length_store|]); intros Hl; rewrite cstring_store
    by (done || apply cstr_text; first [done|apply (bool_decide_unpack _); vm_compute; exact I]).
  - change (signature_text ds) with ([] ++ signature_text ds). rewrite type_text by auto.
    unfold type_of. by rewrite bool_decide_eq_false_2.
  - reflexivity.
Qed.

Lemma make_signature_roundtrip_witness :
  signature_name_type (cstring (make_signature_name_number 12 (replicate 40 NUL) 40).2) =
  Signature_distributor.
Proof.
  assert (H : (0 <= 12 <= UINT_MAX)%Z) by (unfold UINT_MAX; lia).
  apply (make_signature_roundtrip 12 (replicate 40 NUL) H). vm_compute. lia.
Defined.

End signature.
