(* ===== verification/Afid.v ===== *)
(** * Numbers of the applications: [src/src/utils/manage-afid.c] and
    [src/src/units/normalize-unit-file.c]

    The identifiers in use are the bits of an array of 32 bit words, filled
    from the unit files of the system and of the user. *)
From S2P Require Import Prelude CString UnitFs.

Module afid.
Import unit_fs.

(** ** Normalisation of unit files *)

Definition is_nl (c : ascii) : bool := bool_decide (c = NL).
Definition not_nl (c : ascii) : bool := negb (is_nl c).

(** The loop of [normalize_unit_file_cmtchrs]: [rd] starts with the current
    character, the end of the list being the NUL; [wr] is what precedes
    [write], reversed. The result is what precedes the last NUL written. *)
Fixpoint normalize_loop (fuel : nat) (cmtchrs rd wr : bytes) : bytes :=
  match fuel with
  | O => wr
  | S fuel' =>
      match rd with
      | [] => wr
      | c :: rd' =>
          if is_in (B " ") c || is_nl c || bool_decide (c = TAB) then normalize_loop fuel' cmtchrs rd' wr
          else if is_in cmtchrs c then normalize_loop fuel' cmtchrs (drop_while not_nl rd') wr
          else
            (** the characters up to the newline, or the NUL, included *)
            let line := c :: take_while not_nl rd' in
            let rest := drop_while not_nl rd' in
            let stop := match rest with [] => NUL | d :: _ => d end in
            let wr' := stop :: rev line ++ wr in
            let wr'' :=
              match wr' with
              | _ :: d :: w => if bool_decide (d = "\"%char) then SPACE :: w else wr'
              | _ => wr'
              end in
            normalize_loop fuel' cmtchrs rest wr''
      end
  end.

(** the characters before the final NUL; their number is the result *)
Definition normalize_unit_file_cmtchrs (content cmtchrs : bytes) : bytes :=
  rev (normalize_loop (S (length content)) cmtchrs content []).

Definition normalize_unit_file (content : bytes) : bytes :=
  normalize_unit_file_cmtchrs content (B ";#").

(** ** The array of identifiers *)

Definition key_afm_prefix : bytes := B "X-AFM-".
Definition key_afid : bytes := B "ID".

Definition AFID_MIN : Z := 1.
Definition AFID_MAX : Z := 1999.
Definition AFID_IS_VALID (afid : Z) : bool := (AFID_MIN <=? afid)%Z && (afid <=? AFID_MAX)%Z.
Definition AFID_COUNT : Z := AFID_MAX - AFID_MIN + 1.
Definition AFID_ACNT : Z := Z.shiftr (AFID_COUNT + 31) 5.
Definition AFID_ASFT (afid : Z) : Z := Z.land (afid - AFID_MIN) 31.
Definition AFID_AIDX (afid : Z) : Z := Z.shiftr (afid - AFID_MIN) 5.

(** the word of an identifier *)
Definition word (array : list Z) (afid : Z) : Z := default 0%Z (array !! Z.to_nat (AFID_AIDX afid)).

Definition AFID_TEST (array : list Z) (afid : Z) : bool :=
  negb (Z.land (Z.shiftr (word array afid) (AFID_ASFT afid)) 1 =? 0)%Z.
Definition AFID_SET (array : list Z) (afid : Z) : list Z :=
  <[Z.to_nat (AFID_AIDX afid) := u32 (Z.lor (word array afid) (Z.shiftl 1 (AFID_ASFT afid)))]> array.

Definition empty_array : list Z := replicate (Z.to_nat AFID_ACNT) 0%Z.

Record manager := mk_manager { init_done : bool; afids_array : list Z }.

(** ** Reading the unit files *)

(** The loop of [get_afid_cb] on the text that follows a prefix. *)
Fixpoint scan_ids (fuel : nat) (iter : option bytes) (array : list Z) : list Z :=
  match fuel, iter with
  | S fuel', Some text =>
      let text := drop (length key_afm_prefix) text in
      let text := match text with "-"%char :: t => t | _ => text end in
      let '(text, array) :=
        if starts_with key_afid text then
          let text := drop_while (fun c => negb (bool_decide (c = "="%char)) && not_nl c)
                        (drop (length key_afid) text) in
          match text with
          | "="%char :: t =>
              let t := drop_while (fun c => bool_decide (c = SPACE)) t in
              let p := atoi t in
              (t, if AFID_IS_VALID p then AFID_SET array p else array)
          | _ => (text, array)
          end
        else (text, array) in
      scan_ids fuel' (strstr text key_afm_prefix) array
  | _, _ => array
  end.

Section Files.
(** [rp_file_get]: an error or the content *)
Context (afm_units_root : bytes) (opendir : bytes -> directory) (rp_file_get : bytes -> Z + bytes).

Definition get_afid_cb (array : list Z) (name path : bytes) (isuser : bool) : list Z * Z :=
  match rp_file_get path with
  | inl rc => (array, rc)
  | inr content =>
      let text := cstring (normalize_unit_file (cstring content)) in
      (scan_ids (S (length text)) (strstr text key_afm_prefix) array, 0%Z)
  end.

Definition update_afids (strict : bool) (m : manager) : Z * manager :=
  let '(a, rcs) := units_fs_list afm_units_root opendir get_afid_cb false true empty_array in
  let '(a, rcu) := units_fs_list afm_units_root opendir get_afid_cb true true a in
  (if negb strict then 0%Z else if (rcs <? 0)%Z then rcs else rcu, mk_manager (init_done m) a).

(** the loop on whole words *)
Fixpoint skip_words (fuel : nat) (array : list Z) (afid : Z) : Z :=
  match fuel with
  | O => afid
  | S fuel' =>
      if (afid <=? AFID_MAX)%Z && (word array afid =? 2 ^ 32 - 1)%Z
      then skip_words fuel' array (afid + 32) else afid
  end.

Fixpoint skip_used (fuel : nat) (array : list Z) (afid : Z) : Z :=
  match fuel with
  | O => afid
  | S fuel' =>
      if (afid <=? AFID_MAX)%Z && AFID_TEST array afid
      then skip_used fuel' array (afid + 1) else afid
  end.

(** one turn per word, then one per identifier *)
Definition first_free_afid (array : list Z) : Z :=
  let afid := skip_words (Z.to_nat AFID_ACNT) array AFID_MIN in
  let afid := skip_used (Z.to_nat AFID_COUNT) array afid in
  if (afid >? AFID_MAX)%Z then (-1)%Z else afid.

Definition init_afid_manager (strict : bool) (m : manager) : Z * manager :=
  if init_done m then (0%Z, m)
  else update_afids strict (mk_manager true (afids_array m)).

Definition get_new_afid (m : manager) : Z * manager :=
  let '(rc, m) := init_afid_manager true m in
  if (rc <? 0)%Z then (rc, m)
  else
    let afid := first_free_afid (afids_array m) in
    let '(rc, afid, m) :=
      if (afid <? 0)%Z then
        let '(rc, m) := update_afids true m in
        if (rc <? 0)%Z then (rc, rc, m) else (rc, first_free_afid (afids_array m), m)
      else (rc, afid, m) in
    if (rc <? 0)%Z then (rc, m)
    else if (afid >=? 0)%Z then (afid, mk_manager (init_done m) (AFID_SET (afids_array m) afid))
    else (afid, m).

End Files.

(** ** Lemmas on the array *)

(** the words hold in 32 bits, and the last one has no bit above the last
    identifier *)
Record wf (a : list Z) : Prop := {
  wf_length : length a = 63;
  wf_words : Forall (fun w => (0 <= w < 2 ^ 32)%Z) a;
  wf_last : forall w, a !! 62 = Some w -> (w < 2 ^ 15)%Z
}.

Lemma test_testbit a i :
  AFID_TEST a i = Z.testbit (word a i) (AFID_ASFT i).
Proof.
  unfold AFID_TEST. rewrite Z.testbit_odd, Zodd_mod.
  replace (Z.land (Z.shiftr (word a i) (AFID_ASFT i)) 1)
    with (Z.shiftr (word a i) (AFID_ASFT i) mod 2)%Z by (symmetry; apply (Z.land_ones _ 1); lia).
  pose proof (Z.mod_pos_bound (Z.shiftr (word a i) (AFID_ASFT i)) 2). lia.
Qed.

Lemma asft_mod i : AFID_ASFT i = ((i - 1) mod 32)%Z.
Proof. unfold AFID_ASFT, AFID_MIN. change 31%Z with (Z.ones 5). by rewrite Z.land_ones by lia. Qed.

Lemma aidx_div i : AFID_AIDX i = ((i - 1) / 32)%Z.
Proof. unfold AFID_AIDX, AFID_MIN. by rewrite Z.shiftr_div_pow2 by lia. Qed.

Lemma valid_spec i : AFID_IS_VALID i = true <-> (1 <= i <= 1999)%Z.
Proof. unfold AFID_IS_VALID, AFID_MIN, AFID_MAX. lia. Qed.

(** where an identifier is *)
Lemma position i :
  (1 <= i <= 1999)%Z ->
  (0 <= AFID_AIDX i < 63)%Z /\ (0 <= AFID_ASFT i < 32)%Z /\ (i = 32 * AFID_AIDX i + AFID_ASFT i + 1)%Z.
Proof. intros Hi. rewrite asft_mod, aidx_div. Z.to_euclidean_division_equations; lia. Qed.

Lemma word_lookup a i :
  wf a -> (1 <= i <= 1999)%Z -> a !! Z.to_nat (AFID_AIDX i) = Some (word a i) /\ (0 <= word a i < 2 ^ 32)%Z.
Proof.
  intros Hw Hi. destruct (position i Hi) as (Hx & _). unfold word.
  destruct (lookup_lt_is_Some_2 a (Z.to_nat (AFID_AIDX i))) as [w Hl]; [rewrite (wf_length a Hw); lia|].
  rewrite Hl. split; [done|]. pose proof (wf_words a Hw) as HF. rewrite Forall_forall in HF.
  apply HF. by eapply list_elem_of_lookup_2.
Qed.

Lemma lor_lt n x y : (0 <= n)%Z -> (0 <= x < 2 ^ n)%Z -> (0 <= y < 2 ^ n)%Z -> (Z.lor x y < 2 ^ n)%Z.
Proof.
  intros Hn Hx Hy. assert (0 <= Z.lor x y)%Z by (apply Z.lor_nonneg; lia).
  destruct (decide (Z.lor x y = 0)%Z) as [->|Hne]; [apply Z.pow_pos_nonneg; lia|].
  assert (Hlog : forall z, (0 <= z < 2 ^ n)%Z -> (Z.log2 z <= n - 1)%Z \/ z = 0%Z).
  { intros z Hz. destruct (decide (z = 0)%Z); [by right|left].
    assert (Z.log2 z < n)%Z by (apply Z.log2_lt_pow2; lia). lia. }
  apply Z.log2_lt_pow2; [lia|]. rewrite Z.log2_lor by lia.
  assert (x <> 0 \/ y <> 0)%Z by (rewrite Z.lor_eq_0_iff in Hne; lia).
  destruct (Hlog x Hx), (Hlog y Hy); subst; simpl in *; try lia.
  - pose proof (Z.log2_nonneg x). lia.
  - pose proof (Z.log2_nonneg y). lia.
Qed.

(** setting an identifier keeps the array well formed and sets only it *)
Lemma wf_set a i : wf a -> (1 <= i <= 1999)%Z -> wf (AFID_SET a i).
Proof.
  intros Hw Hi. destruct (word_lookup a i Hw Hi) as [Hl Hr]. destruct (position i Hi) as (Hx & Hs & He).
  assert (Hlor : (0 <= Z.lor (word a i) (Z.shiftl 1 (AFID_ASFT i)))%Z).
  { apply Z.lor_nonneg. split; [lia|]. apply Z.shiftl_nonneg. lia. }
  unfold AFID_SET. split.
  - rewrite length_insert. apply Hw.
  - apply Forall_insert; [apply Hw|]. unfold u32. apply Z.mod_pos_bound. lia.
  - intros w Hw62. destruct (decide (Z.to_nat (AFID_AIDX i) = 62)) as [E|E].
    + rewrite E, list_lookup_insert_eq in Hw62 by (rewrite (wf_length a Hw); lia). injection Hw62 as <-.
      rewrite E in Hl. apply (wf_last a Hw) in Hl. unfold u32.
      assert (Hlt : (Z.lor (word a i) (Z.shiftl 1 (AFID_ASFT i)) < 2 ^ 15)%Z).
      { rewrite Z.shiftl_1_l. apply lor_lt; [lia|lia|]. split; [apply Z.pow_nonneg; lia|].
        apply Z.pow_lt_mono_r; lia. }
      rewrite Z.mod_small; lia.
    + rewrite list_lookup_insert_ne in Hw62 by done. by apply (wf_last a Hw).
Qed.

Lemma test_set a i j :
  wf a -> (1 <= i <= 1999)%Z -> (1 <= j <= 1999)%Z ->
  AFID_TEST (AFID_SET a i) j = (i =? j)%Z || AFID_TEST a j.
Proof.
  intros Hw Hi Hj. destruct (word_lookup a i Hw Hi) as [Hl Hr].
  destruct (position i Hi) as (Hxi & Hsi & Hei), (position j Hj) as (Hxj & Hsj & Hej).
  rewrite !test_testbit. unfold AFID_SET, word at 1.
  destruct (decide (AFID_AIDX i = AFID_AIDX j)) as [E|E].
  - rewrite E, list_lookup_insert_eq by (rewrite (wf_length a Hw); lia). simpl. unfold u32.
    rewrite Z.mod_pow2_bits_low, Z.lor_spec, Z.shiftl_1_l, Z.pow2_bits_eqb by lia.
    replace (word a i) with (word a j) by (unfold word; by rewrite E).
    replace (i =? j)%Z with (AFID_ASFT i =? AFID_ASFT j)%Z; [apply orb_comm|].
    destruct (Z.eqb_spec (AFID_ASFT i) (AFID_ASFT j)), (Z.eqb_spec i j); lia.
  - rewrite list_lookup_insert_ne by lia. fold (word a j).
    destruct (Z.eqb_spec i j); [subst; done|done].
Qed.

(** ** Lemmas on the search *)

(** all the identifiers of an interval are used *)
Definition used (a : list Z) (i j : Z) : Prop :=
  forall k, (i <= k < j)%Z -> AFID_TEST a k = true.

Lemma used_trans a i j k : used a i j -> used a j k -> used a i k.
Proof. intros H1 H2 x Hx. destruct (decide (x < j)%Z); [apply H1|apply H2]; lia. Qed.

Lemma full_word a k :
  (0 <= k < 62)%Z -> word a (32 * k + 1) = (2 ^ 32 - 1)%Z -> used a (32 * k + 1) (32 * (k + 1) + 1).
Proof.
  intros Hk Hw x Hx. rewrite test_testbit.
  assert (Hi : AFID_AIDX x = k) by (rewrite aidx_div; Z.to_euclidean_division_equations; lia).
  assert (Hj : AFID_AIDX (32 * k + 1) = k) by (rewrite aidx_div; Z.to_euclidean_division_equations; lia).
  unfold word in *. rewrite Hi. rewrite Hj in Hw. rewrite Hw. change (2 ^ 32 - 1)%Z with (Z.ones 32).
  apply Z.ones_spec_low. rewrite asft_mod. Z.to_euclidean_division_equations; lia.
Qed.

Lemma skip_words_spec a fuel k :
  wf a -> (0 <= k <= 62)%Z -> (k + Z.of_nat fuel = 63)%Z ->
  exists k', skip_words fuel a (32 * k + 1) = (32 * k' + 1)%Z /\ (k <= k' <= 62)%Z /\
    used a (32 * k + 1) (32 * k' + 1).
Proof.
  intros Hw. revert k. induction fuel as [|fuel IH]; intros k Hk Hf; [lia|]. cbn [skip_words].
  destruct (_ && _) eqn:E.
  - apply andb_true_iff in E as [E1 E2]. apply Z.eqb_eq in E2. unfold AFID_MAX in E1.
    assert (Hlt : (k < 62)%Z).
    { destruct (decide (k = 62)%Z) as [->|]; [|lia].
      destruct (word_lookup a (32 * 62 + 1) Hw) as [Hl _]; [lia|].
      change (Z.to_nat (AFID_AIDX (32 * 62 + 1))) with 62 in Hl. apply (wf_last a Hw) in Hl. lia. }
    replace (32 * k + 1 + 32)%Z with (32 * (k + 1) + 1)%Z by lia.
    destruct (IH (k + 1)%Z) as (k' & -> & Hk' & Hu); [lia..|]. exists k'. split; [done|].
    split; [lia|]. eapply used_trans; [apply full_word; [lia|done]|done].
  - exists k. split; [done|]. split; [lia|]. intros x Hx. lia.
Qed.

Lemma skip_used_spec a fuel i :
  (1 <= i <= 2000)%Z -> (2000 - i <= Z.of_nat fuel)%Z ->
  let r := skip_used fuel a i in
  (i <= r <= 2000)%Z /\ used a i r /\ ((r <= 1999)%Z -> AFID_TEST a r = false).
Proof.
  revert i. induction fuel as [|fuel IH]; intros i Hi Hf; cbn [skip_used]; cbv zeta.
  { split; [lia|]. split; [|lia]. intros x Hx. lia. }
  destruct (_ && _) eqn:E; unfold AFID_MAX in E.
  - apply andb_true_iff in E as [E1 E2]. destruct (IH (i + 1)%Z) as (Hr & Hu & Ht); [lia..|].
    split; [lia|]. split; [|done]. intros x Hx.
    destruct (decide (x = i)) as [->|]; [done|]. apply Hu. lia.
  - split; [lia|]. split; [intros x Hx; lia|]. intros Hm. apply andb_false_iff in E as [E|E]; [lia|done].
Qed.

Lemma first_free_spec a :
  wf a ->
  (first_free_afid a = (-1)%Z /\ used a 1 2000) \/
  (1 <= first_free_afid a <= 1999)%Z /\ used a 1 (first_free_afid a) /\
    AFID_TEST a (first_free_afid a) = false.
Proof.
  intros Hw. unfold first_free_afid.
  destruct (skip_words_spec a 63 0 Hw) as (k & Ek & Hk & Hu); [lia..|].
  change (Z.to_nat AFID_ACNT) with 63. change AFID_MIN with (32 * 0 + 1)%Z. rewrite Ek.
  destruct (skip_used_spec a (Z.to_nat AFID_COUNT) (32 * k + 1)) as (Hr & Hu' & Ht);
    [lia|change (Z.of_nat (Z.to_nat AFID_COUNT)) with 1999%Z; lia|].
  set (r := skip_used _ _ _) in *. unfold AFID_MAX.
  assert (Hall : used a 1 r) by exact (used_trans _ _ _ _ Hu Hu').
  destruct (Z.gtb_spec r 1999).
  - left. split; [done|]. by replace r with 2000%Z in Hall by lia.
  - right. split; [lia|]. split; [done|]. apply Ht. lia.
Qed.

Lemma wf_empty : wf empty_array.
Proof.
  split; [done|by apply Forall_replicate|].
  intros w Hw. apply lookup_replicate in Hw as [-> _]. lia.
Qed.

Lemma wf_scan_ids fuel iter a : wf a -> wf (scan_ids fuel iter a).
Proof.
  revert iter a. induction fuel as [|fuel IH]; intros [text|] a Hw; try done. cbn [scan_ids].
  match goal with |- context [starts_with key_afid ?x] => generalize x; intros t end.
  destruct (starts_with key_afid t); [|by apply IH].
  destruct (drop_while _ _) as [|c u]; [by apply IH|].
  destruct (decide (c = "="%char)) as [->|Hc].
  - apply IH. destruct (AFID_IS_VALID _) eqn:Hv; [|done]. apply wf_set; [done|].
    by apply valid_spec.
  - replace (match c with "="%char => _ | _ => (c :: u, a) end) with (c :: u, a); [by apply IH|].
    destruct c as [[] [] [] [] [] [] [] []]; done.
Qed.

Lemma wf_list {S} (P : S -> Prop) root opendir (cb : S -> bytes -> bytes -> bool -> S * Z) isuser relax s :
  (forall s n p u, P s -> P (cb s n p u).1) -> P s -> P (units_fs_list root opendir cb isuser relax s).1.
Proof.
  intros Hcb Hs. unfold units_fs_list. destruct (units_fs_get_afm_units_dir _ _ _) as [dir|]; [|done].
  destruct (opendir _) as [|[entries ended]]; [done|].
  revert s Hs. induction entries as [|e entries IH]; intros s Hs; [done|]. cbn [list_loop].
  destruct (match dt e with DT_REG => _ | _ => _ end) as [[]|]; [|by apply IH|done].
  case_bool_decide; [done|]. specialize (Hcb s (d_name e) (dir ++ [SLASH] ++ d_name e) isuser Hs).
  destruct (cb _ _ _ _) as [s' rc]. destruct (rc =? 0)%Z; [by apply IH|done].
Qed.

Section Manager.
Context (afm_units_root : bytes) (opendir : bytes -> directory) (rp_file_get : bytes -> Z + bytes).

Lemma wf_update strict m :
  wf (afids_array (update_afids afm_units_root opendir rp_file_get strict m).2).
Proof.
  assert (Hcb : forall s n p u, wf s -> wf (get_afid_cb rp_file_get s n p u).1).
  { intros s n p u Hs. unfold get_afid_cb. destruct (rp_file_get p); [done|]. by apply wf_scan_ids. }
  unfold update_afids.
  pose proof (wf_list wf afm_units_root opendir _ false true _ Hcb wf_empty) as H1.
  destruct (units_fs_list _ _ _ _ _ empty_array) as [a rcs]. simpl in H1.
  pose proof (wf_list wf afm_units_root opendir _ true true _ Hcb H1) as H2.
  by destruct (units_fs_list _ _ _ _ _ a) as [a' rcu].
Qed.

(** An identifier is allocated from a well formed array, that stays
    well formed: when some identifier is free the lowest one is returned and
    marked, the others being left as they were; when none is, the array is
    rebuilt from the unit files and the result is the lowest identifier that
    they leave free, or -1. *)
Theorem get_new_afid_spec m :
  init_done m = true -> wf (afids_array m) ->
  let '(rc, m') := get_new_afid afm_units_root opendir rp_file_get m in
  wf (afids_array m') /\
  ((exists i, (1 <= i <= 1999)%Z /\ AFID_TEST (afids_array m) i = false) ->
   (1 <= rc <= 1999)%Z /\ AFID_TEST (afids_array m) rc = false /\ used (afids_array m) 1 rc /\
   forall j, (1 <= j <= 1999)%Z ->
     AFID_TEST (afids_array m') j = (rc =? j)%Z || AFID_TEST (afids_array m) j) /\
  (used (afids_array m) 1 2000 ->
   let '(rs, m1) := update_afids afm_units_root opendir rp_file_get true m in
   ((rs < 0)%Z -> rc = rs /\ m' = m1) /\
   ((0 <= rs)%Z -> (rc = (-1)%Z /\ used (afids_array m1) 1 2000) \/
      (1 <= rc <= 1999)%Z /\ AFID_TEST (afids_array m1) rc = false /\ used (afids_array m1) 1 rc)).
Proof.
  intros Hi Hw. unfold get_new_afid, init_afid_manager. rewrite Hi. cbn [Z.ltb Z.compare].
  destruct (first_free_spec _ Hw) as [[E Hall]|(Hr & Hu & Ht)].
  - rewrite E. cbn [Z.ltb Z.compare]. pose proof (wf_update true m) as Hwu.
    destruct (update_afids _ _ _ _ _) as [rs m1]. simpl in Hwu.
    assert (Hno : (exists i, (1 <= i <= 1999)%Z /\ AFID_TEST (afids_array m) i = false) -> False).
    { intros (i & Hi' & Hf). rewrite (Hall i) in Hf by lia. done. }
    destruct (rs <? 0)%Z eqn:Ers; cbn [Z.ltb]; [rewrite Ers; split_and!; [done|tauto|]; intros _; split; [done|lia]|].
    rewrite Ers. destruct (first_free_spec _ Hwu) as [[E1 Hall1]|(Hr1 & Hu1 & Ht1)].
    + rewrite E1. split_and!; [done|tauto|]. intros _. split; [lia|]. auto.
    + destruct (Z.geb_spec (first_free_afid (afids_array m1)) 0); [|lia].
      split_and!; [simpl; by apply wf_set|tauto|]. intros _. split; [lia|]. auto.
  - destruct (first_free_afid (afids_array m) <? 0)%Z eqn:E; [lia|]. cbn [Z.ltb Z.compare].
    destruct (Z.geb_spec (first_free_afid (afids_array m)) 0); [|lia].
    split_and!; [simpl; by apply wf_set| |].
    + intros _. split_and!; [lia|lia|done|done|]. intros j Hj. by apply test_set.
    + intros Hall. rewrite Hall in Ht by lia. done.
Qed.

End Manager.

Lemma get_new_afid_spec_witness :
  (get_new_afid (B "/units") (fun _ => inl ENOENT) (fun _ => inl (-1)%Z)
     (mk_manager true (AFID_SET empty_array 1))).1 = 2%Z /\
  let '(rc, m') := get_new_afid (B "/units") (fun _ => inl ENOENT) (fun _ => inl (-1)%Z)
                     (mk_manager true (AFID_SET empty_array 1)) in wf (afids_array m').
Proof.
  split; [vm_compute; reflexivity|].
  assert (Hw : wf (AFID_SET empty_array 1)) by (apply wf_set; [apply wf_empty|lia]).
  pose proof (get_new_afid_spec (B "/units") (fun _ => inl ENOENT) (fun _ => inl (-1)%Z)
    (mk_manager true (AFID_SET empty_array 1)) eq_refl Hw) as H.
  destruct (get_new_afid _ _ _ _) as [rc m']. exact (proj1 H).
Defined.

(** ** The bounds of the normalisation *)

(** 1 for a text that does not end with a newline *)
Definition unended (rd : bytes) : nat :=
  if bool_decide (rd = []) || bool_decide (last rd = Some NL) then 0 else 1.

(** the room that the normalised text [rd] takes at most *)
Definition room (rd : bytes) : nat :=
  length rd - (if bool_decide (head rd = Some NL) then 1 else 0) + unended rd.

Lemma unended_app p rd : unended rd <= unended (p ++ rd).
Proof.
  unfold unended. destruct (decide (rd = [])) as [->|Hne]; [simpl; lia|].
  rewrite (bool_decide_eq_false_2 (rd = [])), (bool_decide_eq_false_2 (p ++ rd = []))
    by (try done; by intros [_ ?]%app_nil). simpl.
  rewrite last_app. destruct (last rd) eqn:E; [lia|]. apply last_None in E. done.
Qed.

Lemma room_le rd : room rd <= length rd + unended rd.
Proof. unfold room. lia. Qed.

Lemma unended_line c (l : bytes) :
  c <> NL -> Forall (fun x => not_nl x = true) l -> unended (c :: l) = 1.
Proof.
  intros Hc HF. unfold unended. rewrite (bool_decide_eq_false_2 (c :: l = [])) by done. simpl orb.
  rewrite bool_decide_eq_false_2; [done|]. intros Hl.
  apply last_Some_elem_of in Hl. apply elem_of_cons in Hl as [Hl|Hl]; [congruence|].
  rewrite Forall_forall in HF. apply HF in Hl. discriminate Hl.
Qed.

Lemma normalize_loop_room fuel cmt rd wr :
  length (normalize_loop fuel cmt rd wr) <= length wr + room rd.
Proof.
  revert rd wr. induction fuel as [|fuel IH]; intros rd wr; cbn [normalize_loop]; [lia|].
  destruct rd as [|c rd]; [lia|].
  destruct (_ || _ || _) eqn:Eb.
  { specialize (IH rd wr). pose proof (room_le rd).
    pose proof (unended_app [c] rd : unended rd <= unended (c :: rd)).
    assert (length rd + unended (c :: rd) <= room (c :: rd))
      by (unfold room; cbn [length]; destruct (bool_decide (head _ = _)); lia). lia. }
  assert (Hc : c <> NL) by (intros ->; unfold is_nl in Eb; by rewrite orb_true_r in Eb).
  assert (Hroom : room (c :: rd) = S (length rd) + unended (c :: rd)).
  { unfold room. simpl. rewrite bool_decide_eq_false_2 by congruence. lia. }
  pose proof (take_drop_while not_nl rd) as Hsplit. pose proof (length_take_drop_while not_nl rd) as Hlen.
  set (rest := drop_while not_nl rd) in *. set (l := take_while not_nl rd) in *.
  assert (Hun : unended rest <= unended (c :: rd)).
  { rewrite <-Hsplit. apply (unended_app (c :: l) rest). }
  assert (Hrest : rest = [] \/ exists r, rest = NL :: r).
  { destruct rest as [|d r] eqn:E; [by left|right]. exists r. f_equal.
    apply drop_while_head in E. unfold not_nl, is_nl in E. by bool_hyps. }
  assert (Hr0 : room rest + (if bool_decide (rest = []) then 0 else 1) = length rest + unended rest).
  { unfold room. destruct Hrest as [->|[r ->]]; [done|]. cbn [length].
    rewrite (bool_decide_eq_true_2 (head (NL :: r) = Some NL)) by done.
    rewrite (bool_decide_eq_false_2 (NL :: r = [])) by done. lia. }
  destruct (is_in cmt c).
  { specialize (IH rest wr). lia. }
  specialize (IH rest).
  assert (Hgoal : S (S (length l)) + room rest <= room (c :: rd)).
  { rewrite Hroom. destruct Hrest as [Er|[r Er]].
    - replace (room rest) with 0 by by rewrite Er. rewrite Er, app_nil_r in Hsplit.
      rewrite unended_line; [lia|done|]. rewrite <-Hsplit. apply Forall_take_while.
    - rewrite (bool_decide_eq_false_2 (rest = [])) in Hr0 by congruence. lia. }
  assert (Hw : length (rev (c :: l) ++ wr) = S (length l) + length wr)
    by (rewrite length_app, length_rev; done).
  set (stop := match rest with [] => NUL | d :: _ => d end).
  destruct (rev (c :: l) ++ wr) as [|d w]; cbn [length] in Hw; [lia|].
  destruct (bool_decide (d = "\"%char)).
  - specialize (IH (SPACE :: w)). cbn [length] in IH. lia.
  - specialize (IH (stop :: d :: w)). cbn [length] in IH. lia.
Qed.

(** Normalising a content that is empty or ends with a newline writes
    its final NUL inside of the memory of the content; for other contents it
    may be written one character too far, at the second index after the last
    character. *)
Theorem normalize_bounds content cmtchrs :
  (content = [] \/ last content = Some NL ->
   length (normalize_unit_file_cmtchrs content cmtchrs) <= length content) /\
  length (normalize_unit_file_cmtchrs content cmtchrs) <= length content + 1 /\
  length (normalize_unit_file (B "a")) = length (B "a") + 1.
Proof.
  unfold normalize_unit_file_cmtchrs at 1 2. rewrite length_rev.
  pose proof (normalize_loop_room (S (length content)) cmtchrs content []) as H. cbn [length Nat.add] in H.
  pose proof (room_le content) as Hr.
  assert (Hu : unended content <= 1) by (unfold unended; destruct (_ || _); lia).
  split_and!; [|lia|reflexivity].
  intros Hc. replace (unended content) with 0 in Hr; [lia|]. unfold unended.
  destruct Hc as [->|Hc]; [done|]. rewrite (bool_decide_eq_true_2 (last content = Some NL)) by done.
  by rewrite orb_true_r.
Qed.

Lemma normalize_bounds_witness :
  length (normalize_unit_file_cmtchrs (B "a" ++ [NL]) (B ";#")) <= 2.
Proof. apply (normalize_bounds (B "a" ++ [NL]) (B ";#")). right. reflexivity. Defined.

End afid.
