(* ===== verification/UnitText.v ===== *)
(** * Texts of units: [src/src/units/unit-process.c]

    The template of the units is packed, instantiated for an application,
    rid of its duplicated slashes, and split in the units it holds.  The code
    works in place, reading ahead of what it writes; a pointer in a text is
    the suffix that starts there. *)
From S2P Require Import Prelude CString UnitFs.

Module unit_text.
Export unit_fs.

Definition isblank (c : ascii) : bool := bool_decide (c = SPACE) || bool_decide (c = TAB).
Definition is_nl (c : ascii) : bool := bool_decide (c = NL).
Definition not_nl (c : ascii) : bool := negb (is_nl c).

(** ** Searching *)

(** what follows the pattern, when the text matches it *)
Fixpoint matches (pattern text : bytes) : option bytes :=
  match pattern with
  | [] => Some text
  | p :: pattern' =>
      if is_nl p then
        match drop_while isblank text with
        | [] => matches pattern' []
        | t :: text' => if is_nl t then matches pattern' text' else None
        end
      else if bool_decide (p = SPACE) then
        match text with
        | t :: _ => if isblank t then matches pattern' (drop_while isblank text) else None
        | [] => None
        end
      else
        match text with
        | t :: text' => if bool_decide (t = p) then matches pattern' text' else None
        | [] => None
        end
  end.

Definition nextline (text : bytes) : option bytes := tail <$> strchr text NL.

(** the first line that matches the pattern, and what follows the pattern *)
Fixpoint offset_loop (fuel : nat) (text : option bytes) (pattern : bytes) : option (bytes * bytes) :=
  match fuel, text with
  | S fuel', Some t =>
      match matches pattern t with
      | Some args => Some (t, args)
      | None => offset_loop fuel' (nextline t) pattern
      end
  | _, _ => None
  end.

Definition offset (text pattern : bytes) : option (bytes * bytes) :=
  offset_loop (S (length text)) (Some text) pattern.

(** ** Packing *)

(** The scan of a line: [nl] tells whether a newline follows. *)
Definition continues (line : bytes) (nl : bool) : bool :=
  nl && bool_decide (last line = Some "\"%char).

(** the line from its first character that counts: neither a blank nor the
    final backslash of a continued line *)
Fixpoint start_of (line : bytes) (nl : bool) : option bytes :=
  match line with
  | [] => None
  | c :: line' =>
      if negb (isblank c) && negb (bool_decide (c = "\"%char) && bool_decide (line' = []) && nl)
      then Some line else start_of line' nl
  end.

(** [purge] is NUL when no character purges *)
Fixpoint pack_loop (fuel : nat) (text : bytes) (cont : bool) (purge : ascii) : bytes :=
  match fuel, text with
  | S fuel', _ :: _ =>
      let line := take_while not_nl text in
      let rest := drop_while not_nl text in
      let nl := negb (bool_decide (rest = [])) in
      let next := tail rest in
      let nextcont := continues line nl in
      let start := start_of line nl in
      let emit := bool_decide (is_Some start) in
      let out :=
        if emit || (cont && negb nextcont) then
          let begin := (if negb cont then default line start else line) ++ take 1 rest in
          if negb (bool_decide (purge = NUL)) && bool_decide (head begin = Some purge) then
            if starts_with (B "nl" ++ [NL]) (tail begin ++ next) then [NL] else []
          else begin
        else [] in
      out ++ pack_loop fuel' next nextcont purge
  | _, _ => []
  end.

Definition pack (text : bytes) (purge : ascii) : bytes :=
  pack_loop (length text) text false purge.

(** ** Duplicated slashes *)

Definition NRNLMAX : nat := 1.

(** is the text written, reversed in [w], ended by [txt]? *)
Definition preceded_by (txt w : bytes) : bool := starts_with (rev txt) w.

Definition allowed_slashes (w : bytes) : nat :=
  if preceded_by (B "http:") w || preceded_by (B "https:") w then 2
  else if preceded_by (B "file:") w then 3
  else 1.

Definition is_slash (c : ascii) : bool := bool_decide (c = SLASH).

(** [w] is what was written, reversed *)
Fixpoint dedup_loop (fuel : nat) (text w : bytes) (nrnl : nat) : bytes :=
  match fuel, text with
  | S fuel', c :: text' =>
      if is_nl c then
        dedup_loop fuel' text' (if bool_decide (S nrnl <= NRNLMAX) then c :: w else w) (S nrnl)
      else if negb (is_slash c) then dedup_loop fuel' text' (c :: w) 0
      else
        let run := take_while is_slash text in
        let nrs := length run `min` allowed_slashes w in
        dedup_loop fuel' (drop_while is_slash text) (replicate nrs SLASH ++ w) 0
  | _, _ => w
  end.

Definition dedup_slashes (text : bytes) : bytes := rev (dedup_loop (length text) text [] NRNLMAX).

(** ** Units *)

Definition blanks : bytes := SPACE :: TAB :: [NL].

(** [strndup(s, strcspn(s, " \t\n"))] *)
Definition dup_word (s : bytes) (o : oracle) : option bytes * oracle :=
  let '(ok, o') := malloc o in
  (if ok then Some (take (strcspn s blanks) s) else None, o').

Definition process_one_unit (spec : bytes) (o : oracle) : unitdesc * oracle :=
  let isuser := bool_decide (is_Some (offset spec (B "%systemd-unit user" ++ [NL]))) in
  let issystem := bool_decide (is_Some (offset spec (B "%systemd-unit system" ++ [NL]))) in
  let sock := offset spec (B "%systemd-unit socket ") in
  let serv := offset spec (B "%systemd-unit service ") in
  let wanted := offset spec (B "%systemd-unit wanted-by ") in
  let scope := match isuser, issystem with
               | true, false => unitscope_user
               | false, true => unitscope_system
               | _, _ => unitscope_unknown
               end in
  let '(type, name, o) :=
    match sock, serv with
    | Some (_, nsoc), None => let '(n, o) := dup_word nsoc o in (unittype_socket, n, o)
    | None, Some (_, nsrv) => let '(n, o) := dup_word nsrv o in (unittype_service, n, o)
    | _, _ => (unittype_unknown, None, o)
    end in
  let '(wby, o) := match wanted with
                   | Some (_, w) => dup_word w o
                   | None => (None, o)
                   end in
  (mk_unitdesc scope type name (pack spec "%"%char) wby, o).

(** The loop of [corpus_split]: the first error, or 0, and the units in
    reverse order. *)
Fixpoint split_loop (fuel : nat) (corpus : bytes) (rc : Z) (units : list unitdesc) (o : oracle)
  : option (Z * list unitdesc * oracle) :=
  match fuel with
  | O => None
  | S fuel' =>
      let record rc2 := if (rc =? 0)%Z then rc2 else rc in
      match offset corpus (B "%begin "), offset corpus (B "%end ") with
      | None, None => Some (rc, units, o)
      | None, Some _ => Some (record (- EINVAL)%Z, units, o)
      | Some _, None => Some (record (- EINVAL)%Z, units, o)
      | Some (befbeg, beg), Some (end_, aftend) =>
          if bool_decide (length befbeg < length end_) then Some (record (- EINVAL)%Z, units, o)
          else if match offset beg (B "%begin ") with
                  | Some (b, _) => bool_decide (length end_ < length b)
                  | None => false
                  end then Some (record (- EINVAL)%Z, units, o)
          else
            (** a NUL is written at [end_] *)
            let unit := take (length beg - length end_) beg in
            match matches (B "systemd-unit" ++ [NL]) unit with
            | None => split_loop fuel' aftend (record (- EINVAL)%Z) units o
            | Some spec =>
                match matches (B "systemd-unit" ++ [NL]) aftend with
                | None => split_loop fuel' aftend (record (- EINVAL)%Z) units o
                | Some corpus' =>
                    let '(ok, o) := malloc o in
                    if ok then
                      let '(u, o) := process_one_unit spec o in
                      split_loop fuel' corpus' rc (u :: units) o
                    else Some (record (- ENOMEM)%Z, units, o)
                end
            end
      end
  end.

Definition corpus_split (corpus : bytes) (o : oracle) : option (Z * list unitdesc * oracle) :=
  match split_loop (S (length corpus)) corpus 0 [] o with
  | None => None
  | Some (rc, units, o) =>
      Some (if (rc >=? 0)%Z then (Z.of_nat (length units), rev units, o) else (rc, [], o))
  end.

(** ** Templates

    The state of the file is the current template, if any. *)
Section Process.
Context (rp_file_get : bytes -> Z + bytes) (default_path : bytes) {J : Type}
  (apply_mustach : bytes -> J -> Z * bytes).

Definition unit_process_close_template : option bytes := None.

(** the status of [rp_file_get] and the new template *)
Definition unit_process_open_template (filename : option bytes) : Z * option bytes :=
  match rp_file_get (default default_path filename) with
  | inl rc => (rc, None)
  | inr text => (0%Z, Some (pack (cstring text) ";"%char))
  end.

Definition unit_process_raw {S} (template : option bytes) (jdesc : J) (process : S -> bytes -> S * Z) (s : S)
  : Z * option bytes * S :=
  let '(rc, template) :=
    match template with
    | Some t => (0%Z, template)
    | None => unit_process_open_template None
    end in
  match (rc =? 0)%Z, template with
  | true, Some t =>
      let '(rc, instance) := apply_mustach t jdesc in
      if (rc =? 0)%Z then
        let '(s, rc) := process s (dedup_slashes instance) in (rc, template, s)
      else (rc, template, s)
  | _, _ => (rc, template, s)
  end.

(** [None] for the callback that is NULL *)
Definition internal_for_split {S} (process : option (S -> list unitdesc -> S * Z)) (s : S * oracle)
  (corpus : bytes) : S * oracle * Z :=
  match corpus_split corpus s.2 with
  | None => (s, 0%Z)
  | Some (rc, units, o) =>
      match process with
      | Some p => if (rc >? 0)%Z then let '(s', rc') := p s.1 units in (s', o, rc') else (s.1, o, rc)
      | None => (s.1, o, rc)
      end
  end.

Definition unit_process_split {S} (template : option bytes) (jdesc : J)
  (process : option (S -> list unitdesc -> S * Z)) (s : S) (o : oracle) : Z * option bytes * (S * oracle) :=
  unit_process_raw template jdesc (internal_for_split process) (s, o).

End Process.

(** ** Lemmas on the search *)

Lemma matches_length p t a : matches p t = Some a -> length a <= length t.
Proof.
  revert t. induction p as [|c p IH]; intros t; cbn [matches]; [by intros [= ->]|].
  pose proof (length_drop_while isblank t) as Hd.
  destruct (is_nl c).
  - destruct (drop_while isblank t) as [|d u] eqn:E; simpl in Hd.
    + intros H. apply IH in H. simpl in H. lia.
    + destruct (is_nl d); [|done]. intros H. apply IH in H. lia.
  - case_bool_decide.
    + destruct t as [|d u]; [done|]. destruct (isblank d); [|done]. intros H'. apply IH in H'. lia.
    + destruct t as [|d u]; [done|]. case_bool_decide; [|done]. intros H'. apply IH in H'. simpl. lia.
Qed.

Lemma matches_percent p t a :
  matches ("%"%char :: p) t = Some a -> length a < length t.
Proof.
  cbn [matches]. change (is_nl "%"%char) with false. change (bool_decide ("%"%char = SPACE)) with false.
  destruct t as [|d u]; [done|]. case_bool_decide; [|done]. intros H'. apply matches_length in H'.
  simpl. lia.
Qed.

Lemma nextline_length t u : nextline t = Some u -> length u < length t.
Proof.
  unfold nextline. induction t as [|c t IH]; simpl; [done|].
  case_bool_decide; simpl; [intros [= <-]; lia|]. intros H'. apply IH in H'. lia.
Qed.

Lemma offset_loop_length fuel t p u a :
  offset_loop fuel (Some t) p = Some (u, a) -> length u <= length t /\ matches p u = Some a.
Proof.
  revert t. induction fuel as [|fuel IH]; intros t; cbn [offset_loop]; [done|].
  destruct (matches p t) eqn:E; [by intros [= <- <-]|].
  destruct (nextline t) as [v|] eqn:En; [|by destruct fuel].
  intros H. apply IH in H as [Hl Hm]. apply nextline_length in En. split; [lia|done].
Qed.

(** More fuel changes nothing. *)
Lemma offset_fuel f1 f2 t p :
  length t < f1 -> length t < f2 -> offset_loop f1 (Some t) p = offset_loop f2 (Some t) p.
Proof.
  revert f2 t. induction f1 as [|f1 IH]; intros [|f2] t H1 H2; try lia. cbn [offset_loop].
  destruct (matches p t); [done|]. destruct (nextline t) as [v|] eqn:En; [|by destruct f1, f2].
  apply nextline_length in En. apply IH; lia.
Qed.

Lemma offset_unfold t p :
  offset t p = match matches p t with
               | Some a => Some (t, a)
               | None => match nextline t with Some u => offset u p | None => None end
               end.
Proof.
  unfold offset at 1. cbn [offset_loop]. destruct (matches p t); [done|].
  destruct (nextline t) as [u|] eqn:En; [|by destruct (length t)].
  apply nextline_length in En. unfold offset. apply offset_fuel; lia.
Qed.

(** The split always ends. *)
Lemma split_loop_total fuel corpus rc units o :
  length corpus < fuel -> is_Some (split_loop fuel corpus rc units o).
Proof.
  revert corpus rc units o. induction fuel as [|fuel IH]; intros corpus rc units o Hl; [lia|].
  cbn [split_loop].
  destruct (offset corpus (B "%begin ")) as [[befbeg beg]|] eqn:Eb;
    destruct (offset corpus (B "%end ")) as [[end_ aftend]|] eqn:Ee; try by eexists.
  case_bool_decide; [by eexists|]. destruct (match offset beg _ with Some _ => _ | None => _ end); [by eexists|].
  apply offset_loop_length in Ee as [H1 H2]. apply matches_percent in H2.
  destruct (matches _ (take _ _)); [|apply IH; lia].
  destruct (matches _ aftend) as [corpus'|] eqn:Em; [|apply IH; lia].
  apply matches_length in Em. destruct (malloc o) as [[] o']; [|by eexists].
  destruct (process_one_unit _ _). apply IH. lia.
Qed.

(** ** Lines *)

Definition lines (ls : list bytes) : bytes := concat (map (fun l => l ++ [NL]) ls).

Lemma lines_cons l ls : lines (l :: ls) = l ++ NL :: lines ls.
Proof. unfold lines. simpl. by rewrite <-(assoc_L (++)). Qed.

Lemma lines_app l1 l2 : lines (l1 ++ l2) = lines l1 ++ lines l2.
Proof. unfold lines. by rewrite map_app, concat_app. Qed.

Lemma drop_blank_line l rest :
  (NL ∉ l) -> drop_while isblank (l ++ NL :: rest) = drop_while isblank l ++ NL :: rest.
Proof.
  induction l as [|c l IH]; intros Hl; simpl; [done|]. apply not_elem_of_cons in Hl as [_ Hl].
  destruct (isblank c); [by apply IH|done].
Qed.

(** A pattern without newline matches inside of the line. *)
Lemma matches_line p l rest :
  Forall (fun c => is_nl c = false) p -> (NL ∉ l) ->
  matches p (l ++ NL :: rest) = (fun a => a ++ NL :: rest) <$> matches p l.
Proof.
  intros Hp. revert l. induction Hp as [|c p Hc Hp IH]; intros l Hl; cbn [matches]; [done|].
  rewrite Hc. case_bool_decide as Hs.
  - destruct l as [|d l]; [done|]. cbn [app]. destruct (isblank d); [|done].
    rewrite <-IH. { f_equal. apply (drop_blank_line (d :: l)). done. }
    intros Hin. apply Hl. rewrite <-(take_drop_while isblank (d :: l)), elem_of_app. by right.
  - destruct l as [|d l]; cbn [app].
    + rewrite bool_decide_eq_false_2; [done|]. intros <-. discriminate Hc.
    + apply not_elem_of_cons in Hl as [_ Hl]. case_bool_decide; [by apply IH|done].
Qed.

Lemma nextline_line l rest : (NL ∉ l) -> nextline (l ++ NL :: rest) = Some rest.
Proof.
  intros Hl. unfold nextline. induction l as [|c l IH]; simpl; [done|].
  - apply not_elem_of_cons in Hl as [Hc Hl]. rewrite bool_decide_eq_false_2 by done. by apply IH.
Qed.

(** The search goes over the lines that don't match. *)
Lemma offset_lines p ls rest :
  Forall (fun c => is_nl c = false) p ->
  Forall (fun l => (NL ∉ l) /\ matches p l = None) ls ->
  offset (lines ls ++ rest) p = offset rest p.
Proof.
  intros Hp HF. induction HF as [|l ls [Hl Hm] HF IH]; [done|].
  rewrite lines_cons, <-(assoc_L (++)). rewrite offset_unfold.
  change ((NL :: lines ls) ++ rest) with (NL :: (lines ls ++ rest)).
  rewrite matches_line, Hm by done. simpl. by rewrite nextline_line.
Qed.

(** ** Splitting a corpus of units *)

Definition begin_line : bytes := B "%begin systemd-unit".
Definition end_line : bytes := B "%end systemd-unit".

(** the text of a unit in a corpus *)
Definition unit_block (ls : list bytes) : bytes := lines (begin_line :: ls ++ [end_line]).

(** lines that neither begin nor end a unit *)
Definition clean (ls : list bytes) : Prop :=
  Forall (fun l => (NL ∉ l) /\ matches (B "%begin ") l = None /\ matches (B "%end ") l = None) ls.

Lemma clean_begin ls : clean ls -> Forall (fun l => (NL ∉ l) /\ matches (B "%begin ") l = None) ls.
Proof. intros H. eapply Forall_impl; [exact H|]. naive_solver. Qed.

Lemma clean_end ls : clean ls -> Forall (fun l => (NL ∉ l) /\ matches (B "%end ") l = None) ls.
Proof. intros H. eapply Forall_impl; [exact H|]. naive_solver. Qed.

(** closed facts on characters *)
Ltac by_compute := apply (bool_decide_unpack _); vm_compute; exact I.

Lemma no_nl_pattern (p : bytes) :
  bool_decide (NL ∉ p) = true -> Forall (fun c => is_nl c = false) p.
Proof.
  intros Hp%bool_decide_eq_true. apply Forall_forall. intros c Hc. unfold is_nl.
  apply bool_decide_eq_false_2. by intros ->.
Qed.

Lemma offset_here p l rest a :
  Forall (fun c => is_nl c = false) p -> (NL ∉ l) -> matches p l = Some a ->
  offset (lines [l] ++ rest) p = Some (lines [l] ++ rest, lines [a] ++ rest).
Proof.
  intros Hp Hl Hm. rewrite offset_unfold.
  assert (E : forall x, lines [x] ++ rest = x ++ NL :: rest).
  { intros x. rewrite lines_cons. unfold lines. simpl. by rewrite <-(assoc_L (++)). }
  rewrite !E, matches_line, Hm by done. done.
Qed.

Lemma process_one_unit_oracle spec : (process_one_unit spec []).2 = [].
Proof.
  unfold process_one_unit, dup_word. cbn [malloc].
  by destruct (offset spec (B "%systemd-unit socket ")) as [[]|],
    (offset spec (B "%systemd-unit service ")) as [[]|], (offset spec (B "%systemd-unit wanted-by ")) as [[]|].
Qed.

Lemma split_block ls rest fuel rc units :
  clean ls ->
  split_loop (S fuel) (unit_block ls ++ rest) rc units [] =
  split_loop fuel rest rc ((process_one_unit (lines ls) []).1 :: units) [].
Proof.
  intros Hc. cbn [split_loop].
  assert (Hb : NL ∉ begin_line) by by_compute. assert (He : NL ∉ end_line) by by_compute.
  assert (Hpb : Forall (fun c => is_nl c = false) (B "%begin ")) by by apply no_nl_pattern.
  assert (Hpe : Forall (fun c => is_nl c = false) (B "%end ")) by by apply no_nl_pattern.
  set (tl := lines [end_line] ++ rest).
  assert (Hcorpus : unit_block ls ++ rest = lines [begin_line] ++ (lines ls ++ tl)).
  { unfold unit_block, tl. change (begin_line :: ls ++ [end_line]) with ([begin_line] ++ ls ++ [end_line]).
    by rewrite !lines_app, <-!(assoc_L (++)). }
  rewrite Hcorpus.
  rewrite (offset_here _ begin_line _ (B "systemd-unit") Hpb Hb eq_refl).
  rewrite (assoc_L (++) (lines [begin_line]) (lines ls)), <-lines_app.
  rewrite (offset_lines (B "%end ")); [|done|].
  2: { constructor; [by split|by apply clean_end]. }
  rewrite (offset_here _ end_line _ (B "systemd-unit") Hpe He eq_refl : offset tl (B "%end ") = _).
  fold tl.
  rewrite bool_decide_eq_false_2 by (rewrite length_app; lia).
  set (beg := lines [B "systemd-unit"] ++ lines ls ++ tl).
  assert (Hbeg : beg = lines ((B "systemd-unit" :: ls) ++ [end_line]) ++ rest).
  { unfold beg, tl. change (B "systemd-unit" :: ls) with ([B "systemd-unit"] ++ ls).
    by rewrite !lines_app, <-!(assoc_L (++)). }
  replace (match offset beg (B "%begin ") with
           | Some (b, _) => bool_decide (length tl < length b) | None => false end) with false.
  2: { rewrite Hbeg, offset_lines; [|done|].
       - destruct (offset rest (B "%begin ")) as [[b x]|] eqn:Eo; [|done].
         apply offset_loop_length in Eo as [Hl _]. symmetry. apply bool_decide_eq_false_2.
         unfold tl. rewrite length_app. lia.
       - rewrite Forall_app. split; [constructor; [split; [by_compute|done]|by apply clean_begin]|].
         constructor; [by split|constructor]. }
  replace (take (length beg - length tl) beg) with (lines (B "systemd-unit" :: ls)).
  2: { unfold beg. change (B "systemd-unit" :: ls) with ([B "systemd-unit"] ++ ls).
       rewrite lines_app, (assoc_L (++)), length_app.
       replace (length (lines [B "systemd-unit"] ++ lines ls) + length tl - length tl)
         with (length (lines [B "systemd-unit"] ++ lines ls)) by lia.
       by rewrite take_app_length. }
  assert (Hm : forall x, matches (B "systemd-unit" ++ [NL]) (B "systemd-unit" ++ NL :: x) = Some x)
    by reflexivity.
  rewrite !lines_cons, <-(assoc_L (++)), Hm. change ((NL :: lines []) ++ rest) with (NL :: rest).
  rewrite Hm. cbn [malloc]. pose proof (process_one_unit_oracle (lines ls)) as Ho.
  destruct (process_one_unit (lines ls) []) as [u o]. simpl in *. by subst.
Qed.

(** ** Properties *)



(** Whatever the corpus, splitting it ends. *)
Theorem corpus_split_ends corpus o : is_Some (corpus_split corpus o).
Proof.
  unfold corpus_split. destruct (split_loop_total (S (length corpus)) corpus 0 [] o) as [[[rc us] o'] ->]; [lia|].
  by eexists.
Qed.

(** ** Packing and slashes *)

Lemma length_start_of line nl s : start_of line nl = Some s -> length s <= length line.
Proof.
  induction line as [|c line IH]; simpl; [done|]. destruct (_ && _); [by intros [= <-]|].
  intros H. apply IH in H. lia.
Qed.

Lemma pack_loop_length fuel text cont purge : length (pack_loop fuel text cont purge) <= length text.
Proof.
  revert text cont. induction fuel as [|fuel IH]; intros text cont; [simpl; lia|].
  destruct text as [|c text]; [simpl; lia|]. cbn [pack_loop]. set (t := c :: text). rewrite length_app.
  pose proof (length_take_drop_while not_nl t) as Hsplit.
  set (line := take_while not_nl t) in *. set (rest := drop_while not_nl t) in *.
  set (nl := negb (bool_decide (rest = []))). specialize (IH (tail rest) (continues line nl)).
  set (begin := _ ++ take 1 rest).
  assert (Hb : length begin <= length line + length (take 1 rest)).
  { unfold begin. rewrite length_app. destruct cont; simpl negb; cbv iota; [lia|].
    destruct (start_of line nl) eqn:E; simpl; [apply length_start_of in E|]; lia. }
  assert (Hr : length (take 1 rest) + length (tail rest) = length rest) by (by destruct rest).
  clearbody begin line rest t. destruct (_ || _); [|cbn [length]; lia]. destruct (_ && _) eqn:Ep.
  - apply andb_true_iff in Ep as [_ Ep]. apply bool_decide_eq_true in Ep.
    assert (0 < length begin) by (destruct begin; [done|simpl; lia]).
    destruct (starts_with _ _); cbn [length]; lia.
  - lia.
Qed.

Lemma dedup_loop_length fuel text w nrnl : length (dedup_loop fuel text w nrnl) <= length w + length text.
Proof.
  revert text w nrnl. induction fuel as [|fuel IH]; intros text w nrnl; [simpl; lia|].
  destruct text as [|c text]; [simpl; lia|]. cbn [dedup_loop].
  destruct (is_nl c); [|destruct (negb (is_slash c))].
  - etrans; [apply IH|]. case_bool_decide; simpl; lia.
  - etrans; [apply IH|]. simpl. lia.
  - etrans; [apply IH|]. rewrite length_app, length_replicate.
    pose proof (length_take_drop_while is_slash (c :: text)). lia.
Qed.

(** may a second slash follow the text written, reversed in [w] and ended
    by a slash? *)
Definition may_double (w : bytes) : bool :=
  preceded_by (B "http:") w || preceded_by (B "https:") w || preceded_by (B "file:") w ||
  preceded_by (B "file:/") w.

(** the reversed text has only the double slashes that are allowed *)
Fixpoint slashes_ok (w : bytes) : bool :=
  match w with
  | [] => true
  | c :: w' =>
      (negb (is_slash c) || match w' with
                            | d :: w'' => negb (is_slash d) || may_double w''
                            | [] => true
                            end) && slashes_ok w'
  end.

Lemma slashes_ok_run w n :
  slashes_ok w = true -> head w <> Some SLASH -> n <= allowed_slashes w ->
  slashes_ok (replicate n SLASH ++ w) = true.
Proof.
  intros Hw Hh Hn.
  assert (H1 : slashes_ok (SLASH :: w) = true).
  { cbn [slashes_ok]. rewrite Hw, andb_true_r. destruct w as [|d w]; [done|].
    replace (is_slash d) with false; [done|]. symmetry. unfold is_slash. apply bool_decide_eq_false_2.
    intros ->. by apply Hh. }
  unfold allowed_slashes in Hn.
  destruct n as [|[|[|[|n]]]]; [done|done|..].
  - change (slashes_ok (SLASH :: SLASH :: w) = true).
    change (may_double w && slashes_ok (SLASH :: w) = true). rewrite H1, andb_true_r. unfold may_double.
    destruct (preceded_by (B "http:") w), (preceded_by (B "https:") w), (preceded_by (B "file:") w);
      simpl in Hn; try done; lia.
  - change (may_double (SLASH :: w) && (may_double w && slashes_ok (SLASH :: w)) = true).
    rewrite H1, andb_true_r. unfold may_double.
    destruct (preceded_by (B "http:") w), (preceded_by (B "https:") w); cbn [orb] in Hn; try lia.
    destruct (preceded_by (B "file:") w) eqn:Ef; [|lia].
    change (preceded_by (B "file:/") (SLASH :: w)) with (preceded_by (B "file:") w).
    by rewrite Ef, !orb_true_r.
  - destruct (preceded_by (B "http:") w), (preceded_by (B "https:") w), (preceded_by (B "file:") w);
      simpl in Hn; lia.
Qed.

Lemma dedup_loop_ok fuel text w nrnl :
  slashes_ok w = true -> (head w = Some SLASH -> head text <> Some SLASH) ->
  (1 <= nrnl -> head w <> Some SLASH) -> slashes_ok (dedup_loop fuel text w nrnl) = true.
Proof.
  revert text w nrnl. induction fuel as [|fuel IH]; intros text w nrnl Hw Hh Hn; [done|].
  destruct text as [|c text]; [done|]. cbn [dedup_loop].
  destruct (is_nl c) eqn:En.
  { apply bool_decide_eq_true in En as ->. unfold NRNLMAX. case_bool_decide.
    - apply IH; [by cbn [slashes_ok]; rewrite Hw|done|done].
    - apply IH; [done| |]; intros H'; [by destruct Hn; [lia|]|apply Hn; lia]. }
  destruct (is_slash c) eqn:Es; simpl negb; cbv iota.
  - apply bool_decide_eq_true in Es as ->. apply IH.
    + apply slashes_ok_run; [done| |lia]. intros H'. by apply Hh.
    + intros _. destruct (drop_while is_slash (SLASH :: text)) as [|d u] eqn:E; [done|].
      apply drop_while_head in E. simpl. intros [= ->]. discriminate E.
    + lia.
  - assert (Hc : c <> SLASH) by (intros ->; discriminate Es).
    apply IH; [by cbn [slashes_ok]; rewrite Es, Hw| |lia]. simpl. intros [= ->]. done.
Qed.

(** Packing a text and removing its duplicated slashes never write
    beyond what was read, and the only successive slashes that remain are
    the two ones after "http:" or "https:" and the three ones after "file:". *)
Theorem pack_dedup_spec text purge :
  length (pack text purge) <= length text /\
  length (dedup_slashes text) <= length text /\
  slashes_ok (rev (dedup_slashes text)) = true.
Proof.
  unfold pack, dedup_slashes. rewrite rev_involutive, length_rev. split_and!.
  - apply pack_loop_length.
  - apply (dedup_loop_length (length text) text [] NRNLMAX).
  - by apply dedup_loop_ok.
Qed.

End unit_text.
