(* ===== verification/Mustach.v ===== *)
(** * The template engine: [src/src/mustach/mustach.c]

    A template is copied but for its tags, that are replaced, repeated or
    skipped by functions of the caller on its closure. As in the program,
    the caller gives [put], [enter], [next] and [leave]; the text is emitted
    as it is, by [iwrap_emit], and a partial is what [put] writes for it.
    Writing in the memory file is taken to succeed. A pointer in the
    template is the text that remains from it. The result [None] is for a
    processing that does not end within the fuel or for a null pointer used
    by the caller's functions. *)
From S2P Require Import Prelude CString.

Module mustach.

Definition MUSTACH_MAX_DEPTH : nat := 256.
Definition MUSTACH_MAX_LENGTH : nat := 4096.
Definition MUSTACH_MAX_DELIM_LENGTH : nat := 8.
Definition Mustach_With_Colon : Z := 1.
Definition Mustach_With_EmptyTag : Z := 2.
Definition Mustach_With_AllExtensions : Z := 3.
Definition MUSTACH_OK : Z := 0.
Definition MUSTACH_ERROR_SYSTEM : Z := -1.
Definition MUSTACH_ERROR_UNEXPECTED_END : Z := -2.
Definition MUSTACH_ERROR_EMPTY_TAG : Z := -3.
Definition MUSTACH_ERROR_TAG_TOO_LONG : Z := -4.
Definition MUSTACH_ERROR_BAD_SEPARATORS : Z := -5.
Definition MUSTACH_ERROR_TOO_DEEP : Z := -6.
Definition MUSTACH_ERROR_CLOSING : Z := -7.
Definition MUSTACH_ERROR_BAD_UNESCAPE_TAG : Z := -8.

(** the functions of the caller, on a closure of type [S]: the status, what
    is written and the closure; the status of [leave] is ignored *)
Record mustach_itf (S : Type) := Itf {
  put : bytes -> bool -> S -> option (Z * bytes * S);
  enter : bytes -> S -> option (Z * S);
  next : S -> option (Z * S);
  leave : S -> S
}.
Arguments put {S}.
Arguments enter {S}.
Arguments next {S}.
Arguments leave {S}.

(** ** Texts *)

(** [iwrap_emit]: what is written *)
Definition iwrap_emit (buffer : bytes) (escape : bool) : bytes :=
  if escape then
    flat_map (fun c =>
      if bool_decide (c = "<"%char) then B "&lt;"
      else if bool_decide (c = ">"%char) then B "&gt;"
      else if bool_decide (c = "&"%char) then B "&amp;"
      else if bool_decide (c = ascii_of_nat 34) then B "&quot;"
      else [c]) buffer
  else buffer.

(** the prefixes, from the outermost *)
Definition emitprefix (prefix : list bytes) : bytes := concat ((fun p => iwrap_emit p false) <$> prefix).

(** without spaces around *)
Definition trim (s : bytes) : bytes := rev (drop_while isspace (rev (drop_while isspace s))).

(** ** Searching an opening delimiter *)

(** [line] is the text read since the pointer [template]; [stdalone] is 2
    after tags that are alone on their line; [chain] and [ptext] are the
    prefix [pref] *)
Inductive found :=
  | End_of_template (out : bytes)
  | Opening (out line rest : bytes) (stdalone : nat) (chain : list bytes).

(** the line is over, [l] being its text with its end *)
Definition emit_line (enabled : bool) (line l : bytes) (stdalone : nat) (chain : list bytes) (ptext out : bytes) : bytes :=
  if negb (stdalone =? 2) && enabled then
    out ++ (if bool_decide (line = []) then [] else emitprefix (chain ++ [ptext])) ++ iwrap_emit l false
  else out.

Fixpoint scan_open (opstr : bytes) (outer : list bytes) (enabled : bool) (rest line : bytes) (stdalone : nat)
    (chain : list bytes) (ptext out : bytes) : found :=
  match rest with
  | [] => End_of_template (emit_line enabled line line stdalone chain ptext out)
  | c :: rest' =>
      if bool_decide (c = NL) then
        scan_open opstr outer enabled rest' [] 1 outer []
          (emit_line enabled line (line ++ [NL]) stdalone chain ptext out)
      else if isspace c then scan_open opstr outer enabled rest' (line ++ [c]) stdalone chain ptext out
      else
        let '(out, stdalone, chain, ptext) :=
          if (stdalone =? 2) && enabled then (out ++ emitprefix (chain ++ [ptext]), 0, [], [])
          else (out, stdalone, chain, ptext) in
        if starts_with opstr rest then Opening out line rest stdalone chain
        else scan_open opstr outer enabled rest' (line ++ [c]) 0 chain ptext out
  end.

(** ** Reading a tag *)

Inductive tag :=
  | Tag_comment
  | Tag_delimiters (text : bytes)
  | Tag_section (inverted : bool) (name : bytes)
  | Tag_end (name : bytes)
  | Tag_partial (name : bytes)
  | Tag_put (name : bytes) (escape : bool).

(** [get_name] *)
Definition get_name (flags : Z) (text : bytes) : Z + bytes :=
  let name := trim text in
  if bool_decide (name = []) && negb (has_flag flags Mustach_With_EmptyTag) then inl MUSTACH_ERROR_EMPTY_TAG
  else if bool_decide (MUSTACH_MAX_LENGTH < length name) then inl MUSTACH_ERROR_TAG_TOO_LONG
  else inr name.

(** [exclude_first]; the length of an empty text wraps around *)
Definition exclude_first (flags : Z) (text : bytes) : Z + bytes :=
  match text with
  | [] => inl MUSTACH_ERROR_TAG_TOO_LONG
  | _ :: text' => get_name flags text'
  end.

Definition make_tag (f : bytes -> tag) (name : Z + bytes) : Z + tag :=
  match name with inl rc => inl rc | inr n => inr (f n) end.

Definition not_space (c : ascii) : bool := negb (isspace c).

(** the tag [=]; [text] has its two characters [=] *)
Definition get_delimiters (text : bytes) : Z + bytes * bytes :=
  if bool_decide (length text < 5) || negb (bool_decide (last text = Some "="%char)) then inl MUSTACH_ERROR_BAD_SEPARATORS
  else
    let both := trim (take (length text - 2) (drop 1 text)) in
    let opstr := take_while not_space both in
    let clstr := drop_while isspace (drop_while not_space both) in
    if bool_decide (opstr = both) || bool_decide (MUSTACH_MAX_DELIM_LENGTH < length opstr) then
      inl MUSTACH_ERROR_BAD_SEPARATORS
    else if bool_decide (clstr = []) || bool_decide (MUSTACH_MAX_DELIM_LENGTH < length clstr) then
      inl MUSTACH_ERROR_BAD_SEPARATORS
    else inr (opstr, clstr).

(** the text between the delimiters, the one after: the error, or the tag,
    whether it may stand alone on its line and the new [template] *)
Definition read_tag (flags : Z) (clstr text after : bytes) : Z + tag * bool * bytes :=
  let give alone t := match t with inl rc => inl rc | inr t => inr (t, alone, after) end in
  match hd NUL (text ++ clstr) with
  | ":"%char =>
      give false (make_tag (fun n => Tag_put n true)
        (if has_flag flags Mustach_With_Colon then exclude_first flags text else get_name flags text))
  | "!"%char => inr (Tag_comment, true, after)
  | "="%char => inr (Tag_delimiters text, true, after)
  | "{"%char =>
      if forallb (fun c => bool_decide (c = "}"%char)) clstr then
        match after with
        | "}"%char :: after' =>
            match make_tag (fun n => Tag_put n false) (exclude_first flags text) with
            | inl rc => inl rc
            | inr t => inr (t, false, after')
            end
        | _ => inl MUSTACH_ERROR_BAD_UNESCAPE_TAG
        end
      else if bool_decide (last text = Some "}"%char) then
        give false (make_tag (fun n => Tag_put n false) (exclude_first flags (take (length text - 1) text)))
      else inl MUSTACH_ERROR_BAD_UNESCAPE_TAG
  | "&"%char => give false (make_tag (fun n => Tag_put n false) (exclude_first flags text))
  | "^"%char => give true (make_tag (Tag_section true) (exclude_first flags text))
  | "#"%char => give true (make_tag (Tag_section false) (exclude_first flags text))
  | "/"%char => give true (make_tag Tag_end (exclude_first flags text))
  | ">"%char => give true (make_tag Tag_partial (exclude_first flags text))
  | _ => give false (make_tag (fun n => Tag_put n true) (get_name flags text))
  end.

(** ** Processing *)

Record frame := Frame { f_name : bytes; again : bytes; f_enabled : bool; entered : bool }.

Record position := Position {
  template : bytes; opstr : bytes; clstr : bytes; stack : list frame; enabled : bool; stdalone : nat;
  chain : list bytes; ptext : bytes; out : bytes
}.

Section Process.
Context {S : Type} (itf : mustach_itf S) (flags : Z).

Abbreviation result := (option (Z * bytes * S)).

(** the effect of a tag, at the position after it; [k] goes on from a
    position and [process] processes a partial *)
Definition do_tag (k : position -> S -> result) (process : bytes -> list bytes -> S -> result)
    (t : tag) (p : position) (s : S) : result :=
  let '(Position tm op cl st en sa ch pt o) := p in
  match t with
  | Tag_comment => k p s
  | Tag_delimiters text =>
      match get_delimiters text with
      | inl rc => Some (rc, o, s)
      | inr (op', cl') => k (Position tm op' cl' st en sa ch pt o) s
      end
  | Tag_section inverted name =>
      if bool_decide (length st = MUSTACH_MAX_DEPTH) then Some (MUSTACH_ERROR_TOO_DEEP, o, s)
      else
        match (if en then enter itf name s else Some (0%Z, s)) with
        | None => None
        | Some (rc, s) =>
            if (rc <? 0)%Z then Some (rc, o, s)
            else
              let ent := negb (rc =? 0)%Z in
              let en' := if Bool.eqb (negb inverted) (rc =? 0)%Z then false else en in
              k (Position tm op cl (Frame name tm en ent :: st) en' sa ch pt o) s
        end
  | Tag_end name =>
      match st with
      | [] => Some (MUSTACH_ERROR_CLOSING, o, s)
      | f :: st' =>
          if negb (beq name (f_name f)) then Some (MUSTACH_ERROR_CLOSING, o, s)
          else
            match (if en && entered f then next itf s else Some (0%Z, s)) with
            | None => None
            | Some (rc, s) =>
                if (rc <? 0)%Z then Some (rc, o, s)
                else if negb (rc =? 0)%Z then k (Position (again f) op cl st en sa ch pt o) s
                else k (Position tm op cl st' (f_enabled f) sa ch pt o)
                       (if f_enabled f && entered f then leave itf s else s)
            end
      end
  | Tag_partial name =>
      if en then
        match put itf name false s with
        | None => None
        | Some (rc, text, s) =>
            if (rc <? 0)%Z then Some (rc, o, s)
            else
              match process text (ch ++ [pt]) s with
              | None => None
              | Some (rc, o', s) => if (rc <? 0)%Z then Some (rc, o ++ o', s) else k (Position tm op cl st en sa ch pt (o ++ o')) s
              end
        end
      else k p s
  | Tag_put name escape =>
      if en then
        match put itf name escape s with
        | None => None
        | Some (rc, text, s) =>
            if (rc <? 0)%Z then Some (rc, o ++ text, s) else k (Position tm op cl st en sa ch pt (o ++ text)) s
        end
      else k p s
  end.

(** what follows the search of an opening delimiter from [p] *)
Definition turn (k : position -> S -> result) (process : bytes -> list bytes -> S -> result)
    (p : position) (f : found) (s : S) : result :=
  match f with
  | End_of_template o => Some (if bool_decide (stack p = []) then MUSTACH_OK else MUSTACH_ERROR_UNEXPECTED_END, o, s)
  | Opening o line rest sa ch =>
      let pt := if enabled p then line else [] in
      let beg := drop (length (opstr p)) rest in
      match strstr beg (clstr p) with
      | None => Some (MUSTACH_ERROR_UNEXPECTED_END, o, s)
      | Some term =>
          let text := take (length beg - length term) beg in
          match read_tag flags (clstr p) text (drop (length (clstr p)) term) with
          | inl rc => Some (rc, o, s)
          | inr (t, alone, tm) =>
              let sa := if alone then sa else 0 in
              let '(sa, ch, pt, o) :=
                if negb (sa =? 0) then (2, ch, pt, o)
                else if enabled p then (0, [], [], o ++ emitprefix (ch ++ [pt])) else (0, ch, pt, o) in
              do_tag k process t (Position tm (opstr p) (clstr p) (stack p) (enabled p) sa ch pt o) s
          end
      end
  end.

Definition scan (outer : list bytes) (p : position) : found :=
  scan_open (opstr p) outer (enabled p) (template p) [] (stdalone p) (chain p) (ptext p) (out p).

Definition start_position (tm : bytes) (prefix : list bytes) : position :=
  Position tm (B "{{") (B "}}") [] true 1 prefix [] [].

(** the loop of [process], [fuel] bounding its turns and the depth of
    partials *)
Fixpoint loop (fuel : nat) (outer : list bytes) (p : position) (s : S) : result :=
  match fuel with
  | O => None
  | Datatypes.S fuel' =>
      turn (loop fuel' outer) (fun tm prefix => loop fuel' prefix (start_position tm prefix)) p (scan outer p) s
  end.

Definition process (fuel : nat) (tm : bytes) (prefix : list bytes) (s : S) : result :=
  loop fuel prefix (start_position tm prefix) s.

(** [mustach_file] and [mustach_mem]: the text is given when the status is
    not negative *)
Definition mustach_mem (fuel : nat) (start : S -> Z * S) (tm : bytes) (s : S) : option (Z * bytes * S) :=
  let '(rc, s) := start s in
  if (rc =? 0)%Z then
    match process fuel tm [] s with
    | None => None
    | Some (rc, o, s) => Some (if (rc <? 0)%Z then (rc, [], s) else (0%Z, o, s))
    end
  else Some (if (rc <? 0)%Z then (rc, [], s) else (0%Z, [], s)).

End Process.

(** ** Reference: templates as trees

    A template of the standard delimiters, what it writes and how it changes
    the closure. *)

Inductive items :=
  | Nil
  | Text (t : bytes) (k : items)
  | Put (escape : bool) (name : bytes) (k : items)
  | Sec (alone inverted : bool) (name : bytes) (body k : items).

Definition tag_text (c name : bytes) : bytes := B "{{" ++ (c ++ name) ++ B "}}".

(** the tags of a section that stands alone fill their lines *)
Definition eol (alone : bool) : bytes := if alone then [NL] else [].

Fixpoint print (i : items) : bytes :=
  match i with
  | Nil => []
  | Text t k => t ++ print k
  | Put escape name k => tag_text (if escape then [] else B "&") name ++ print k
  | Sec alone inverted name body k =>
      tag_text (if inverted then B "^" else B "#") name ++ eol alone ++ print body ++
      tag_text (B "/") name ++ eol alone ++ print k
  end.

Section Reference.
Context {S : Type} (itf : mustach_itf S).

Inductive renders : items -> S -> bytes -> S -> Prop :=
  | R_nil s : renders Nil s [] s
  | R_text t k s o s' : renders k s o s' -> renders (Text t k) s (t ++ o) s'
  | R_put e n k s rc w s1 o s' :
      put itf n e s = Some (rc, w, s1) -> (0 <= rc)%Z -> renders k s1 o s' -> renders (Put e n k) s (w ++ o) s'
  | R_enter a n b k s rc s1 o1 s2 o2 s' :
      enter itf n s = Some (rc, s1) -> (0 < rc)%Z -> iterates b s1 o1 s2 -> renders k s2 o2 s' ->
      renders (Sec a false n b k) s (o1 ++ o2) s'
  | R_skip a n b k s s1 o s' :
      enter itf n s = Some (0%Z, s1) -> renders k s1 o s' -> renders (Sec a false n b k) s o s'
  | R_not a n b k s s1 o1 s2 o2 s' :
      enter itf n s = Some (0%Z, s1) -> renders b s1 o1 s2 -> renders k s2 o2 s' ->
      renders (Sec a true n b k) s (o1 ++ o2) s'
  | R_not_skip a n b k s rc s1 o s' :
      enter itf n s = Some (rc, s1) -> (0 < rc)%Z -> renders k (leave itf s1) o s' -> renders (Sec a true n b k) s o s'
with iterates : items -> S -> bytes -> S -> Prop :=
  | I_last b s o s1 s2 : renders b s o s1 -> next itf s1 = Some (0%Z, s2) -> iterates b s o (leave itf s2)
  | I_more b s o1 s1 rc s2 o2 s' :
      renders b s o1 s1 -> next itf s1 = Some (rc, s2) -> (0 < rc)%Z -> iterates b s2 o2 s' -> iterates b s (o1 ++ o2) s'.

End Reference.

Scheme renders_min := Minimality for renders Sort Prop
  with iterates_min := Minimality for iterates Sort Prop.
Combined Scheme renders_iterates_ind from renders_min, iterates_min.

(** a name without space nor closing brace, not beginning like another tag *)
Definition name_ok (n : bytes) : Prop :=
  n <> [] /\ length n <= MUSTACH_MAX_LENGTH /\ Forall (fun c => isspace c = false /\ c <> "}"%char) n /\
  hd NUL n ∉ B ":!={&^#/>".

Fixpoint names_ok (i : items) : Prop :=
  match i with
  | Nil => True
  | Text t k => ("{"%char ∉ t) /\ names_ok k
  | Put _ n k => name_ok n /\ names_ok k
  | Sec _ _ n b k => name_ok n /\ names_ok b /\ names_ok k
  end.

Fixpoint nest (i : items) : nat :=
  match i with
  | Nil => 0
  | Text _ k | Put _ _ k => nest k
  | Sec _ _ _ b k => Nat.max (S (nest b)) (nest k)
  end.

(** what the line holds: nothing, spaces or more *)
Inductive lstate := Fresh | Blank | Busy.

#[export] Instance lstate_eq_dec : EqDecision lstate.
Proof. solve_decision. Defined.

Definition lstep (st : lstate) (c : ascii) : lstate :=
  if bool_decide (c = NL) then Fresh
  else if isspace c then match st with Busy => Busy | _ => Blank end else Busy.

(** where the tags of a section are, and the state after them *)
Definition lsec (alone : bool) : lstate := if alone then Fresh else Busy.

(** the tags of a section are within a line or alone on their line; the
    state of the line at the end *)
Fixpoint layout (st : lstate) (i : items) : option lstate :=
  match i with
  | Nil => Some st
  | Text t k => layout (foldl lstep st t) k
  | Put _ _ k => layout Busy k
  | Sec a _ _ b k =>
      if bool_decide (st = lsec a) && bool_decide (layout (lsec a) b = Some (lsec a)) then layout (lsec a) k else None
  end.

(** the value of [stdalone] *)
Definition lnum (st : lstate) : nat := match st with Busy => 0 | _ => 1 end.

(** ** Searching *)

#[local] Arguments B _ : simpl never.

Lemma emitprefix_one l : emitprefix [l] = l.
Proof. unfold emitprefix. simpl. apply app_nil_r. Qed.

Lemma emit_line_plain en line l st out :
  st <= 1 -> emit_line en line l st [] [] out = if en then out ++ l else out.
Proof.
  intros Hst. unfold emit_line. destruct st as [|[|]]; [| |lia]; simpl; destruct en; try done;
    case_bool_decide; by rewrite ?app_nil_l.
Qed.

(** text is passed over *)
Lemma scan_text en t rest line st out :
  "{"%char ∉ t -> (st = Fresh -> line = []) ->
  exists line' out', scan_open (B "{{") [] en (t ++ rest) line (lnum st) [] [] out =
      scan_open (B "{{") [] en rest line' (lnum (foldl lstep st t)) [] [] out' /\
    (foldl lstep st t = Fresh -> line' = []) /\
    (if en then out' ++ line' = out ++ line ++ t else out' = out).
Proof.
  revert line st out. induction t as [|c t IH]; intros line st out Ht Hst; cbn [app scan_open foldl].
  { exists line, out. split_and!; [done..|]. destruct en; by rewrite ?app_nil_r. }
  assert (Hn : lnum st <= 1) by (destruct st; simpl; lia).
  apply not_elem_of_cons in Ht as [Hc Ht]. unfold lstep at 2 4. case_bool_decide as Hnl.
  - subst c. destruct (IH [] Fresh (emit_line en line (line ++ [NL]) (lnum st) [] [] out) Ht) as (line' & out' & E & Hf & Ho); [done|].
    exists line', out'. split_and!; [exact E|done|]. rewrite emit_line_plain in Ho by done.
    destruct en; [|done]. by rewrite Ho, <-!(assoc_L (++)).
  - destruct (isspace c) eqn:Es.
    + set (st1 := match st with Busy => Busy | _ => Blank end).
      replace (lnum st) with (lnum st1) by (by destruct st).
      destruct (IH (line ++ [c]) st1 out Ht) as (line' & out' & -> & Hf & Ho); [by destruct st|].
      exists line', out'. split_and!; [done..|]. destruct en; [|done]. by rewrite Ho, <-!(assoc_L (++)).
    + replace ((lnum st =? 2) && en) with false by (by destruct st).
      destruct (IH (line ++ [c]) Busy out Ht) as (line' & out' & E & Hf & Ho); [done|].
      replace (starts_with (B "{{") (c :: t ++ rest)) with false
        by (unfold B; simpl; by rewrite bool_decide_eq_false_2).
      exists line', out'. split_and!; [exact E|done|]. destruct en; [|done]. by rewrite Ho, <-!(assoc_L (++)).
Qed.

Lemma strstr_close x rest : "}"%char ∉ x -> strstr (x ++ B "}}" ++ rest) (B "}}") = Some (B "}}" ++ rest).
Proof.
  induction x as [|c x IH]; [done|]. rewrite not_elem_of_cons. intros [Hc Hx].
  assert (Hs : starts_with (B "}}") ((c :: x) ++ B "}}" ++ rest) = false).
  { unfold B. simpl. by rewrite bool_decide_eq_false_2. }
  rewrite <-app_comm_cons in Hs |- *. cbn [strstr]. rewrite Hs. by apply IH.
Qed.

(** ** Tags *)

Lemma trim_ok n : name_ok n -> trim n = n.
Proof.
  intros (_ & _ & Hs & _). unfold trim.
  assert (Hd : forall l, Forall (fun c => isspace c = false /\ c <> "}"%char) l -> drop_while isspace l = l).
  { intros [|c l] Hl; [done|]. apply Forall_cons in Hl as [[Hc _] _]. simpl. by rewrite Hc. }
  rewrite (Hd n Hs), (Hd (rev n)); [apply rev_involutive|]. by apply Forall_rev.
Qed.

Lemma get_name_ok flags n : name_ok n -> get_name flags n = inr n.
Proof.
  intros Hn. unfold get_name. rewrite trim_ok by done. destruct Hn as (Hne & Hlen & _).
  rewrite bool_decide_eq_false_2 by done. simpl. by rewrite bool_decide_eq_false_2 by lia.
Qed.

Lemma read_tag_plain flags c n after :
  c ∉ B ":!={&^#/>" ->
  read_tag flags (B "}}") (c :: n) after =
    match make_tag (fun n => Tag_put n true) (get_name flags (c :: n)) with
    | inl rc => inl rc
    | inr t => inr (t, false, after)
    end.
Proof.
  intros Hc. destruct c as [[] [] [] [] [] [] [] []]; try reflexivity; exfalso; apply Hc;
    apply (bool_decide_unpack _); vm_compute; exact I.
Qed.

Lemma read_tag_put flags n (escape : bool) after :
  name_ok n ->
  read_tag flags (B "}}") ((if escape then [] else B "&") ++ n) after = inr (Tag_put n escape, false, after).
Proof.
  intros Hn. pose proof (get_name_ok flags n Hn) as Hg. destruct escape.
  - destruct n as [|c n]; [by destruct Hn|]. cbn [app]. rewrite read_tag_plain by apply Hn. by rewrite Hg.
  - cbv [read_tag exclude_first make_tag]. simpl. by rewrite Hg.
Qed.

Lemma read_tag_section flags n (inverted : bool) after :
  name_ok n ->
  read_tag flags (B "}}") ((if inverted then B "^" else B "#") ++ n) after = inr (Tag_section inverted n, true, after).
Proof. intros Hn. pose proof (get_name_ok flags n Hn) as Hg. destruct inverted; unfold read_tag; simpl; by rewrite Hg. Qed.

Lemma read_tag_end flags n after :
  name_ok n -> read_tag flags (B "}}") (B "/" ++ n) after = inr (Tag_end n, true, after).
Proof. intros Hn. pose proof (get_name_ok flags n Hn) as Hg. unfold read_tag; simpl; by rewrite Hg. Qed.

(** ** Turns *)

Section Turns.
Context {S : Type} (itf : mustach_itf S) (flags : Z).

Abbreviation step fuel := (do_tag itf (loop itf flags fuel []) (fun tm prefix => loop itf flags fuel prefix (start_position tm prefix))).

(** the loop within the search of a delimiter *)
Definition go (fuel : nat) (stk : list frame) (en : bool) (rest line : bytes) (st : lstate) (out : bytes) (s : S) :
    option (Z * bytes * S) :=
  turn itf flags (loop itf flags fuel []) (fun tm prefix => loop itf flags fuel prefix (start_position tm prefix))
    (Position [] (B "{{") (B "}}") stk en 0 [] [] []) (scan_open (B "{{") [] en rest line (lnum st) [] [] out) s.

(** the position after a tag of the standard delimiters *)
Definition at_tag (tm : bytes) (stk : list frame) (en : bool) (sa : nat) (out : bytes) : position :=
  Position tm (B "{{") (B "}}") stk en sa [] [] out.

Lemma loop_go fuel stk en tm st out s :
  loop itf flags (Datatypes.S fuel) [] (at_tag tm stk en (lnum st) out) s = go fuel stk en tm [] st out s.
Proof. reflexivity. Qed.

(** after the tag of a section *)
Lemma loop_sec fuel stk en a tm out s :
  loop itf flags (Datatypes.S fuel) [] (at_tag (eol a ++ tm) stk en (if a then 2 else 0) out) s =
  go fuel stk en tm [] (lsec a) out s.
Proof. destruct a; [|reflexivity]. simpl. unfold scan, go. simpl. by destruct en. Qed.

(** a tag of the standard delimiters is one step *)
Lemma go_tag fuel stk en x rest line st out s t alone :
  "}"%char ∉ x -> read_tag flags (B "}}") x rest = inr (t, alone, rest) ->
  (alone = true -> st <> Blank) -> (st = Fresh -> line = []) ->
  go fuel stk en (B "{{" ++ x ++ B "}}" ++ rest) line st out s =
  step fuel t (at_tag rest stk en (if alone && bool_decide (st = Fresh) then 2 else 0) (if en then out ++ line else out)) s.
Proof.
  intros Hx Hr Hb Hf. unfold go.
  replace (scan_open _ _ _ _ _ _ _ _ _) with (Opening out line (B "{{" ++ x ++ B "}}" ++ rest) (lnum st) [])
    by (unfold B; simpl; by destruct st).
  unfold turn. cbn [opstr clstr stack enabled]. change (drop (length (B "{{")) _) with (x ++ B "}}" ++ rest).
  rewrite strstr_close by done. rewrite length_app.
  replace (length x + _ - _) with (length x) by lia. rewrite take_app_length. cbn [drop length].
  change (drop (length (B "}}")) (B "}}" ++ rest)) with rest. rewrite Hr. unfold at_tag.
  destruct alone, st; simpl; try (by destruct Hb); try (rewrite Hf by done); destruct en;
    by rewrite ?emitprefix_one, ?app_nil_r.
Qed.

Lemma tag_text_app c n rest : tag_text c n ++ rest = B "{{" ++ (c ++ n) ++ B "}}" ++ rest.
Proof. unfold tag_text. by rewrite <-!(assoc_L (++)). Qed.

Lemma name_ok_brace c n : name_ok n -> "}"%char ∉ c -> "}"%char ∉ c ++ n.
Proof.
  intros (_ & _ & Hs & _) Hc. apply not_elem_of_app. split; [done|]. intros Hn.
  rewrite Forall_forall in Hs. by destruct (Hs _ Hn).
Qed.

Abbreviation alone_at a := (if a then 2 else 0).

Lemma go_put fuel stk en (e : bool) n rest line st out s :
  name_ok n -> (st = Fresh -> line = []) ->
  go fuel stk en (tag_text (if e then [] else B "&") n ++ rest) line st out s =
  step fuel (Tag_put n e) (at_tag rest stk en (lnum Busy) (if en then out ++ line else out)) s.
Proof.
  intros Hn Hf. rewrite tag_text_app. apply (go_tag fuel stk en _ rest line st out s (Tag_put n e) false); try done.
  - apply name_ok_brace; [done|]. destruct e; [apply not_elem_of_nil|by apply (bool_decide_unpack _)].
  - by apply read_tag_put.
Qed.

Lemma alone_at_lsec a : alone_at (true && bool_decide (lsec a = Fresh)) = alone_at a.
Proof. by destruct a. Qed.

Lemma go_open fuel stk en (inv : bool) n a rest line out s :
  name_ok n -> (lsec a = Fresh -> line = []) ->
  go fuel stk en (tag_text (if inv then B "^" else B "#") n ++ rest) line (lsec a) out s =
  step fuel (Tag_section inv n) (at_tag rest stk en (alone_at a) (if en then out ++ line else out)) s.
Proof.
  intros Hn Hf. rewrite tag_text_app, <-(alone_at_lsec a).
  apply (go_tag fuel stk en _ rest line (lsec a) out s (Tag_section inv n) true); try done; [| |by destruct a].
  - apply name_ok_brace; [done|]. destruct inv; by apply (bool_decide_unpack _).
  - by apply read_tag_section.
Qed.

Lemma go_end fuel stk en n a rest line out s :
  name_ok n -> (lsec a = Fresh -> line = []) ->
  go fuel stk en (tag_text (B "/") n ++ rest) line (lsec a) out s =
  step fuel (Tag_end n) (at_tag rest stk en (alone_at a) (if en then out ++ line else out)) s.
Proof.
  intros Hn Hf. rewrite tag_text_app, <-(alone_at_lsec a).
  apply (go_tag fuel stk en _ rest line (lsec a) out s (Tag_end n) true); try done; [| |by destruct a].
  - apply name_ok_brace; [done|]. by apply (bool_decide_unpack _).
  - by apply read_tag_end.
Qed.

(** the items [i] are passed, [o] being written *)
Definition passes (en : bool) (stk : list frame) (i : items) (st st' : lstate) (o : bytes) (s s' : S) : Prop :=
  forall rest line out, (st = Fresh -> line = []) ->
    exists m line' out',
      (forall fuel, go (m + fuel) stk en (print i ++ rest) line st out s = go fuel stk en rest line' st' out' s') /\
      (st' = Fresh -> line' = []) /\
      (if en then out' ++ line' = out ++ line ++ o else out' = out).

Lemma passes_nil en stk st s : passes en stk Nil st st [] s s.
Proof.
  intros rest line out Hf. exists 0, line, out. split_and!; [done..|]. destruct en; by rewrite ?app_nil_r.
Qed.

Lemma passes_text en stk t k st st' o s s' :
  "{"%char ∉ t -> passes en stk k (foldl lstep st t) st' o s s' ->
  passes en stk (Text t k) st st' (if en then t ++ o else []) s s'.
Proof.
  intros Ht Hm rest line out Hf. simpl print.
  destruct (scan_text en t (print k ++ rest) line st out Ht Hf) as (l1 & o1 & E1 & Hf1 & Ho1).
  destruct (Hm rest l1 o1 Hf1) as (m & l2 & o2 & E2 & Hf2 & Ho2). exists m, l2, o2. split_and!; [|done|].
  - intros fuel. rewrite <-E2, <-(assoc_L (++)). unfold go. by rewrite E1.
  - destruct en; [|by rewrite Ho2]. rewrite Ho2, (assoc_L (++)), Ho1. by rewrite <-!(assoc_L (++)).
Qed.

Lemma passes_put_skipped stk e n k st st' s s' :
  name_ok n -> passes false stk k Busy st' [] s s' -> passes false stk (Put e n k) st st' [] s s'.
Proof.
  intros Hn Hm rest line out Hf. destruct (Hm rest [] out) as (m & l2 & o2 & E2 & Hf2 & Ho2); [done|].
  exists (Datatypes.S m), l2, o2. split_and!; [|done|done]. intros fuel. cbn [print Nat.add].
  rewrite <-(assoc_L (++)), go_put by done. exact (E2 fuel).
Qed.

Lemma passes_put stk e n k st st' rc w o s s1 s' :
  name_ok n -> put itf n e s = Some (rc, w, s1) -> (0 <= rc)%Z -> passes true stk k Busy st' o s1 s' ->
  passes true stk (Put e n k) st st' (w ++ o) s s'.
Proof.
  intros Hn Hp Hrc Hm rest line out Hf.
  destruct (Hm rest [] ((out ++ line) ++ w)) as (m & l2 & o2 & E2 & Hf2 & Ho2); [done|].
  exists (Datatypes.S m), l2, o2. split_and!; [|done|].
  - intros fuel. cbn [print Nat.add]. rewrite <-(assoc_L (++)), go_put by done. cbn [do_tag at_tag].
    rewrite Hp. replace (rc <? 0)%Z with false by lia. exact (E2 fuel).
  - rewrite Ho2. simpl. by rewrite <-!(assoc_L (++)).
Qed.

(** the tag that ends a section that is not repeated *)
Lemma end_tag fuel stk en f n a rest line out s :
  name_ok n -> f_name f = n -> (en && entered f = false) -> (lsec a = Fresh -> line = []) ->
  go (Datatypes.S fuel) (f :: stk) en (tag_text (B "/") n ++ eol a ++ rest) line (lsec a) out s =
  go fuel stk (f_enabled f) rest [] (lsec a) (if en then out ++ line else out)
    (if f_enabled f && entered f then leave itf s else s).
Proof.
  intros Hn <- He Hf. rewrite go_end by done. cbn [do_tag at_tag]. rewrite beq_refl. cbn [negb]. rewrite He.
  apply loop_sec.
Qed.

(** a section: its effect from the tag that begins it *)
Definition section_passes (en : bool) (stk : list frame) (inv : bool) (n : bytes) (a : bool) (b : items) (w : bytes) (s s1 : S) : Prop :=
  forall rest out, exists m, forall fuel,
    step (m + fuel) (Tag_section inv n)
      (at_tag (eol a ++ print b ++ tag_text (B "/") n ++ eol a ++ rest) stk en (alone_at a) out) s =
    go fuel stk en rest [] (lsec a) (out ++ w) s1.

Lemma passes_section en stk inv n a b k st' w o s s1 s' :
  name_ok n -> section_passes en stk inv n a b w s s1 -> (en = false -> w = []) ->
  passes en stk k (lsec a) st' o s1 s' ->
  passes en stk (Sec a inv n b k) (lsec a) st' (if en then w ++ o else []) s s'.
Proof.
  intros Hn Hb Hw Hk rest line out Hf. set (out1 := if en then out ++ line else out).
  destruct (Hb (print k ++ rest) out1) as [m1 E1].
  destruct (Hk rest [] (out1 ++ w)) as (m2 & l2 & o2 & E2 & Hf2 & Ho2); [done|].
  exists (m1 + m2), l2, o2. split_and!; [|done|].
  - intros fuel. cbn [print]. rewrite <-E2, <-(Nat.add_assoc m1), <-E1, <-!(assoc_L (++)). by apply go_open.
  - subst out1. destruct en; [rewrite Ho2; simpl; by rewrite <-!(assoc_L (++))|].
    by rewrite Ho2, Hw, app_nil_r by done.
Qed.

(** a body that is not processed *)
Lemma body_skipped stk f n a b s :
  name_ok n -> f_name f = n -> passes false (f :: stk) b (lsec a) (lsec a) [] s s ->
  forall rest out, exists m, forall fuel,
    loop itf flags (m + fuel) []
      (at_tag (eol a ++ print b ++ tag_text (B "/") n ++ eol a ++ rest) (f :: stk) false (alone_at a) out) s =
    go fuel stk (f_enabled f) rest [] (lsec a) out (if f_enabled f && entered f then leave itf s else s).
Proof.
  intros Hn Hname Hb rest out.
  destruct (Hb (tag_text (B "/") n ++ eol a ++ rest) [] out) as (m & l & o & E & Hf & ->); [done|].
  exists (Datatypes.S (m + 1)). intros fuel. cbn [Nat.add]. rewrite loop_sec, <-Nat.add_assoc, E.
  by apply end_tag.
Qed.

(** a section that is not entered *)
Lemma section_skipped (en : bool) stk inv n a b s rc s1 :
  name_ok n -> length stk < MUSTACH_MAX_DEPTH -> (forall f, passes false (f :: stk) b (lsec a) (lsec a) [] s1 s1) ->
  (if en then enter itf n s else Some (0%Z, s)) = Some (rc, s1) -> (0 <= rc)%Z ->
  (en = true -> Bool.eqb (negb inv) (rc =? 0)%Z = true) ->
  section_passes en stk inv n a b [] s (if en && negb (rc =? 0)%Z then leave itf s1 else s1).
Proof.
  intros Hn Hd Hb He Hrc Hinv rest out.
  set (f := Frame n (eol a ++ print b ++ tag_text (B "/") n ++ eol a ++ rest) en (negb (rc =? 0)%Z)).
  destruct (body_skipped stk f n a b s1 Hn eq_refl (Hb f) rest out) as [m Hm]. exists m. intros fuel.
  cbn [do_tag at_tag]. rewrite bool_decide_eq_false_2 by lia. rewrite He.
  replace (rc <? 0)%Z with false by lia. rewrite app_nil_r.
  etransitivity; [|exact (Hm fuel)].
  unfold at_tag, f. repeat f_equal. destruct en; [by rewrite Hinv|by destruct (Bool.eqb _ _)].
Qed.

(** the section of a false value, inverted *)
Lemma section_inverted stk n a b w s s1 s2 :
  name_ok n -> length stk < MUSTACH_MAX_DEPTH -> (forall f, passes true (f :: stk) b (lsec a) (lsec a) w s1 s2) ->
  enter itf n s = Some (0%Z, s1) -> section_passes true stk true n a b w s s2.
Proof.
  intros Hn Hd Hb He rest out. set (tm := eol a ++ print b ++ tag_text (B "/") n ++ eol a ++ rest).
  destruct (Hb (Frame n tm true false) (tag_text (B "/") n ++ eol a ++ rest) [] out) as (m & l & o & E & Hf & Ho); [done|].
  exists (Datatypes.S (m + 1)). intros fuel. cbn [do_tag at_tag]. rewrite bool_decide_eq_false_2, He by lia. cbn.
  change (loop _ _ _ _ _ _) with
    (loop itf flags (Datatypes.S (m + 1 + fuel)) [] (at_tag tm (Frame n tm true false :: stk) true (alone_at a) out) s1).
  etransitivity; [apply loop_sec|]. rewrite <-Nat.add_assoc, E. cbn [Nat.add]. rewrite (end_tag _ _ true) by done.
  cbn. by rewrite Ho.
Qed.

(** the body of a section is repeated *)
Definition iter_passes (stk : list frame) (n : bytes) (a : bool) (b : items) (w : bytes) (s s' : S) : Prop :=
  forall rest out, exists m, forall fuel,
    let tm := eol a ++ print b ++ tag_text (B "/") n ++ eol a ++ rest in
    loop itf flags (m + fuel) [] (at_tag tm (Frame n tm true true :: stk) true (alone_at a) out) s =
    go fuel stk true rest [] (lsec a) (out ++ w) s'.

Lemma iter_step stk n a b rest w out s s1 :
  name_ok n -> (forall f, passes true (f :: stk) b (lsec a) (lsec a) w s s1) ->
  let tm := eol a ++ print b ++ tag_text (B "/") n ++ eol a ++ rest in
  exists m, forall fuel,
    loop itf flags (m + fuel) [] (at_tag tm (Frame n tm true true :: stk) true (alone_at a) out) s =
    step fuel (Tag_end n) (at_tag (eol a ++ rest) (Frame n tm true true :: stk) true (alone_at a) (out ++ w)) s1.
Proof.
  intros Hn Hb tm.
  destruct (Hb (Frame n tm true true) (tag_text (B "/") n ++ eol a ++ rest) [] out) as (m & l & o & E & Hf & Ho); [done|].
  exists (Datatypes.S m). intros fuel. cbn [Nat.add]. etransitivity; [apply loop_sec|]. rewrite E.
  rewrite go_end by done. by rewrite Ho.
Qed.

Lemma iter_last stk n a b w s s1 s2 :
  name_ok n -> (forall f, passes true (f :: stk) b (lsec a) (lsec a) w s s1) -> next itf s1 = Some (0%Z, s2) ->
  iter_passes stk n a b w s (leave itf s2).
Proof.
  intros Hn Hb Hx rest out. destruct (iter_step stk n a b rest w out s s1 Hn Hb) as [m Hm].
  exists (m + 1). intros fuel tm. rewrite <-Nat.add_assoc, Hm. cbn [do_tag at_tag f_name]. rewrite beq_refl. cbn.
  rewrite Hx. cbn. apply loop_sec.
Qed.

Lemma iter_more stk n a b w1 w2 s s1 rc s2 s' :
  name_ok n -> (forall f, passes true (f :: stk) b (lsec a) (lsec a) w1 s s1) -> next itf s1 = Some (rc, s2) ->
  (0 < rc)%Z -> iter_passes stk n a b w2 s2 s' -> iter_passes stk n a b (w1 ++ w2) s s'.
Proof.
  intros Hn Hb Hx Hrc Hi rest out. destruct (iter_step stk n a b rest w1 out s s1 Hn Hb) as [m1 Hm1].
  destruct (Hi rest (out ++ w1)) as [m2 Hm2].
  exists (m1 + m2). intros fuel tm. rewrite <-Nat.add_assoc, Hm1. cbn [do_tag at_tag f_name]. rewrite beq_refl. cbn.
  rewrite Hx. replace (rc <? 0)%Z with false by lia. replace (rc =? 0)%Z with false by lia.
  cbn. rewrite (assoc_L (++) out w1 w2). exact (Hm2 fuel).
Qed.

(** the section of a true value *)
Lemma section_entered stk n a b w s rc s1 s' :
  name_ok n -> length stk < MUSTACH_MAX_DEPTH -> enter itf n s = Some (rc, s1) -> (0 < rc)%Z ->
  iter_passes stk n a b w s1 s' -> section_passes true stk false n a b w s s'.
Proof.
  intros Hn Hd He Hrc Hi rest out. destruct (Hi rest out) as [m Hm]. exists m. intros fuel.
  etransitivity; [|exact (Hm fuel)]. cbn [do_tag at_tag]. rewrite bool_decide_eq_false_2 by lia. rewrite He.
  replace (rc <? 0)%Z with false by lia. by replace (rc =? 0)%Z with false by lia.
Qed.

Lemma layout_sec st a inv n b k st' :
  layout st (Sec a inv n b k) = Some st' ->
  st = lsec a /\ layout (lsec a) b = Some (lsec a) /\ layout (lsec a) k = Some st'.
Proof. simpl. repeat case_bool_decide; naive_solver. Qed.

(** what is disabled is passed without effect *)
Lemma disabled_passes i : names_ok i ->
  forall stk st st' s, layout st i = Some st' -> nest i + length stk <= MUSTACH_MAX_DEPTH ->
    passes false stk i st st' [] s s.
Proof.
  induction i as [|t k IH|e n k IH|a inv n b IHb k IHk]; intros Hok stk st st' s Hl Hd.
  - injection Hl as <-. apply passes_nil.
  - destruct Hok as [Ht Hok]. apply (passes_text false _ _ _ _ _ []); [done|]. by apply IH.
  - destruct Hok as [Hn Hok]. apply passes_put_skipped; [done|]. by apply IH.
  - destruct Hok as (Hn & Hb & Hk). apply layout_sec in Hl as (-> & Hlb & Hlk). cbn [nest] in Hd.
    apply (passes_section false _ _ _ _ _ _ _ [] [] s s); [done| |done|apply IHk; [done..|lia]].
    apply (section_skipped false stk inv n a b s 0 s); [done|lia| |done..].
    intros f. apply IHb; [done..|]. cbn [length]. lia.
Qed.

(** a section, then what follows it *)
Ltac section_case Hl Hd IHk o1 o2 s s1 s' :=
  apply layout_sec in Hl as (-> & Hlb & Hlk); cbn [nest] in Hd;
  apply (passes_section true _ _ _ _ _ _ _ o1 o2 s s1 s'); [done| |done|apply IHk; [done..|lia]].

Lemma renders_passes :
  (forall i s o s', renders itf i s o s' -> names_ok i ->
     forall stk st st', layout st i = Some st' -> nest i + length stk <= MUSTACH_MAX_DEPTH -> passes true stk i st st' o s s') /\
  (forall b s o s', iterates itf b s o s' -> names_ok b ->
     forall stk n a, name_ok n -> layout (lsec a) b = Some (lsec a) -> nest b + length stk < MUSTACH_MAX_DEPTH ->
       iter_passes stk n a b o s s').
Proof.
  apply renders_iterates_ind.
  - intros s _ stk st st' Hl _. injection Hl as <-. apply passes_nil.
  - intros t k s o s' _ IH [Ht Hok] stk st st' Hl Hd. apply (passes_text true); [done|]. by apply IH.
  - intros e n k s rc w s1 o s' Hp Hrc _ IH [Hn Hok] stk st st' Hl Hd. apply (passes_put _ _ _ _ _ _ rc w o s s1 s'); [done..|].
    by apply IH.
  - intros a n b k s rc s1 o1 s2 o2 s' He Hrc _ IHb _ IHk (Hn & Hb & Hk) stk st st' Hl Hd.
    section_case Hl Hd IHk o1 o2 s s2 s'.
    apply (section_entered stk n a b o1 s rc s1 s2); [done|lia|done..|]. apply IHb; [done..|lia].
  - intros a n b k s s1 o s' He _ IHk (Hn & Hb & Hk) stk st st' Hl Hd.
    section_case Hl Hd IHk (@nil ascii) o s s1 s'.
    apply (section_skipped true stk false n a b s 0 s1); [done|lia| |done..].
    intros f. apply disabled_passes; [done..|]. cbn [length]. lia.
  - intros a n b k s s1 o1 s2 o2 s' He _ IHb _ IHk (Hn & Hb & Hk) stk st st' Hl Hd.
    section_case Hl Hd IHk o1 o2 s s2 s'.
    apply (section_inverted stk n a b o1 s s1 s2); [done|lia| |done]. intros f. apply IHb; [done..|]. cbn [length]. lia.
  - intros a n b k s rc s1 o s' He Hrc _ IHk (Hn & Hb & Hk) stk st st' Hl Hd.
    section_case Hl Hd IHk (@nil ascii) o s (leave itf s1) s'.
    replace (leave itf s1) with (if true && negb (rc =? 0)%Z then leave itf s1 else s1) by (by replace (rc =? 0)%Z with false by lia).
    apply (section_skipped true stk true n a b s rc s1); [done|lia| |done|lia|by replace (rc =? 0)%Z with false by lia].
    intros f. apply disabled_passes; [done..|]. cbn [length]. lia.
  - intros b s o s1 s2 _ IH Hx Hok stk n a Hn Hl Hd. apply (iter_last stk n a b o s s1 s2); [done| |done].
    intros f. apply IH; [done..|]. cbn [length]. lia.
  - intros b s o1 s1 rc s2 o2 s' _ IH Hx Hrc _ IHi Hok stk n a Hn Hl Hd.
    apply (iter_more stk n a b o1 o2 s s1 rc s2 s'); [done| |done|done|by apply IHi].
    intros f. apply IH; [done..|]. cbn [length]. lia.
Qed.

End Turns.

(** ** The engine implements the reference *)

Lemma process_print {S : Type} (itf : mustach_itf S) flags i s o s' st :
  renders itf i s o s' -> names_ok i -> layout Fresh i = Some st -> nest i <= MUSTACH_MAX_DEPTH ->
  exists n, forall fuel, n <= fuel -> process itf flags fuel (print i) [] s = Some (MUSTACH_OK, o, s').
Proof.
  intros Hr Hok Hl Hd. destruct (renders_passes itf flags) as [Hp _].
  destruct (Hp i s o s' Hr Hok [] Fresh st Hl) with (rest := @nil ascii) (line := @nil ascii) (out := @nil ascii)
    as (m & line & out & E & _ & Ho); [simpl; lia|done|].
  exists (Datatypes.S m). intros fuel Hf. unfold process.
  change (start_position (print i) []) with (at_tag (print i) [] true (lnum Fresh) []).
  replace fuel with (Datatypes.S (m + (fuel - Datatypes.S m))) by lia.
  rewrite loop_go, <-(app_nil_r (print i)), E. unfold go. simpl. rewrite emit_line_plain by (destruct st; simpl; lia).
  by rewrite Ho.
Qed.

(** C20: a template that is the text of a tree is processed without error, when
    the names of its tags are plain, the tags of each section are within a
    line or alone on their line and sections do not nest beyond the bound:
    what is written is what the tree renders, without the lines of the tags
    that stand alone, and the closure is changed as the tree says; sections
    are repeated as many times as the caller tells. *)
Theorem process_renders {S : Type} (itf : mustach_itf S) flags i s o s' st :
  renders itf i s o s' -> names_ok i -> layout Fresh i = Some st -> nest i <= MUSTACH_MAX_DEPTH ->
  exists n, forall fuel, n <= fuel -> process itf flags fuel (print i) [] s = Some (MUSTACH_OK, o, s').
Proof. apply process_print. Qed.

(** a caller that counts down: a section is its body as many times *)
Definition count_itf : mustach_itf nat := {|
  put n _ s := Some (0%Z, n ++ fmt_d (Z.of_nat s), s);
  enter _ s := Some (if bool_decide (s = 0) then 0%Z else 1%Z, s);
  next s := Some (if bool_decide (s <= 1) then 0%Z else 1%Z, pred s);
  leave s := s
|}.

Definition count_items : items :=
  Sec true false (B "n") (Text (B " - ") (Put true (B "x") (Text [NL] Nil)))
    (Text (B "end") (Sec false true (B "n") (Text (B "!") Nil) Nil)).

Example process_renders_witness :
  names_ok count_items /\ layout Fresh count_items = Some Busy /\ nest count_items <= MUSTACH_MAX_DEPTH /\
  exists n, forall fuel, n <= fuel ->
    process count_itf 3 fuel (print count_items) [] 2 =
      Some (MUSTACH_OK, B " - x2" ++ [NL] ++ B " - x1" ++ [NL] ++ B "end!", 0).
Proof.
  assert (Hn : names_ok count_items).
  { unfold count_items. cbn. unfold name_ok. split_and!; try exact I; try done;
      try (by apply (bool_decide_unpack _)); try (by repeat constructor); try (vm_compute; lia). }
  split; [exact Hn|]. split; [reflexivity|]. split; [vm_compute; lia|].
  eapply (process_renders count_itf 3 count_items 2 _ 0); [|exact Hn|reflexivity|vm_compute; lia].
  change (B " - x2" ++ _) with
    (((B " - " ++ B "x2" ++ [NL] ++ []) ++ (B " - " ++ B "x1" ++ [NL] ++ [])) ++ (B "end" ++ (B "!" ++ []) ++ [])).
  eapply R_enter; [reflexivity|done| |].
  - eapply I_more; [apply R_text; eapply R_put; [reflexivity|done|apply R_text, R_nil]|reflexivity|done|].
    apply (I_last _ _ _ _ 1 0); [|reflexivity]. apply R_text. eapply R_put; [reflexivity|done|apply R_text, R_nil].
  - apply R_text. eapply R_not; [reflexivity|apply R_text, R_nil|apply R_nil].
Defined.

End mustach.
