(* ===== verification/Jsonc.v ===== *)
(** * The JSON values of the manifests

    The manifest of a package is a value of the library json-c, that the
    code reads and completes through the functions of that library and of
    its companion [rp-jsonc].  The values are abstract and these functions
    are the operations of a class: what is proved of the components that use
    manifests holds for any implementation of them.  The instance at the end
    is used for running the model on examples. *)
From S2P Require Import Prelude CString.

Module jsonc.

Inductive json_type := type_null | type_string | type_object | type_array | type_other.
#[export] Instance json_type_eq : EqDecision json_type.
Proof. solve_decision. Defined.

(** The value JSON null is the null pointer. *)
Class Jsonc (J : Type) := {
  (** [json_object_object_get_ex]: [None] when it returns false *)
  object_get_ex : J -> bytes -> option J;
  (** [json_object_get_type] *)
  get_type : J -> json_type;
  (** [json_object_get_string]: [None] for NULL *)
  get_string : J -> option bytes;
  (** the calls of [rp_jsonc_array_for_all] and [rp_jsonc_optarray_for_all] *)
  array_items : J -> list J;
  optarray_items : J -> list J;
  (** the calls of [rp_jsonc_object_for_all] *)
  object_items : J -> list (J * option bytes);
  (** [json_object_object_add] *)
  object_add : J -> bytes -> J -> J;
  (** [json_object_object_add] on the item [i] of the array at a key *)
  item_add : J -> bytes -> nat -> bytes -> J -> J;
  (** [rp_jsonc_pack] for the metadata of a target: afid and port *)
  pack_target : Z -> Z -> option J;
  (** [rp_jsonc_pack] for the metadata of a manifest: install-dir,
      icons-dir, redpak, redpak-id and root-dir *)
  pack_manifest : bytes -> bytes -> bool -> option bytes -> bytes -> option J
}.

(** ** An implementation *)

Inductive json :=
| JNull | JBool (b : bool) | JInt (z : Z) | JStr (s : bytes)
| JArr (l : list json) | JObj (l : list (bytes * json)).

Fixpoint assoc (k : bytes) (l : list (bytes * json)) : option json :=
  match l with
  | [] => None
  | (k', v) :: l' => if beq k k' then Some v else assoc k l'
  end.

Fixpoint replace (k : bytes) (v : json) (l : list (bytes * json)) : list (bytes * json) :=
  match l with
  | [] => [(k, v)]
  | (k', v') :: l' => if beq k k' then (k, v) :: l' else (k', v') :: replace k v l'
  end.

Lemma replace_absent k v l : assoc k l = None -> replace k v l = l ++ [(k, v)].
Proof.
  induction l as [|[k' v'] l IH]; simpl; [done|]. destruct (beq k k'); [done|]. intros Hl. by rewrite IH.
Qed.

Lemma assoc_replace k v l k' : assoc k' (replace k v l) = if beq k' k then Some v else assoc k' l.
Proof.
  induction l as [|[m w] l IH]; simpl; [done|].
  destruct (beq k m) eqn:E; simpl; [apply beq_true in E as <-; by destruct (beq k' k)|].
  rewrite IH. destruct (beq k' m) eqn:E1; [|done]. apply beq_true in E1 as ->.
  destruct (beq m k) eqn:E2; [|done]. apply beq_true in E2 as ->. by rewrite beq_refl in E.
Qed.

Lemma assoc_None k l : assoc k l = None <-> k ∉ l.*1.
Proof.
  induction l as [|[m w] l IH]; simpl; [split; [intros; apply not_elem_of_nil|done]|].
  rewrite not_elem_of_cons. destruct (beq k m) eqn:E.
  - apply beq_true in E. naive_solver.
  - apply beq_false in E. naive_solver.
Qed.

Definition json_add (j : json) (k : bytes) (v : json) : json :=
  match j with JObj l => JObj (replace k v l) | _ => j end.

Definition opt_str (s : option bytes) : json :=
  match s with Some s => JStr s | None => JNull end.

#[export] Instance json_Jsonc : Jsonc json := {|
  object_get_ex j k := match j with JObj l => assoc k l | _ => None end;
  get_type j := match j with
    | JNull => type_null | JStr _ => type_string | JObj _ => type_object | JArr _ => type_array
    | _ => type_other end;
  get_string j := match j with
    | JNull => None | JStr s => Some s | JInt z => Some (fmt_d z) | _ => Some (B "?") end;
  array_items j := match j with JArr l => l | _ => [] end;
  optarray_items j := match j with JArr l => l | _ => [j] end;
  object_items j := match j with
    | JObj l => (fun kv => (kv.2, Some kv.1)) <$> l
    | JArr l => (fun v => (v, None)) <$> l
    | _ => [(j, None)] end;
  object_add := json_add;
  item_add j k i k' v := match j with
    | JObj l => match assoc k l with
                | Some (JArr items) => JObj (replace k (JArr (alter (fun x => json_add x k' v) i items)) l)
                | _ => j end
    | _ => j end;
  pack_target afid port := Some (JObj [(B "afid", JInt afid); (B "http-port", JInt port)]);
  pack_manifest install icons redpak id root :=
    Some (JObj [(B "install-dir", JStr install); (B "icons-dir", JStr icons);
                (B "redpak", JBool redpak); (B "redpak-id", opt_str id); (B "root-dir", JStr root)])
|}.

End jsonc.
