(* ===== verification/ApplyMustach.v ===== *)
(** * Values in templates: [src/src/units/apply-mustach.c]

    The functions given to the engine of [Mustach.v]: the names of tags are
    searched in a JSON value. The array [stack] of the exploration has its
    256 entries, not set at the beginning: reading out of it or reading an
    entry not set has no result ([None]), as has a null string given to
    [strcmp], to [fputs] or a null array. The null pointer and the value JSON
    null are the same pointer. *)
From S2P Require Import Prelude CString Mustach Jsonc.
Import mustach jsonc.

Module apply_mustach.

Definition MAX_DEPTH : nat := 256.

(** ** Names *)

(** a character before a key *)
Definition add_char {A} (c : ascii) (r : bytes * A) : bytes * A := (c :: r.1, r.2).

(** [keyval]: the key and, after the sign [=], the value *)
Fixpoint keyval (isptr : bool) (read : bytes) : bytes * option bytes :=
  match read with
  | [] => ([], None)
  | c :: read' =>
      if bool_decide (c = "="%char) then ([], Some read')
      else
        match read' with
        | [] => add_char c (keyval isptr read')
        | d :: read'' =>
            if isptr then
              if bool_decide (c = "~"%char) && bool_decide (d = "="%char) then add_char d (keyval isptr read'')
              else add_char c (keyval isptr read')
            else if bool_decide (c = "\"%char) && bool_decide (d = "\"%char) then
              add_char c (add_char d (keyval isptr read''))
            else if bool_decide (c = "\"%char) && bool_decide (d = "="%char) then add_char d (keyval isptr read'')
            else add_char c (keyval isptr read')
        end
  end.

(** the component of a JSON pointer and what follows *)
Fixpoint ptr_component (read : bytes) : bytes * bytes :=
  match read with
  | [] => ([], [])
  | c :: read' =>
      if bool_decide (c = "/"%char) then ([], read')
      else
        match read' with
        | [] => add_char c (ptr_component read')
        | d :: read'' =>
            if bool_decide (c = "~"%char) && bool_decide (d = "1"%char) then add_char "/"%char (ptr_component read'')
            else if bool_decide (c = "~"%char) && bool_decide (d = "0"%char) then add_char c (ptr_component read'')
            else add_char c (ptr_component read')
        end
  end.

(** the part before a separator, that a backslash quotes *)
Fixpoint quoted_component (sep : ascii) (read : bytes) : bytes * bytes :=
  match read with
  | [] => ([], [])
  | c :: read' =>
      if bool_decide (c = sep) then ([], read')
      else
        match read' with
        | [] => add_char c (quoted_component sep read')
        | d :: read'' =>
            if bool_decide (c = "\"%char) && (bool_decide (d = sep) || bool_decide (d = "\"%char)) then
              add_char d (quoted_component sep read'')
            else add_char c (quoted_component sep read')
        end
  end.

(** [first] *)
Definition first (name : bytes) (isptr : bool) : option (bytes * bytes) :=
  match name with
  | [] => None
  | _ => Some (if isptr then ptr_component name else quoted_component "."%char name)
  end.

(** [value] *)
Definition value (val : bytes) : option (bytes * bytes) :=
  match val with
  | [] => None
  | _ => Some (quoted_component "|"%char val)
  end.

(** [globalize] *)
Fixpoint globalize (key : bytes) : option bytes :=
  match key with
  | [] => None
  | c :: key' =>
      match globalize key' with
      | Some g => Some (c :: g)
      | None =>
          match bool_decide (c = ":"%char), key' with
          | true, d :: _ => if bool_decide (d = "*"%char) then None else Some [":"%char; "*"%char]
          | _, _ => None
          end
      end
  end.

(** ** The exploration *)

Section Exploration.
Context {J : Type} `{Jsonc J} (get_boolean : J -> bool).

(** [cont] is [None] for the null pointer *)
Record entry := Entry { cont : option J; obj : J; index : nat; count : nat }.
Record expl := Expl { root : J; depth : nat; stack : list (option entry) }.

(** the entry [i] of the stack *)
Definition read_stack (e : expl) (i : nat) : option entry := mjoin (stack e !! i).
Definition write_stack (x : entry) (i : nat) (s : list (option entry)) : list (option entry) := <[i := Some x]> s.

(** the pointer [o]: [None] when it is null *)
Definition pointer (o : J) : option J := if decide (get_type o = type_null) then None else Some o.

(** the search of the key [c] in the entries from [i] down to 0 *)
Fixpoint search_down (e : expl) (c : bytes) (i : nat) : option (option J) :=
  match read_stack e i with
  | None => None
  | Some x =>
      match object_get_ex (obj x) c, i with
      | Some o, _ => Some (Some o)
      | None, O => Some None
      | None, S i' => search_down e c i'
      end
  end.

(** the search of the first component, each globalisation in turn *)
Fixpoint search_first (fuel : nat) (e : expl) (c : bytes) : option (option J) :=
  match fuel with
  | O => None
  | S fuel' =>
      match search_down e c (depth e) with
      | None => None
      | Some (Some o) => Some (Some o)
      | Some None =>
          match globalize c with
          | None => Some None
          | Some c' => search_first fuel' e c'
          end
      end
  end.

(** the search of a component in an object, each globalisation in turn *)
Fixpoint search_sub (fuel : nat) (o : J) (c : bytes) : option (option J) :=
  match fuel with
  | O => None
  | S fuel' =>
      match object_get_ex o c with
      | Some r => Some (Some r)
      | None =>
          match globalize c with
          | None => Some None
          | Some c' => search_sub fuel' o c'
          end
      end
  end.

(** the search of the components of [n] from [o] *)
Fixpoint search_path (fuel : nat) (isptr : bool) (o : J) (n : bytes) : option (option J) :=
  match fuel with
  | O => None
  | S fuel' =>
      match first n isptr with
      | None => Some (Some o)
      | Some (c, n') =>
          match search_sub (S (length c)) o c with
          | None => None
          | Some None => Some None
          | Some (Some r) => search_path fuel' isptr r n'
          end
      end
  end.

(** whether one of the values of [v] is the string of [o] *)
Fixpoint any_value (fuel : nat) (o : J) (v : bytes) : option bool :=
  match fuel with
  | O => None
  | S fuel' =>
      match value v with
      | None => Some false
      | Some (c, v') =>
          match get_string o with
          | None => None
          | Some s => if beq c s then Some true else any_value fuel' o v'
          end
      end
  end.

(** the object is kept when its value is the one requested *)
Definition check_value (o : J) (v : option bytes) : option (option J) :=
  match v with
  | None => Some (pointer o)
  | Some v =>
      let i := starts_with (B "!") v in
      let v := if i then drop 1 v else v in
      match any_value (S (length v)) o v with
      | None => None
      | Some found => Some (if Bool.eqb i (negb found) then pointer o else None)
      end
  end.

(** [findin]; the outer [None] is for a failure *)
Definition findin (e : expl) (n : bytes) : option (option J) :=
  let isptr := starts_with (B "/") n in
  let n := if isptr then drop 1 n else n in
  let '(n, v) := keyval isptr n in
  if beq n (B ".") then
    match read_stack e (depth e) with
    | None => None
    | Some x => check_value (obj x) v
    end
  else
    match first n isptr with
    | None => Some None
    | Some (c, n) =>
        match search_first (S (length c)) e c with
        | None => None
        | Some None => Some None
        | Some (Some o) =>
            match search_path (S (length n)) isptr o n with
            | None => None
            | Some None => Some None
            | Some (Some o) => check_value o v
            end
        end
    end.

Definition find (e : expl) (name : bytes) : option (option J) := findin e name.

(** the text before [||] and the one after *)
Fixpoint cut_or (n : bytes) : bytes * bytes :=
  match n with
  | [] => ([], [])
  | c :: n' =>
      match n' with
      | [] => add_char c (cut_or n')
      | d :: n'' =>
          if bool_decide (c = "|"%char) && bool_decide (d = "|"%char) then ([], n'') else add_char c (cut_or n')
      end
  end.

Fixpoint findor_loop (fuel : nat) (e : expl) (n : bytes) : option (option J) :=
  match fuel with
  | O => None
  | S fuel' =>
      match n with
      | [] => Some None
      | _ =>
          let '(a, r) := cut_or n in
          match findin e a with
          | None => None
          | Some (Some o) => Some (Some o)
          | Some None => findor_loop fuel' e r
          end
      end
  end.

Definition findor (e : expl) (name : bytes) : option (option J) := findor_loop (S (length name)) e name.

(** ** The functions given to the engine *)

Definition start (e : expl) : Z * expl :=
  (0%Z, Expl (root e) 0 (write_stack (Entry None (root e) 0 1) 0 (stack e))).

(** [print] *)
Definition print (string : bytes) (escape : bool) : bytes :=
  if escape then
    flat_map (fun c => if bool_decide (c = "%"%char) then B "%%" else if bool_decide (c = NL) then B "\n" else [c]) string
  else string.

Definition put (name : bytes) (escape : bool) (e : expl) : option (Z * bytes * expl) :=
  match find e name with
  | None => None
  | Some None => Some (0%Z, [], e)
  | Some (Some o) =>
      match get_string o with
      | None => None
      | Some s => Some (0%Z, print s escape, e)
      end
  end.

(** the entry [x] is the new top of the stack *)
Definition push (e : expl) (x : entry) : expl := Expl (root e) (S (depth e)) (write_stack x (S (depth e)) (stack e)).

(** the count that an empty array leaves above the top of the stack is not
    written *)
Definition enter (name : bytes) (e : expl) : option (Z * expl) :=
  match findor e name with
  | None => None
  | Some o =>
      if bool_decide (MAX_DEPTH <= S (depth e)) then
        Some (MUSTACH_ERROR_TOO_DEEP, Expl (root e) (S (depth e)) (stack e))
      else
        match o with
        | None => Some (0%Z, e)
        | Some o =>
            if decide (get_type o = type_array) then
              match array_items o with
              | [] => Some (0%Z, e)
              | item :: _ => Some (1%Z, push e (Entry (Some o) item 0 (length (array_items o))))
              end
            else if decide (get_type o = type_object) then Some (1%Z, push e (Entry None o 0 1))
            else if get_boolean o then Some (1%Z, push e (Entry None o 0 1))
            else Some (0%Z, e)
        end
  end.

Definition next (e : expl) : option (Z * expl) :=
  match depth e with
  | O => Some (MUSTACH_ERROR_CLOSING, e)
  | S _ =>
      match read_stack e (depth e) with
      | None => None
      | Some x =>
          let index := S (index x) in
          if bool_decide (count x <= index) then
            Some (0%Z, Expl (root e) (depth e) (write_stack (Entry (cont x) (obj x) index (count x)) (depth e) (stack e)))
          else
            match cont x with
            | None => None
            | Some l =>
                match array_items l !! index with
                | None => None
                | Some o =>
                    Some (1%Z, Expl (root e) (depth e) (write_stack (Entry (cont x) o index (count x)) (depth e) (stack e)))
                end
            end
      end
  end.

Definition leave (e : expl) : expl := Expl (root e) (pred (depth e)) (stack e).

Definition itf : mustach_itf expl := Itf expl put enter next leave.

(** [apply_mustach]: the status and the text *)
Definition apply_mustach (fuel : nat) (template : bytes) (root : J) : option (Z * bytes) :=
  match mustach_mem itf Mustach_With_AllExtensions fuel start template (Expl root 0 (replicate MAX_DEPTH None)) with
  | None => None
  | Some (rc, text, _) => Some (if (rc <? 0)%Z then ((-1)%Z, text) else (rc, text))
  end.

(** ** Reference: searching in scopes

    The scopes are the values entered, from the innermost one. *)

Definition first_some {A B} (f : A -> option B) (l : list A) : option B := head (omap f l).

(** a key, then its globalisations, at most [fuel] keys *)
Fixpoint globalizations (fuel : nat) (c : bytes) : list bytes :=
  match fuel with
  | O => []
  | S fuel' => c :: match globalize c with None => [] | Some c' => globalizations fuel' c' end
  end.

Definition keys (c : bytes) : list bytes := globalizations (S (length c)) c.

(** the components of a name, at most [fuel] *)
Fixpoint components (fuel : nat) (isptr : bool) (n : bytes) : list bytes :=
  match fuel with
  | O => []
  | S fuel' => match first n isptr with None => [] | Some (c, n') => c :: components fuel' isptr n' end
  end.

(** the value of a key in an object, and the one of a path *)
Definition get_key (o : J) (c : bytes) : option J := first_some (object_get_ex o) (keys c).
Definition get_path (o : J) (path : list bytes) : option J :=
  foldl (fun o c => o ≫= (fun o => get_key o c)) (Some o) path.

(** the value at a path: its first key is searched in the scopes *)
Definition scope_path (sc : list J) (path : list bytes) : option J :=
  match path with
  | [] => None
  | c :: path => first_some (fun k => first_some (fun x => object_get_ex x k) sc) (keys c) ≫= (fun o => get_path o path)
  end.

Definition scope_find (sc : list J) (name : bytes) : option J :=
  let isptr := starts_with (B "/") name in
  let n := if isptr then drop 1 name else name in
  if beq n (B ".") then head sc ≫= pointer else scope_path sc (components (S (length n)) isptr n) ≫= pointer.

(** the alternatives of a name, at most [fuel] *)
Fixpoint alternatives (fuel : nat) (n : bytes) : list bytes :=
  match fuel, n with
  | O, _ | _, [] => []
  | S fuel', _ => let '(a, r) := cut_or n in a :: alternatives fuel' r
  end.

(** the values for which the body of a section is rendered *)
Definition section_values (sc : list J) (name : bytes) : list J :=
  match first_some (scope_find sc) (alternatives (S (length name)) name) with
  | None => []
  | Some o =>
      if decide (get_type o = type_array) then array_items o
      else if decide (get_type o = type_object) then [o]
      else if get_boolean o then [o] else []
  end.

Fixpoint render (sc : list J) (i : items) : bytes :=
  match i with
  | Nil => []
  | Text t k => t ++ render sc k
  | Put escape n k =>
      match scope_find sc n with None => [] | Some o => print (default [] (get_string o)) escape end ++ render sc k
  | Sec _ inverted n b k =>
      let values := section_values sc n in
      (if inverted then (if bool_decide (length values = 0) then render sc b else [])
       else concat ((fun x => render (x :: sc) b) <$> values)) ++ render sc k
  end.

(** no name asks for a value *)
Fixpoint keys_ok (i : items) : Prop :=
  match i with
  | Nil => True
  | Text _ k => keys_ok k
  | Put _ n k => ("="%char ∉ n) /\ keys_ok k
  | Sec _ _ n b k => ("="%char ∉ n) /\ keys_ok b /\ keys_ok k
  end.

(** ** Fuels *)

Definition globalizable (c : ascii) (key : bytes) : bool :=
  bool_decide (c = ":"%char) && match key with [] => false | d :: _ => negb (bool_decide (d = "*"%char)) end.

(** the places where a key can be globalised *)
Fixpoint colons (key : bytes) : nat :=
  match key with
  | [] => 0
  | c :: key' => (if globalizable c key' then 1 else 0) + colons key'
  end.

Lemma globalize_cons c key :
  globalize (c :: key) =
    match globalize key with
    | Some g => Some (c :: g)
    | None => if globalizable c key then Some [":"%char; "*"%char] else None
    end.
Proof.
  simpl. unfold globalizable. destruct (globalize key); [done|]. destruct (bool_decide _); [|done].
  destruct key as [|d key]; [done|]. simpl. by destruct (bool_decide _).
Qed.

Lemma globalize_head key g : globalize key = Some g -> head g = head key.
Proof.
  destruct key as [|c key]; [done|]. rewrite globalize_cons. destruct (globalize key); [by intros [= <-]|].
  destruct (globalizable c key) eqn:E; [|done]. intros [= <-]. unfold globalizable in E.
  apply andb_true_iff in E as [E%bool_decide_eq_true_1 _]. by rewrite E.
Qed.

Lemma globalize_colons key g : globalize key = Some g -> colons g < colons key.
Proof.
  revert g. induction key as [|c key IH]; intros g; [done|]. rewrite globalize_cons.
  destruct (globalize key) as [g'|] eqn:E.
  - intros [= <-]. specialize (IH g' eq_refl). cbn [colons].
    replace (globalizable c g') with (globalizable c key); [lia|].
    pose proof (globalize_head key g' E) as Hh. unfold globalizable. destruct key, g'; naive_solver.
  - destruct (globalizable c key) eqn:Eg; [|done]. intros [= <-]. cbn [colons]. rewrite Eg. simpl. lia.
Qed.

Lemma colons_le key : colons key <= length key.
Proof. induction key as [|c key IH]; simpl; [done|]. destruct (globalizable c key); lia. Qed.

Lemma search_sub_spec fuel o c :
  colons c < fuel -> search_sub fuel o c = Some (first_some (object_get_ex o) (globalizations fuel c)).
Proof.
  revert c. induction fuel as [|fuel IH]; intros c Hf; [lia|]. cbn [search_sub globalizations]. unfold first_some. simpl.
  destruct (object_get_ex o c); [done|]. destruct (globalize c) as [c'|] eqn:E; [|done].
  apply IH. apply globalize_colons in E. lia.
Qed.

(** the values of the entries from [i] down to 0 *)
Fixpoint objs (e : expl) (i : nat) : option (list J) :=
  match read_stack e i with
  | None => None
  | Some x =>
      match i with
      | O => Some [obj x]
      | S i' => match objs e i' with None => None | Some l => Some (obj x :: l) end
      end
  end.

Lemma search_down_spec e c i sc :
  objs e i = Some sc -> search_down e c i = Some (first_some (fun x => object_get_ex x c) sc).
Proof.
  revert sc. induction i as [|i IH]; intros sc; simpl; (destruct (read_stack e _) as [x|]; [|done]).
  - intros [= <-]. unfold first_some. simpl. by destruct (object_get_ex (obj x) c).
  - destruct (objs e i) as [l|]; [|done]. intros [= <-]. unfold first_some. simpl.
    destruct (object_get_ex (obj x) c); [done|]. by apply IH.
Qed.

Lemma search_first_spec fuel e c sc :
  objs e (depth e) = Some sc -> colons c < fuel ->
  search_first fuel e c = Some (first_some (fun k => first_some (fun x => object_get_ex x k) sc) (globalizations fuel c)).
Proof.
  intros Hsc. revert c. induction fuel as [|fuel IH]; intros c Hf; [lia|]. cbn [search_first globalizations].
  rewrite (search_down_spec e c _ sc Hsc). unfold first_some at 2. simpl.
  destruct (first_some _ sc); [done|]. destruct (globalize c) as [c'|] eqn:E; [|done].
  apply IH. apply globalize_colons in E. lia.
Qed.

(** ** The search implements the reference *)

(** induction for functions that read one or two characters *)
Lemma two_step_ind (P : bytes -> Prop) :
  P [] -> (forall c, P [c]) -> (forall c d n, P n -> P (d :: n) -> P (c :: d :: n)) -> forall n, P n.
Proof.
  intros H0 H1 H2 n. enough (P n /\ forall c, P (c :: n)) by tauto. induction n as [|d n [IH1 IH2]]; [done|].
  split; [apply IH2|]. intros c. by apply H2.
Qed.

Lemma add_char_snd {A} c (r : bytes * A) : (add_char c r).2 = r.2.
Proof. done. Qed.

Lemma ptr_component_cons c d n :
  ptr_component (c :: d :: n) =
    if bool_decide (c = "/"%char) then ([], d :: n)
    else if bool_decide (c = "~"%char) && bool_decide (d = "1"%char) then add_char "/"%char (ptr_component n)
    else if bool_decide (c = "~"%char) && bool_decide (d = "0"%char) then add_char c (ptr_component n)
    else add_char c (ptr_component (d :: n)).
Proof. reflexivity. Qed.

Lemma quoted_component_cons sep c d n :
  quoted_component sep (c :: d :: n) =
    if bool_decide (c = sep) then ([], d :: n)
    else if bool_decide (c = "\"%char) && (bool_decide (d = sep) || bool_decide (d = "\"%char)) then
      add_char d (quoted_component sep n)
    else add_char c (quoted_component sep (d :: n)).
Proof. reflexivity. Qed.

Lemma ptr_component_length n : length (ptr_component n).2 <= pred (length n).
Proof.
  induction n as [|c|c d n IH1 IH2] using two_step_ind.
  - done.
  - cbn [ptr_component]. by case_bool_decide.
  - rewrite ptr_component_cons. repeat case_match; rewrite ?add_char_snd; cbn [length pred snd] in *; lia.
Qed.

Lemma quoted_component_length sep n : length (quoted_component sep n).2 <= pred (length n).
Proof.
  induction n as [|c|c d n IH1 IH2] using two_step_ind.
  - done.
  - cbn [quoted_component]. by case_bool_decide.
  - rewrite quoted_component_cons. repeat case_match; rewrite ?add_char_snd; cbn [length pred snd] in *; lia.
Qed.

Lemma first_length n isptr c n' : first n isptr = Some (c, n') -> length n' < length n.
Proof.
  destruct n as [|d n]; [done|]. unfold first. intros E%(inj Some).
  pose proof (ptr_component_length (d :: n)) as H1. pose proof (quoted_component_length "."%char (d :: n)) as H2.
  destruct isptr; [rewrite E in H1|rewrite E in H2]; cbn [length pred snd] in *; lia.
Qed.

Lemma components_fuel f f' isptr n : length n < f -> length n < f' -> components f isptr n = components f' isptr n.
Proof.
  revert f' n. induction f as [|f IH]; intros [|f'] n Hf Hf'; try lia. simpl.
  destruct (first n isptr) as [[c n']|] eqn:E; [|done]. f_equal. apply first_length in E. apply IH; lia.
Qed.

Lemma search_path_spec fuel isptr o n :
  length n < fuel -> search_path fuel isptr o n = Some (get_path o (components fuel isptr n)).
Proof.
  revert o n. induction fuel as [|fuel IH]; intros o n Hf; [lia|]. cbn [search_path components].
  destruct (first n isptr) as [[c n']|] eqn:E; [|done]. apply first_length in E.
  rewrite search_sub_spec by (pose proof (colons_le c); lia). fold (keys c). fold (get_key o c).
  change (get_path o (c :: _)) with (foldl (fun o c => o ≫= (fun o => get_key o c)) (get_key o c) (components fuel isptr n')).
  destruct (get_key o c) as [r|]; [apply IH; lia|]. f_equal. clear. by induction (components fuel isptr n').
Qed.

Lemma keyval_plain isptr n : "="%char ∉ n -> keyval isptr n = (n, None).
Proof.
  induction n as [|c|c d n IH1 IH2] using two_step_ind; [done| |].
  - rewrite not_elem_of_cons. intros [Hc _]. simpl. by rewrite bool_decide_eq_false_2.
  - rewrite !not_elem_of_cons. intros (Hc & Hd & Hn).
    specialize (IH1 Hn). rewrite !not_elem_of_cons in IH2. specialize (IH2 (conj Hd Hn)).
    cbn [keyval] in *. rewrite (bool_decide_eq_false_2 (c = _)), (bool_decide_eq_false_2 (d = _)) in * by done.
    rewrite !andb_false_r. rewrite IH2. destruct isptr; [done|].
    destruct (_ && _); [rewrite IH1; done|done].
Qed.

Lemma read_top e sc : objs e (depth e) = Some sc -> exists x, read_stack e (depth e) = Some x /\ head sc = Some (obj x).
Proof.
  destruct (depth e) as [|i]; simpl; (destruct (read_stack e _) as [x|]; [|done]); [|destruct (objs e i); [|done]];
    intros [= <-]; by exists x.
Qed.

(** the search of a name, then the check of its value *)
Lemma findin_components e sc name (isptr := starts_with (B "/") name) n v :
  objs e (depth e) = Some sc -> keyval isptr (if isptr then drop 1 name else name) = (n, v) -> beq n (B ".") = false ->
  findin e name =
    match scope_path sc (components (S (length n)) isptr n) with None => Some None | Some o => check_value o v end.
Proof.
  intros Hsc Hk Hdot. unfold findin. fold isptr. rewrite Hk, Hdot. cbn [components].
  destruct (first n isptr) as [[c n']|] eqn:E; [|done]. apply first_length in E.
  rewrite (search_first_spec _ e c sc Hsc) by (pose proof (colons_le c); lia). fold (keys c). cbn [scope_path].
  destruct (first_some _ (keys c)) as [o|]; [|done]. rewrite search_path_spec by lia. cbn [mbind option_bind].
  by rewrite (components_fuel (S (length n')) (length n)) by lia.
Qed.

Lemma findin_spec e sc name :
  objs e (depth e) = Some sc -> ("="%char ∉ name) -> findin e name = Some (scope_find sc name).
Proof.
  intros Hsc Hname. set (isptr := starts_with (B "/") name). set (n := if isptr then drop 1 name else name).
  assert (Hn : "="%char ∉ n).
  { unfold n. destruct isptr; [|done]. intros Hi. apply Hname. destruct name; [done|]. apply elem_of_cons. by right. }
  pose proof (keyval_plain isptr n Hn) as Hk. unfold scope_find. fold isptr. fold n. destruct (beq n (B ".")) eqn:Ed.
  - unfold findin. fold isptr. fold n. rewrite Hk, Ed. destruct (read_top e sc Hsc) as (x & -> & ->). done.
  - rewrite (findin_components e sc name n None) by done. fold isptr. by destruct (scope_path _ _).
Qed.

Lemma cut_or_length n : n <> [] -> length (cut_or n).2 < length n.
Proof.
  assert (Hc : forall c d n, cut_or (c :: d :: n) =
    if bool_decide (c = "|"%char) && bool_decide (d = "|"%char) then ([], n) else add_char c (cut_or (d :: n))) by done.
  induction n as [|c|c d n IH1 IH2] using two_step_ind; intros Hn; [done| |].
  - simpl. lia.
  - rewrite Hc. specialize (IH2 ltac:(done)). case_match; rewrite ?add_char_snd; cbn [length snd] in *; lia.
Qed.

Lemma cut_or_elem n x : (x ∉ n) -> (x ∉ (cut_or n).1) /\ (x ∉ (cut_or n).2).
Proof.
  assert (Hc : forall c d n, cut_or (c :: d :: n) =
    if bool_decide (c = "|"%char) && bool_decide (d = "|"%char) then ([], n) else add_char c (cut_or (d :: n))) by done.
  induction n as [|c|c d n IH1 IH2] using two_step_ind; [done| |].
  - simpl. rewrite !not_elem_of_cons. naive_solver.
  - rewrite Hc. intros Hx. assert (Hd : (x ∉ d :: n) /\ x <> c) by (rewrite not_elem_of_cons in Hx |- *; set_solver).
    destruct Hd as [Hd Hxc]. specialize (IH2 Hd). case_match; simpl; [set_solver|]. destruct IH2. set_solver.
Qed.

Lemma findor_loop_spec fuel e sc name :
  objs e (depth e) = Some sc -> ("="%char ∉ name) -> length name < fuel ->
  findor_loop fuel e name = Some (first_some (scope_find sc) (alternatives fuel name)).
Proof.
  intros Hsc. revert name. induction fuel as [|fuel IH]; intros name Hn Hf; [lia|]. cbn [findor_loop alternatives].
  destruct name as [|c name]; [done|]. pose proof (cut_or_length (c :: name)) as Hl. pose proof (cut_or_elem (c :: name) _ Hn) as He.
  destruct (cut_or (c :: name)) as [a r]. cbn [fst snd] in *. rewrite (findin_spec e sc) by tauto. unfold first_some. simpl.
  destruct (scope_find sc a); [done|]. apply IH; [tauto|]. specialize (Hl ltac:(done)). lia.
Qed.

Lemma findor_spec e sc name :
  objs e (depth e) = Some sc -> ("="%char ∉ name) ->
  findor e name = Some (first_some (scope_find sc) (alternatives (S (length name)) name)).
Proof. intros Hsc Hn. apply findor_loop_spec; [done|done|lia]. Qed.

(** ** The stack *)

(** the entries up to the depth are the same *)
Definition same (e e' : expl) : Prop :=
  depth e' = depth e /\ length (stack e') = length (stack e) /\ forall i, i <= depth e -> read_stack e' i = read_stack e i.

Lemma same_refl e : same e e.
Proof. done. Qed.

Lemma same_trans e1 e2 e3 : same e1 e2 -> same e2 e3 -> same e1 e3.
Proof.
  intros (Hd1 & Hl1 & Hs1) (Hd2 & Hl2 & Hs2). split_and!; [congruence..|]. intros i Hi. rewrite Hs2 by lia. by apply Hs1.
Qed.

Lemma objs_same e e' i : (forall j, j <= i -> read_stack e' j = read_stack e j) -> objs e' i = objs e i.
Proof. induction i as [|i IH]; intros Hs; simpl; rewrite Hs by lia; [done|]. by rewrite IH by auto with lia. Qed.

Lemma read_write_same r d x i s : i < length s -> read_stack (Expl r d (write_stack x i s)) i = Some x.
Proof. intros Hi. unfold read_stack, write_stack. simpl. by rewrite list_lookup_insert_eq. Qed.

Lemma read_write_other r d x i j s r' d' :
  i <> j -> read_stack (Expl r d (write_stack x i s)) j = read_stack (Expl r' d' s) j.
Proof. intros Hij. unfold read_stack, write_stack. simpl. by rewrite list_lookup_insert_ne. Qed.

Lemma objs_top e d x sc :
  depth e = S d -> read_stack e (S d) = Some x -> objs e d = Some sc -> objs e (depth e) = Some (obj x :: sc).
Proof. intros -> Hx Hsc. simpl. by rewrite Hx, Hsc. Qed.

(** what is needed of a section: the values after the first one are those of
    the array [c] *)
Definition entry_values (c : option J) (l : list J) : Prop :=
  forall i y, l !! S i = Some y -> exists o, c = Some o /\ array_items o !! S i = Some y.

Lemma enter_spec e sc n :
  objs e (depth e) = Some sc -> ("="%char ∉ n) -> S (depth e) < MAX_DEPTH ->
  (section_values sc n = [] /\ enter n e = Some (0%Z, e)) \/
  (exists x l c, section_values sc n = x :: l /\ enter n e = Some (1%Z, push e (Entry c x 0 (length (x :: l)))) /\
     entry_values c (x :: l)).
Proof.
  intros Hsc Hn Hd. unfold section_values, enter. rewrite (findor_spec e sc) by done.
  rewrite bool_decide_eq_false_2 by lia. destruct (first_some _ _) as [o|]; [|by left].
  destruct (decide (get_type o = type_array)).
  - destruct (array_items o) as [|x l] eqn:El; [by left|]. right. exists x, l, (Some o). split_and!; [done..|].
    intros i y Hy. exists o. by rewrite El.
  - assert (Hone : entry_values None [o]) by (intros i y Hy; done).
    destruct (decide (get_type o = type_object)); [by right; exists o, [], None|].
    destruct (get_boolean o); [by right; exists o, [], None|by left].
Qed.

(** a state in which the section of [l] is at its item [i], entered from the
    depth [d] *)
Definition in_section (e : expl) (d : nat) (c : option J) (l : list J) (i : nat) (x : J) : Prop :=
  depth e = S d /\ length (stack e) = MAX_DEPTH /\ read_stack e (S d) = Some (Entry c x i (length l)) /\ l !! i = Some x.

Lemma same_in_section e e' d c l i x : in_section e d c l i x -> same e e' -> in_section e' d c l i x.
Proof.
  intros (Hd & Hl & Hr & Hx) (Hd' & Hl' & Hr'). unfold in_section. rewrite Hr' by lia. split_and!; [congruence..|done].
Qed.

Lemma next_last e d c l i x :
  in_section e d c l i x -> length l <= S i -> S d < MAX_DEPTH ->
  exists e', next e = Some (0%Z, e') /\ depth e' = S d /\ length (stack e') = MAX_DEPTH /\
    forall j, j <= d -> read_stack e' j = read_stack e j.
Proof.
  intros (Hd & Hl & Hr & Hx) Hi Hm. unfold next. rewrite Hd, Hr. cbn [index count]. rewrite bool_decide_eq_true_2 by done.
  eexists. split; [reflexivity|]. cbn [depth stack]. split_and!; [done|unfold write_stack; by rewrite length_insert|].
  intros j Hj. destruct e. apply read_write_other. lia.
Qed.

Lemma next_more e d c l i x y :
  in_section e d c l i x -> entry_values c l -> l !! S i = Some y -> S d < MAX_DEPTH ->
  exists e', next e = Some (1%Z, e') /\ in_section e' d c l (S i) y /\
    forall j, j <= d -> read_stack e' j = read_stack e j.
Proof.
  intros (Hd & Hl & Hr & Hx) Hc Hy Hm. destruct (Hc i y Hy) as (o & -> & Ho).
  unfold next. rewrite Hd, Hr. cbn [index count cont]. pose proof (lookup_lt_Some _ _ _ Hy).
  rewrite bool_decide_eq_false_2 by lia. rewrite Ho.
  eexists. split; [reflexivity|]. split.
  - unfold in_section. cbn [depth stack]. split_and!; [done|unfold write_stack; by rewrite length_insert| |done].
    apply read_write_same. lia.
  - intros j Hj. destruct e. apply read_write_other. lia.
Qed.

(** the items of a section from [i] *)
Lemma iterates_section b sc d c l :
  S d < MAX_DEPTH -> entry_values c l ->
  (forall e sc', depth e = S d -> length (stack e) = MAX_DEPTH -> objs e (depth e) = Some sc' ->
     exists e', renders itf b e (render sc' b) e' /\ same e e') ->
  forall k i x e, length l - i <= k -> in_section e d c l i x -> objs e d = Some sc ->
    exists e', iterates itf b e (concat ((fun x => render (x :: sc) b) <$> drop i l)) e' /\
      depth e' = d /\ length (stack e') = MAX_DEPTH /\ forall j, j <= d -> read_stack e' j = read_stack e j.
Proof.
  intros Hm Hc Hb. induction k as [|k IH]; intros i x e Hk He Hsc.
  { destruct He as (_ & _ & _ & Hx). apply lookup_lt_Some in Hx. lia. }
  pose proof He as (Hd & Hl & Hr & Hx).
  destruct (Hb e (x :: sc)) as (e1 & Hren & Hs1); [done..|by apply (objs_top e d (Entry c x i (length l)))|].
  pose proof (same_in_section e e1 d c l i x He Hs1) as He1. pose proof Hs1 as (_ & _ & Hr1).
  rewrite (drop_S l x i Hx), fmap_cons. cbn [concat]. destruct (l !! S i) as [y|] eqn:Ey.
  - destruct (next_more e1 d c l i x y He1 Hc Ey Hm) as (e2 & Hn & He2 & Hr2).
    destruct (IH (S i) y e2) as (e' & Hi & Hd' & Hl' & Hr'); [lia|done| |].
    { rewrite (objs_same e e2), Hsc; [done|]. intros j Hj. rewrite Hr2 by done. apply Hr1. lia. }
    exists e'. split_and!; [|done|done|].
    + by apply (I_more _ _ _ _ e1 1%Z e2).
    + intros j Hj. rewrite Hr', Hr2 by done. apply Hr1. lia.
  - apply lookup_ge_None in Ey. destruct (next_last e1 d c l i x He1 Ey Hm) as (e2 & Hn & Hd2 & Hl2 & Hr2).
    rewrite drop_ge by done. cbn. rewrite app_nil_r. exists (leave e2). split_and!.
    + by apply (I_last itf b e _ e1 e2).
    + simpl. by rewrite Hd2.
    + done.
    + intros j Hj. etransitivity; [|apply Hr1; lia]. by rewrite <-Hr2 by done.
Qed.

Lemma objs_read e i sc : objs e i = Some sc -> forall j, j <= i -> is_Some (read_stack e j).
Proof.
  revert sc. induction i as [|i IH]; intros sc Hsc j Hj; simpl in Hsc.
  - replace j with 0 by lia. by destruct (read_stack e 0).
  - destruct (decide (j = S i)) as [->|]; [by destruct (read_stack e (S i))|].
    destruct (read_stack e (S i)); [|done]. destruct (objs e i) as [l|]; [|done]. apply (IH l); [done|lia].
Qed.

Lemma push_in_section e c x l :
  length (stack e) = MAX_DEPTH -> S (depth e) < MAX_DEPTH ->
  in_section (push e (Entry c x 0 (length (x :: l)))) (depth e) c (x :: l) 0 x.
Proof.
  intros Hl Hd. unfold in_section, push. cbn [depth stack].
  split_and!; [done|unfold write_stack; by rewrite length_insert|apply read_write_same; lia|done].
Qed.

Lemma push_below e x j : j <= depth e -> read_stack (push e x) j = read_stack e j.
Proof. intros Hj. destruct e as [r d s]. apply read_write_other. simpl in *. lia. Qed.

(** the laws of the strings of JSON values *)
Context (string_of : forall o, get_type o <> type_null -> is_Some (get_string o)).

Lemma scope_find_pointer sc n o : scope_find sc n = Some o -> get_type o <> type_null.
Proof.
  assert (Hp : forall a : option J, a ≫= pointer = Some o -> get_type o <> type_null).
  { intros [a|]; [|done]. simpl. unfold pointer. destruct (decide _); [done|]. by intros [= <-]. }
  unfold scope_find. destruct (beq _ _); [apply Hp|]. apply Hp.
Qed.

Lemma put_spec e sc n escape :
  objs e (depth e) = Some sc -> ("="%char ∉ n) ->
  put n escape e = Some (0%Z, match scope_find sc n with None => [] | Some o => print (default [] (get_string o)) escape end, e).
Proof.
  intros Hsc Hn. unfold put, find. rewrite (findin_spec e sc) by done. destruct (scope_find sc n) as [o|] eqn:E; [|done].
  destruct (string_of o) as [s ->]; [by apply (scope_find_pointer sc n)|done].
Qed.

(** the engine with these functions renders the tree *)
Lemma renders_render i : keys_ok i ->
  forall e sc, length (stack e) = MAX_DEPTH -> objs e (depth e) = Some sc -> nest i + depth e < MAX_DEPTH ->
    exists e', renders itf i e (render sc i) e' /\ same e e'.
Proof.
  induction i as [|t k IH|escape n k IH|a inv n b IHb k IHk]; intros Hk e sc Hl Hsc Hd; cbn [nest render] in *.
  - exists e. split; [apply R_nil|apply same_refl].
  - destruct (IH Hk e sc Hl Hsc Hd) as (e' & Hr & Hs). exists e'. split; [by apply R_text|done].
  - destruct Hk as [Hn Hk]. destruct (IH Hk e sc Hl Hsc Hd) as (e' & Hr & Hs). exists e'. split; [|done].
    apply (R_put itf _ _ _ _ 0%Z _ e); [by apply put_spec|done|done].
  - destruct Hk as (Hn & Hkb & Hkk). destruct (enter_spec e sc n Hsc Hn) as [[Hv He]|(x & l & c & Hv & He & Hc)]; [lia| |]; rewrite Hv.
    + destruct inv; cbn [length fmap list_fmap concat bool_decide].
      * destruct (IHb Hkb e sc) as (e1 & Hr1 & Hs1); [done..|lia|]. pose proof Hs1 as (Hd1 & Hl1 & Hrd1).
        destruct (IHk Hkk e1 sc) as (e2 & Hr2 & Hs2); [congruence|rewrite Hd1; by rewrite (objs_same e e1)|lia|].
        exists e2. split; [|by eapply same_trans]. by apply (R_not itf _ _ _ _ _ e _ e1).
      * destruct (IHk Hkk e sc) as (e' & Hr & Hs); [done..|lia|]. exists e'. split; [|done].
        by apply (R_skip itf _ _ _ _ _ e).
    + set (e1 := push e (Entry c x 0 (length (x :: l)))) in *.
      assert (H1 : in_section e1 (depth e) c (x :: l) 0 x) by (apply push_in_section; [done|lia]).
      destruct inv; cbn [length bool_decide].
      * destruct (IHk Hkk (leave e1) sc) as (e' & Hr & Hs); [apply H1| |simpl; lia|].
        { simpl. rewrite <-Hsc. apply objs_same. intros j Hj. by apply push_below. }
        exists e'. split; [by apply (R_not_skip itf _ _ _ _ _ 1%Z e1)|].
        eapply same_trans; [|exact Hs]. split_and!; [done|rewrite Hl; apply H1|intros j Hj; by apply push_below].
      * destruct (iterates_section b sc (depth e) c (x :: l)) with (k := length (x :: l)) (i := 0) (x := x) (e := e1)
          as (e2 & Hi & Hd2 & Hl2 & Hr2); [lia|done| |lia|done| |].
        { intros e' sc' Hd' Hl' Hsc'. apply IHb; [done..|lia]. }
        { rewrite <-Hsc. apply objs_same. intros j Hj. by apply push_below. }
        assert (Hs2 : same e e2).
        { split_and!; [done|congruence|]. intros j Hj. rewrite Hr2 by done. by apply push_below. }
        destruct (IHk Hkk e2 sc) as (e' & Hr & Hs); [done|rewrite Hd2, (objs_same e e2); [done|apply Hs2]|lia|].
        exists e'. split; [|by eapply same_trans]. by apply (R_enter itf _ _ _ _ _ 1%Z e1 _ e2).
Qed.

(** C6: applying a value to a template that is the text of a tree gives what
    the tree renders: each tag is replaced by the string of the value that its
    name designates in the nearest enclosing value, a section is rendered once
    for each item of the array it designates, once for an object or a true
    value and not at all otherwise; no access is done out of the stack of the
    exploration, to an entry not set or to a null pointer. *)
Theorem apply_mustach_renders root i st :
  names_ok i -> keys_ok i -> layout Fresh i = Some st -> nest i < MAX_DEPTH ->
  exists n, forall fuel, n <= fuel -> apply_mustach fuel (mustach.print i) root = Some (0%Z, render [root] i).
Proof.
  intros Hn Hk Hl Hd. set (e := (start (Expl root 0 (replicate MAX_DEPTH None))).2).
  destruct (renders_render i Hk e [root]) as (e' & Hr & _); [done|done|simpl; lia|].
  destruct (process_print itf Mustach_With_AllExtensions i e _ e' st Hr Hn Hl) as [n Hp]; [unfold MAX_DEPTH, MUSTACH_MAX_DEPTH in *; lia|].
  exists n. intros fuel Hf. unfold apply_mustach, mustach_mem.
  change (start (Expl root 0 (replicate MAX_DEPTH None))) with (0%Z, e). cbn iota beta. simpl Z.eqb. cbn iota.
  by rewrite Hp.
Qed.

End Exploration.

(** ** Names that designate a path

    A path of keys is written as a JSON pointer or with dots, the characters
    that have a meaning being quoted. *)

Definition separator (isptr : bool) : ascii := if isptr then "/"%char else "."%char.

Section Names.
Context {J : Type} `{Jsonc J}.

(** a character of a key, [eq] telling to quote the sign [=] too *)
Definition quote_char (eq isptr : bool) (c : ascii) : bytes :=
  if eq && bool_decide (c = "="%char) then (if isptr then B "~=" else B "\=")
  else if isptr then
    if bool_decide (c = "~"%char) then B "~0" else if bool_decide (c = "/"%char) then B "~1" else [c]
  else if bool_decide (c = "\"%char) then B "\\" else if bool_decide (c = "."%char) then B "\." else [c].

Fixpoint join_keys (eq isptr : bool) (ks : list bytes) : bytes :=
  match ks with
  | [] => []
  | k :: ks' =>
      flat_map (quote_char eq isptr) k ++ match ks' with [] => [] | _ => separator isptr :: join_keys eq isptr ks' end
  end.

(** the values, each but the last followed by a bar *)
Definition quote_value (c : ascii) : bytes :=
  if bool_decide (c = "\"%char) then B "\\" else if bool_decide (c = "|"%char) then B "\|" else [c].

Fixpoint join_values (vs : list bytes) : bytes :=
  match vs with
  | [] => []
  | v :: vs' => flat_map quote_value v ++ match vs' with [] => [] | _ => "|"%char :: join_values vs' end
  end.

(** a path and, possibly, the values wanted or not wanted *)
Definition name_of (isptr : bool) (ks : list bytes) (cond : option (bool * list bytes)) : bytes :=
  (if isptr then B "/" else []) ++ join_keys true isptr ks ++
  match cond with
  | None => []
  | Some (neg, vs) => B "=" ++ (if neg then B "!" else []) ++ join_values vs
  end.

Lemma keyval_char (isptr : bool) c rest :
  c <> "="%char -> c <> (if isptr then "~"%char else "\"%char) ->
  keyval isptr (c :: rest) = add_char c (keyval isptr rest).
Proof.
  intros He Hc. destruct rest as [|d rest]; cbn [keyval]; rewrite bool_decide_eq_false_2 by done; [done|].
  destruct isptr; by rewrite !(bool_decide_eq_false_2 (c = _)) by done.
Qed.

Lemma keyval_quote (isptr : bool) c rest :
  keyval isptr (quote_char true isptr c ++ rest) =
    (quote_char false isptr c ++ (keyval isptr rest).1, (keyval isptr rest).2).
Proof.
  unfold quote_char. simpl. case_bool_decide as Heq.
  { subst c. by destruct isptr. }
  destruct isptr; repeat case_bool_decide; subst; try by apply keyval_char.
  - transitivity (add_char "~"%char (keyval true ("0"%char :: rest))); [done|by rewrite keyval_char].
  - transitivity (add_char "~"%char (keyval true ("1"%char :: rest))); [done|by rewrite keyval_char].
  - done.
  - transitivity (add_char "\"%char (keyval false ("."%char :: rest))); [done|by rewrite keyval_char].
Qed.

Lemma keyval_quotes (isptr : bool) k rest :
  keyval isptr (flat_map (quote_char true isptr) k ++ rest) =
    (flat_map (quote_char false isptr) k ++ (keyval isptr rest).1, (keyval isptr rest).2).
Proof.
  induction k as [|c k IH]; simpl; [by destruct (keyval isptr rest)|].
  rewrite <-(assoc_L (++)), keyval_quote, IH. cbn [fst snd]. by rewrite (assoc_L (++)).
Qed.

Lemma keyval_join (isptr : bool) ks rest :
  keyval isptr (join_keys true isptr ks ++ rest) =
    (join_keys false isptr ks ++ (keyval isptr rest).1, (keyval isptr rest).2).
Proof.
  induction ks as [|k ks IH]; [simpl; by destruct (keyval isptr rest)|]. cbn [join_keys].
  rewrite <-!(assoc_L (++)), keyval_quotes. destruct ks as [|k' ks]; [done|].
  rewrite <-app_comm_cons, (keyval_char isptr (separator isptr)) by (by destruct isptr). rewrite IH. cbn [add_char fst snd]. done.
Qed.

Definition component (isptr : bool) : bytes -> bytes * bytes :=
  if isptr then ptr_component else quoted_component "."%char.

Lemma component_char (isptr : bool) c rest :
  c <> separator isptr -> c <> (if isptr then "~"%char else "\"%char) ->
  component isptr (c :: rest) = add_char c (component isptr rest).
Proof.
  intros Hs Hc. destruct isptr, rest as [|d rest]; cbn [component];
    rewrite ?ptr_component_cons, ?quoted_component_cons; cbn [ptr_component quoted_component];
    by rewrite !(bool_decide_eq_false_2 (c = _)) by done.
Qed.

Lemma component_quote (isptr : bool) c rest :
  component isptr (quote_char false isptr c ++ rest) = add_char c (component isptr rest).
Proof.
  unfold quote_char. simpl. destruct isptr; repeat case_bool_decide; subst; try done; by apply component_char.
Qed.

Lemma component_quotes (isptr : bool) k rest :
  component isptr (flat_map (quote_char false isptr) k ++ rest) =
    (k ++ (component isptr rest).1, (component isptr rest).2).
Proof.
  induction k as [|c k IH]; simpl; [by destruct (component isptr rest)|].
  by rewrite <-(assoc_L (++)), component_quote, IH.
Qed.

Lemma quote_char_nonempty eq isptr c : quote_char eq isptr c <> [].
Proof. unfold quote_char. repeat case_match; done. Qed.

Lemma first_component isptr n : n <> [] -> first n isptr = Some (component isptr n).
Proof. destruct n; [done|]. by destruct isptr. Qed.

Lemma components_join (isptr : bool) ks fuel :
  last ks <> Some [] -> length (join_keys false isptr ks) < fuel -> components fuel isptr (join_keys false isptr ks) = ks.
Proof.
  revert fuel. induction ks as [|k ks IH]; intros fuel Hl Hf; (destruct fuel as [|fuel]; [lia|]); [done|].
  assert (Hf' : first (join_keys false isptr (k :: ks)) isptr = Some (k, join_keys false isptr ks)).
  { assert (Hne : join_keys false isptr (k :: ks) <> []).
    { cbn [join_keys]. destruct ks; [|by destruct (flat_map _ k)]. destruct k as [|c k]; [done|]. simpl.
      pose proof (quote_char_nonempty false isptr c). by destruct (quote_char false isptr c). }
    rewrite first_component by done. f_equal. cbn [join_keys].
    rewrite component_quotes. destruct ks as [|k' ks].
    - by destruct isptr; rewrite app_nil_r.
    - replace (component isptr (separator isptr :: _)) with (@nil ascii, join_keys false isptr (k' :: ks)) by (by destruct isptr).
      by rewrite app_nil_r. }
  cbn [components]. rewrite Hf'. f_equal. apply first_length in Hf'. apply IH; [|lia]. by destruct ks.
Qed.

Lemma quoted_value c rest :
  quoted_component "|"%char (quote_value c ++ rest) = add_char c (quoted_component "|"%char rest).
Proof.
  unfold quote_value. repeat case_bool_decide; subst; [done..|]. destruct rest as [|d rest]; simpl app;
    rewrite ?quoted_component_cons; cbn [quoted_component]; by rewrite !(bool_decide_eq_false_2 (c = _)) by done.
Qed.

Lemma quoted_values v rest :
  quoted_component "|"%char (flat_map quote_value v ++ rest) =
    (v ++ (quoted_component "|"%char rest).1, (quoted_component "|"%char rest).2).
Proof.
  induction v as [|c v IH]; simpl; [by destruct (quoted_component _ rest)|].
  by rewrite <-(assoc_L (++)), quoted_value, IH.
Qed.

Lemma quote_value_nonempty c : quote_value c <> [].
Proof. unfold quote_value. repeat case_match; done. Qed.

Lemma value_join v vs :
  last (v :: vs) <> Some [] -> value (join_values (v :: vs)) = Some (v, join_values vs).
Proof.
  intros Hl. assert (Hne : join_values (v :: vs) <> []).
  { cbn [join_values]. destruct vs; [|by destruct (flat_map _ v)]. destruct v as [|c v]; [done|]. simpl.
    pose proof (quote_value_nonempty c). by destruct (quote_value c). }
  replace (value (join_values (v :: vs))) with (Some (quoted_component "|"%char (join_values (v :: vs))))
    by (by destruct (join_values (v :: vs))).
  f_equal. cbn [join_values]. rewrite quoted_values. destruct vs as [|v' vs]; simpl; by rewrite app_nil_r.
Qed.

Lemma any_value_join fuel o s vs :
  get_string o = Some s -> last vs <> Some [] -> length (join_values vs) < fuel ->
  any_value fuel o (join_values vs) = Some (bool_decide (s ∈ vs)).
Proof.
  intros Hs. revert fuel. induction vs as [|v vs IH]; intros fuel Hl Hf; (destruct fuel as [|fuel]; [lia|]); cbn [any_value].
  { done. }
  rewrite value_join, Hs by done. destruct (beq v s) eqn:E.
  - apply beq_true in E as ->. rewrite bool_decide_eq_true_2; [done|]. apply elem_of_cons. by left.
  - apply beq_false in E. rewrite IH.
    + f_equal. apply bool_decide_ext. rewrite elem_of_cons. naive_solver.
    + by destruct vs.
    + pose proof (value_join v vs Hl) as Hv. unfold value in Hv. destruct (join_values (v :: vs)) eqn:Ej; [done|].
      rewrite <-Ej in *. pose proof (quoted_component_length "|"%char (join_values (v :: vs))) as Hlen.
      apply (inj Some) in Hv. rewrite Hv in Hlen. rewrite Ej in *. cbn [snd length pred] in *. lia.
Qed.

(** the value is kept when its string is one of those wanted, or is none of
    those not wanted *)
Definition select (o : J) (cond : option (bool * list bytes)) : option J :=
  match cond with
  | None => pointer o
  | Some (neg, vs) => if xorb neg (bool_decide (default [] (get_string o) ∈ vs)) then pointer o else None
  end.

Definition cond_ok (o : J) (cond : option (bool * list bytes)) : Prop :=
  match cond with
  | None => True
  | Some (neg, vs) => is_Some (get_string o) /\ last vs <> Some [] /\ (neg = false -> head (join_values vs) <> Some "!"%char)
  end.

Lemma check_value_select o neg vs :
  cond_ok o (Some (neg, vs)) -> check_value o (Some ((if neg then B "!" else []) ++ join_values vs)) = Some (select o (Some (neg, vs))).
Proof.
  intros ([s Hs] & Hl & Hh). unfold check_value, select. rewrite Hs. cbn [default].
  assert (Hb : starts_with (B "!") ((if neg then B "!" else []) ++ join_values vs) = neg).
  { destruct neg; [done|]. specialize (Hh eq_refl). destruct (join_values vs) as [|c t]; [done|]. unfold B. simpl in *.
    rewrite bool_decide_eq_false_2; [done|]. congruence. }
  rewrite Hb. replace (if neg then drop 1 _ else _) with (join_values vs) by (by destruct neg).
  rewrite (any_value_join _ o s vs) by (done || lia). cbn iota. by destruct neg, (bool_decide _).
Qed.

(** a path that a name can designate: its last key is not empty, it is not
    the name of the current value and, with dots, it does not begin as a JSON
    pointer *)
Definition path_ok (isptr : bool) (ks : list bytes) : Prop :=
  ks <> [] /\ last ks <> Some [] /\
  if isptr then ks <> [B "."] else default None (head <$> head ks) <> Some "/"%char.

Lemma name_of_isptr (isptr : bool) ks cond : path_ok isptr ks -> starts_with (B "/") (name_of isptr ks cond) = isptr.
Proof.
  intros (Hne & Hl & Hh). destruct isptr; [done|]. destruct ks as [|[|c k] ks]; [done| |].
  - by destruct ks.
  - unfold name_of. cbn [join_keys flat_map app]. simpl in Hh. unfold quote_char. unfold B in *.
    repeat case_bool_decide; simpl; try done. rewrite bool_decide_eq_false_2; [done|]. congruence.
Qed.

Lemma join_keys_dot (isptr : bool) ks : path_ok isptr ks -> beq (join_keys false isptr ks) (B ".") = false.
Proof.
  intros (Hne & Hl & Hh). apply beq_false. intros E.
  pose proof (components_join isptr ks 2 Hl) as Hc. rewrite E in Hc. specialize (Hc ltac:(simpl; lia)).
  destruct isptr; subst ks; done.
Qed.

(** C22: a path of keys, written as a JSON pointer or with dots, its characters
    that have a meaning being quoted, designates the value at this path from
    the nearest enclosing value that has its first key, each key being
    globalised when it is missing; followed by [=] and values, it is this
    value when its string is one of the values, or when it is none of them
    after an exclamation mark. *)
Theorem findin_name_of e sc (isptr : bool) ks cond :
  objs e (depth e) = Some sc -> path_ok isptr ks -> (forall o, scope_path sc ks = Some o -> cond_ok o cond) ->
  findin e (name_of isptr ks cond) =
    Some (match scope_path sc ks with None => None | Some o => select o cond end).
Proof.
  intros Hsc Hks Hcond.
  set (v := match cond with None => None | Some (neg, vs) => Some ((if neg then B "!" else []) ++ join_values vs) end).
  rewrite (findin_components e sc _ (join_keys false isptr ks) v); [|done| |by apply join_keys_dot].
  - rewrite name_of_isptr, components_join by (done || apply Hks || lia).
    destruct (scope_path sc ks) as [o|] eqn:E; [|done]. specialize (Hcond o eq_refl).
    destruct cond as [[neg vs]|]; [by apply check_value_select|done].
  - rewrite name_of_isptr by done.
    replace (if isptr then drop 1 _ else _) with
      (join_keys true isptr ks ++ match cond with None => [] | Some (neg, vs) => B "=" ++ (if neg then B "!" else []) ++ join_values vs end)
      by (by destruct isptr).
    rewrite keyval_join. destruct cond as [[neg vs]|]; simpl; by rewrite app_nil_r.
Qed.

End Names.

(** ** Examples *)

Definition json_boolean (j : json) : bool := match j with JBool b => b | JNull => false | _ => true end.

Lemma json_string_of (o : json) : get_type o <> type_null -> is_Some (get_string o).
Proof. destruct o; naive_solver. Qed.

Definition sample : json :=
  JObj [(B "name", JStr (B "app")); (B "none", JNull); (B "a/b=c", JObj [(B "x.y", JStr (B "1|2"))]);
        (B "targets", JArr [JObj [(B "id", JStr (B "main"))]; JObj [(B "id", JStr (B "aux"))]]);
        (B "perm:partner", JObj [(B "lv:*", JBool true)])].

Definition sample_expl : @expl json := (start (Expl sample 0 (replicate MAX_DEPTH None))).2.

(** a section over the targets; [name] is searched in the enclosing value *)
Definition sample_items : items :=
  Sec true false (B "targets")
    (Text (B "[") (Put true (B "name") (Text (B "-") (Put true (B "id") (Text (B "]" ++ [NL]) Nil)))))
    (Sec true false (B "none||other") (Text [NL] Nil) Nil).

Example apply_mustach_renders_witness :
  names_ok sample_items /\ keys_ok sample_items /\ layout Fresh sample_items = Some Fresh /\ nest sample_items < MAX_DEPTH /\
  exists n, forall fuel, n <= fuel ->
    apply_mustach json_boolean fuel (mustach.print sample_items) sample =
      Some (0%Z, B "[app-main]" ++ [NL] ++ B "[app-aux]" ++ [NL]).
Proof.
  assert (Hn : names_ok sample_items).
  { unfold sample_items. cbn. unfold name_ok. split_and!; try exact I; try done;
      try (by apply (bool_decide_unpack _)); try (by repeat constructor); try (vm_compute; lia). }
  assert (Hk : keys_ok sample_items).
  { unfold sample_items. cbn. split_and!; try exact I; by apply (bool_decide_unpack _). }
  split; [exact Hn|]. split; [exact Hk|]. split; [reflexivity|]. split; [vm_compute; lia|].
  apply (apply_mustach_renders json_boolean json_string_of sample sample_items Fresh Hn Hk); [reflexivity|vm_compute; lia].
Defined.

Example findin_name_of_witness :
  name_of true [B "a/b=c"; B "x.y"] (Some (false, [B "3"; B "1|2"])) = B "/a~1b~=c/x.y=3|1\|2" /\
  objs sample_expl (depth sample_expl) = Some [sample] /\ path_ok true [B "a/b=c"; B "x.y"] /\
  findin sample_expl (B "/a~1b~=c/x.y=3|1\|2") = Some (Some (JStr (B "1|2"))).
Proof.
  split; [reflexivity|]. split; [reflexivity|]. assert (Hp : path_ok true [B "a/b=c"; B "x.y"]) by (split_and!; done).
  split; [exact Hp|].
  refine (findin_name_of sample_expl [sample] true [B "a/b=c"; B "x.y"] (Some (false, [B "3"; B "1|2"])) eq_refl Hp _).
  intros o [= <-]. split_and!; [by eexists|done|done].
Defined.

(** a permission that the value grants globally *)
Example findin_globalized : findin sample_expl (B "perm:partner.lv:3.id:none") = Some None /\
  findin sample_expl (B "perm:partner.lv:3") = Some (Some (JBool true)).
Proof. split; reflexivity. Qed.

(** comparing a null value dereferences the null pointer *)
Example findin_null_value : findin sample_expl (B "none=1") = None.
Proof. reflexivity. Qed.

End apply_mustach.
