(* ===== verification/UnitOper.v ===== *)
(** * Installation of units: [src/src/utils/unit-oper.c] and the operations
    of [src/src/utils/unit-generator.c] on units

    The file system is a finite map from paths to files and symbolic links.
    The failures of the system calls and the resolution of the links are
    parameters. *)
From S2P Require Import Prelude CString UnitFs.

Module unit_oper.
Import unit_fs.

Inductive node := File (content : bytes) | Link (target : bytes).

(** the files, and the services asked to stop, with their scope *)
Record world := mk_world { w_files : gmap bytes node; w_stopped : list (bool * bytes) }.

Section Oper.
Context (afm_units_root : bytes).

(** is the target of a link, read at a path, an existing file? *)
Context (resolves : gmap bytes node -> bytes -> bytes -> bool).

(** the paths whose writing fails, with what remains there, if anything;
    those whose unlinking or linking fails *)
Context (put_fails : bytes -> option (option bytes)) (unlink_fails symlink_fails : bytes -> bool).

(** ** System calls *)

(** [access(path, F_OK) == 0] follows the links *)
Definition access (path : bytes) (w : world) : bool :=
  match w_files w !! path with
  | None => false
  | Some (File _) => true
  | Some (Link t) => resolves (w_files w) path t
  end.

Definition set_files (w : world) (f : gmap bytes node) : world := mk_world f (w_stopped w).

Definition unlink (path : bytes) (w : world) : Z * world :=
  match w_files w !! path with
  | None => ((-1)%Z, w)
  | Some _ => if unlink_fails path then ((-1)%Z, w) else (0%Z, set_files w (delete path (w_files w)))
  end.

Definition symlink (target path : bytes) (w : world) : Z * world :=
  match w_files w !! path with
  | Some _ => ((-1)%Z, w)
  | None => if symlink_fails path then ((-1)%Z, w)
            else (0%Z, set_files w (<[path := Link target]> (w_files w)))
  end.

(** it writes through no link here: the path is a file or is absent *)
Definition rp_file_put (path content : bytes) (w : world) : Z * world :=
  match put_fails path with
  | None => (0%Z, set_files w (<[path := File content]> (w_files w)))
  | Some (Some partial) => ((-1)%Z, set_files w (<[path := File partial]> (w_files w)))
  | Some None => ((-1)%Z, w)
  end.

(** ** Operations on a unit *)

Definition unit_oper_stop (u : unitdesc) (w : world) : world :=
  match unit_desc_get_service u (PATH_MAX + 1) with
  | Some serv => mk_world (w_files w) ((u_isuser u, serv) :: w_stopped w)
  | None => w
  end.

Definition unit_oper_uninstall (u : unitdesc) (w : world) : Z * world :=
  if unit_desc_check u then
    let w := unit_oper_stop u w in
    let '(rc, w) :=
      match unit_desc_get_path afm_units_root u PATH_MAX with
      | None => ((-1)%Z, w)
      | Some path => unlink path w
      end in
    match wanted_by u with
    | None => (rc, w)
    | Some _ =>
        let '(rc2, w) :=
          match unit_desc_get_wants_path afm_units_root u PATH_MAX with
          | None => ((-1)%Z, w)
          | Some path => unlink path w
          end in
        (if (rc2 <? 0)%Z && (rc =? 0)%Z then rc2 else rc, w)
    end
  else ((-1)%Z, w).

Definition unit_oper_install (u : unitdesc) (w : world) : Z * world :=
  if unit_desc_check u then
    match unit_desc_get_path afm_units_root u (PATH_MAX + 1) with
    | None => ((-1)%Z, w)
    | Some path =>
        let '(rc, w) := rp_file_put path (content u) w in
        if (rc >=? 0)%Z then
          match wanted_by u with
          | None => (rc, w)
          | Some _ =>
              match unit_desc_get_wants_path afm_units_root u (PATH_MAX + 1),
                    unit_desc_get_wants_target u (PATH_MAX + 1) with
              | Some path, Some target => let '(_, w) := unlink path w in symlink target path w
              | _, _ => ((-1)%Z, w)
              end
          end
        else (rc, w)
    end
  else ((-1)%Z, w).

Definition check_file (path : bytes) (should_exist : bool) (w : world) : Z :=
  if Bool.eqb (access path w) should_exist then 0%Z else (-1)%Z.

Definition unit_oper_check_files (u : unitdesc) (should_exist : bool) (w : world) : Z :=
  if unit_desc_check u then
    let rc := match unit_desc_get_path afm_units_root u PATH_MAX with
              | None => (-1)%Z
              | Some path => check_file path should_exist w
              end in
    match wanted_by u with
    | None => rc
    | Some _ =>
        let rc2 := match unit_desc_get_wants_path afm_units_root u PATH_MAX with
                   | None => (-1)%Z
                   | Some path => check_file path should_exist w
                   end in
        if (rc2 <? 0)%Z then rc2 else rc
    end
  else (-1)%Z.

(** ** Operations on the units of a description: [unit-generator.c] *)

Fixpoint uninstall_loop (units : list unitdesc) (rc : Z) (w : world) : Z * world :=
  match units with
  | [] => (rc, w)
  | u :: units' =>
      let '(rc2, w) := unit_oper_uninstall u w in
      uninstall_loop units' (if (rc2 <? 0)%Z then rc2 else rc) w
  end.

Definition uninstall_units (units : list unitdesc) (w : world) : Z * world :=
  uninstall_loop units 0 w.

Definition do_uninstall_units (units : list unitdesc) (w : world) : Z * world :=
  uninstall_units units w.

Fixpoint check_loop (units : list unitdesc) (w : world) : Z :=
  match units with
  | [] => 0%Z
  | u :: units' =>
      let rc := unit_oper_check_files u false w in
      if (rc <? 0)%Z then rc else check_loop units' w
  end.

Fixpoint install_loop (units : list unitdesc) (w : world) : Z * world :=
  match units with
  | [] => (0%Z, w)
  | u :: units' =>
      let '(rc, w) := unit_oper_install u w in
      if (rc <? 0)%Z then (rc, w) else install_loop units' w
  end.

Definition do_install_units (units : list unitdesc) (w : world) : Z * world :=
  let rc := check_loop units w in
  if (rc <? 0)%Z then (rc, w)
  else
    let '(rc, w) := install_loop units w in
    if (rc <? 0)%Z then (rc, (uninstall_units units w).2) else (0%Z, w).

(** ** Lemmas *)

Definition u_path (u : unitdesc) : bytes :=
  unit_path_text afm_units_root (u_isuser u) (name_of u) (u_ext u).
Definition u_wants (u : unitdesc) : bytes :=
  wants_path_text afm_units_root (u_isuser u) (default [] (wanted_by u)) (name_of u) (u_ext u).

(** the paths of a unit *)
Definition paths (u : unitdesc) : list bytes :=
  u_path u :: match wanted_by u with Some _ => [u_wants u] | None => [] end.

(** a unit whose installation was checked: its paths are short and nothing
    is found there *)
Record checked (w : world) (u : unitdesc) : Prop := {
  checked_desc : unit_desc_check u = true;
  checked_short : Forall (fun p => length p < PATH_MAX) (paths u);
  checked_free : Forall (fun p => access p w = false) (paths u)
}.

Lemma check_file_false path w : (check_file path false w <? 0)%Z = false -> access path w = false.
Proof. unfold check_file. by destruct (access path w). Qed.

Lemma check_checked u w : (unit_oper_check_files u false w <? 0)%Z = false -> checked w u.
Proof.
  unfold unit_oper_check_files. destruct (unit_desc_check u) eqn:Ed; [|done].
  unfold unit_desc_get_path, unit_desc_get_wants_path, units_fs_get_afm_unit_path,
    units_fs_get_afm_wants_unit_path, check_snprintf. fold (u_path u) (u_wants u).
  intros Hc. split; [done|..]; unfold paths; destruct (wanted_by u) eqn:Ew;
    repeat apply Forall_cons_2; try apply Forall_nil_2; revert Hc;
    repeat case_bool_decide; try done; intros Hc.
  all: try (by apply check_file_false).
  all: destruct (check_file (u_wants u) false w <? 0)%Z eqn:E; [by rewrite E in Hc|].
  all: first [discriminate Hc|by apply check_file_false].
Qed.

Lemma check_loop_checked units w : (check_loop units w <? 0)%Z = false -> Forall (checked w) units.
Proof.
  induction units as [|u units IH]; cbn [check_loop]; [by constructor|].
  destruct (unit_oper_check_files u false w <? 0)%Z eqn:E; [by rewrite E|].
  intros H. constructor; [by apply check_checked|auto].
Qed.

Lemma get_path_short u n :
  length (u_path u) < n -> unit_desc_get_path afm_units_root u n = Some (u_path u).
Proof. intros H. by apply check_snprintf_Some. Qed.

Lemma get_wants_short u n :
  length (u_wants u) < n -> unit_desc_get_wants_path afm_units_root u n = Some (u_wants u).
Proof. intros H. by apply check_snprintf_Some. Qed.

(** [w'] differs from [w] only on the paths [l] *)
Definition same_but (l : list bytes) (w w' : world) : Prop :=
  forall p, p ∉ l -> w_files w' !! p = w_files w !! p.

(** [w'] has the files of [w] but those of paths [l] *)
Definition removed (l : list bytes) (w w' : world) : Prop :=
  same_but l w w' /\ forall p, p ∈ l -> w_files w' !! p = None.

Lemma unlink_removed path w : unlink_fails path = false -> removed [path] w (unlink path w).2.
Proof.
  intros Hf. unfold unlink, removed, same_but. setoid_rewrite list_elem_of_singleton.
  destruct (w_files w !! path) eqn:E; simpl.
  - rewrite Hf. simpl. split; [intros p Hp; by rewrite lookup_delete_ne|].
    intros p ->. apply lookup_delete_eq.
  - split; [done|]. by intros p ->.
Qed.

Lemma unlink_same path w : same_but [path] w (unlink path w).2.
Proof.
  intros p Hp. rewrite list_elem_of_singleton in Hp. unfold unlink.
  destruct (w_files w !! path), (unlink_fails path); simpl; try done. by rewrite lookup_delete_ne.
Qed.

Lemma symlink_same t path w : same_but [path] w (symlink t path w).2.
Proof.
  intros p Hp. rewrite list_elem_of_singleton in Hp. unfold symlink.
  destruct (w_files w !! path), (symlink_fails path); simpl; try done. by rewrite lookup_insert_ne.
Qed.

Lemma removed_trans l1 l2 w1 w2 w3 :
  removed l1 w1 w2 -> removed l2 w2 w3 -> removed (l1 ++ l2) w1 w3.
Proof.
  intros [S1 R1] [S2 R2]. split.
  - intros p [H1 H2]%not_elem_of_app. by rewrite S2, S1.
  - intros p Hp. destruct (decide (p ∈ l2)) as [H2|H2]; [auto|]. rewrite S2 by done.
    apply elem_of_app in Hp as [|]; [auto|done].
Qed.

(** the unlinking of all the paths of a unit is possible *)
Definition removable (u : unitdesc) : Prop :=
  unit_desc_check u = true /\ Forall (fun p => length p < PATH_MAX) (paths u) /\
  Forall (fun p => unlink_fails p = false) (paths u).

Lemma stop_files u w : w_files (unit_oper_stop u w) = w_files w.
Proof. unfold unit_oper_stop. by destruct (unit_desc_get_service _ _). Qed.

Lemma uninstall_removed u w : removable u -> removed (paths u) w (unit_oper_uninstall u w).2.
Proof.
  intros (Hd & Hs & Hf). unfold unit_oper_uninstall. rewrite Hd.
  unfold paths in *. apply Forall_cons in Hs as [Hs1 Hs2], Hf as [Hf1 Hf2].
  rewrite get_path_short by done.
  pose proof (unlink_removed (u_path u) (unit_oper_stop u w) Hf1) as H1.
  assert (H0 : removed [u_path u] w (unlink (u_path u) (unit_oper_stop u w)).2).
  { unfold removed, same_but in *. by rewrite stop_files in H1. }
  destruct (unlink (u_path u) _) as [rc w1]. simpl in H0.
  destruct (wanted_by u) eqn:Ew; [|done].
  apply Forall_cons in Hs2 as [Hs2 _], Hf2 as [Hf2 _]. rewrite get_wants_short by done.
  pose proof (unlink_removed (u_wants u) w1 Hf2) as H2. destruct (unlink (u_wants u) w1) as [rc2 w2].
  exact (removed_trans _ _ _ _ _ H0 H2).
Qed.

Lemma uninstall_loop_removed units rc w :
  Forall removable units -> removed (concat (map paths units)) w (uninstall_loop units rc w).2.
Proof.
  intros HF. revert rc w. induction HF as [|u units Hu HF IH]; intros rc w; cbn [uninstall_loop map concat].
  { split; [done|]. intros p Hp. by apply elem_of_nil in Hp. }
  pose proof (uninstall_removed u w Hu) as H1. destruct (unit_oper_uninstall u w) as [rc2 w1].
  exact (removed_trans _ _ _ _ _ H1 (IH _ w1)).
Qed.

(** The installation of a unit changes its paths only; when it succeeds they
    hold its content and its link. *)
Lemma install_same_but u w :
  Forall (fun p => length p < PATH_MAX) (paths u) ->
  let '(rc, w') := unit_oper_install u w in
  same_but (paths u) w w' /\
  (rc = 0%Z \/ rc = (-1)%Z) /\
  (rc = 0%Z -> u_path u ∉ tail (paths u) -> w_files w' !! u_path u = Some (File (content u)) /\
     match wanted_by u with
     | None => True
     | Some _ => exists t, unit_desc_get_wants_target u (PATH_MAX + 1) = Some t /\
                   w_files w' !! u_wants u = Some (Link t)
     end).
Proof.
  intros Hs. unfold unit_oper_install.
  set (big := PATH_MAX + 1). assert (Hbig : PATH_MAX < big) by (unfold big; lia). clearbody big. destruct (unit_desc_check u); [|by split_and!; [|right|]].
  unfold paths in *. apply Forall_cons in Hs as [Hs1 Hs2]. rewrite get_path_short by (cbv beta in *; lia).
  unfold rp_file_put, same_but.
  destruct (put_fails (u_path u)) as [[part|]|]; simpl.
  - split_and!; [|by right|done]. intros p [Hp _]%not_elem_of_cons. by rewrite lookup_insert_ne.
  - split_and!; [done|by right|done].
  - destruct (wanted_by u) eqn:Ew; simpl.
    2: { split_and!; [|by left|]; [intros p [Hp _]%not_elem_of_cons; by rewrite lookup_insert_ne|].
         intros _ _. by rewrite lookup_insert_eq. }
    apply Forall_cons in Hs2 as [Hs2 _]. rewrite get_wants_short by (cbv beta in *; lia).
    destruct (unit_desc_get_wants_target u _) as [t|].
    2: { split_and!; [|by right|done]. intros p [Hp _]%not_elem_of_cons. simpl. by rewrite lookup_insert_ne. }
    set (w1 := set_files w _). 
    assert (Hsame : same_but (u_path u :: [u_wants u]) w (symlink t (u_wants u) (unlink (u_wants u) w1).2).2).
    { intros p [Hp Hq]%not_elem_of_cons. rewrite symlink_same, unlink_same by done.
      unfold w1. simpl. by rewrite lookup_insert_ne. }
    destruct (unlink (u_wants u) w1) as [rcu w2] eqn:Eu. simpl in Hsame.
    destruct (symlink t (u_wants u) w2) as [rc w3] eqn:El. simpl in Hsame.
    split; [exact Hsame|]. unfold symlink in El. destruct (w_files w2 !! u_wants u) eqn:E2.
    { injection El as <- <-. split_and!; [by right|done]. }
    destruct (symlink_fails (u_wants u)); injection El as <- <-; [split_and!; [by right|done]|].
    split; [by left|]. intros _ [Hne _]%not_elem_of_cons. simpl. rewrite lookup_insert_eq.
    rewrite lookup_insert_ne by done. split; [|eauto].
    assert (Hp : w_files w2 !! u_path u = w_files w1 !! u_path u).
    { replace w2 with (unlink (u_wants u) w1).2 by by rewrite Eu. apply unlink_same.
      by rewrite list_elem_of_singleton. }
    rewrite Hp. unfold w1. simpl. apply lookup_insert_eq.
Qed.

Lemma same_but_trans l1 l2 w1 w2 w3 :
  same_but l1 w1 w2 -> same_but l2 w2 w3 -> same_but (l1 ++ l2) w1 w3.
Proof. intros S1 S2 p [H1 H2]%not_elem_of_app. by rewrite S2, S1. Qed.

(** The installation of units changes their paths only; when it succeeds and
    the paths are distinct, each unit has its file. *)
Lemma install_loop_spec units w :
  Forall (fun u => Forall (fun p => length p < PATH_MAX) (paths u)) units ->
  let '(rc, w') := install_loop units w in
  same_but (concat (map paths units)) w w' /\ (rc = 0%Z \/ rc = (-1)%Z) /\
  (rc = 0%Z -> NoDup (concat (map paths units)) ->
   Forall (fun u => w_files w' !! u_path u = Some (File (content u)) /\
     match wanted_by u with
     | None => True
     | Some _ => exists t, unit_desc_get_wants_target u (PATH_MAX + 1) = Some t /\
                   w_files w' !! u_wants u = Some (Link t)
     end) units).
Proof.
  intros HF. revert w. induction HF as [|u units Hu HF IH]; intros w; cbn [install_loop map concat].
  { split_and!; [done|by left|constructor]. }
  pose proof (install_same_but u w Hu) as Hi. destruct (unit_oper_install u w) as [rc1 w1].
  destruct Hi as (S1 & R1 & C1). destruct (rc1 <? 0)%Z eqn:E1.
  { split_and!; [|done|lia]. intros p [H1 _]%not_elem_of_app. by apply S1. }
  specialize (IH w1). destruct (install_loop units w1) as [rc w'].
  destruct IH as (S2 & R2 & C2). split_and!; [by eapply same_but_trans|done|].
  intros Hrc [Hn1 [Hd Hn2]]%NoDup_app. constructor; [|auto].
  assert (Hk : forall p, p ∈ paths u -> w_files w' !! p = w_files w1 !! p) by (intros p Hp; apply S2; auto).
  assert (rc1 = 0%Z) as H0 by lia. destruct (C1 H0) as [Hf Hw].
  { unfold paths in Hn1. by apply NoDup_cons in Hn1 as [? _]. }
  rewrite (Hk (u_path u)) by (unfold paths; left). split; [exact Hf|].
  destruct (wanted_by u) eqn:Ew; [|exact I].
  rewrite (Hk (u_wants u)) by (unfold paths; rewrite Ew; right; left). exact Hw.
Qed.

(** the paths of the units are free and can be freed *)
Definition free_paths (units : list unitdesc) (w : world) : Prop :=
  Forall (fun p => w_files w !! p = None /\ unlink_fails p = false) (concat (map paths units)).

Lemma checked_removable units w :
  Forall (checked w) units -> free_paths units w -> Forall removable units.
Proof.
  intros HF Hp. unfold free_paths in Hp. rewrite Forall_concat, Forall_map in Hp.
  apply Forall_forall. intros u Hu. rewrite Forall_forall in HF, Hp.
  destruct (HF u Hu) as [Hd Hs _]. split_and!; [done|done|].
  eapply Forall_impl; [exact (Hp u Hu)|]. by intros p [].
Qed.

Lemma removed_free units w w1 w' :
  free_paths units w -> same_but (concat (map paths units)) w w1 ->
  removed (concat (map paths units)) w1 w' -> w_files w' = w_files w.
Proof.
  intros Hp S1 [S2 R2]. apply map_eq. intros p. unfold free_paths in Hp. rewrite Forall_forall in Hp.
  destruct (decide (p ∈ concat (map paths units))) as [Hin|Hin].
  - rewrite R2 by done. symmetry. by apply Hp.
  - by rewrite S2, S1.
Qed.

Lemma checked_short_all units w :
  Forall (checked w) units -> Forall (fun u => Forall (fun p => length p < PATH_MAX) (paths u)) units.
Proof. intros HF. eapply Forall_impl; [exact HF|]. by intros u []. Qed.



End Oper.

Definition sample_units : list unitdesc :=
  [mk_unitdesc unitscope_user unittype_service (Some (B "a")) (B "[Unit]") (Some (B "x.target"));
   mk_unitdesc unitscope_system unittype_socket (Some (B "b")) (B "[Socket]") None].

Definition sample_world : world := mk_world {[B "/u/keep" := File (B "k")]} [].

Lemma sample_free : free_paths (B "/u") (fun _ => false) sample_units sample_world.
Proof. repeat apply Forall_cons_2; try apply Forall_nil_2; (split; [vm_compute; reflexivity|reflexivity]). Qed.



End unit_oper.
