(* ===== verification/CertChain.v ===== *)
(** * Chains of certificates: [src/src/cert/common-cert.c]

    The certificates and the functions of GnuTLS are parameters: whether a
    certificate names another one as its issuer, whether its signature is
    verified by it, and its extension of domain specification. *)
From S2P Require Import Prelude CString DomainSpec.

Module cert_chain.
Import domain_spec.

(** the extension of a certificate: missing, in error, or a text of at most
    127 characters, the size of the buffer *)
Inductive extension := Ext_Missing | Ext_Error | Ext_Text (s : bytes).

Section Chain.
Context {cert : Type} (check_issuer verify_by : cert -> cert -> bool) (ext : cert -> extension).

Definition is_issuer (c issuer : cert) (verify : bool) : bool :=
  if negb (check_issuer c issuer) then false
  else if negb verify then true
  else verify_by c issuer.

(** [None] only when the parser of specifications runs out of fuel *)
Definition get_domain_spec_of_cert (c : cert) (spec : spec_t) (o : oracle)
  : option (Z * spec_t * oracle) :=
  match
    match ext c with
    | Ext_Missing => Some ((- ENOENT)%Z, spec, o)
    | Ext_Error => Some ((- EINVAL)%Z, spec, o)
    | Ext_Text s => get_domain_spec_of_string (cstring s) spec o
    end
  with
  | Some (rc, spec, o) => Some (rc, if (rc <? 0)%Z then domain_spec_reset spec else spec, o)
  | None => None
  end.

(** [check_crt_t] *)
Context (certs trusteds : list cert).

(** the first index from [idx] of a certificate that issued [target] *)
Fixpoint find_issuer (l : list cert) (idx : nat) (except : option nat) (target : cert) : option nat :=
  match l with
  | [] => None
  | c :: l' => if negb (bool_decide (Some idx = except)) && is_issuer target c true then Some idx
               else find_issuer l' (S idx) except target
  end.

(** [spec] is [None] for NULL.  The result is [None] when the recursion is
    deeper than [fuel]: nothing bounds it in the code. *)
Fixpoint check_crt_chain (fuel : nat) (targetidx : nat) (spec : option spec_t) (o : oracle)
  : option (Z * option spec_t * oracle) :=
  match fuel, certs !! targetidx with
  | S fuel', Some target =>
      match find_issuer certs 0 (Some targetidx) target with
      | Some idx =>
          match check_crt_chain fuel' idx ((fun _ => []) <$> spec) o with
          | None => None
          | Some (rc, superspec, o) =>
              if (rc >=? 0)%Z then
                match spec with
                | None => Some (0%Z, None, o)
                | Some sp =>
                    match get_domain_spec_of_cert target sp o with
                    | None => None
                    | Some (rc, sp, o) =>
                        if (rc =? - ENOENT)%Z then Some (0%Z, Some sp, o)
                        else if (rc =? 0)%Z && negb (is_domain_spec_able_to_sign (default [] superspec) sp)
                        then Some ((- EINVAL)%Z, Some (domain_spec_reset sp), o)
                        else Some (rc, Some sp, o)
                    end
                end
              else Some (rc, spec, o)
          end
      | None =>
          match find_issuer trusteds 0 None target with
          | Some idx =>
              match spec, trusteds !! idx with
              | Some sp, Some t =>
                  match get_domain_spec_of_cert t sp o with
                  | None => None
                  | Some (rc, sp, o) => Some (rc, Some sp, o)
                  end
              | _, _ => Some (0%Z, None, o)
              end
          | None => Some ((- ENOENT)%Z, spec, o)
          end
      end
  | _, _ => None
  end.

(** [sort_certs]: the inner loop on the certificates after [c], at the
    position [cnt]: the certificate that takes the place of [c] and the
    others; it restarts after an exchange. *)
Fixpoint find_swap (verify : bool) (c : cert) (pre rest : list cert) : option (cert * list cert) :=
  match rest with
  | [] => None
  | d :: rest' => if is_issuer c d verify then Some (d, pre ++ c :: rest')
                  else find_swap verify c (pre ++ [d]) rest'
  end.

Fixpoint sort_from (fuel : nat) (verify : bool) (c : cert) (rest : list cert) : option (cert * list cert) :=
  match fuel with
  | O => None
  | S fuel' =>
      match find_swap verify c [] rest with
      | Some (d, rest') => sort_from fuel' verify d rest'
      | None => Some (c, rest)
      end
  end.

Fixpoint sort_certs (fuel : nat) (verify : bool) (n : nat) (l : list cert) : option (list cert) :=
  match n, l with
  | S n', c :: rest =>
      match sort_from fuel verify c rest with
      | Some (d, rest') => cons d <$> sort_certs fuel verify n' rest'
      | None => None
      end
  | _, _ => Some l
  end.

(** ** The meaning of a trusted chain *)

(** [chain c t]: signatures lead from [c] to the trusted certificate [t] *)
Inductive chain : cert -> cert -> Prop :=
| chain_trusted c t : t ∈ trusteds -> is_issuer c t true = true -> chain c t
| chain_issuer c d t : d ∈ certs -> is_issuer c d true = true -> chain d t -> chain c t.

Lemma find_issuer_Some l idx except target i :
  find_issuer l idx except target = Some i ->
  exists c, l !! (i - idx) = Some c /\ idx <= i /\ is_issuer target c true = true /\ Some i <> except.
Proof.
  revert idx. induction l as [|c l IH]; intros idx; simpl; [done|].
  destruct (_ && _) eqn:E.
  - intros [= <-]. apply andb_true_iff in E as [E1 E2]. exists c. rewrite Nat.sub_diag.
    split_and!; [done|lia|done|]. by apply negb_true_iff, bool_decide_eq_false in E1.
  - intros H. apply IH in H as (d & Hd & Hle & Hi & Hne). exists d.
    replace (i - idx) with (S (i - S idx)) by lia. split_and!; [done|lia|done|done].
Qed.

Lemma get_spec_wf c o rc sp o' :
  get_domain_spec_of_cert c [] o = Some (rc, sp, o') -> wf sp /\ (rc <= 0)%Z.
Proof.
  assert (Hnil : wf []) by (by split; constructor). unfold get_domain_spec_of_cert.
  destruct (ext c) as [| |s]; [intros [= <- <- <-]; unfold ENOENT; split; [done|lia]
    |intros [= <- <- <-]; unfold EINVAL; split; [done|lia]|].
  destruct (get_domain_spec_of_string _ _ _) as [[[rc1 sp1] o1]|] eqn:E; [|done].
  intros [= <- <- <-]. apply parse_wf in E as [Hwf Hrc].
  - split; [|done]. by destruct (rc1 <? 0)%Z.
  - unfold cstr, cstring. intros Hin.
    pose proof (Forall_take_while (fun c => negb (bool_decide (c = NUL))) s) as HF.
    rewrite Forall_forall in HF. apply HF in Hin. done.
Qed.

Lemma check_crt_chain_trust fuel idx target o rc sp o' :
  certs !! idx = Some target ->
  check_crt_chain fuel idx (Some []) o = Some (rc, sp, o') -> (0 <= rc)%Z ->
  exists t tspec spec o1 o2, sp = Some spec /\ wf spec /\ chain target t /\
    get_domain_spec_of_cert t [] o1 = Some (0%Z, tspec, o2) /\
    (spec = tspec \/ is_domain_spec_able_to_sign tspec spec = true).
Proof.
  revert idx target o rc sp o'. induction fuel as [|fuel IH]; intros idx target o rc sp o' Ht; [done|].
  cbn [check_crt_chain]. rewrite Ht.
  destruct (find_issuer certs 0 (Some idx) target) as [i|] eqn:Ei.
  - apply find_issuer_Some in Ei as (c & Hc & _ & Hi & _). rewrite Nat.sub_0_r in Hc.
    destruct (check_crt_chain fuel i _ o) as [[[rc1 sup] o1]|] eqn:Erec; [|done].
    destruct (Z.geb_spec rc1 0) as [Hrc1|Hrc1]; [|intros [= <- <- <-] H; lia].
    destruct (IH i c o rc1 sup o1 Hc Erec) as (t & ts & s & oa & ob & -> & Hs & Hch & Hts & Hin); [lia|].
    destruct (get_domain_spec_of_cert target [] o1) as [[[rc2 sp2] o2]|] eqn:Eg; [|done].
    destruct (get_spec_wf _ _ _ _ _ Eg) as [Hw2 Hle2]. destruct (get_spec_wf _ _ _ _ _ Hts) as [Hwt _].
    assert (Hchain : chain target t)
      by (eapply chain_issuer; [by eapply list_elem_of_lookup_2|done|done]).
    simpl. destruct (Z.eqb_spec rc2 (- ENOENT)) as [E|E].
    + intros [= <- <- <-] _. exists t, ts, sp2, oa, ob. split_and!; [done..|]. right.
      unfold get_domain_spec_of_cert in Eg. subst rc2.
      destruct (match ext target with Ext_Missing => _ | _ => _ end) as [[[r x] y]|]; [|done].
      injection Eg as -> <- _. done.
    + destruct ((rc2 =? 0)%Z && _) eqn:Eb; intros [= <- <- <-] H; [unfold EINVAL in H; lia|].
      replace rc2 with 0%Z in Eb by lia. simpl in Eb. apply negb_false_iff in Eb.
      exists t, ts, sp2, oa, ob. split_and!; [done..|]. right.
      destruct Hin as [->|Hin]; [done|]. by apply (able_trans ts s sp2).
  - destruct (find_issuer trusteds 0 None target) as [i|] eqn:Et; [|intros [= <- <- <-]; unfold ENOENT; lia].
    apply find_issuer_Some in Et as (t & Htr & _ & Hi & _). rewrite Nat.sub_0_r in Htr. rewrite Htr.
    destruct (get_domain_spec_of_cert t [] o) as [[[rc1 sp1] o1]|] eqn:Eg; [|done].
    intros [= <- <- <-] H. destruct (get_spec_wf _ _ _ _ _ Eg) as [Hw Hle].
    replace rc1 with 0%Z in Eg by lia. exists t, sp1, sp1, o, o1.
    split_and!; [done|done| |done|by left]. apply chain_trusted; [by eapply list_elem_of_lookup_2|done].
Qed.

(** C13: a certificate is only accepted when verified signatures lead from
    it to a trusted certificate, and the specification it gets is then the
    one of that trusted certificate or one that it is able to sign: no chain
    of certificates raises a permission. *)
Theorem check_crt_chain_safe fuel idx target o rc sp o' :
  certs !! idx = Some target ->
  check_crt_chain fuel idx (Some []) o = Some (rc, sp, o') -> (0 <= rc)%Z ->
  exists t tspec spec o1 o2, sp = Some spec /\ wf spec /\ chain target t /\
    get_domain_spec_of_cert t [] o1 = Some (0%Z, tspec, o2) /\
    (spec = tspec \/ is_domain_spec_able_to_sign tspec spec = true).
Proof. apply check_crt_chain_trust. Qed.

End Chain.

(** three certificates: 0 is issued by 1, 1 by the trusted 2 *)
Definition sample_ext (n : nat) : extension :=
  match n with 2 => Ext_Text (B "@dom") | 0 => Ext_Text (B "+dom") | _ => Ext_Missing end.
Definition sample_issuer (c i : nat) : bool := bool_decide (i = S c).

Lemma check_crt_chain_safe_witness :
  exists t tspec spec o1 o2,
    (check_crt_chain sample_issuer sample_issuer sample_ext [0; 1] [2] 3 0 (Some []) []) =
      Some (0%Z, Some spec, []) /\ wf spec /\
    chain sample_issuer sample_issuer [0; 1] [2] 0 t /\
    get_domain_spec_of_cert sample_ext t [] o1 = Some (0%Z, tspec, o2) /\
    (spec = tspec \/ is_domain_spec_able_to_sign tspec spec = true).
Proof.
  assert (E : check_crt_chain sample_issuer sample_issuer sample_ext [0; 1] [2] 3 0 (Some []) [] =
    Some (0%Z, Some [mk_domain permission_grants (B "dom")], [])) by (vm_compute; reflexivity).
  destruct (check_crt_chain_safe sample_issuer sample_issuer sample_ext [0; 1] [2] 3 0 0 [] 0
    (Some [mk_domain permission_grants (B "dom")]) [] eq_refl E) as (t & ts & s & o1 & o2 & Es & H); [lia|].
  injection Es as <-. exists t, ts, [mk_domain permission_grants (B "dom")], o1, o2. split; [exact E|exact H].
Defined.

(** C40: when two certificates issued each other, the check of their chain
    recurses without end. *)
Theorem cyclic_chain_diverges (ext : bool -> extension) trusteds fuel spec o :
  check_crt_chain (fun a b => xorb a b) (fun a b => xorb a b) ext [false; true] trusteds fuel 0 spec o = None /\
  check_crt_chain (fun a b => xorb a b) (fun a b => xorb a b) ext [false; true] trusteds fuel 1 spec o = None.
Proof.
  revert spec o. induction fuel as [|fuel IH]; intros spec o; [done|].
  split; cbn [check_crt_chain lookup list_lookup find_issuer is_issuer];
    rewrite ?bool_decide_eq_true_2, ?bool_decide_eq_false_2 by done; simpl; by rewrite ?(proj1 (IH _ _)), ?(proj2 (IH _ _)).
Qed.

End cert_chain.
