(* ===== verification/Digest.v ===== *)
(** * Digests of the files of a package: [src/src/cert/digest.c]

    A digest is a text with one line for each file: the hash of its content
    in hexadecimal, a space and its name. The hashes are computed once for
    each algorithm and kept in a variable of the entry of the file. GnuTLS
    is the class [Gnutls] and the files are the class [Files]. *)
From S2P Require Import Prelude CString PathEntry PathVars Signature.

Module digest.
Import path_entry path_vars signature.

(** ** GnuTLS and the files *)

(** [gnutls_hash_init], [gnutls_hash] and [gnutls_hash_deinit] work on a
    context; the latter gives the hash. *)
Class Gnutls := {
  digest_algorithm : Type;
  #[global] digest_algorithm_eq :: EqDecision digest_algorithm;
  GNUTLS_DIG_SHA224 : digest_algorithm;
  GNUTLS_DIG_SHA256 : digest_algorithm;
  GNUTLS_DIG_SHA384 : digest_algorithm;
  GNUTLS_DIG_SHA512 : digest_algorithm;
  gnutls_hash_get_len : digest_algorithm -> nat;
  hash_context : Type;
  gnutls_hash_init : digest_algorithm -> hash_context;
  gnutls_hash : hash_context -> bytes -> hash_context;
  gnutls_hash_deinit : hash_context -> bytes
}.

(** the hash of a content given at once *)
Definition hash_of `{Gnutls} (a : digest_algorithm) (content : bytes) : bytes :=
  gnutls_hash_deinit (gnutls_hash (gnutls_hash_init a) content).

(** What GnuTLS documents: the lengths of the hashes, and that the content
    may be given in several parts. *)
Class GnutlsLaws `{Gnutls} : Prop := {
  hash_length : forall a content, length (hash_of a content) = gnutls_hash_get_len a;
  hash_app : forall c x y, gnutls_hash (gnutls_hash c x) y = gnutls_hash c (x ++ y);
  hash_nil : forall c, gnutls_hash c [] = c;
  sha224_len : gnutls_hash_get_len GNUTLS_DIG_SHA224 = 28;
  sha256_len : gnutls_hash_get_len GNUTLS_DIG_SHA256 = 32;
  sha384_len : gnutls_hash_get_len GNUTLS_DIG_SHA384 = 48;
  sha512_len : gnutls_hash_get_len GNUTLS_DIG_SHA512 = 64
}.

(** [fopen(path, "rb")]: [errno], or what [fread] then delivers *)
Class Files := { fopen : bytes -> positive + bytes }.

Definition FIELD_SEPARATOR : ascii := SPACE.
Definition RECORD_TERMINATOR : ascii := NL.

(** ** Variables of the entries

    The keys are addresses of functions; [dispose_hash] is one too. The list
    of hashes that the variable of an entry points to is reachable from that
    entry only: the heap has it at the handle of the entry. *)

Definition entry_hash_key : Z := 1.
Definition reset_idata_key : Z := 2.
Definition dispose_hash : Z := 3.
Definition hash_pointer : Z := 4.

Section Digest.
Context `{Gnutls} `{Files}.

Record hash_node := HashNode { algorithm : digest_algorithm; value : bytes }.

Record memory := Memory { tree : path_entry; heap : gmap handle (list hash_node) }.

Definition var_of (t : path_entry) (k : handle) (key : Z) : Z :=
  match sub k t with Some e => path_entry_var e key | None => NULL end.

(** [path_entry_var_set] on an entry of the tree; the disposal function is
    never called, as a variable is not overwritten with hashes *)
Definition entry_var_set (t : path_entry) (k : handle) (key v dispose : Z) (o : oracle)
  : Z * path_entry * oracle :=
  match sub k t with
  | None => (0%Z, t, o)
  | Some e => let '(rc, e', _, o') := path_entry_var_set e key v dispose o in
              (rc, set_vars k (vars e') t, o')
  end.

Definition hash_nodes (st : memory) (k : handle) : list hash_node :=
  if (var_of (tree st) k entry_hash_key =? NULL)%Z then [] else default [] (heap st !! k).

(** ** Hash of a file *)

Definition BLOCK : nat := Z.to_nat 65500.

Lemma BLOCK_pos : 0 < BLOCK.
Proof. unfold BLOCK. lia. Qed.
Opaque BLOCK.

(** the loop of [fread] and [gnutls_hash] *)
Fixpoint read_loop (fuel : nat) (content : bytes) (hctx : hash_context) : hash_context :=
  match fuel with
  | O => hctx
  | S fuel' =>
      let buffer := take BLOCK content in
      if bool_decide (buffer = []) then hctx
      else read_loop fuel' (drop BLOCK content) (gnutls_hash hctx buffer)
  end.

Definition hexdigit (low : Z) : ascii := chr (low + (if (low <=? 9)%Z then 48 else 97 - 10)).

(** the conversion in place, from the end *)
Fixpoint hex_loop (hashlen idxstr : nat) (v : bytes) : bytes :=
  match hashlen with
  | O => v
  | S hashlen' =>
      let high := code (nth hashlen' v NUL) in
      let v := <[idxstr - 1 := hexdigit (Z.land high 15)]> v in
      let v := <[idxstr - 2 := hexdigit (Z.land (Z.shiftr high 4) 15)]> v in
      hex_loop hashlen' (idxstr - 2) v
  end.

(** the characters of a new node before they are written are given as NUL *)
Definition compute_hash (a : digest_algorithm) (content : bytes) : bytes :=
  let hashlen := gnutls_hash_get_len a in
  let idxstr := hashlen + hashlen in
  let hctx := read_loop (S (length content)) content (gnutls_hash_init a) in
  let v := list_inserts 0 (gnutls_hash_deinit hctx) (replicate (idxstr + 1) NUL) in
  take idxstr (hex_loop hashlen idxstr (<[idxstr := NUL]> v)).

Definition entry_hash (st : memory) (entry : handle) (a : digest_algorithm) (path : bytes) (o : oracle)
  : Z * option hash_node * memory * oracle :=
  let nodes := hash_nodes st entry in
  match find (fun n => bool_decide (algorithm n = a)) nodes with
  | Some node => (0%Z, Some node, st, o)
  | None =>
      match fopen (cstring path) with
      | inl errno => (Z.neg errno, None, st, o)
      | inr content =>
          let '(ok, o1) := malloc o in
          if negb ok then ((- ENOMEM)%Z, None, st, o1)
          else
            let '(rc, tree', o2) :=
              if bool_decide (nodes = [])
              then entry_var_set (tree st) entry entry_hash_key hash_pointer dispose_hash o1
              else (0%Z, tree st, o1) in
            if (rc <? 0)%Z then (rc, None, Memory tree' (heap st), o2)
            else
              let node := HashNode a (compute_hash a content) in
              (0%Z, Some node, Memory tree' (<[entry := nodes ++ [node]]> (heap st)), o2)
      end
  end.

(** ** Making a digest *)

Record digest_maker := Maker {
  pos : nat; buffer : bytes; mrc : Z; mstore : memory; moracle : oracle
}.

(** [memcpy] of what the buffer of the given size holds *)
Definition put_text (size : nat) (text : bytes) (w : nat * bytes) : nat * bytes :=
  let '(p, b) := w in
  (p + length text, if bool_decide (p < size) then list_inserts p (take (size - p) text) b else b).

Definition put_char (size : nat) (c : ascii) (w : nat * bytes) : nat * bytes :=
  let '(p, b) := w in (S p, if bool_decide (p < size) then <[p := c]> b else b).

Definition digest_maker_cb (alg : digest_algorithm) (size prefix : nat)
  (wants_node : option (bytes -> nat -> bool)) (maker : digest_maker) (entry : handle) (path : bytes)
  : digest_maker * Z :=
  let wanted := match wants_node with Some f => f path (length path) | None => true end in
  if wanted then
    let '(rc, hashnode, st, o) := entry_hash (mstore maker) entry alg path (moracle maker) in
    match hashnode with
    | None => (Maker (pos maker) (buffer maker) (if (mrc maker =? 0)%Z then rc else mrc maker) st o, 0%Z)
    | Some node =>
        let w := put_text size (value node) (pos maker, buffer maker) in
        let w := put_char size FIELD_SEPARATOR w in
        let w := put_text size (drop prefix path) w in
        let '(p, b) := put_char size RECORD_TERMINATOR w in
        (Maker p b (mrc maker) st o, 0%Z)
    end
  else (maker, 0%Z).

(** the path of the top of the tree, and its length *)
Definition root_path (t : path_entry) : bytes :=
  match path_entry_get_path t [] (replicate PATH_MAX NUL) PATH_MAX with
  | Some (n, b) => take n b
  | None => []
  end.

(** [root] is the top of its tree, as for all callers; [size] is the length
    of [buf] unless it is a null pointer *)
Definition make_file_list_digest (st : memory) (alg : digest_algorithm) (buf : bytes) (size : nat)
  (wants_node : option (bytes -> nat -> bool)) (o : oracle) : Z * bytes * memory * oracle :=
  let prefix := match path_entry_get_path (tree st) [] [] 0 with Some (n, _) => n | None => 0 end in
  let '(maker, _) :=
    path_entry_for_each (Z.lor PATH_ENTRY_FORALL_ONLY_ADDED PATH_ENTRY_FORALL_ABSOLUTE) (Some (tree st))
      (digest_maker_cb alg size prefix wants_node) (Maker 0 buf 0 st o) (root_path (tree st)) in
  (i32 (Z.of_nat (pos maker)), buffer maker, mstore maker, moracle maker).

#[export] Instance signature_type_eq : EqDecision signature_type.
Proof using Type. solve_decision. Defined.

Definition filter_for_author (path : bytes) (len : nat) : bool :=
  bool_decide (signature_name_type_length path len = Signature_None).

Definition filter_for_distributor (path : bytes) (len : nat) : bool :=
  negb (bool_decide (signature_name_type_length path len = Signature_distributor)).

Definition create_author_digest (st : memory) (alg : digest_algorithm) (buf : bytes) (size : nat) (o : oracle) :=
  make_file_list_digest st alg buf size (Some filter_for_author) o.

Definition create_distributor_digest (st : memory) (alg : digest_algorithm) (buf : bytes) (size : nat) (o : oracle) :=
  make_file_list_digest st alg buf size (Some filter_for_distributor) o.

Definition create_digest (st : memory) (alg : digest_algorithm) (buf : bytes) (size : nat)
  (isdistributor : bool) (o : oracle) : Z * bytes * memory * oracle :=
  make_file_list_digest st alg buf size
    (Some (if isdistributor then filter_for_distributor else filter_for_author)) o.

(** ** Checking a digest *)

Definition reset_idata (c : path_entry * oracle) (entry : handle) (path : bytes) : path_entry * oracle * Z :=
  let '(_, t, o) := entry_var_set c.1 entry reset_idata_key NULL NULL c.2 in (t, o, 0%Z).

Definition check_signed (t : path_entry) (isdistributor : bool) (nrerrors : nat) (entry : handle) (path : bytes)
  : nat * Z :=
  let sigtyp := signature_name_type_length path (length path) in
  let issigned := negb (var_of t entry reset_idata_key =? NULL)%Z in
  (match sigtyp with
   | Signature_None => nrerrors + Nat.b2n (negb issigned)
   | Signature_Author => nrerrors + Nat.b2n (negb (Bool.eqb (negb issigned) (negb isdistributor)))
   | Signature_distributor => nrerrors + Nat.b2n issigned
   end, 0%Z).

Definition algorithm_of_length (lenh : nat) : option digest_algorithm :=
  if bool_decide (lenh = 56) then Some GNUTLS_DIG_SHA224
  else if bool_decide (lenh = 64) then Some GNUTLS_DIG_SHA256
  else if bool_decide (lenh = 96) then Some GNUTLS_DIG_SHA384
  else if bool_decide (lenh = 128) then Some GNUTLS_DIG_SHA512
  else None.

Definition not_separator (c : ascii) : bool := negb (bool_decide (c = FIELD_SEPARATOR)).
Definition not_terminator (c : ascii) : bool := negb (bool_decide (c = RECORD_TERMINATOR)).

(** The loop on the lines: [text] is what follows [it] in the buffer and
    [pathbuf] the local buffer [path], which keeps its content from a line
    to the next. *)
Fixpoint check_loop (fuel : nat) (st : memory) (text pathbuf : bytes) (o : oracle) : Z * memory * oracle :=
  match text with
  | [] => (0%Z, st, o)
  | _ :: _ =>
      match fuel with
      | O => ((- EINVAL)%Z, st, o)
      | S fuel' =>
          let hash := take_while not_separator text in
          let text1 := drop 1 (drop_while not_separator text) in
          let nm := take_while not_terminator text1 in
          let text2 := drop 1 (drop_while not_terminator text1) in
          if bool_decide (hash = []) || bool_decide (nm = []) then ((- EINVAL)%Z, st, o)
          else
            match path_entry_get_length (tree st) text1 (Z.of_nat (length nm)) with
            | (rc, None) => (rc, st, o)
            | (rc, Some entry) =>
                match algorithm_of_length (length hash) with
                | None => ((- EINVAL)%Z, st, o)
                | Some alg =>
                    let pathbuf :=
                      match path_entry_get_path (tree st) (rev entry) pathbuf (PATH_MAX + 1) with
                      | Some (_, b) => b | None => pathbuf end in
                    let pathbuf := <[PATH_MAX := NUL]> pathbuf in
                    let '(rc, hashnode, st, o) := entry_hash st entry alg pathbuf o in
                    match hashnode with
                    | None => (rc, st, o)
                    | Some node =>
                        if negb (bool_decide (length hash = length (value node))) || negb (beq hash (value node))
                        then ((- EBADF)%Z, st, o)
                        else
                          let '(_, t, o) :=
                            entry_var_set (tree st) entry reset_idata_key reset_idata_key NULL o in
                          check_loop fuel' (Memory t (heap st)) text2 pathbuf o
                    end
                end
            end
      end
  end.

(** [garbage] is the content of the local buffer when the function starts *)
Definition check_digest (st : memory) (buf garbage : bytes) (isdistributor : bool) (o : oracle)
  : Z * memory * oracle :=
  let '((t, o), _) :=
    path_entry_for_each (Z.lor PATH_ENTRY_FORALL_NO_PATH PATH_ENTRY_FORALL_ONLY_ADDED) (Some (tree st))
      reset_idata (tree st, o) [] in
  let '(rc, st, o) := check_loop (S (length buf)) (Memory t (heap st)) buf garbage o in
  if negb (rc =? 0)%Z then (rc, st, o)
  else
    let '(nrerrors, _) :=
      path_entry_for_each PATH_ENTRY_FORALL_ONLY_ADDED (Some (tree st))
        (check_signed (tree st) isdistributor) 0 [] in
    (if bool_decide (nrerrors = 0) then 0%Z else (- EBADF)%Z, st, o).

Definition check_author_digest (st : memory) (digest garbage : bytes) (o : oracle) :=
  check_digest st digest garbage false o.

Definition check_distributor_digest (st : memory) (digest garbage : bytes) (o : oracle) :=
  check_digest st digest garbage true o.


(** ** The hash of a file *)

Definition hexbyte (c : ascii) : bytes :=
  [hexdigit (Z.land (Z.shiftr (code c) 4) 15); hexdigit (Z.land (code c) 15)].

(** the text of a hash *)
Definition hex (v : bytes) : bytes := flat_map hexbyte v.

Lemma hex_app v w : hex (v ++ w) = hex v ++ hex w.
Proof. apply flat_map_app. Qed.

Lemma length_hex v : length (hex v) = length v + length v.
Proof. induction v as [|c v IH]; simpl; [done|]. rewrite IH. lia. Qed.

Lemma hex_loop_spec n v :
  n + n <= length v -> hex_loop n (n + n) v = hex (take n v) ++ drop (n + n) v.
Proof.
  revert v. induction n as [|n IH]; intros v Hl; [by rewrite drop_0|].
  cbn [hex_loop]. replace (S n + S n - 1) with (S (n + n)) by lia.
  replace (S n + S n - 2) with (n + n) by lia.
  destruct (lookup_lt_is_Some_2 v n) as [c Hc]; [lia|].
  rewrite (nth_lookup_Some _ _ _ _ Hc), IH by (rewrite !length_insert; lia).
  rewrite !take_insert_ge by lia. rewrite (take_S_r _ _ _ Hc), hex_app, <-(assoc_L (++)). f_equal.
  rewrite <-(take_drop (n + n) v) at 1. set (k := n + n) in *.
  assert (Hk : length (take k v) = k) by (rewrite length_take; lia).
  rewrite <-(drop_drop v 2 k : drop (k + 2) v = _) || replace (S n + S n) with (k + 2) by (unfold k; lia).
  rewrite <-drop_drop.
  assert (Hd : 2 <= length (drop k v)) by (rewrite length_drop; unfold k; lia).
  destruct (drop k v) as [|x [|y r]] eqn:E; simpl in Hd; try lia.
  rewrite !insert_app_r_alt by lia. rewrite Hk, Nat.sub_diag. replace (S k - k) with 1 by lia.
  simpl. by rewrite drop_app_ge, Hk, Nat.sub_diag by lia.
Qed.

Lemma read_loop_spec `{!GnutlsLaws} fuel content c :
  length content < fuel -> read_loop fuel content c = gnutls_hash c content.
Proof.
  pose proof BLOCK_pos.
  revert content c. induction fuel as [|fuel IH]; intros content c Hf; [lia|]. cbn [read_loop].
  case_bool_decide as Hb.
  - apply (f_equal length) in Hb. rewrite length_take in Hb. simpl in Hb.
    destruct content; simpl in *; [by rewrite hash_nil|lia].
  - assert (content <> []) by (intros ->; by rewrite take_nil in Hb).
    assert (0 < length content) by (destruct content; simpl; [done|lia]).
    rewrite IH by (rewrite length_drop; lia). by rewrite hash_app, take_drop.
Qed.

(** The text of a hash is the one of the whole content. *)
Lemma compute_hash_spec `{!GnutlsLaws} a content : compute_hash a content = hex (hash_of a content).
Proof.
  unfold compute_hash. rewrite read_loop_spec by lia. fold (hash_of a content).
  set (h := hash_of a content). rewrite <-(hash_length a content). fold h.
  change (list_inserts 0 h) with (list_inserts (length (@nil ascii)) h).
  rewrite <-(app_nil_l (replicate _ _)), inserts_app by (rewrite length_replicate; lia). simpl.
  set (v := <[_ := NUL]> _).
  assert (Hv : length v = length h + length h + 1).
  { unfold v. rewrite length_insert, length_app, length_drop, length_replicate. lia. }
  rewrite hex_loop_spec by lia. rewrite take_app_le, take_ge by (rewrite length_hex, length_take; lia).
  f_equal. unfold v. rewrite insert_app_r_alt by lia. by rewrite take_app_length.
Qed.


(** ** Variables *)

Lemma var_of_vars t k key : var_of t k key = varval (search_var (vars_at t k) key).
Proof. unfold var_of, vars_at. by destruct (sub k t). Qed.

(** Setting a variable changes this one only, unless memory lacks. *)
Lemma entry_var_set_spec t k key v d o rc t' o' :
  is_Some (sub k t) -> entry_var_set t k key v d o = (rc, t', o') ->
  same_shape t' t /\ (o = [] -> o' = []) /\
  (forall j key', (j, key') <> (k, key) -> var_of t' j key' = var_of t j key') /\
  ((rc = 0%Z /\ var_of t' k key = v) \/
   (rc = (- ENOMEM)%Z /\ var_of t' k key = NULL /\ o <> [])).
Proof using Type.
  intros [e He]. unfold entry_var_set. rewrite He. unfold path_entry_var_set.
  assert (Hv : vars_at t k = vars e) by (unfold vars_at; by rewrite He).
  assert (Hget : forall l j key', var_of (set_vars k l t) j key' =
      varval (search_var (if bool_decide (j = k) then l else vars_at t j) key')).
  { intros l j key'. by rewrite var_of_vars, vars_at_set_vars by eauto. }
  destruct (search_var (vars e) key) as [x|] eqn:Es.
  - intros [= <- <- <-]. split; [apply set_vars_shape|]. split; [done|]. split.
    + intros j key' Hne. rewrite Hget, var_of_vars. case_bool_decide as Hj; [|done]. subst j. simpl.
      rewrite Hv, search_assign by by rewrite Es. by rewrite bool_decide_eq_false_2 by congruence.
    + left. rewrite Hget, bool_decide_eq_true_2 by done. simpl.
      by rewrite search_assign, bool_decide_eq_true_2 by (done || by rewrite Es).
  - destruct (malloc o) as [[] o1] eqn:Em; intros [= <- <- <-].
    + split; [apply set_vars_shape|]. split; [by intros ->; injection Em|]. split.
      * intros j key' Hne. rewrite Hget, var_of_vars. case_bool_decide as Hj; [|done]. subst j. simpl.
        rewrite Hv. destruct (Z.eqb_spec key' key) as [->|]; [congruence|done].
      * left. rewrite Hget, bool_decide_eq_true_2 by done. simpl. by rewrite Z.eqb_refl.
    + split; [apply set_vars_shape|]. split; [by intros ->|]. split.
      * intros j key' _. rewrite Hget, var_of_vars. case_bool_decide; [subst; by rewrite Hv|done].
      * right. rewrite Hget, bool_decide_eq_true_2, Es by done. split_and!; [done|done|by intros ->].
Qed.

(** ** The hashes of the entries *)

(** the name of an entry on disk, and the content of its file *)
Definition entry_path (t : path_entry) (k : handle) : bytes := path_text 0 k t [].

Definition file_of (t : path_entry) (k : handle) : option bytes :=
  match fopen (cstring (entry_path t k)) with inr c => Some c | inl _ => None end.

(** invariant: the hashes kept are those of the files; a digest that names
    the top of the tree, which has no path, may leave any hash there *)
Definition hashes_ok (st : memory) : Prop :=
  forall k l n, k <> [] -> heap st !! k = Some l -> n ∈ l ->
  exists c, file_of (tree st) k = Some c /\ value n = hex (hash_of (algorithm n) c).

(** what every operation does of the memory *)
Definition evolves (st : memory) (o : oracle) (st' : memory) (o' : oracle) : Prop :=
  same_shape (tree st') (tree st) /\ hashes_ok st' /\ (o = [] -> o' = []).

Lemma evolves_trans st o st1 o1 st2 o2 :
  evolves st o st1 o1 -> evolves st1 o1 st2 o2 -> evolves st o st2 o2.
Proof using Type. intros (A1 & _ & A3) (B1 & B2 & B3). split_and!; [by etrans|done|auto]. Qed.

Lemma file_of_shape t t' k : same_shape t t' -> file_of t k = file_of t' k.
Proof using Type. intros Hs. unfold file_of, entry_path. by rewrite (shape_path_text _ _ Hs). Qed.

Definition marked (st : memory) (k : handle) : Prop := var_of (tree st) k reset_idata_key <> NULL.

Context `{!GnutlsLaws}.

Lemma entry_hash_spec st k a path o rc r st' o' :
  hashes_ok st -> is_Some (sub k (tree st)) ->
  (k <> [] -> cstring path = cstring (entry_path (tree st) k)) ->
  entry_hash st k a path o = (rc, r, st', o') ->
  evolves st o st' o' /\
  (forall j, marked st' j <-> marked st j) /\
  match r with
  | Some n => rc = 0%Z /\ (k <> [] -> exists c, file_of (tree st) k = Some c /\ value n = hex (hash_of a c))
  | None => (rc < 0)%Z /\ (k <> [] -> o = [] -> file_of (tree st) k = None)
  end.
Proof.
  intros Hok Hk Hpath. unfold entry_hash. set (nodes := hash_nodes st k).
  assert (Hnodes : forall n, k <> [] -> n ∈ nodes ->
    exists c, file_of (tree st) k = Some c /\ value n = hex (hash_of (algorithm n) c)).
  { unfold nodes, hash_nodes. intros n Hne. destruct (_ =? _)%Z; [by rewrite elem_of_nil|].
    destruct (heap st !! k) as [l|] eqn:El; simpl; [eauto|by rewrite elem_of_nil]. }
  destruct (find _ nodes) as [n|] eqn:Ef.
  { intros [= <- <- <- <-]. apply find_some in Ef as [Hin Ha]. apply bool_decide_eq_true in Ha.
    split_and!; [split_and!; done|done|done|]. intros Hne.
    apply list_elem_of_In, (Hnodes n Hne) in Hin as (c & Hc & ->).
    exists c. by rewrite Ha. }
  destruct (fopen _) as [e|c] eqn:Eo.
  { intros [= <- <- <- <-]. split_and!; [split_and!; done|done|lia|]. intros Hne _. unfold file_of. by rewrite <-(Hpath Hne), Eo. }
  assert (Hf : k <> [] -> file_of (tree st) k = Some c) by (intros Hne; unfold file_of; by rewrite <-(Hpath Hne), Eo).
  destruct (malloc o) as [ok o1] eqn:Em. destruct ok; simpl.
  2: { intros [= <- <- <- <-]. split_and!; [split_and!; [done|done|by intros ->]|done|unfold ENOMEM; lia|].
       intros _ ->. discriminate Em. }
  set (w := if bool_decide (nodes = []) then _ else _).
  assert (Hw : exists rc1 t1 o2, w = (rc1, t1, o2) /\ same_shape t1 (tree st) /\ (o1 = [] -> o2 = []) /\
    (forall j, var_of t1 j reset_idata_key = var_of (tree st) j reset_idata_key) /\
    (rc1 = 0%Z \/ (rc1 = (- ENOMEM)%Z /\ o1 <> []))).
  { unfold w. case_bool_decide.
    - destruct (entry_var_set _ _ _ _ _ _) as [[rc1 t1] o2] eqn:Es.
      apply entry_var_set_spec in Es as (S1 & S2 & S3 & S4); [|done].
      exists rc1, t1, o2. split_and!; [done|done|done| |naive_solver].
      intros j. by apply S3.
    - exists 0%Z, (tree st), o1. split_and!; [done..|by left]. }
  destruct Hw as (rc1 & t1 & o2 & -> & S1 & S2 & S3 & S4).
  assert (Ho : o = [] -> o2 = []) by (intros ->; injection Em; auto).
  assert (Hm : forall h j, marked (Memory t1 h) j <-> marked st j) by (intros h j; unfold marked; simpl; by rewrite S3).
  assert (Hok' : forall l n, l <> [] -> heap st !! l = Some n -> forall x, x ∈ n ->
    exists c, file_of t1 l = Some c /\ value x = hex (hash_of (algorithm x) c)).
  { intros l n Hne Hl x Hx. rewrite (file_of_shape _ _ l S1). eauto. }
  destruct S4 as [->|[-> Ho1]]; simpl; intros [= <- <- <- <-].
  - split_and!; [split_and!; [done| |done]|apply Hm|done|intros; exists c; rewrite compute_hash_spec; auto].
    intros j l n Hjne Hj Hn. simpl in *. rewrite (file_of_shape _ _ j S1).
    apply lookup_insert_Some in Hj as [[<- <-]|[Hne Hj]]; [|eauto].
    apply elem_of_app in Hn as [Hn|Hn]; [by apply Hnodes|].
    apply list_elem_of_singleton in Hn as ->. exists c. rewrite compute_hash_spec. auto.
  - split_and!; [split_and!; [done| |done]|apply Hm|done|].
    + intros j l n Hjne Hj Hn. eapply Hok'; eauto.
    + intros _ ->. injection Em as <-. done.
Qed.

(** ** The text of a digest *)

Definition digest_line (a : digest_algorithm) (t : path_entry) (k : handle) : bytes :=
  match file_of t k with
  | Some c => hex (hash_of a c) ++ [FIELD_SEPARATOR] ++ entry_path t k ++ [RECORD_TERMINATOR]
  | None => []
  end.

Definition digest_text (a : digest_algorithm) (t : path_entry) (l : list handle) : bytes :=
  concat (digest_line a t <$> l).

Definition wanted (isdistributor : bool) (path : bytes) : Prop :=
  (if isdistributor then filter_for_distributor else filter_for_author) path (length path) = true.

Lemma put_text_store T v b :
  put_text (length b) v (length T, store T b) = (length (T ++ v), store (T ++ v) b).
Proof using Type.
  rewrite <-copy_store. unfold put_text, copy. f_equal. case_bool_decide; [|done].
  case_bool_decide; [by rewrite take_ge by lia|done].
Qed.

Lemma put_char_text size c w : put_char size c w = put_text size [c] w.
Proof using Type.
  destruct w as [p b]. unfold put_char, put_text. simpl. rewrite Nat.add_1_r. case_bool_decide; [|done].
  destruct (size - p) eqn:E; [lia|]. simpl. by rewrite take_nil.
Qed.

Lemma digest_maker_cb_spec t a b f mk k p T :
  same_shape (tree (mstore mk)) t -> hashes_ok (mstore mk) -> is_Some (sub k t) -> k <> [] -> p = entry_path t k ->
  pos mk = length T -> buffer mk = store T b ->
  exists mk' out, digest_maker_cb a (length b) 0 (Some f) mk k p = (mk', 0%Z) /\
    evolves (mstore mk) (moracle mk) (mstore mk') (moracle mk') /\
    pos mk' = length (T ++ out) /\ buffer mk' = store (T ++ out) b /\
    ((f p (length p) = true /\ is_Some (file_of t k) /\ out = digest_line a t k) \/
     (out = [] /\ (f p (length p) = true -> moracle mk = [] -> file_of t k = None))).
Proof.
  intros Hs Hok Hk Hne -> Hpos Hbuf. unfold digest_maker_cb. destruct (f _ _) eqn:Ef.
  2: { exists mk, []. rewrite app_nil_r. split_and!; try done. by right. }
  destruct (entry_hash _ _ _ _ _) as [[[rc r] st] o] eqn:Eh.
  apply entry_hash_spec in Eh as (He & _ & Hr); [|done|by apply (shape_sub _ _ Hs)|].
  2: { intros _. f_equal. symmetry. apply (shape_path_text _ _ Hs). }
  rewrite (file_of_shape _ _ k Hs) in Hr. destruct r as [n|].
  - destruct Hr as [-> Hr]. destruct (Hr Hne) as (c & Hc & Hn). eexists _, (digest_line a t k).
    rewrite !put_char_text, Hpos, Hbuf, !put_text_store. unfold digest_line at 1. rewrite Hc, Hn.
    split; [reflexivity|]. simpl. unfold digest_line. rewrite Hc, drop_0, <-!(assoc_L (++)).
    split_and!; [done..|]. left. split_and!; [done|by eexists|done].
  - destruct Hr as [_ Hr]. eexists _, []. split; [reflexivity|]. rewrite app_nil_r. simpl.
    split_and!; [done..|]. right. auto.
Qed.

Lemma maker_run t a b f l mk T :
  same_shape (tree (mstore mk)) t -> hashes_ok (mstore mk) ->
  (forall k p, (k, p) ∈ l -> is_Some (sub k t) /\ k <> [] /\ p = entry_path t k) ->
  pos mk = length T -> buffer mk = store T b ->
  exists mk' l', run (digest_maker_cb a (length b) 0 (Some f)) l mk = (mk', 0%Z) /\
    evolves (mstore mk) (moracle mk) (mstore mk') (moracle mk') /\
    pos mk' = length (T ++ digest_text a t l') /\ buffer mk' = store (T ++ digest_text a t l') b /\
    l' `sublist_of` l.*1 /\
    (forall k, k ∈ l' -> f (entry_path t k) (length (entry_path t k)) = true /\ is_Some (file_of t k)) /\
    (moracle mk = [] -> forall k, k ∈ l.*1 -> f (entry_path t k) (length (entry_path t k)) = true ->
       is_Some (file_of t k) -> k ∈ l').
Proof.
  revert mk T. induction l as [|[k p] l IH]; intros mk T Hs Hok Hl Hpos Hbuf.
  { exists mk, []. unfold digest_text. simpl. rewrite app_nil_r. split_and!; try done.
    all: intros; by edestruct (@not_elem_of_nil handle). }
  destruct (Hl k p) as (Hk & Hne & Hp); [by left|].
  destruct (digest_maker_cb_spec t a b f mk k p T Hs Hok Hk Hne Hp Hpos Hbuf)
    as (mk1 & out & E & He & Hpos1 & Hbuf1 & Hout).
  destruct (IH mk1 (T ++ out)) as (mk' & l' & E' & He' & Hpos' & Hbuf' & Hsub & Hin & Hall);
    [etrans; [apply He|done]|by apply He|intros ??; by eauto using list_elem_of_further|done|done|].
  rewrite <-(assoc_L (++)) in Hpos', Hbuf'. simpl. rewrite E. simpl.
  pose proof (evolves_trans _ _ _ _ _ _ He He') as He2.
  destruct Hout as [(Hf & Hfile & ->)|[-> Hno]].
  - exists mk', (k :: l'). split_and!; try done; [by constructor| |].
    + intros j [->|Hj]%elem_of_cons; [by rewrite <-Hp|auto].
    + intros Ho j [->|Hj]%elem_of_cons ? ?; [by left|]. right. apply Hall; try done. by apply He.
  - exists mk', l'. split_and!; try done; [by constructor|].
    intros Ho j [->|Hj]%elem_of_cons Hf [c Hc].
    + rewrite <-Hp in Hf. by rewrite (Hno Hf Ho) in Hc.
    + apply Hall; try done. by apply He.
Qed.

Lemma root_path_top t : name t = [] -> root_path t = [].
Proof using Type.
  intros Hn. unfold root_path, path_entry_get_path. simpl. unfold name_at. simpl.
  by rewrite (bool_decide_eq_true_2 (name t = [])).
Qed.

(** the visits of the added entries *)
Lemma added_visits flgs t k p :
  wf t -> name t = [] -> only_added flgs = true -> first_path flgs [] = [] -> no_path flgs = false ->
  (k, p) ∈ all_visits flgs t [] <-> added k t /\ p = entry_path t k.
Proof using Type.
  intros Hwf Hn Ha Hfp Hnp. rewrite all_visits_elem, Ha, Hfp by done. unfold extend. rewrite Hn. simpl.
  by rewrite (path_text_flags flgs 0).
Qed.

Lemma create_digest_cases st a b isdistributor o :
  wf (tree st) -> name (tree st) = [] -> fits 0 PATH_MAX false (tree st) [] = true -> hashes_ok st ->
  ~ added [] (tree st) ->
  exists l st' o', let text := digest_text a (tree st) l in
    create_digest st a b (length b) isdistributor o =
      (i32 (Z.of_nat (length text)), store text b, st', o') /\
    evolves st o st' o' /\ NoDup l /\
    (forall k, k ∈ l -> added k (tree st) /\ wanted isdistributor (entry_path (tree st) k) /\
       is_Some (file_of (tree st) k)) /\
    (o = [] -> forall k, added k (tree st) -> wanted isdistributor (entry_path (tree st) k) ->
       is_Some (file_of (tree st) k) -> k ∈ l).
Proof.
  intros Hwf Hn Hfit Hok Htop. unfold create_digest, make_file_list_digest.
  set (flgs := Z.lor PATH_ENTRY_FORALL_ONLY_ADDED PATH_ENTRY_FORALL_ABSOLUTE).
  assert (Hroot : forall b n, path_entry_get_path (tree st) [] b n = Some (0, b)).
  { intros. unfold path_entry_get_path. simpl. unfold name_at. simpl.
    by rewrite (bool_decide_eq_true_2 (name (tree st) = [])). }
  unfold root_path. rewrite !Hroot, take_0.
  assert (Hv : forall k p, (k, p) ∈ all_visits flgs (tree st) [] <-> added k (tree st) /\ p = entry_path (tree st) k).
  { intros k p. by apply added_visits. }
  rewrite for_each_run; [|done|intros _; by rewrite <-Hfit; apply fits_flags].
  set (f := if isdistributor then _ else _).
  destruct (maker_run (tree st) a b f (all_visits flgs (tree st) []) (Maker 0 b 0 st o) [])
    as (mk' & l & -> & He & Hpos & Hbuf & Hsub & Hin & Hall); try done.
  { intros k p [Hk ->]%Hv. split; [|split; [by intros ->|done]]. destruct Hk as (x & Hx & _). by eexists. }
  { simpl. unfold store. by rewrite take_nil, drop_0. }
  assert (Hl : forall k, k ∈ (all_visits flgs (tree st) []).*1 <-> added k (tree st)).
  { intros k. by apply all_visits_fst. }
  exists l, (mstore mk'), (moracle mk'). cbv zeta. rewrite Hpos, Hbuf. simpl.
  split_and!; [done|by apply He..| | |].
  - eapply sublist_NoDup; [|done]. by apply all_visits_NoDup.
  - intros k Hk. split; [|by apply Hin]. eapply Hl, elem_of_submseteq; [done|]. by apply sublist_submseteq.
  - intros Ho k Hk Hw Hf. apply Hall; [done|by apply Hl|done|done].
Qed.

(** The digest made for a package is the text with one line for each
    added file that is to be signed and can be read, the hash in
    hexadecimal of its content and its path, written as far as the buffer
    holds it; its whole length is returned, so that a first call without
    buffer tells the size to allocate. *)
Theorem create_digest_spec st a b isdistributor o :
  wf (tree st) -> name (tree st) = [] -> fits 0 PATH_MAX false (tree st) [] = true -> hashes_ok st ->
  ~ added [] (tree st) ->
  exists l st' o', let text := digest_text a (tree st) l in
    create_digest st a b (length b) isdistributor o =
      (i32 (Z.of_nat (length text)), store text b, st', o') /\
    evolves st o st' o' /\ NoDup l /\
    (forall k, k ∈ l -> added k (tree st) /\ wanted isdistributor (entry_path (tree st) k) /\
       is_Some (file_of (tree st) k)) /\
    (o = [] -> forall k, added k (tree st) -> wanted isdistributor (entry_path (tree st) k) ->
       is_Some (file_of (tree st) k) -> k ∈ l).
Proof. apply create_digest_cases. Qed.

(** ** The lines of a digest

    One character at a time: the reference for the loop of the check. *)

Fixpoint records_from (h : bytes) (n : option bytes) (text : bytes) : list (bytes * bytes) :=
  match text, n with
  | [], Some n => [(h, n)]
  | [], None => if bool_decide (h = []) then [] else [(h, [])]
  | c :: text', None =>
      if not_separator c then records_from (h ++ [c]) None text' else records_from h (Some []) text'
  | c :: text', Some n =>
      if not_terminator c then records_from h (Some (n ++ [c])) text'
      else (h, n) :: records_from [] None text'
  end.
Definition records (text : bytes) : list (bytes * bytes) := records_from [] None text.

Lemma records_name h n text :
  records_from h (Some n) text =
  (h, n ++ take_while not_terminator text) :: records (drop 1 (drop_while not_terminator text)).
Proof using Type.
  revert n. induction text as [|c text IH]; intros n; simpl; [by rewrite app_nil_r|].
  destruct (not_terminator c); [by rewrite IH, <-(assoc_L (++))|]. simpl. by rewrite app_nil_r, drop_0.
Qed.

Lemma records_line text :
  text <> [] ->
  let text1 := drop 1 (drop_while not_separator text) in
  records text = (take_while not_separator text, take_while not_terminator text1) ::
    records (drop 1 (drop_while not_terminator text1)).
Proof using Type.
  unfold records at 1. intros Ht.
  assert (Hg : forall h, h <> [] \/ text <> [] -> let text1 := drop 1 (drop_while not_separator text) in
    records_from h None text = (h ++ take_while not_separator text, take_while not_terminator text1) ::
      records (drop 1 (drop_while not_terminator text1))); [|by apply Hg; right].
  clear Ht. cbv zeta. induction text as [|c text IH]; intros h Hh; simpl.
  - destruct Hh as [Hh|?]; [|done]. by rewrite bool_decide_eq_false_2, app_nil_r.
  - destruct (not_separator c).
    + rewrite IH, <-(assoc_L (++)); [done|]. left. by destruct h.
    + simpl. by rewrite records_name, app_nil_r, drop_0.
Qed.

(** a line is right: its name is an entry, whose file has its hash, unless
    it is the top of the tree, whose path is not known *)
Definition valid_record (t : path_entry) (r : bytes * bytes) : Prop :=
  r.1 <> [] /\ r.2 <> [] /\ is_Some (sub (components r.2) t) /\
  exists a, algorithm_of_length (length r.1) = Some a /\
    (components r.2 <> [] -> exists c, file_of t (components r.2) = Some c /\ r.1 = hex (hash_of a c)).

Definition listed (text : bytes) (k : handle) : Prop := exists r, r ∈ records text /\ components r.2 = k.

(** no line names the top of the tree *)
Definition no_top (text : bytes) : Prop := forall r, r ∈ records text -> components r.2 <> [].

Lemma cstring_nul s r : cstring (s ++ NUL :: r) = cstring s.
Proof using Type.
  unfold cstring. induction s as [|c s IH]; simpl; [done|]. destruct (bool_decide (c = NUL)); simpl; congruence.
Qed.

#[local] Opaque PATH_MAX.

(** the local buffer after the path of an entry is written *)
Lemma path_buffer t k b :
  wf t -> name t = [] -> fits 0 PATH_MAX false t [] = true -> is_Some (sub k t) ->
  length b = PATH_MAX + 1 ->
  exists n b', path_entry_get_path t (rev k) b (PATH_MAX + 1) = Some (n, b') /\
    length b' = PATH_MAX + 1 /\
    (k <> [] -> cstring (<[PATH_MAX := NUL]> b') = cstring (entry_path t k)).
Proof using Type.
  intros Hwf Hn Hfit [x Hx] Hb. destruct (decide (k = [])) as [->|Hk].
  { exists 0, b. split; [|done]. unfold path_entry_get_path. simpl. unfold name_at. simpl.
    by rewrite (bool_decide_eq_true_2 (name t = [])). }
  pose proof (fits_path_text 0 PATH_MAX k t [] Hwf Hfit eq_refl (or_introl Hk) ltac:(eauto)) as Hl.
  unfold extend in Hl. rewrite Hn in Hl. simpl in Hl. fold (entry_path t k) in Hl.
  exists (length (entry_path t k)), (store (entry_path t k ++ [NUL]) b).
  split; [rewrite <-Hb; by eapply relpath_text|]. split; [by rewrite length_store|]. intros _.
  unfold store. rewrite take_ge, <-(assoc_L (++)) by (rewrite length_app; simpl; lia).
  rewrite insert_app_r_alt by lia.
  rewrite insert_app_r_alt by (simpl; lia). apply cstring_nul.
Qed.

(** the lengths of the parts of the first line *)
Lemma line_lengths text :
  text <> [] ->
  let text1 := drop 1 (drop_while not_separator text) in
  let nm := take_while not_terminator text1 in
  length nm <= length text /\ take (length nm) text1 = nm /\
  length (drop 1 (drop_while not_terminator text1)) < length text.
Proof using Type.
  intros Ht text1 nm. assert (0 < length text) by (destruct text; simpl; [done|lia]).
  pose proof (length_take_drop_while not_separator text).
  pose proof (length_take_drop_while not_terminator text1) as Hd. fold nm in Hd.
  assert (length text1 = length (drop_while not_separator text) - 1) by apply length_drop.
  split_and!; [lia|apply take_length_take_while|]. rewrite length_drop.
  destruct (decide (nm = [])) as [Hnm|]; [|destruct nm; simpl in *; [done|lia]].
  destruct (length (drop_while not_separator text)); lia.
Qed.

(** One turn of the loop stops on a line that is wrong, or goes on. *)
Lemma check_loop_line t fuel st text pathbuf o :
  wf t -> name t = [] -> fits 0 PATH_MAX false t [] = true ->
  same_shape (tree st) t -> hashes_ok st -> length pathbuf = PATH_MAX + 1 ->
  text <> [] -> (Z.of_nat (length text) < 2 ^ 32)%Z ->
  exists hash nm text2, records text = (hash, nm) :: records text2 /\ length text2 < length text /\
    ((exists rc st1 o1, check_loop (S fuel) st text pathbuf o = (rc, st1, o1) /\ (rc < 0)%Z /\
        evolves st o st1 o1 /\ (components nm <> [] -> o = [] -> ~ valid_record t (hash, nm))) \/
     (exists st1 b1 o1, check_loop (S fuel) st text pathbuf o = check_loop fuel st1 text2 b1 o1 /\
        valid_record t (hash, nm) /\ evolves st o st1 o1 /\ length b1 = PATH_MAX + 1 /\
        (o = [] -> marked st1 (components nm)) /\
        forall k, k <> components nm -> (marked st1 k <-> marked st k))).
Proof.
  intros Hwf Hn Hfit Hs Hok Hpb Ht Hlen. destruct (line_lengths text Ht) as (Hnl & Hnm & Hlt).
  pose proof (records_line text Ht) as Hrec. cbv zeta in Hrec.
  destruct text as [|x text]; [done|]. cbn [check_loop]. set (txt := x :: text) in *.
  set (hash := take_while not_separator txt) in *. set (text1 := drop 1 (drop_while _ txt)) in *.
  set (nm := take_while not_terminator text1) in *. set (text2 := drop 1 (drop_while _ text1)) in *.
  exists hash, nm, text2. split; [done|]. split; [done|].
  destruct (bool_decide (hash = []) || bool_decide (nm = [])) eqn:Eemp.
  { left. eexists _, _, _. split_and!; [done|unfold EINVAL; lia|done..|]. intros _ _ (Hh & Hm & _).
    by rewrite !bool_decide_eq_false_2 in Eemp. }
  bool_hyps. rewrite get_length_spec, u32_length, Hnm by lia. cbv zeta.
  destruct (sub (components nm) (tree st)) as [e|] eqn:Esub; cbv beta iota.
  2: { left. eexists _, _, _. split_and!; [done|unfold ENOENT; lia|done..|].
       intros _ _ (_ & _ & Hsub & _). simpl in Hsub.
       apply (shape_sub _ _ Hs) in Hsub as [? Hsub]. by rewrite Esub in Hsub. }
  destruct (algorithm_of_length (length hash)) as [a|] eqn:Ea.
  2: { left. eexists _, _, _. split_and!; [done|unfold EINVAL; lia|done..|].
       intros _ _ (_ & _ & _ & a & Ha & _). simpl in Ha. congruence. }
  destruct (path_buffer (tree st) (components nm) pathbuf) as (n & b' & -> & Hb' & Hc);
    [by apply (shape_wf _ _ Hs)|by rewrite (shape_name _ _ Hs)|by rewrite (shape_fits _ _ Hs)|by eexists|done|].
  destruct (entry_hash _ _ _ _ _) as [[[rc1 r] st1] o1] eqn:Eh.
  apply entry_hash_spec in Eh as (He & Hm & Hr); [|done|by eexists|done].
  rewrite (file_of_shape _ _ (components nm) Hs) in Hr. destruct r as [node|].
  2: { destruct Hr as [Hneg Hnone]. left. exists rc1, st1, o1. split; [done|]. split; [done|]. split; [done|].
       intros Hne Ho (_ & _ & _ & ? & _ & Hc'). destruct (Hc' Hne) as (c & Hf & _). simpl in Hf.
       by rewrite (Hnone Hne Ho) in Hf. }
  destruct Hr as [-> Hr].
  destruct (_ || _) eqn:Eneq.
  { left. eexists _, _, _. split; [done|]. split; [unfold EBADF; lia|]. split; [done|].
    intros Hne Ho (_ & _ & _ & a' & Ha & Hc'). destruct (Hc' Hne) as (c' & Hf & Hh). simpl in Ha, Hf, Hh.
    destruct (Hr Hne) as (c & Hfile & Hval). assert (a' = a) as -> by congruence. assert (c' = c) as -> by congruence.
    rewrite Hval, <-Hh, bool_decide_eq_true_2, beq_refl in Eneq by done. done. }
  bool_hyps. match goal with K : beq _ _ = true |- _ => apply beq_true in K as Hhv end.
  destruct (entry_var_set _ _ _ _ _ _) as [[rc2 t2] o2] eqn:Es.
  apply entry_var_set_spec in Es as (S1 & S2 & S3 & S4); [|by apply (shape_sub _ _ (proj1 He)); eexists].
  right. exists (Memory t2 (heap st1)), (<[PATH_MAX := NUL]> b'), o2. split; [done|].
  destruct He as (A1 & A2 & A3). split; [|split; [|split; [by rewrite length_insert|split]]].
  - split_and!; [done|done|by apply (shape_sub _ _ Hs); eexists|]. exists a. split; [done|]. simpl. intros Hne.
    destruct (Hr Hne) as (c & Hfile & Hval). exists c. split; [done|]. congruence.
  - split_and!; [by etrans| |auto]. intros k l x' Hne Hx Hin. simpl in *. rewrite (file_of_shape _ _ k S1). eauto.
  - intros Ho. unfold marked. simpl. destruct S4 as [[_ ->]|(_ & _ & Ho1)]; [done|]. by destruct Ho1; apply A3.
  - intros k Hne. rewrite <-Hm. unfold marked. simpl. by rewrite S3 by congruence.
Qed.

Lemma check_loop_spec t fuel st text pathbuf o rc st' o' :
  wf t -> name t = [] -> fits 0 PATH_MAX false t [] = true ->
  same_shape (tree st) t -> hashes_ok st -> length pathbuf = PATH_MAX + 1 -> length text < fuel ->
  (Z.of_nat (length text) < 2 ^ 32)%Z ->
  check_loop fuel st text pathbuf o = (rc, st', o') ->
  evolves st o st' o' /\ (rc <= 0)%Z /\
  (rc = 0%Z -> Forall (valid_record t) (records text) /\
     forall k, marked st' k -> marked st k \/ listed text k) /\
  (o = [] -> no_top text -> Forall (valid_record t) (records text) ->
     rc = 0%Z /\ forall k, marked st k \/ listed text k -> marked st' k).
Proof.
  intros Hwf Hn Hfit. revert st text pathbuf o. induction fuel as [|fuel IH];
    intros st text pathbuf o Hs Hok Hpb Hf Hlen; [lia|].
  destruct (decide (text = [])) as [->|Ht].
  { intros [= <- <- <-]. split_and!; try done. all: unfold listed; intros; split; [done|].
    all: set_unfold; naive_solver. }
  destruct (check_loop_line t fuel st text pathbuf o) as (hash & nm & text2 & Hrec & Hlt & Hcase); try done.
  assert (Hlisted : forall k, listed text k <-> k = components nm \/ listed text2 k).
  { intros k. unfold listed. rewrite Hrec. setoid_rewrite elem_of_cons. naive_solver. }
  assert (Hno : no_top text -> components nm <> [] /\ no_top text2).
  { unfold no_top. rewrite Hrec. intros Htop. split; [apply (Htop (hash, nm)); by left|].
    intros r Hr. apply Htop. by right. }
  rewrite Hrec. setoid_rewrite Hlisted. rewrite Forall_cons.
  destruct Hcase as [(rc1 & st1 & o1 & -> & Hneg & He & Hnv)|(st1 & b1 & o1 & -> & Hv & He & Hb1 & Hm1 & Hm2)].
  { intros [= <- <- <-]. split; [done|]. split; [lia|]. split; [lia|]. intros Ho Htop [Hv _].
    by destruct (Hnv (proj1 (Hno Htop)) Ho). }
  intros Hrun. apply IH in Hrun as (B1 & B2 & B3 & B4);
    [|by etrans; [apply He|]|apply He|done|lia|lia].
  split; [by eapply evolves_trans|]. split; [done|]. split.
  - intros Hrc. destruct (B3 Hrc) as [C1 C2]. split; [done|]. intros k Hk.
    destruct (C2 k Hk) as [Hk1|?]; [|auto]. destruct (decide (k = components nm)); [auto|].
    left. by apply Hm2.
  - intros Ho Htop [_ HF].
    destruct (B4 (proj2 (proj2 He) Ho) (proj2 (Hno Htop)) HF) as [C1 C2].
    split; [done|]. intros k Hk. apply C2. destruct (decide (k = components nm)) as [->|Hne]; [auto|].
    rewrite Hm2 by done. naive_solver.
Qed.

(** ** The check of a digest *)

Lemma reset_idata_run t l o t' o' rc :
  (forall k p, (k, p) ∈ l -> is_Some (sub k t)) -> run reset_idata l (t, o) = ((t', o'), rc) ->
  rc = 0%Z /\ same_shape t' t /\ (o = [] -> o' = []) /\
  (forall k, k ∈ l.*1 -> var_of t' k reset_idata_key = NULL) /\
  (forall k, var_of t k reset_idata_key = NULL -> var_of t' k reset_idata_key = NULL).
Proof using Type.
  revert t o. induction l as [|[k p] l IH]; intros t o Hl; simpl.
  { intros [= <- <- <-]. split_and!; try done. intros k Hk. by apply elem_of_nil in Hk. }
  unfold reset_idata at 1. destruct (entry_var_set _ _ _ _ _ _) as [[rc1 t1] o1] eqn:Es. simpl in Es |- *.
  apply entry_var_set_spec in Es as (S1 & S2 & S3 & S4); [|by eapply Hl; left].
  intros Hr. apply IH in Hr as (-> & B1 & B2 & B3 & B4).
  2: { intros j q Hj. apply (shape_sub _ _ S1). eapply Hl. by right. }
  assert (Hk : var_of t1 k reset_idata_key = NULL) by naive_solver.
  split_and!; [done|by etrans|auto| |].
  - intros j [->|Hj]%elem_of_cons; auto.
  - intros j Hj. destruct (decide (j = k)) as [->|Hne]; [auto|]. apply B4. by rewrite S3 by congruence.
Qed.

(** what [check_signed] requires of an entry *)
Definition signed_as (isdistributor : bool) (path : bytes) (marked : Prop) : Prop :=
  match signature_name_type path with
  | Signature_None => marked
  | Signature_Author => marked <-> isdistributor = true
  | Signature_distributor => ~ marked
  end.

Lemma check_signed_run t isd l n :
  ((run (check_signed t isd) l n).1 = 0) <->
  n = 0 /\ forall k p, (k, p) ∈ l -> signed_as isd p (var_of t k reset_idata_key <> NULL).
Proof using Type.
  revert n. induction l as [|[k p] l IH]; intros n; cbn [run].
  { simpl. setoid_rewrite elem_of_nil. naive_solver. }
  destruct (check_signed t isd n k p) as [m rc] eqn:E.
  assert (Hm : rc = 0%Z /\ (m = 0 <-> n = 0 /\ signed_as isd p (var_of t k reset_idata_key <> NULL))).
  { unfold check_signed in E. injection E as <- <-. split; [done|]. unfold signed_as, signature_name_type.
    destruct (Z.eqb_spec (var_of t k reset_idata_key) NULL) as [Ez|Ez];
      destruct (signature_name_type_length _ _), isd; simpl; split; intros K; (lia || naive_solver lia). }
  destruct Hm as [-> Hm]. simpl. rewrite IH, Hm. setoid_rewrite elem_of_cons. naive_solver.
Qed.

Lemma signed_as_iff isd p (P Q : Prop) : (P <-> Q) -> signed_as isd p P <-> signed_as isd p Q.
Proof using Type. intros HPQ. unfold signed_as. destruct (signature_name_type p); tauto. Qed.

(** a tree and a digest that the check is meant for *)
Definition checkable (t : path_entry) (text : bytes) : Prop :=
  wf t /\ name t = [] /\ fits 0 PATH_MAX false t [] = true /\
  (Z.of_nat (length text) < 2 ^ 32)%Z.

(** what makes a digest cover a package *)
Definition covers (t : path_entry) (isdistributor : bool) (text : bytes) : Prop :=
  Forall (valid_record t) (records text) /\
  forall k, added k t ->
    match signature_name_type (entry_path t k) with
    | Signature_None => listed text k
    | Signature_Author => isdistributor = true -> listed text k
    | Signature_distributor => True
    end.

Lemma check_digest_cases st text garbage isd o rc st' o' :
  checkable (tree st) text -> hashes_ok st -> length garbage = PATH_MAX + 1 ->
  check_digest st text garbage isd o = (rc, st', o') ->
  evolves st o st' o' /\ (rc <= 0)%Z /\
  (rc = 0%Z -> Forall (valid_record (tree st)) (records text) /\
     forall k, added k (tree st) -> signed_as isd (entry_path (tree st) k) (marked st' k) /\
       (marked st' k -> listed text k)) /\
  (o = [] -> no_top text -> Forall (valid_record (tree st)) (records text) ->
     (forall k, listed text k -> marked st' k) /\
     ((forall k, added k (tree st) -> signed_as isd (entry_path (tree st) k) (listed text k)) -> rc = 0%Z)).
Proof.
  intros (Hwf & Hn & Hfit & Hlen) Hok Hg. unfold check_digest.
  rewrite for_each_run by done.
  destruct (run reset_idata _ _) as [[t1 o1] rc0] eqn:Er.
  apply reset_idata_run in Er as (_ & Hs1 & Ho1 & Hnull & _).
  2: { intros k p Hk. apply all_visits_elem in Hk as [(x & Hx & _) _]; [by eexists|done]. }
  destruct (check_loop _ _ _ _ _) as [[rc1 st1] o2] eqn:El.
  assert (Hok1 : hashes_ok (Memory t1 (heap st))).
  { intros k l n Hne Hl Hin. simpl in *. rewrite (file_of_shape _ _ k Hs1). eauto. }
  apply (check_loop_spec (tree st)) in El as (He & Hle & Hsafe & Hcomp); try done; [|lia].
  assert (He' : evolves st o st1 o2).
  { destruct He as (A1 & A2 & A3). split_and!; [by etrans|done|auto]. }
  destruct He as [Hs2 _].
  simpl in Hs2. pose proof (transitivity Hs2 Hs1) as Hs.
  assert (Hunm : forall k, added k (tree st) -> ~ marked (Memory t1 (heap st)) k).
  { intros k Hk Hm. apply Hm, Hnull. by apply all_visits_fst. }
  destruct (Z.eqb_spec rc1 0) as [->|Hne]; simpl.
  2: { intros [= <- <- <-]. split; [done|]. split; [done|]. split; [done|]. intros Ho Htop HF. by destruct (Hcomp (Ho1 Ho) Htop HF). }
  destruct (Hsafe eq_refl) as [Hval Hmark].
  assert (Hfit1 : fits PATH_ENTRY_FORALL_ONLY_ADDED PATH_MAX false (tree st1) [] = true).
  { by rewrite (shape_fits _ _ Hs), (fits_flags _ 0). }
  rewrite for_each_run by done. rewrite (shape_all_visits _ _ Hs).
  destruct (run (check_signed _ _) _ _) as [n rc2] eqn:Ec.
  pose proof (check_signed_run (tree st1) isd (all_visits PATH_ENTRY_FORALL_ONLY_ADDED (tree st) []) 0) as Hcs.
  rewrite Ec in Hcs. simpl in Hcs.
  assert (Hcs' : n = 0 <-> forall k, added k (tree st) -> signed_as isd (entry_path (tree st) k) (marked st1 k)).
  { rewrite Hcs. setoid_rewrite added_visits; try done. unfold marked. naive_solver. }
  intros [= <- <- <-].
  assert (Hin : o = [] -> no_top text -> forall k, listed text k -> marked st1 k).
  { intros Ho Htop k Hk. destruct (Hcomp (Ho1 Ho) Htop Hval) as [_ Hc]. auto. }
  case_bool_decide as Hz; (split; [done|]); (split; [unfold EBADF; lia|]); split; [|by auto|done|].
  - intros _. split; [done|]. intros k Hk. split; [by apply Hcs'|]. intros Hm.
    destruct (Hmark k Hm) as [Hm1|]; [|done]. by destruct (Hunm k Hk).
  - intros Ho Htop HF. split; [by auto|]. intros Hsig. destruct Hz. apply Hcs'. intros k Hk.
    eapply signed_as_iff, (Hsig k Hk). split; [|by apply Hin].
    intros Hm. destruct (Hmark k Hm) as [Hm1|]; [|done]. by destruct (Hunm k Hk).
Qed.

Lemma check_digest_covers st text garbage isdistributor o st' o' :
  checkable (tree st) text -> hashes_ok st -> length garbage = PATH_MAX + 1 ->
  check_digest st text garbage isdistributor o = (0%Z, st', o') -> covers (tree st) isdistributor text.
Proof.
  intros Hc Hok Hg Hrun. apply check_digest_cases in Hrun as (_ & _ & Hsafe & _); [|done..].
  destruct (Hsafe eq_refl) as [HF Hk]. split; [done|]. intros k Ha. destruct (Hk k Ha) as [Hs Hl].
  unfold signed_as in Hs. destruct (signature_name_type _); naive_solver.
Qed.

(** A digest that passes the check, whatever the memory, has only lines
    with the hash of the file they name, and covers the package: each added
    file that is not a signature is listed, and also, for a distributor,
    the signature of the author. *)
Theorem check_digest_safe st text garbage isdistributor o st' o' :
  checkable (tree st) text -> hashes_ok st -> length garbage = PATH_MAX + 1 ->
  check_digest st text garbage isdistributor o = (0%Z, st', o') -> covers (tree st) isdistributor text.
Proof. intros Hc Hok Hg Hrun. by eapply check_digest_covers. Qed.

(** C12: when memory does not lack, a digest passes the check if and only if
    its lines are right and the files that it lists are exactly the ones
    that its kind must sign: no signature for an author, the signature of
    the author and not those of distributors for a distributor. *)
Theorem check_digest_exact st text garbage isdistributor :
  checkable (tree st) text -> hashes_ok st -> length garbage = PATH_MAX + 1 -> no_top text ->
  (check_digest st text garbage isdistributor []).1.1 = 0%Z <->
  Forall (valid_record (tree st)) (records text) /\
  forall k, added k (tree st) -> signed_as isdistributor (entry_path (tree st) k) (listed text k).
Proof.
  intros Hc Hok Hg Htop. destruct (check_digest _ _ _ _ _) as [[rc st'] o'] eqn:Hrun. simpl.
  apply check_digest_cases in Hrun as (_ & _ & Hsafe & Hexact); [|done..]. split.
  - intros Hrc. destruct (Hsafe Hrc) as [HF Hk]. split; [done|]. intros k Ha. destruct (Hk k Ha) as [Hs Hl].
    destruct (Hexact eq_refl Htop HF) as [Hm _]. eapply signed_as_iff, Hs. naive_solver.
  - intros [HF Hk]. by apply (Hexact eq_refl Htop HF).
Qed.

(** ** Round trip *)

Lemma hex_no_separator v : Forall (fun c => not_separator c = true) (hex v).
Proof using Type.
  assert (Hd : forall z, not_separator (hexdigit (Z.land z 15)) = true).
  { intros z. unfold not_separator. rewrite bool_decide_eq_false_2; [done|]. intros E.
    apply (f_equal code) in E. unfold hexdigit in E. rewrite code_chr in E.
    change 15%Z with (Z.ones 4) in E. rewrite Z.land_ones in E by lia.
    pose proof (Z.mod_pos_bound z (2 ^ 4)). change (code FIELD_SEPARATOR) with 32%Z in E.
    destruct (Z.leb_spec (z mod 2 ^ 4) 9); rewrite Z.mod_small in E; lia. }
  induction v as [|c v IH]; simpl; [done|]. by repeat constructor.
Qed.

Lemma records_cons h n rest :
  h <> [] -> Forall (fun c => not_separator c = true) h -> NL ∉ n ->
  records (h ++ [FIELD_SEPARATOR] ++ n ++ [RECORD_TERMINATOR] ++ rest) = (h, n) :: records rest.
Proof using Type.
  intros Hh HF Hn. rewrite records_line by by destruct h. cbv zeta.
  rewrite take_while_all, drop_while_all by done. simpl. rewrite app_nil_r, drop_0.
  assert (HN : Forall (fun c => not_terminator c = true) n).
  { apply Forall_forall. intros c Hc. unfold not_terminator. rewrite bool_decide_eq_false_2; [done|].
    by intros ->. }
  rewrite take_while_all, drop_while_all by done. simpl. by rewrite app_nil_r, drop_0.
Qed.

Definition record_of (a : digest_algorithm) (t : path_entry) (k : handle) : bytes * bytes :=
  (hex (hash_of a (default [] (file_of t k))), entry_path t k).

Definition supported (a : digest_algorithm) : Prop :=
  algorithm_of_length (gnutls_hash_get_len a + gnutls_hash_get_len a) = Some a.

Lemma supported_nonempty a c : supported a -> hex (hash_of a c) <> [].
Proof.
  intros Hs E. apply (f_equal length) in E. rewrite length_hex, hash_length in E.
  unfold supported in Hs. rewrite E in Hs. done.
Qed.

Lemma records_digest a t l :
  supported a -> (forall k, k ∈ l -> is_Some (file_of t k) /\ NL ∉ entry_path t k) ->
  records (digest_text a t l) = record_of a t <$> l.
Proof.
  intros Ha. induction l as [|k l IH]; intros Hl; [done|].
  destruct (Hl k) as [[c Hc] Hn]; [by left|]. unfold digest_text, record_of in *. simpl.
  unfold digest_line at 1. rewrite Hc, <-!(assoc_L (++)). simpl (default _ _).
  rewrite (records_cons _ _ _ (supported_nonempty a c Ha) (hex_no_separator _) Hn).
  f_equal. apply IH. intros j Hj. apply Hl. by right.
Qed.

Lemma signed_as_wanted isd p : signed_as isd p (wanted isd p).
Proof using Type.
  unfold signed_as, wanted, signature_name_type, filter_for_distributor, filter_for_author.
  destruct isd; cbv beta; destruct (signature_name_type_length p (length p)); vm_compute; naive_solver.
Qed.

(** a package that a digest with the algorithm can cover *)
Record digestible (a : digest_algorithm) (t : path_entry) : Prop := {
  dg_wf : wf t;
  dg_top : name t = [];
  dg_fits : fits 0 PATH_MAX false t [] = true;
  dg_supported : supported a;
  dg_added : forall k, added k t -> k <> [] /\ (NL ∉ entry_path t k) /\ is_Some (file_of t k);
  dg_size : forall l, NoDup l -> (forall k, k ∈ l -> added k t) ->
    (Z.of_nat (length (digest_text a t l)) < 2 ^ 31)%Z
}.

(** the entries to sign *)
Definition to_sign (t : path_entry) (isdistributor : bool) (l : list handle) : Prop :=
  NoDup l /\ forall k, k ∈ l <-> added k t /\ wanted isdistributor (entry_path t k).

Lemma create_digest_complete st a b isdistributor :
  digestible a (tree st) -> hashes_ok st ->
  exists l st', create_digest st a b (length b) isdistributor [] =
      (Z.of_nat (length (digest_text a (tree st) l)), store (digest_text a (tree st) l) b, st', []) /\
    evolves st [] st' [] /\ to_sign (tree st) isdistributor l.
Proof.
  intros [Hwf Hn Hfit Ha Hadd Hsize] Hok.
  destruct (create_digest_cases st a b isdistributor [] Hwf Hn Hfit Hok (fun Hx => proj1 (Hadd _ Hx) eq_refl))
    as (l & st1 & o1 & E & He & Hnd & Hl & Hall). exists l, st1.
  assert (o1 = []) as -> by (by apply He).
  pose proof (Hsize l Hnd (fun k Hk => proj1 (Hl k Hk))) as Hsz. split; [|split; [done|split; [done|]]].
  - rewrite E. unfold i32. rewrite Z.mod_small by lia. repeat f_equal. lia.
  - intros k. split; [intros Hk; by destruct (Hl k Hk) as (? & ? & _)|]. intros [K1 K2]. apply Hall; auto.
    by apply Hadd.
Qed.

(** the lines of a digest, read back *)
Lemma digest_listed a t l isdistributor :
  digestible a t -> to_sign t isdistributor l ->
  records (digest_text a t l) = record_of a t <$> l /\ (forall k, k ∈ l -> components (entry_path t k) = k) /\
  (forall k, listed (digest_text a t l) k <-> k ∈ l).
Proof.
  intros [Hwf Hn Hfit Ha Hadd Hsize] [_ Hl].
  assert (Hrec : records (digest_text a t l) = record_of a t <$> l).
  { apply records_digest; [done|]. intros k Hk. apply Hl in Hk as [Hk _]. by destruct (Hadd k Hk) as (_ & ? & ?). }
  assert (Hcomp : forall k, k ∈ l -> components (entry_path t k) = k).
  { intros k Hk. apply Hl in Hk as [(x & Hx & _) _]. apply components_path_text; [done|by eexists]. }
  split_and!; [done..|]. intros k. unfold listed. rewrite Hrec. setoid_rewrite list_elem_of_fmap. split.
  - intros (r & (j & -> & Hj) & Hr). simpl in Hr. rewrite Hcomp in Hr by done. by subst.
  - intros Hk. exists (record_of a t k). split; [by exists k|]. by apply Hcomp.
Qed.

Lemma digest_checks st2 t a isdistributor l garbage :
  digestible a t -> same_shape (tree st2) t -> hashes_ok st2 -> length garbage = PATH_MAX + 1 ->
  to_sign t isdistributor l ->
  (check_digest st2 (digest_text a t l) garbage isdistributor []).1.1 = 0%Z.
Proof.
  intros Hd Hs Hok2 Hg Hl. destruct (digest_listed a t l isdistributor Hd Hl) as (Hrec & Hcomp & Hlisted).
  destruct Hd as [Hwf Hn Hfit Ha Hadd Hsize], Hl as [Hnd Hl].
  assert (Hsz := Hsize l Hnd (fun k Hk => proj1 (proj1 (Hl k) Hk))).
  assert (Htop : no_top (digest_text a t l)).
  { intros r Hr. rewrite Hrec in Hr. apply list_elem_of_fmap in Hr as (k & -> & Hk). simpl.
    rewrite Hcomp by done. by apply Hadd, Hl. }
  assert (HF : Forall (valid_record (tree st2)) (records (digest_text a t l))).
  { rewrite Hrec. apply Forall_fmap, Forall_forall. intros k Hk. pose proof (Hcomp k Hk) as Ek.
    apply Hl in Hk as [Hk1 _]. destruct (Hadd k Hk1) as (Hne & _ & [c Hc]). destruct Hk1 as (x & Hx & _).
    unfold record_of. simpl. rewrite Hc. simpl. unfold valid_record. simpl. rewrite Ek. split_and!.
    - by apply supported_nonempty.
    - eapply path_text_nonempty; eauto.
    - apply (shape_sub _ _ Hs). by eexists.
    - exists a. rewrite (file_of_shape _ _ k Hs), length_hex, hash_length. split; [done|]. by exists c. }
  destruct (check_digest _ _ _ _ _) as [[rc st3] o3] eqn:Hrun. simpl.
  apply check_digest_cases in Hrun as (_ & _ & _ & Hexact); [|split_and!|done..].
  - apply (Hexact eq_refl Htop HF). intros k Hk. apply (shape_added _ _ Hs) in Hk.
    eapply signed_as_iff; [|apply signed_as_wanted]. unfold entry_path at 1.
    rewrite (shape_path_text _ _ Hs). fold (entry_path t k). rewrite Hlisted, Hl. naive_solver.
  - by apply (shape_wf _ _ Hs).
  - by rewrite (shape_name _ _ Hs).
  - by rewrite (shape_fits _ _ Hs).
  - lia.
Qed.

(** C34: the digest made for a package whose files can be read passes the
    check of its kind, in the memory of any process that has the same tree
    of files. *)
Theorem digest_roundtrip st st2 a isdistributor b n text st' o' garbage :
  digestible a (tree st) -> hashes_ok st ->
  same_shape (tree st2) (tree st) -> hashes_ok st2 -> length garbage = PATH_MAX + 1 ->
  create_digest st a b (length b) isdistributor [] = (Z.of_nat n, text, st', o') -> n <= length b ->
  (check_digest st2 (take n text) garbage isdistributor []).1.1 = 0%Z.
Proof.
  intros Hd Hok Hs Hok2 Hg Hc Hnb.
  destruct (create_digest_complete st a b isdistributor Hd Hok) as (l & st1 & E & _ & Hl).
  rewrite E in Hc. injection Hc as Hlen <- _ _. apply Nat2Z.inj in Hlen as <-.
  unfold store. rewrite (take_ge (digest_text a (tree st) l)), take_app_length by done.
  by apply digest_checks.
Qed.

End Digest.

(** ** Running the model

    A hash that is the start of the content, and two files. *)

Inductive sample_algorithm := SHA224 | SHA256 | SHA384 | SHA512.
#[global] Instance sample_algorithm_eq : EqDecision sample_algorithm.
Proof. solve_decision. Defined.

Definition sample_len (a : sample_algorithm) : nat :=
  match a with SHA224 => 28 | SHA256 => 32 | SHA384 => 48 | SHA512 => 64 end.

Definition sample_gnutls : Gnutls := {|
  digest_algorithm := sample_algorithm;
  GNUTLS_DIG_SHA224 := SHA224; GNUTLS_DIG_SHA256 := SHA256;
  GNUTLS_DIG_SHA384 := SHA384; GNUTLS_DIG_SHA512 := SHA512;
  gnutls_hash_get_len := sample_len;
  hash_context := sample_algorithm * bytes;
  gnutls_hash_init a := (a, []);
  gnutls_hash c x := (c.1, c.2 ++ x);
  gnutls_hash_deinit c := take (sample_len c.1) (c.2 ++ replicate (sample_len c.1) NUL)
|}.

Lemma sample_gnutls_laws : @GnutlsLaws sample_gnutls.
Proof.
  split; try done.
  - intros a c. unfold hash_of. simpl. rewrite length_take, length_app, length_replicate. lia.
  - intros [a c] x y. simpl. by rewrite (assoc_L (++)).
  - intros [a c]. simpl. by rewrite app_nil_r.
Qed.

Definition sample_files : Files := {|
  fopen path := if beq path (B "/bin/a") then inr (B "hello")
                else if beq path (B "/signature-author.p7") then inr (B "signed") else inl 2%positive
|}.

Definition sample_tree : path_entry := Eval vm_compute in
  let '(_, _, t, _) := path_entry_add (Entry [] 0 [] []) (B "/bin/a") [] in
  let '(_, _, t, _) := path_entry_add t (B "/signature-author.p7") [] in t.

Definition sample_memory : memory := @Memory sample_gnutls sample_tree empty.
#[local] Existing Instances sample_gnutls sample_gnutls_laws sample_files.

Lemma wf_sample_tree : wf sample_tree.
Proof. repeat constructor; set_solver. Qed.

Lemma sample_hashes_ok : hashes_ok sample_memory.
Proof. intros k l n Hl. done. Qed.

Lemma create_digest_spec_witness :
  exists l st' o', let text := digest_text SHA256 sample_tree l in
    create_digest sample_memory SHA256 (B "0123456789") 10 false [] =
      (i32 (Z.of_nat (length text)), store text (B "0123456789"), st', o') /\
    evolves sample_memory [] st' o' /\ NoDup l /\
    (forall k, k ∈ l -> added k sample_tree /\ wanted false (entry_path sample_tree k) /\
       is_Some (file_of sample_tree k)) /\
    ([] = @nil bool -> forall k, added k sample_tree -> wanted false (entry_path sample_tree k) ->
       is_Some (file_of sample_tree k) -> k ∈ l).
Proof.
  apply (create_digest_spec sample_memory SHA256 (B "0123456789") false []);
    [exact wf_sample_tree|done|vm_compute; reflexivity|exact sample_hashes_ok|].
  intros (x & [= <-] & Hx). discriminate Hx.
Defined.

Definition sample_digest : bytes := Eval vm_compute in
  let '(_, b, _, _) := create_digest sample_memory SHA256 (replicate 72 NUL) 72 false [] in b.

Example sample_digest_line :
  sample_digest = B "68656c6c6f000000000000000000000000000000000000000000000000000000 /bin/a" ++ [NL].
Proof. vm_compute. reflexivity. Qed.

Lemma sample_checkable : checkable sample_tree sample_digest.
Proof. split; [exact wf_sample_tree|]. split; [done|]. split; [vm_compute; reflexivity|done]. Qed.

Lemma check_digest_safe_witness : covers sample_tree false sample_digest.
Proof.
  set (x := check_digest sample_memory sample_digest (replicate (PATH_MAX + 1) NUL) false []).
  apply (check_digest_safe sample_memory sample_digest (replicate (PATH_MAX + 1) NUL) false [] x.1.2 x.2);
    [exact sample_checkable|exact sample_hashes_ok|apply length_replicate|].
  fold x. assert (Hx : x.1.1 = 0%Z) by (vm_compute; reflexivity).
  clearbody x. destruct x as [[rc st'] o']. simpl in *. by rewrite Hx.
Defined.

Lemma check_digest_exact_witness :
  (check_digest sample_memory sample_digest (replicate (PATH_MAX + 1) NUL) true []).1.1 = 0%Z <->
  Forall (valid_record sample_tree) (records sample_digest) /\
  forall k, added k sample_tree -> signed_as true (entry_path sample_tree k) (listed sample_digest k).
Proof.
  apply (check_digest_exact sample_memory sample_digest (replicate (PATH_MAX + 1) NUL) true);
    [exact sample_checkable|exact sample_hashes_ok|apply length_replicate|].
  intros r Hr. assert (E : records sample_digest = [(take 64 sample_digest, B "/bin/a")]) by (vm_compute; reflexivity).
  rewrite E in Hr. apply list_elem_of_singleton in Hr as ->. vm_compute. done.
Defined.

Lemma added_sample k : added k sample_tree -> k ∈ [[B "bin"; B "a"]; [B "signature-author.p7"]].
Proof.
  intros Hk. apply (all_visits_fst PATH_ENTRY_FORALL_ONLY_ADDED _ [] _ wf_sample_tree) in Hk. exact Hk.
Qed.

Lemma sample_size l :
  NoDup l -> (forall k, k ∈ l -> added k sample_tree) ->
  (Z.of_nat (length (digest_text SHA256 sample_tree l)) < 2 ^ 31)%Z.
Proof.
  intros Hl Hk. assert (Hs : l ⊆+ [[B "bin"; B "a"]; [B "signature-author.p7"]]).
  { apply NoDup_submseteq; [done|]. intros k Hx. by apply added_sample, Hk. }
  assert (length (digest_text SHA256 sample_tree l) <= 100 * length l).
  { clear Hs Hl. induction l as [|k l IH]; [done|]. unfold digest_text in *.
    rewrite fmap_cons, concat_cons, length_app.
    assert (length (digest_line SHA256 sample_tree k) <= 100).
    { assert (Hx : k ∈ k :: l) by by left. apply Hk, added_sample in Hx.
      rewrite !elem_of_cons in Hx. destruct Hx as [->|[->|Hx]]; [apply Nat.leb_le; vm_compute; reflexivity..|by apply elem_of_nil in Hx]. }
    specialize (IH (fun j Hj => Hk j (proj2 (elem_of_cons _ _ _) (or_intror Hj)))). change (length (k :: l)) with (S (length l)). lia. }
  apply submseteq_length in Hs. simpl in Hs. lia.
Qed.

Lemma sample_digestible : digestible SHA256 sample_tree.
Proof.
  split; [exact wf_sample_tree|done|vm_compute; reflexivity|done| |exact sample_size].
  intros k Hk. apply added_sample in Hk. rewrite !elem_of_cons in Hk.
  destruct Hk as [->|[->|Hk]]; [| |by apply elem_of_nil in Hk].
  all: split; [done|]; split; [apply (bool_decide_unpack _); vm_compute; exact I|by eexists].
Qed.

Lemma digest_roundtrip_witness :
  (check_digest sample_memory (take 72 sample_digest) (replicate (PATH_MAX + 1) NUL) false []).1.1 = 0%Z.
Proof.
  set (x := create_digest sample_memory SHA256 (replicate 72 NUL) 72 false []).
  apply (digest_roundtrip sample_memory sample_memory SHA256 false (replicate 72 NUL) 72 sample_digest
    x.1.2 x.2);
    [exact sample_digestible|exact sample_hashes_ok|done|exact sample_hashes_ok|apply length_replicate| |done].
  change (length (replicate 72 NUL)) with 72. fold x. vm_compute. reflexivity.
Defined.

End digest.
