(* ===== verification/SignedDigest.v ===== *)
(** * Signed digests: [src/src/cert/check-signature.c],
    [src/src/cert/make-signature.c], [src/src/cert/signed-digest.c]

    A signature is a PKCS7 message that embeds a digest of files and the
    certificates of its signer. The functions of GnuTLS on certificates,
    keys and messages are the class [X509]; [None] is any of their errors. *)
From S2P Require Import Prelude CString DomainSpec PathEntry PathVars Signature CertChain Digest.

Module signed_digest.
Import path_entry path_vars signature digest.
Import cert_chain(extension(..), check_crt_chain, get_domain_spec_of_cert, chain).
Import domain_spec(spec_t, permission_grants, domain_spec_set, domain_spec_reset, domain_spec_enum).

(** a [gnutls_pkcs7_signature_info_st]; an empty field is missing *)
Record signature_info := SignatureInfo {
  signer_serial : bytes; issuer_keyid : bytes; issuer_dn : bytes
}.

Class X509 := {
  cert : Type; pkcs7 : Type; privkey : Type; xprivkey : Type;
  gnutls_x509_crt_check_issuer : cert -> cert -> bool;
  gnutls_x509_crt_verify : cert -> cert -> bool;
  crt_extension : cert -> extension;
  (** the messages *)
  gnutls_pkcs7_get_signature_count : pkcs7 -> Z;
  gnutls_pkcs7_get_signature_info : pkcs7 -> option signature_info;
  gnutls_pkcs7_get_embedded_data : pkcs7 -> option bytes;
  gnutls_pkcs7_get_crt_count : pkcs7 -> Z;
  gnutls_pkcs7_get_crt_raw2 : pkcs7 -> nat -> option bytes;
  gnutls_x509_crt_import : bytes -> option cert;
  gnutls_pkcs7_verify_direct : pkcs7 -> cert -> bytes -> bool;
  gnutls_pkcs7_import : bytes -> option pkcs7;
  (** the certificates, with a buffer of the given size *)
  gnutls_x509_crt_get_serial : cert -> nat -> option bytes;
  gnutls_x509_crt_get_subject_key_id : cert -> nat -> option bytes;
  (** [gnutls_x509_crt_get_issuer] then [gnutls_x509_dn_export] *)
  crt_issuer_dn : cert -> nat -> option bytes;
  gnutls_x509_crt_get_key_id : cert -> option bytes;
  (** at most a number of certificates *)
  gnutls_x509_crt_list_import : bytes -> nat -> option (list cert);
  (** the keys and the making of messages *)
  gnutls_privkey_export_x509 : privkey -> option xprivkey;
  gnutls_x509_privkey_get_key_id : xprivkey -> option bytes;
  gnutls_x509_privkey_import : bytes -> option xprivkey;
  gnutls_privkey_import_x509 : xprivkey -> option privkey;
  gnutls_pkcs7_sign : cert -> privkey -> bytes -> option pkcs7;
  gnutls_pkcs7_set_crt : pkcs7 -> cert -> option pkcs7
}.

Section SignedDigest.
Context `{Gnutls} `{Files} `{X509}.

(** ** Reading files: [src/src/cert/common-cert.c] *)

(** The loop that grows the buffer and reads; the realloc to the final size
    gives NULL for a size of zero. *)
Fixpoint read_file_loop (fuel : nat) (rest data : bytes) (o : oracle) : Z * option bytes * oracle :=
  match fuel with
  | O => ((- ENOMEM)%Z, None, o)
  | S fuel' =>
      let '(ok, o) := malloc o in
      if negb ok then ((- ENOMEM)%Z, None, o)
      else
        let blk := take (Z.to_nat 32768) rest in
        if bool_decide (blk = []) then
          let '(ok, o) := malloc o in
          if negb ok || bool_decide (data = []) then ((- ENOMEM)%Z, None, o) else (0%Z, Some data, o)
        else read_file_loop fuel' (drop (Z.to_nat 32768) rest) (data ++ blk) o
  end.

Definition read_file (file : bytes) (o : oracle) : Z * option bytes * oracle :=
  match fopen file with
  | inl errno => (Z.neg errno, None, o)
  | inr content => read_file_loop (S (length content)) content [] o
  end.

Definition read_pkcs7 (file : bytes) (o : oracle) : Z * option pkcs7 * oracle :=
  match read_file file o with
  | (_, Some data, o) =>
      match gnutls_pkcs7_import data with
      | Some p => (0%Z, Some p, o)
      | None => ((- EINVAL)%Z, None, o)
      end
  | (rc, None, o) => (rc, None, o)
  end.

(** the count and the certificates *)
Definition read_certificates (file : bytes) (maxnr : nat) (o : oracle) : Z * list cert * oracle :=
  match read_file file o with
  | (_, Some data, o) =>
      match gnutls_x509_crt_list_import data maxnr with
      | Some l => (Z.of_nat (length l), l, o)
      | None => ((- EINVAL)%Z, [], o)
      end
  | (rc, None, o) => (rc, [], o)
  end.

(** the two initialisations allocate *)
Definition read_private_key (file : bytes) (o : oracle) : Z * option privkey * oracle :=
  match read_file file o with
  | (_, Some data, o) =>
      let '(ok, o) := malloc o in
      if negb ok then ((- ENOMEM)%Z, None, o)
      else
        match gnutls_x509_privkey_import data with
        | None => ((- EINVAL)%Z, None, o)
        | Some xkey =>
            let '(ok, o) := malloc o in
            match (if ok then gnutls_privkey_import_x509 xkey else None) with
            | Some key => (0%Z, Some key, o)
            | None => ((- ENOMEM)%Z, None, o)
            end
        end
  | (rc, None, o) => (rc, None, o)
  end.

(** ** [check-signature.c] *)

(** [check_pkcs7_t], filled *)
Record check_pkcs7_t := CheckPkcs7 { info : signature_info; data : bytes; certs : list cert }.

(** the certificates from the one of index [idx], [n] of them *)
Fixpoint import_certs (p : pkcs7) (idx n : nat) (o : oracle) : option (list cert) * oracle :=
  match n with
  | O => (Some [], o)
  | S n' =>
      match gnutls_pkcs7_get_crt_raw2 p idx with
      | None => (None, o)
      | Some raw =>
          let '(ok, o) := malloc o in
          if negb ok then (None, o)
          else match gnutls_x509_crt_import raw with
               | None => (None, o)
               | Some c => let '(l, o) := import_certs p (S idx) n' o in (cons c <$> l, o)
               end
      end
  end.

(** [None] for -1 *)
Definition init_check_pkcs7 (p : pkcs7) (o : oracle) : option check_pkcs7_t * oracle :=
  if negb (gnutls_pkcs7_get_signature_count p =? 1)%Z then (None, o)
  else
    match gnutls_pkcs7_get_signature_info p with
    | None => (None, o)
    | Some i =>
        match gnutls_pkcs7_get_embedded_data p with
        | None => (None, o)
        | Some d =>
            let rc := gnutls_pkcs7_get_crt_count p in
            if (rc <? 0)%Z then (None, o)
            else if (rc =? 0)%Z then (Some (CheckPkcs7 i d []), o)
            else
              let '(ok, o) := malloc o in
              if negb ok then (None, o)
              else let '(l, o) := import_certs p 0 (Z.to_nat rc) o in (CheckPkcs7 i d <$> l, o)
        end
    end.

Definition scratch_size : nat := Z.to_nat 1000.

Definition signer_matches (i : signature_info) (c : cert) : bool :=
  let matches :=
    if bool_decide (0 < length (signer_serial i))
    then bool_decide (gnutls_x509_crt_get_serial c scratch_size = Some (signer_serial i))
    else if bool_decide (0 < length (issuer_keyid i))
    then bool_decide (gnutls_x509_crt_get_subject_key_id c scratch_size = Some (issuer_keyid i))
    else false in
  matches && bool_decide (crt_issuer_dn c scratch_size = Some (issuer_dn i)).

(** from the last certificate down to the first; [None] for -1 *)
Fixpoint signer_loop (i : signature_info) (l : list cert) (idx : nat) : option nat :=
  match idx with
  | O => None
  | S idx' =>
      match l !! idx' with
      | Some c => if signer_matches i c then Some idx' else signer_loop i l idx'
      | None => signer_loop i l idx'
      end
  end.

Definition get_signer_crt_index (ck7 : check_pkcs7_t) : option nat :=
  signer_loop (info ck7) (certs ck7) (length (certs ck7)).

(** [None] when the recursion on the certificates is deeper than [fuel] *)
Definition check_signature (fuel : nat) (p : pkcs7) (spec : option spec_t) (trusteds : list cert) (o : oracle)
  : option (Z * option spec_t * oracle) :=
  let '(ck7, o) := init_check_pkcs7 p o in
  match ck7 with
  | None => Some ((-1)%Z, spec, o)
  | Some ck7 =>
      match get_signer_crt_index ck7 with
      | None => Some ((-1)%Z, spec, o)
      | Some signer_idx =>
          match certs ck7 !! signer_idx with
          | None => None
          | Some signer =>
              if negb (gnutls_pkcs7_verify_direct p signer (data ck7)) then Some ((-1)%Z, spec, o)
              else check_crt_chain gnutls_x509_crt_check_issuer gnutls_x509_crt_verify crt_extension
                     (certs ck7) trusteds fuel signer_idx spec o
          end
      end
  end.

(** ** [make-signature.c] *)

(** the other certificates, from the index [jdx] *)
Fixpoint set_certs (p : pkcs7) (idx jdx : nat) (l : list cert) : option pkcs7 :=
  match l with
  | [] => Some p
  | c :: l' =>
      if bool_decide (jdx = idx) then set_certs p idx (S jdx) l'
      else match gnutls_pkcs7_set_crt p c with
           | None => None
           | Some p' => set_certs p' idx (S jdx) l'
           end
  end.

(** the loop on the certificates from the last *)
Fixpoint sign_loop (content keyid : bytes) (key : privkey) (l : list cert) (idx : nat) (o : oracle)
  : Z * option pkcs7 * oracle :=
  match idx with
  | O => ((- EINVAL)%Z, None, o)
  | S idx' =>
      match l !! idx' with
      | None => ((- EINVAL)%Z, None, o)
      | Some c =>
          match gnutls_x509_crt_get_key_id c with
          | None => ((- EOVERFLOW)%Z, None, o)
          | Some certid =>
              if beq certid keyid then
                let '(ok, o) := malloc o in
                if negb ok then ((- ENOMEM)%Z, None, o)
                else
                  match gnutls_pkcs7_sign c key content with
                  | None => ((- EFAULT)%Z, None, o)
                  | Some p =>
                      match set_certs p idx' 0 l with
                      | None => ((- ENOMEM)%Z, None, o)
                      | Some p => (0%Z, Some p, o)
                      end
                  end
              else sign_loop content keyid key l idx' o
          end
      end
  end.

Definition make_signature (content : bytes) (key : privkey) (l : list cert) (o : oracle)
  : Z * option pkcs7 * oracle :=
  match gnutls_privkey_export_x509 key with
  | None => ((- EINVAL)%Z, None, o)
  | Some xkey =>
      match gnutls_x509_privkey_get_key_id xkey with
      | None => ((- EOVERFLOW)%Z, None, o)
      | Some keyid => sign_loop content keyid key l (length l) o
      end
  end.

(** ** [signed-digest.c] *)

(** [garbage] gives the content of the new block of a length *)
Definition make_signed_digest (st : memory) (isdistributor : bool) (alg : digest_algorithm) (key : privkey)
  (l : list cert) (garbage : nat -> bytes) (o : oracle) : Z * option pkcs7 * memory * oracle :=
  let '(rc, _, st, o) := create_digest st alg [] 0 isdistributor o in
  if (rc <? 0)%Z then (rc, None, st, o)
  else
    let size := Z.to_nat rc in
    let '(ok, o) := malloc o in
    if negb ok then ((- ENOMEM)%Z, None, st, o)
    else
      let '(rc, buf, st, o) := create_digest st alg (garbage size) size isdistributor o in
      if (rc <? 0)%Z then (rc, None, st, o)
      else let '(rc, p, o) := make_signature buf key l o in (rc, p, st, o).

Definition check_signed_digest (fuel : nat) (st : memory) (p : pkcs7) (isdistributor : bool)
  (trustcerts : list cert) (spec : option spec_t) (garbage : bytes) (o : oracle)
  : option (Z * option spec_t * memory * oracle) :=
  match gnutls_pkcs7_get_embedded_data p with
  | None => Some ((- EINVAL)%Z, spec, st, o)
  | Some d =>
      let '(rc, st, o) := check_digest st d garbage isdistributor o in
      if (rc <? 0)%Z then Some (rc, spec, st, o)
      else match check_signature fuel p spec trustcerts o with
           | None => None
           | Some (rc, spec, o) => Some (rc, spec, st, o)
           end
  end.

(** [struct check_all] with the memory; [None] after a recursion deeper
    than the fuel *)
Record check_all := CheckAll { ca_spec : option spec_t; ca_rc : Z; ca_st : memory; ca_o : oracle }.

(** the closure of [domain_spec_enum]: the specification, the status and
    the allocations *)
Definition get_domains_cb (nm : bytes) (perm : Z) (ca : spec_t * Z * oracle) : spec_t * Z * oracle :=
  let '(spec, rc, o) := ca in
  if (perm =? permission_grants)%Z then
    let '(rc, spec, o) := domain_spec_set spec perm nm o in (spec, rc, o)
  else (spec, rc, o).

Definition check_one_of_all (fuel : nat) (trustcerts : list cert) (garbage : bytes) (ca : check_all)
  (path : bytes) (isdistributor : bool) : option check_all :=
  match read_pkcs7 (cstring path) (ca_o ca) with
  | (rc, None, o) => Some (CheckAll (ca_spec ca) rc (ca_st ca) o)
  | (_, Some p, o) =>
      match check_signed_digest fuel (ca_st ca) p isdistributor trustcerts (Some []) garbage o with
      | None => None
      | Some (rc, specs, st, o) =>
          match ca_spec ca with
          | Some spec =>
              if (rc >=? 0)%Z then
                let '(spec, rc, o) :=
                  domain_spec_enum (default [] specs) get_domains_cb (spec, ca_rc ca, o) in
                Some (CheckAll (Some spec) rc st o)
              else Some (CheckAll (Some spec) rc st o)
          | None => Some (CheckAll None rc st o)
          end
      end
  end.

Definition check_all_cb (fuel : nat) (trustcerts : list cert) (garbage : bytes) (ca : option check_all)
  (entry : handle) (path : bytes) : option check_all * Z :=
  match ca with
  | None => (None, 0%Z)
  | Some c =>
      (match signature_name_type_length path (length path) with
       | Signature_Author => check_one_of_all fuel trustcerts garbage c path false
       | Signature_distributor => check_one_of_all fuel trustcerts garbage c path true
       | Signature_None => Some c
       end, 0%Z)
  end.

Definition check_signed_digest_of_files (fuel : nat) (st : memory) (trustcerts : list cert)
  (spec : option spec_t) (garbage : bytes) (o : oracle) : option (Z * option spec_t * memory * oracle) :=
  let '(ca, _) :=
    path_entry_for_each (Z.lor PATH_ENTRY_FORALL_ONLY_ADDED PATH_ENTRY_FORALL_ABSOLUTE) (Some (tree st))
      (check_all_cb fuel trustcerts garbage) (Some (CheckAll spec 0 st o)) (root_path (tree st)) in
  match ca with
  | None => None
  | Some ca => Some (ca_rc ca, ca_spec ca, ca_st ca, ca_o ca)
  end.


(** ** Reading *)

Lemma read_file_loop_data fuel rest data o rc d o' :
  read_file_loop fuel rest data o = (rc, Some d, o') -> rc = 0%Z /\ d = data ++ rest.
Proof using Type.
  revert data rest o. induction fuel as [|fuel IH]; intros data rest o; [done|]. cbn [read_file_loop].
  destruct (malloc o) as [[] o1]; simpl; [|done]. case_bool_decide as Hb.
  - assert (rest = []) as ->.
    { apply (f_equal length) in Hb. rewrite length_take in Hb. cbn [length] in Hb.
      destruct rest; [done|]. cbn [length] in Hb. lia. }
    destruct (malloc o1) as [[] o2]; simpl; [|done].
    case_bool_decide; [done|]. intros [= <- <- <-]. by rewrite app_nil_r.
  - intros Hr. apply IH in Hr as [-> ->]. by rewrite <-(assoc_L (++)), take_drop.
Qed.

Lemma read_pkcs7_data file o rc p o' :
  read_pkcs7 file o = (rc, Some p, o') ->
  exists c, fopen file = inr c /\ gnutls_pkcs7_import c = Some p.
Proof using Type.
  unfold read_pkcs7, read_file. destruct (fopen file) as [e|c]; [done|].
  destruct (read_file_loop _ _ _ _) as [[rc1 [d|]] o1] eqn:E; [|done].
  apply read_file_loop_data in E as [_ ->]. simpl. destruct (gnutls_pkcs7_import c) eqn:Ei; [|done].
  intros [= <- <- <-]. eauto.
Qed.

(** ** Trusted signatures *)

(** the signature gives the permission to grant the domain: its digest
    covers the package, its signer verifies it, and verified signatures
    lead from the signer to a trusted certificate that is able to sign a
    specification that grants the domain *)
Definition vouches (t : path_entry) (trusteds : list cert) (isdistributor : bool) (p : pkcs7) (dom : bytes) : Prop :=
  exists text l signer tc tspec spec o1 o2,
    gnutls_pkcs7_get_embedded_data p = Some text /\ covers t isdistributor text /\
    signer ∈ l /\ gnutls_pkcs7_verify_direct p signer text = true /\
    chain gnutls_x509_crt_check_issuer gnutls_x509_crt_verify l trusteds signer tc /\
    get_domain_spec_of_cert crt_extension tc [] o1 = Some (0%Z, tspec, o2) /\
    (spec = tspec \/ domain_spec.is_domain_spec_able_to_sign tspec spec = true) /\
    domain_spec.abs spec !! dom = Some permission_grants.

Lemma check_signature_trust fuel p trusteds o rc sp o' :
  check_signature fuel p (Some []) trusteds o = Some (rc, sp, o') -> (0 <= rc)%Z ->
  exists text l signer tc tspec spec o1 o2, sp = Some spec /\ domain_spec.wf spec /\
    gnutls_pkcs7_get_embedded_data p = Some text /\ signer ∈ l /\
    gnutls_pkcs7_verify_direct p signer text = true /\
    chain gnutls_x509_crt_check_issuer gnutls_x509_crt_verify l trusteds signer tc /\
    get_domain_spec_of_cert crt_extension tc [] o1 = Some (0%Z, tspec, o2) /\
    (spec = tspec \/ domain_spec.is_domain_spec_able_to_sign tspec spec = true).
Proof using Type.
  unfold check_signature. destruct (init_check_pkcs7 p o) as [[ck7|] oa] eqn:Ei; [|intros [= <- <- <-]; lia].
  assert (Hd : gnutls_pkcs7_get_embedded_data p = Some (data ck7)).
  { unfold init_check_pkcs7 in Ei. destruct (negb _); [done|].
    destruct (gnutls_pkcs7_get_signature_info p); [|done].
    destruct (gnutls_pkcs7_get_embedded_data p) as [text|]; [|done].
    destruct (_ <? 0)%Z; [done|]. destruct (_ =? 0)%Z; [by injection Ei as <- _|].
    destruct (malloc _) as [[] ob]; simpl in Ei; [|done].
    destruct (import_certs _ _ _ _) as [[l|] oc]; simpl in Ei; [|done]. by injection Ei as <- _. }
  destruct (get_signer_crt_index ck7) as [i|]; [|intros [= <- <- <-]; lia].
  destruct (certs ck7 !! i) as [signer|] eqn:Es; [|done].
  destruct (gnutls_pkcs7_verify_direct _ _ _) eqn:Ev; simpl; [|intros [= <- <- <-]; lia].
  intros Hc Hrc. destruct (cert_chain.check_crt_chain_trust _ _ _ _ _ _ _ _ _ _ _ _ Es Hc Hrc)
    as (tc & tspec & spec & o1 & o2 & -> & Hwf & Hch & Hg & Hor).
  exists (data ck7), (certs ck7), signer, tc, tspec, spec, o1, o2. split_and!; try done.
  by eapply list_elem_of_lookup_2.
Qed.

(** the domains granted after the enumeration of [specs] *)
Lemma get_domains_grants specs spec rc o spec' rc' o' :
  domain_spec.wf spec -> domain_spec.wf specs ->
  domain_spec_enum specs get_domains_cb (spec, rc, o) = (spec', rc', o') ->
  domain_spec.wf spec' /\ forall dom, domain_spec.abs spec' !! dom = Some permission_grants ->
    domain_spec.abs spec !! dom = Some permission_grants \/
    domain_spec.abs specs !! dom = Some permission_grants.
Proof using Type.
  intros Hwf [Hds Hnd]. unfold domain_spec_enum.
  assert (Hin : forall x, x ∈ specs -> domain_spec.permission x = permission_grants ->
    domain_spec.abs specs !! domain_spec.name x = Some permission_grants).
  { intros x Hx Hp. apply keyed_Some; [done|]. exists x. done. }
  clear Hnd. revert spec rc o Hwf. generalize (domain_spec.abs specs) Hin. clear Hin. intros m Hin.
  induction Hds as [|x l Hx Hl IH]; intros spec rc o Hwf.
  { intros [= <- <- <-]. auto. }
  cbn [foldl]. destruct (get_domains_cb _ _ (spec, rc, o)) as [[spec1 rc1] o1] eqn:Eg.
  unfold get_domains_cb in Eg. destruct (Z.eqb_spec (domain_spec.permission x) permission_grants) as [Hp|Hp].
  2: { injection Eg as <- <- <-. intros Hr. eapply IH in Hr; [done| |done]. intros y Hy. apply Hin. by right. }
  destruct (domain_spec_set _ _ _ _) as [[rc2 spec2] o2] eqn:Es. injection Eg as <- <- <-.
  apply domain_spec.domain_spec_set_cases in Es as [Hwf1 Hcase]; [|done|by apply Hx|by apply Hx].
  intros Hr. apply IH in Hr as [Hwf' Hg]; [|intros y Hy; apply Hin; by right|done].
  split; [done|]. intros dom Hdom. destruct (Hg dom Hdom) as [Hd|]; [|auto].
  destruct Hcase as [(_ & -> & _)|[(_ & -> & _)|(_ & _ & E)]]; [auto..|]. rewrite E, Hp in Hd. simpl in Hd.
  apply lookup_insert_Some in Hd as [[<- _]|[_ Hd]]; [|auto]. right. apply Hin; [by left|done].
Qed.

Context `{!GnutlsLaws}.

(** the memory and the specification during the check of a package [t] *)
Definition all_ok (t : path_entry) (trusteds : list cert) (ca : check_all) : Prop :=
  same_shape (tree (ca_st ca)) t /\ hashes_ok (ca_st ca) /\
  exists spec, ca_spec ca = Some spec /\ domain_spec.wf spec /\
    forall dom, domain_spec.abs spec !! dom = Some permission_grants ->
    exists k p c, added k t /\ file_of t k = Some c /\ gnutls_pkcs7_import c = Some p /\
      match signature_name_type (entry_path t k) with
      | Signature_None => False
      | Signature_Author => vouches t trusteds false p dom
      | Signature_distributor => vouches t trusteds true p dom
      end.

Definition package_ok (t : path_entry) : Prop :=
  wf t /\ name t = [] /\ fits 0 PATH_MAX false t [] = true /\
  forall k c p text, file_of t k = Some c -> gnutls_pkcs7_import c = Some p ->
    gnutls_pkcs7_get_embedded_data p = Some text -> (Z.of_nat (length text) < 2 ^ 32)%Z.

Lemma covers_shape t t' isd text : same_shape t t' -> covers t isd text -> covers t' isd text.
Proof using Type.
  intros Hs [HF Hc]. split.
  - eapply Forall_impl; [exact HF|]. intros r (V1 & V2 & V3 & a & V4 & V5). split_and!; [done|done| |].
    + by apply (shape_sub _ _ Hs).
    + exists a. split; [done|]. by rewrite <-(file_of_shape _ _ (components r.2) Hs).
  - intros k Hk. apply (shape_added _ _ Hs) in Hk. apply Hc in Hk. unfold entry_path in *.
    by rewrite <-(shape_path_text _ _ Hs).
Qed.

Lemma check_one_ok t fuel trusteds garbage ca k isd ca' :
  package_ok t -> length garbage = PATH_MAX + 1 -> added k t ->
  signature_name_type (entry_path t k) = (if isd : bool then Signature_distributor else Signature_Author) ->
  all_ok t trusteds ca ->
  check_one_of_all fuel trusteds garbage ca (entry_path t k) isd = Some ca' -> all_ok t trusteds ca'.
Proof.
  intros (Hwf & Hn & Hfit & Hlen) Hg Hk Hty (Hs & Hok & spec & Hspec & Hwfs & Hgr). unfold check_one_of_all.
  destruct (read_pkcs7 _ _) as [[rc [p|]] o] eqn:Er.
  2: { intros [= <-]. split_and!; [done|done|]. by exists spec. }
  apply read_pkcs7_data in Er as (c & Hc & Hp). rewrite Hspec.
  assert (Hfile : file_of t k = Some c) by (unfold file_of; by rewrite Hc).
  unfold check_signed_digest. destruct (gnutls_pkcs7_get_embedded_data p) as [text|] eqn:Et.
  2: { intros [= <-]. split_and!; [done|done|]. by exists spec. }
  destruct (check_digest _ _ _ _ _) as [[rc1 st1] o1] eqn:Ed.
  assert (Hchk : checkable (tree (ca_st ca)) text).
  { split_and!; [by apply (shape_wf _ _ Hs)|by rewrite (shape_name _ _ Hs)|by rewrite (shape_fits _ _ Hs)|eauto]. }
  pose proof (check_digest_cases _ _ _ _ _ _ _ _ Hchk Hok Hg Ed) as ((Hs1 & Hok1 & _) & Hle & _).
  assert (Hs' : same_shape (tree st1) t) by (by etrans).
  destruct (Z.ltb_spec rc1 0).
  { destruct (Z.geb_spec rc1 0); [lia|]. intros [= <-]. split_and!; [done|done|]. by exists spec. }
  assert (rc1 = 0%Z) as -> by lia.
  pose proof (covers_shape _ _ _ _ Hs (check_digest_covers _ _ _ _ _ _ _ Hchk Hok Hg Ed)) as Hcov.
  destruct (check_signature _ _ _ _ _) as [[[rc2 sp2] o2]|] eqn:Es; [|done].
  destruct (Z.geb_spec rc2 0) as [Hrc2|Hrc2].
  2: { intros [= <-]. split_and!; [done|done|]. by exists spec. }
  apply check_signature_trust in Es as (text' & l & signer & tc & tspec & sp & oa & ob & -> & Hwf2 & Et' & Hrest);
    [|lia].
  rewrite Et' in Et. injection Et as ->. simpl.
  destruct (domain_spec_enum _ _ _) as [[spec3 rc3] o3] eqn:Een.
  apply get_domains_grants in Een as [Hwf3 Hg3]; [|done|done].
  intros [= <-]. split_and!; [done|done|]. exists spec3. split_and!; [done|done|].
  intros dom Hdom. destruct (Hg3 dom Hdom) as [Hd|Hd]; [auto|].
  exists k, p, c. split_and!; [done..|].
  assert (Hv : vouches t trusteds isd p dom).
  { exists text, l, signer, tc, tspec, sp, oa, ob. naive_solver. }
  rewrite Hty. by destruct isd.
Qed.

(** C3: the domains that the check of the signatures of a package grants
    are all vouched by a signature of the package: its digest covers the
    files of the package with their hashes, its signer signed that digest,
    and a chain of verified certificates leads from the signer to a trusted
    one that is able to sign a specification that grants the domain. *)
Theorem check_signed_digest_of_files_safe fuel st trusteds garbage o rc spec st' o' :
  package_ok (tree st) -> hashes_ok st -> length garbage = PATH_MAX + 1 ->
  check_signed_digest_of_files fuel st trusteds (Some []) garbage o = Some (rc, Some spec, st', o') ->
  forall dom, domain_spec.abs spec !! dom = Some permission_grants ->
  exists k p c, added k (tree st) /\ file_of (tree st) k = Some c /\ gnutls_pkcs7_import c = Some p /\
    match signature_name_type (entry_path (tree st) k) with
    | Signature_None => False
    | Signature_Author => vouches (tree st) trusteds false p dom
    | Signature_distributor => vouches (tree st) trusteds true p dom
    end.
Proof.
  intros Hpk Hok Hg. destruct (Hpk) as (Hwf & Hn & Hfit & _). unfold check_signed_digest_of_files.
  set (flgs := Z.lor PATH_ENTRY_FORALL_ONLY_ADDED PATH_ENTRY_FORALL_ABSOLUTE).
  rewrite (root_path_top (tree st) Hn).
  rewrite for_each_run by (done || intros _; rewrite <-Hfit; by apply fits_flags).
  rewrite run_foldl by by intros [] ? ?. set (t := tree st) in *.
  assert (Hv : forall k p, (k, p) ∈ all_visits flgs t [] -> added k t /\ p = entry_path t k).
  { intros k p Hkp. by apply (added_visits flgs t k p Hwf Hn) in Hkp. }
  assert (Hloop : forall l ca, (forall k p, (k, p) ∈ l -> added k t /\ p = entry_path t k) ->
    (forall c, ca = Some c -> all_ok t trusteds c) ->
    forall c, foldl (fun c hp => (check_all_cb fuel trusteds garbage c hp.1 hp.2).1) ca l = Some c ->
    all_ok t trusteds c).
  { induction l as [|[k p] l IH]; intros ca Hl Hca; [exact Hca|]. simpl.
    apply IH; [intros j q Hj; apply Hl; by right|]. destruct (Hl k p) as [Hk ->]; [by left|].
    intros c Hc. destruct ca as [ca|]; [|done]. specialize (Hca ca eq_refl). simpl in Hc.
    fold (signature_name_type (entry_path t k)) in Hc.
    destruct (signature_name_type (entry_path t k)) eqn:Ety; [by injection Hc as <-|..];
      (eapply check_one_ok; [done|done|done| |done|exact Hc]; by rewrite Ety). }
  specialize (Hloop _ (Some (CheckAll (Some []) 0 st o)) Hv). cbv beta iota.
  destruct (foldl _ _ _) as [ca|]; [|done]. intros [= <- Hsp <- <-].
  destruct (Hloop) with (c := ca) as (_ & _ & spec' & E & _ & Hgr); [|done|].
  - intros c [= <-]. split_and!; [done|done|]. exists []. split; [done|]. split; [by split; constructor|].
    intros dom Hdom. discriminate Hdom.
  - rewrite Hsp in E. injection E as ->. exact Hgr.
Qed.

(** ** Making then checking *)

(** what GnuTLS promises: a message embeds what it signs *)
Class X509Laws : Prop := {
  sign_data : forall c key d p, gnutls_pkcs7_sign c key d = Some p -> gnutls_pkcs7_get_embedded_data p = Some d;
  set_crt_data : forall p c p', gnutls_pkcs7_set_crt p c = Some p' ->
    gnutls_pkcs7_get_embedded_data p' = gnutls_pkcs7_get_embedded_data p
}.
Context {xlaws : X509Laws}.

Lemma make_signature_data text key l o rc p o' :
  make_signature text key l o = (rc, Some p, o') -> rc = 0%Z /\ gnutls_pkcs7_get_embedded_data p = Some text.
Proof using xlaws.
  assert (Hset : forall l idx jdx p p', set_certs p idx jdx l = Some p' ->
    gnutls_pkcs7_get_embedded_data p' = gnutls_pkcs7_get_embedded_data p).
  { clear -xlaws. induction l as [|c l IH]; intros idx jdx p p'; simpl; [by intros [= ->]|].
    case_bool_decide; [apply IH|]. destruct (gnutls_pkcs7_set_crt p c) as [q|] eqn:E; [|done].
    intros Hq. rewrite (IH _ _ _ _ Hq). by eapply set_crt_data. }
  unfold make_signature. destruct (gnutls_privkey_export_x509 key) as [xk|]; [|done].
  destruct (gnutls_x509_privkey_get_key_id xk) as [keyid|]; [|done].
  generalize (length l). intros n. revert o. induction n as [|n IH]; intros o; simpl; [done|].
  destruct (l !! n) as [c|]; [|done]. destruct (gnutls_x509_crt_get_key_id c) as [certid|]; [|done].
  destruct (beq certid keyid); [|apply IH]. destruct (malloc o) as [[] o1]; simpl; [|done].
  destruct (gnutls_pkcs7_sign c key text) as [q|] eqn:Eq; [|done].
  destruct (set_certs q n 0 l) as [q'|] eqn:Es; [|done]. intros [= <- <- <-]. split; [done|].
  rewrite (Hset _ _ _ _ _ Es). by eapply sign_data.
Qed.

Lemma digest_text_perm a t l l' : l ≡ₚ l' -> length (digest_text a t l) = length (digest_text a t l').
Proof using Type.
  unfold digest_text. induction 1; rewrite ?fmap_cons, ?concat_cons, ?length_app; lia.
Qed.

(** The two calls for the digest agree: the message embeds the whole one. *)
Lemma make_signed_digest_data st isd a key l garb rc p st' o' :
  digestible a (tree st) -> hashes_ok st -> (forall n, length (garb n) = n) ->
  make_signed_digest st isd a key l garb [] = (rc, Some p, st', o') ->
  exists ks, to_sign (tree st) isd ks /\
    gnutls_pkcs7_get_embedded_data p = Some (digest_text a (tree st) ks).
Proof.
  intros Hd Hok Hgarb. unfold make_signed_digest.
  destruct (create_digest_complete st a [] isd Hd Hok) as (l1 & st1 & E1 & (Hs1 & Hok1 & _) & Hl1).
  change 0 with (length (@nil ascii)) at 1. rewrite E1. set (t := tree st) in *.
  assert (Hd1 : digestible a (tree st1)).
  { destruct Hd as [D1 D2 D3 D4 D5 D6]. split.
    - by apply (shape_wf _ _ Hs1).
    - by rewrite (shape_name _ _ Hs1).
    - by rewrite (shape_fits _ _ Hs1).
    - done.
    - intros k Hk. apply (shape_added _ _ Hs1) in Hk. unfold entry_path.
      rewrite (shape_path_text _ _ Hs1), (file_of_shape _ _ k Hs1). by apply D5.
    - intros ks Hnd Hks. replace (digest_text a (tree st1) ks) with (digest_text a t ks).
      + apply D6; [done|]. intros k Hk. by apply (shape_added _ _ Hs1), Hks.
      + unfold digest_text, digest_line, entry_path. f_equal. apply list_fmap_ext. intros i k _.
        by rewrite (file_of_shape _ _ k Hs1), (shape_path_text _ _ Hs1). }
  rewrite (proj2 (Z.ltb_ge _ _)) by lia. rewrite Nat2Z.id. cbn [malloc negb].
  set (n := length (digest_text a t l1)).
  destruct (create_digest_complete st1 a (garb n) isd Hd1 Hok1) as (l2 & st2 & E2 & _ & Hl2).
  rewrite Hgarb in E2. rewrite E2, (proj2 (Z.ltb_ge _ _)) by lia.
  assert (Hl2' : to_sign t isd l2).
  { destruct Hl2 as [Hnd Hl2]. split; [done|]. intros k. rewrite Hl2. unfold entry_path.
    by rewrite (shape_added _ _ Hs1), (shape_path_text _ _ Hs1). }
  assert (Htext : digest_text a (tree st1) l2 = digest_text a t l2).
  { unfold digest_text, digest_line, entry_path. f_equal. apply list_fmap_ext. intros i k _.
    by rewrite (file_of_shape _ _ k Hs1), (shape_path_text _ _ Hs1). }
  assert (Hlen : length (digest_text a t l2) = n).
  { apply digest_text_perm, NoDup_Permutation; [apply Hl2'|apply Hl1|]. intros k.
    by rewrite (proj2 Hl2' k), (proj2 Hl1 k). }
  rewrite Htext. unfold store. rewrite Hgarb, take_ge, drop_ge, app_nil_r by (rewrite ?Hgarb; lia).
  destruct (make_signature _ _ _ _) as [[rc1 [q|]] o1] eqn:Em; [|done].
  intros [= <- <- <- <-]. apply make_signature_data in Em as [_ Em]. by exists l2.
Qed.


End SignedDigest.

(** ** Running the model

    Certificates are numbers: 0 is issued by 1, itself issued by 2, which is
    trusted for all of the domain. *)

Record sample_message := Message { msg_text : bytes; msg_signer : nat; msg_certs : list nat }.

Definition sample_id (n : nat) : bytes := [ascii_of_nat n].
Definition sample_signature : sample_message := Message sample_digest 0 [0; 1].

Definition sample_x509 : X509 := {|
  cert := nat; pkcs7 := sample_message; privkey := nat; xprivkey := nat;
  gnutls_x509_crt_check_issuer := cert_chain.sample_issuer;
  gnutls_x509_crt_verify := cert_chain.sample_issuer;
  crt_extension := cert_chain.sample_ext;
  gnutls_pkcs7_get_signature_count _ := 1%Z;
  gnutls_pkcs7_get_signature_info p := Some (SignatureInfo (sample_id (msg_signer p)) [] (B "dn"));
  gnutls_pkcs7_get_embedded_data p := Some (msg_text p);
  gnutls_pkcs7_get_crt_count p := Z.of_nat (length (msg_certs p));
  gnutls_pkcs7_get_crt_raw2 p i := sample_id <$> msg_certs p !! i;
  gnutls_x509_crt_import raw := nat_of_ascii <$> head raw;
  gnutls_pkcs7_verify_direct p c text := bool_decide (msg_signer p = c) && beq text (msg_text p);
  gnutls_pkcs7_import c := if beq c (B "signed") then Some sample_signature else None;
  gnutls_x509_crt_get_serial c _ := Some (sample_id c);
  gnutls_x509_crt_get_subject_key_id c _ := Some (sample_id c);
  crt_issuer_dn _ _ := Some (B "dn");
  gnutls_x509_crt_get_key_id c := Some (sample_id c);
  gnutls_x509_crt_list_import _ _ := Some [];
  gnutls_privkey_export_x509 k := Some k;
  gnutls_x509_privkey_get_key_id k := Some (sample_id k);
  gnutls_x509_privkey_import raw := nat_of_ascii <$> head raw;
  gnutls_privkey_import_x509 k := Some k;
  gnutls_pkcs7_sign c _ text := Some (Message text c [c]);
  gnutls_pkcs7_set_crt p c := Some (Message (msg_text p) (msg_signer p) (msg_certs p ++ [c]))
|}.
#[local] Existing Instances sample_gnutls sample_gnutls_laws sample_files sample_x509.

Lemma sample_x509_laws : X509Laws.
Proof. split; [by intros c key d p [= <-]|by intros p c p' [= <-]]. Qed.
#[local] Existing Instance sample_x509_laws.

Definition sample_trusteds : list (@cert sample_x509) := [2].
Abbreviation sample_garbage := (replicate (PATH_MAX + 1) NUL).

Lemma check_signed_digest_of_files_safe_witness :
  exists k p c, added k sample_tree /\ file_of sample_tree k = Some c /\ gnutls_pkcs7_import c = Some p /\
    match signature_name_type (entry_path sample_tree k) with
    | Signature_None => False
    | Signature_Author => vouches sample_tree sample_trusteds false p (B "dom")
    | Signature_distributor => vouches sample_tree sample_trusteds true p (B "dom")
    end.
Proof.
  set (x := check_signed_digest_of_files 3 sample_memory sample_trusteds (Some []) sample_garbage []).
  assert (Hx : (fun y => (y.1.1.1, y.1.1.2)) <$> x =
    Some (0%Z, Some [domain_spec.mk_domain permission_grants (B "dom")])) by (vm_compute; reflexivity).
  destruct x as [[[[rc spec] st'] o']|] eqn:E; [|discriminate Hx]. simpl in Hx. injection Hx as -> ->.
  refine (check_signed_digest_of_files_safe 3 sample_memory sample_trusteds sample_garbage [] _ _ st' o' _ _ _ E (B "dom") _).
  - split; [exact wf_sample_tree|]. split; [reflexivity|]. split; [vm_compute; reflexivity|].
    intros k c p text Hc Hp Ht.
    change (gnutls_pkcs7_import c) with (if beq c (B "signed") then Some sample_signature else None) in Hp.
    destruct (beq c (B "signed")); [|discriminate Hp].
    injection Hp as <-. injection Ht as <-. vm_compute. reflexivity.
  - exact sample_hashes_ok.
  - apply length_replicate.
  - vm_compute. reflexivity.
Defined.

Definition sample_key : @privkey sample_x509 := 0.
Definition sample_certs : list (@cert sample_x509) := [1; 0].
Definition sample_made : @pkcs7 sample_x509 := Message sample_digest 0 [0; 1].


(** The status of the check of all signatures is the one of the last: here
    the first one cannot be read. *)
Definition two_signatures : memory := Eval vm_compute in
  let '(_, _, t, _) := path_entry_add sample_tree (B "/signature-a.p7") [] in Memory t empty.

Example failure_forgotten :
  (exists rest, all_visits PATH_ENTRY_FORALL_ONLY_ADDED (tree two_signatures) [] =
    rest ++ [([B "signature-a.p7"], B "/signature-a.p7"); ([B "signature-author.p7"], B "/signature-author.p7")]) /\
  (fun y => y.1.1.1) <$> check_signed_digest_of_files 3 two_signatures sample_trusteds (Some []) sample_garbage [] =
    Some 0%Z /\
  (read_pkcs7 (B "/signature-a.p7") []).1.1 = (- ENOENT)%Z.
Proof. split; [eexists [_]; vm_compute; reflexivity|]. split; vm_compute; reflexivity. Qed.

End signed_digest.
