(* ===== verification/UtilsJson.v ===== *)
(** * Helpers on the values of json-c: [src/src/utils/utils-json.c]

    A value is a tree that the helpers read and complete in place. A pointer
    in the tree is the list of the steps that lead to it from the value that
    is held; an object or an array whose addition failed for lack of memory
    is in no tree, it is pointed by [None] and what is added to it is seen
    by nobody. json-c asserts that additions are made to objects or arrays:
    the result [None] of an operation is the failure of that assertion. *)
From S2P Require Import Prelude CString Jsonc.

Module utils_json.
Import jsonc.

(** ** Pointers *)

Inductive step := Key (k : bytes) | Item (i : nat).
#[export] Instance step_eq : EqDecision step.
Proof. solve_decision. Defined.

Abbreviation pointer := (option (list step)).

Fixpoint at_path (p : list step) (j : json) : option json :=
  match p with
  | [] => Some j
  | Key k :: p' => match j with JObj l => assoc k l ≫= at_path p' | _ => None end
  | Item i :: p' => match j with JArr l => l !! i ≫= at_path p' | _ => None end
  end.

Fixpoint set_path (p : list step) (v j : json) : json :=
  match p with
  | [] => v
  | Key k :: p' =>
      match j with
      | JObj l => match assoc k l with Some x => JObj (replace k (set_path p' v x) l) | None => j end
      | _ => j
      end
  | Item i :: p' => match j with JArr l => JArr (alter (set_path p' v) i l) | _ => j end
  end.

(** the value pointed, an empty [fresh] one when it is in no tree *)
Definition deref (fresh root : json) (h : pointer) : json :=
  match h with None => fresh | Some p => default JNull (at_path p root) end.

Definition write (root : json) (h : pointer) (v : json) : json :=
  match h with None => root | Some p => set_path p v root end.

Definition below (h : pointer) (s : step) : pointer := (fun p => p ++ [s]) <$> h.

(** ** json-c *)

(** was the value added? *)
Definition json_object_object_add (root : json) (h : pointer) (k : bytes) (v : json) (o : oracle)
  : option (bool * json * oracle) :=
  match deref (JObj []) root h with
  | JObj l =>
      let '(ok, o) := malloc o in
      Some (ok, if ok then write root h (JObj (replace k v l)) else root, o)
  | _ => None
  end.

Definition json_object_array_add (root : json) (h : pointer) (v : json) (o : oracle)
  : option (bool * json * oracle) :=
  match deref (JArr []) root h with
  | JArr l =>
      let '(ok, o) := malloc o in Some (ok, if ok then write root h (JArr (l ++ [v])) else root, o)
  | _ => None
  end.

(** ** Types and values *)

Section Values.
Context (json_object_get_int : Z -> Z).

Definition j_is_string (o : json) : bool := match o with JStr _ => true | _ => false end.
Definition j_is_boolean (o : json) : bool := match o with JBool _ => true | _ => false end.
Definition j_is_integer (o : json) : bool := match o with JInt _ => true | _ => false end.

(** [None] for false, otherwise the value read *)
Definition j_read_string (obj : json) : option bytes := match obj with JStr s => Some s | _ => None end.
Definition j_read_boolean (obj : json) : option Z := match obj with JBool b => Some (Z.b2z b) | _ => None end.
Definition j_read_integer (obj : json) : option Z :=
  match obj with JInt z => Some (json_object_get_int z) | _ => None end.

Definition j_string (obj : json) (defval : bytes) : bytes := match obj with JStr s => s | _ => defval end.
Definition j_boolean (obj : json) (defval : Z) : Z := match obj with JBool b => Z.b2z b | _ => defval end.
Definition j_integer (obj : json) (defval : Z) : Z :=
  match obj with JInt z => json_object_get_int z | _ => defval end.

Definition j_read_object_at (obj : json) (key : bytes) : option json := object_get_ex obj key.
Definition j_has (obj : json) (key : bytes) : bool := bool_decide (is_Some (object_get_ex obj key)).
Definition j_read_string_at (obj : json) (key : bytes) : option bytes := j_read_object_at obj key ≫= j_read_string.
Definition j_read_boolean_at (obj : json) (key : bytes) : option Z := j_read_object_at obj key ≫= j_read_boolean.
Definition j_read_integer_at (obj : json) (key : bytes) : option Z := j_read_object_at obj key ≫= j_read_integer.

Definition j_string_at (obj : json) (key : bytes) (defval : bytes) : bytes :=
  match j_read_object_at obj key with Some data => j_string data defval | None => defval end.
Definition j_boolean_at (obj : json) (key : bytes) (defval : Z) : Z :=
  match j_read_object_at obj key with Some data => j_boolean data defval | None => defval end.
Definition j_integer_at (obj : json) (key : bytes) (defval : Z) : Z :=
  match j_read_object_at obj key with Some data => j_integer data defval | None => defval end.

(** ** Additions

    The status is a boolean; it is true even when nothing was added. *)

(** also tells whether the value is now in the tree, and where *)
Definition add_at (root : json) (h : pointer) (key : option bytes) (val : json) (o : oracle)
  : option (pointer * json * oracle) :=
  match key with
  | Some key =>
      match json_object_object_add root h key val o with
      | Some (ok, root, o) => Some (if ok then below h (Key key) else None, root, o)
      | None => None
      end
  | None =>
      let i := match deref (JArr []) root h with JArr l => length l | _ => 0 end in
      match json_object_array_add root h val o with
      | Some (ok, root, o) => Some (if ok then below h (Item i) else None, root, o)
      | None => None
      end
  end.

Definition j_add (root : json) (h : pointer) (key : option bytes) (val : json) (o : oracle)
  : option (bool * json * oracle) :=
  match add_at root h key val o with Some (_, root, o) => Some (true, root, o) | None => None end.

(** [json_object_new_string] and the like, then [add] *)
Definition add_new (add : json -> oracle -> option (bool * json * oracle)) (root val : json) (o : oracle)
  : option (bool * json * oracle) :=
  let '(ok, o) := malloc o in if ok then add val o else Some (false, root, o).

Definition j_add_string (root : json) (h : pointer) (key val : option bytes) (o : oracle) :=
  add_new (j_add root h key) root (JStr (default [] val)) o.
Definition j_add_boolean (root : json) (h : pointer) (key : option bytes) (val : Z) (o : oracle) :=
  add_new (j_add root h key) root (JBool (negb (val =? 0)%Z)) o.
Definition j_add_integer (root : json) (h : pointer) (key : option bytes) (val : Z) (o : oracle) :=
  add_new (j_add root h key) root (JInt val) o.

(** [Some None] is NULL *)
Definition add_container (fresh root : json) (h : pointer) (key : option bytes) (o : oracle)
  : option (option pointer * json * oracle) :=
  let '(ok, o) := malloc o in
  if negb ok then Some (None, root, o)
  else match add_at root h key fresh o with
       | Some (x, root, o) => Some (Some x, root, o)
       | None => None
       end.

Definition j_add_new_array (root : json) (h : pointer) (key : option bytes) (o : oracle) :=
  add_container (JArr []) root h key o.
Definition j_add_new_object (root : json) (h : pointer) (key : option bytes) (o : oracle) :=
  add_container (JObj []) root h key o.

(** ** Dotted keys *)

Definition DOT : ascii := "."%char.

(** the loop: the pointer and the key that remain, or the error *)
Fixpoint enter_loop (fuel : nat) (root : json) (o : pointer) (k : bytes) (create : bool) (mem : oracle)
  : option ((Z + pointer * bytes) * json * oracle) :=
  match strchr k DOT with
  | None => Some (inr (o, k), root, mem)
  | Some f =>
      match fuel with
      | O => None
      | S fuel' =>
          let n := take (length k - length f) k in
          match object_get_ex (deref (JObj []) root o) n with
          | Some _ => enter_loop fuel' root (below o (Key n)) (drop 1 f) create mem
          | None =>
              if negb create then Some (inl (- ENOENT)%Z, root, mem)
              else
                match j_add_new_object root o (Some n) mem with
                | None => None
                | Some (None, root, mem) => Some (inl (- ENOMEM)%Z, root, mem)
                | Some (Some x, root, mem) => enter_loop fuel' root x (drop 1 f) create mem
                end
          end
      end
  end.

Definition j_enter_m (root : json) (obj : pointer) (mkey : bytes) (create : bool) (mem : oracle) :=
  enter_loop (length mkey) root obj mkey create mem.

Definition j_read_object_at_m (obj : json) (mkey : bytes) : option json :=
  match j_enter_m obj (Some []) mkey false [] with
  | Some (inr (h, key), _, _) => j_read_object_at (deref (JObj []) obj h) key
  | _ => None
  end.

Definition j_has_m (obj : json) (mkey : bytes) : bool :=
  match j_enter_m obj (Some []) mkey false [] with
  | Some (inr (h, key), _, _) => j_has (deref (JObj []) obj h) key
  | _ => false
  end.

Definition j_read_string_at_m (obj : json) (mkey : bytes) : option bytes :=
  j_read_object_at_m obj mkey ≫= j_read_string.
Definition j_read_boolean_at_m (obj : json) (mkey : bytes) : option Z :=
  j_read_object_at_m obj mkey ≫= j_read_boolean.
Definition j_read_integer_at_m (obj : json) (mkey : bytes) : option Z :=
  j_read_object_at_m obj mkey ≫= j_read_integer.

Definition j_string_at_m (obj : json) (mkey : bytes) (defval : bytes) : bytes :=
  match j_read_object_at_m obj mkey with Some data => j_string data defval | None => defval end.
Definition j_boolean_at_m (obj : json) (mkey : bytes) (defval : Z) : Z :=
  match j_read_object_at_m obj mkey with Some data => j_boolean data defval | None => defval end.
Definition j_integer_at_m (obj : json) (mkey : bytes) (defval : Z) : Z :=
  match j_read_object_at_m obj mkey with Some data => j_integer data defval | None => defval end.

(** also gives the pointer of the value *)
Definition add_m_at (root : json) (h : pointer) (mkey : option bytes) (val : json) (o : oracle)
  : option (bool * pointer * json * oracle) :=
  match mkey with
  | Some mkey =>
      match j_enter_m root h mkey true o with
      | None => None
      | Some (inl _, root, o) => Some (false, None, root, o)
      | Some (inr (h, key), root, o) =>
          match add_at root h (Some key) val o with
          | Some (x, root, o) => Some (true, x, root, o)
          | None => None
          end
      end
  | None =>
      match add_at root h None val o with
      | Some (x, root, o) => Some (true, x, root, o)
      | None => None
      end
  end.

Definition j_add_m (root : json) (h : pointer) (mkey : option bytes) (val : json) (o : oracle)
  : option (bool * json * oracle) :=
  match add_m_at root h mkey val o with
  | Some (ok, _, root, o) => Some (ok, root, o)
  | None => None
  end.

Definition j_add_string_m (root : json) (h : pointer) (mkey val : option bytes) (o : oracle) :=
  add_new (j_add_m root h mkey) root (JStr (default [] val)) o.
Definition j_add_boolean_m (root : json) (h : pointer) (mkey : option bytes) (val : Z) (o : oracle) :=
  add_new (j_add_m root h mkey) root (JBool (negb (val =? 0)%Z)) o.
Definition j_add_integer_m (root : json) (h : pointer) (mkey : option bytes) (val : Z) (o : oracle) :=
  add_new (j_add_m root h mkey) root (JInt val) o.

Definition add_container_m (fresh root : json) (h : pointer) (mkey : option bytes) (o : oracle)
  : option (option pointer * json * oracle) :=
  let '(ok, o) := malloc o in
  if negb ok then Some (None, root, o)
  else match add_m_at root h mkey fresh o with
       | Some (ok, x, root, o) => Some (if ok then Some x else None, root, o)
       | None => None
       end.

Definition j_add_new_array_m (root : json) (h : pointer) (mkey : option bytes) (o : oracle) :=
  add_container_m (JArr []) root h mkey o.
Definition j_add_new_object_m (root : json) (h : pointer) (mkey : option bytes) (o : oracle) :=
  add_container_m (JObj []) root h mkey o.

(** the variable arguments are the pairs before the null key *)
Fixpoint j_add_many_strings_m (root : json) (h : pointer) (args : list (bytes * option bytes)) (o : oracle)
  : option (bool * json * oracle) :=
  match args with
  | [] => Some (true, root, o)
  | (_, None) :: args' => j_add_many_strings_m root h args' o
  | (key, Some val) :: args' =>
      match j_add_string_m root h (Some key) (Some val) o with
      | None => None
      | Some (ok, root, o) =>
          match j_add_many_strings_m root h args' o with
          | Some (rc, root, o) => Some (ok && rc, root, o)
          | None => None
          end
      end
  end.

End Values.

(** ** Paths of keys *)

Definition get (ks : list bytes) (j : json) : option json := at_path (Key <$> ks) j.

Fixpoint dotted (ks : list bytes) : bytes :=
  match ks with
  | [] => []
  | [k] => k
  | k :: ks' => k ++ DOT :: dotted ks'
  end.

Definition plain (ks : list bytes) : Prop := ks <> [] /\ Forall (fun k => DOT ∉ k) ks.

(** can a value be put there: what the path meets is missing or an object *)
Fixpoint writable (ks : list bytes) (j : json) : Prop :=
  match j with
  | JObj l =>
      match ks with
      | [] => False
      | [k] => True
      | k :: ks' => match assoc k l with Some v => writable ks' v | None => True end
      end
  | _ => False
  end.

Lemma dotted_cons k ks : ks <> [] -> dotted (k :: ks) = k ++ DOT :: dotted ks.
Proof. by destruct ks. Qed.

Lemma at_path_app p q j : at_path (p ++ q) j = at_path p j ≫= at_path q.
Proof.
  revert j. induction p as [|[k|i] p IH]; intros j; simpl; [done| |].
  - destruct j; try done. destruct (assoc k l); simpl; [apply IH|done].
  - destruct j; try done. destruct (l !! i); simpl; [apply IH|done].
Qed.

Lemma get_app ks ks' j : get (ks ++ ks') j = get ks j ≫= get ks'.
Proof. unfold get. rewrite fmap_app. apply at_path_app. Qed.

Lemma get_snoc ks k j : get (ks ++ [k]) j = get ks j ≫= fun x => object_get_ex x k.
Proof.
  rewrite get_app. destruct (get ks j) as [x|]; simpl; [|done]. unfold get. simpl.
  destruct x; try done. simpl. by destruct (assoc k l).
Qed.

Lemma get_cons k ks j : get (k :: ks) j = object_get_ex j k ≫= get ks.
Proof. unfold get. simpl. by destruct j. Qed.

(** writing an object does not change what is elsewhere *)
Lemma get_set ks v j x :
  get ks j = Some x ->
  get ks (set_path (Key <$> ks) v j) = Some v /\
  forall q, ~ ks `prefix_of` q -> ~ q `prefix_of` ks -> get q (set_path (Key <$> ks) v j) = get q j.
Proof.
  revert j. induction ks as [|k ks IH]; intros j Hj.
  { split; [done|]. intros q Hq _. destruct Hq. apply prefix_nil. }
  unfold get in *. simpl in *. destruct j as [| | | | |l]; try done.
  destruct (assoc k l) as [y|] eqn:Ek; simpl in Hj; [|done]. apply IH in Hj as [Hg Ho].
  rewrite assoc_replace, beq_refl. simpl. split; [done|]. intros [|k' q] Hq Hp; simpl.
  { destruct Hp. apply prefix_nil. }
  rewrite assoc_replace. destruct (beq k' k) eqn:E; [|done]. apply beq_true in E as ->.
  rewrite Ek. simpl. apply Ho; by intros ?%(prefix_cons k).
Qed.

Definition apart (ks q : list bytes) : Prop := ~ ks `prefix_of` q /\ ~ q `prefix_of` ks.

(** adding a value to an object *)
Lemma get_add ks k l v j :
  get ks j = Some (JObj l) ->
  let j' := set_path (Key <$> ks) (JObj (replace k v l)) j in
  get (ks ++ [k]) j' = Some v /\ get ks j' = Some (JObj (replace k v l)) /\
  forall q, apart (ks ++ [k]) q -> get q j' = get q j.
Proof.
  intros Hg j'. destruct (get_set ks (JObj (replace k v l)) j _ Hg) as [Hj Ho]. fold j' in Hj, Ho.
  split; [rewrite get_snoc, Hj; simpl; by rewrite assoc_replace, beq_refl|]. split; [done|].
  intros q [Hq1 Hq2]. destruct (decide (ks `prefix_of` q)) as [[r ->]|Hn].
  - rewrite !get_app, Hj, Hg. simpl. unfold get. destruct r as [|k' r].
    { destruct Hq2. rewrite app_nil_r. by eexists. }
    simpl. rewrite assoc_replace. destruct (beq k' k) eqn:E; [|done]. apply beq_true in E as ->.
    destruct Hq1. exists r. by rewrite <-(assoc_L (++)).
  - apply Ho; [done|]. intros Hp. apply Hq2. by apply prefix_app_r.
Qed.

(** ** Entering *)

Lemma strchr_absent s c : c ∉ s -> strchr s c = None.
Proof.
  induction s as [|d s IH]; simpl; [done|]. rewrite not_elem_of_cons. intros [? ?].
  rewrite bool_decide_eq_false_2 by done. by apply IH.
Qed.

(** one turn of the loop *)
Lemma enter_step fuel root p j n ks create mem :
  get p root = Some j -> DOT ∉ n -> ks <> [] ->
  enter_loop (S fuel) root (Some (Key <$> p)) (dotted (n :: ks)) create mem =
  match object_get_ex j n with
  | Some _ => enter_loop fuel root (Some (Key <$> p ++ [n])) (dotted ks) create mem
  | None =>
      if negb create then Some (inl (- ENOENT)%Z, root, mem)
      else
        match j_add_new_object root (Some (Key <$> p)) (Some n) mem with
        | None => None
        | Some (None, root, mem) => Some (inl (- ENOMEM)%Z, root, mem)
        | Some (Some x, root, mem) => enter_loop fuel root x (dotted ks) create mem
        end
  end.
Proof.
  intros Hj Hn Hks. rewrite dotted_cons by done. cbn [enter_loop]. rewrite strchr_first by done.
  assert (take (length (n ++ DOT :: dotted ks) - length (DOT :: dotted ks)) (n ++ DOT :: dotted ks) = n) as ->.
  { rewrite length_app, Nat.add_sub. by apply take_app_length. }
  unfold deref. unfold get in Hj. rewrite Hj. cbn [default].
  change (drop 1 (DOT :: dotted ks)) with (dotted ks). change (id j) with j.
  destruct (object_get_ex j n); [|done]. by rewrite fmap_app.
Qed.

Lemma enter_end fuel root h k create mem :
  DOT ∉ k -> enter_loop fuel root h (dotted [k]) create mem = Some (inr (h, k), root, mem).
Proof. intros Hk. destruct fuel; simpl; by rewrite strchr_absent. Qed.

Lemma enter_read ks fuel root p j k mem :
  get p root = Some j -> Forall (fun k => DOT ∉ k) (ks ++ [k]) -> length ks <= fuel ->
  enter_loop fuel root (Some (Key <$> p)) (dotted (ks ++ [k])) false mem =
  match get ks j with
  | Some _ => Some (inr (Some (Key <$> p ++ ks), k), root, mem)
  | None => Some (inl (- ENOENT)%Z, root, mem)
  end.
Proof.
  revert fuel p j. induction ks as [|n ks IH]; intros fuel p j Hj [Hn Hd]%Forall_cons Hf.
  { cbn [app] in *. rewrite enter_end, app_nil_r by done. done. }
  simpl in Hf. destruct fuel as [|fuel]; [lia|]. rewrite <-app_comm_cons.
  rewrite (enter_step _ _ _ j) by (done || by destruct ks).
  rewrite get_cons. destruct (object_get_ex j n) as [x|] eqn:Ex; simpl; [|done].
  rewrite (IH _ _ x), <-(assoc_L (++)); [done| |done|lia].
  by rewrite get_snoc, Hj.
Qed.

Lemma length_dotted ks k : length ks <= length (dotted (ks ++ [k])).
Proof.
  induction ks as [|n ks IH]; simpl; [lia|]. destruct (ks ++ [k]) eqn:E; [by destruct ks|].
  rewrite <-E in *. rewrite length_app. simpl. lia.
Qed.

(** Reading a dotted key is reading the keys one after the other. *)
Lemma read_object_at_m root ks : plain ks -> j_read_object_at_m root (dotted ks) = get ks root.
Proof.
  intros [Hne Hd]. destruct ks as [|k ks _] using rev_ind; [done|]. unfold j_read_object_at_m, j_enter_m.
  change (Some []) with (Some (Key <$> [] : list step)).
  rewrite (enter_read ks _ root [] root k) by (done || apply length_dotted).
  rewrite get_snoc. destruct (get ks root) as [x|] eqn:E; [|done]. simpl. unfold get in E. by rewrite E.
Qed.

(** from an object that is in no tree nothing is reached in the tree *)
Lemma enter_lost ks fuel root k mem :
  Forall (fun k => DOT ∉ k) (ks ++ [k]) -> length ks <= fuel ->
  exists r mem', enter_loop fuel root None (dotted (ks ++ [k])) true mem = Some (r, root, mem') /\
    mem' ⊆ mem /\ (r = inl (- ENOMEM)%Z \/ r = inr (None, k)).
Proof.
  revert fuel mem. induction ks as [|n ks IH]; intros fuel mem [Hn Hd]%Forall_cons Hf.
  { exists (inr (None, k)), mem. cbn [app]. rewrite enter_end by done. split; [done|]. auto. }
  simpl in Hf. destruct fuel as [|fuel]; [lia|]. rewrite <-app_comm_cons, dotted_cons by (by destruct ks).
  cbn [enter_loop]. rewrite strchr_first by done.
  unfold j_add_new_object, add_container, add_at, json_object_object_add, deref, below. cbn [object_get_ex json_Jsonc assoc negb].
  destruct (malloc mem) as [ok1 mem1] eqn:E1. apply malloc_sub in E1 as [H1 _].
  destruct ok1; simpl; [|eexists _, _; split; [done|]; auto].
  destruct (malloc mem1) as [ok2 mem2] eqn:E2. apply malloc_sub in E2 as [H2 _].
  destruct (IH fuel mem2) as (r & mem' & E & Hs & Hr); [done|lia|]. exists r, mem'.
  destruct ok2; simpl; (split; [done|]; split; [set_solver|done]).
Qed.

(** Entering for an addition changes nothing apart of the key; it arrives to
    the object when memory does not lack. *)
Lemma enter_create ks fuel root p j k mem :
  get p root = Some j -> Forall (fun k => DOT ∉ k) (ks ++ [k]) -> length ks <= fuel -> writable (ks ++ [k]) j ->
  exists r root' mem', enter_loop fuel root (Some (Key <$> p)) (dotted (ks ++ [k])) true mem = Some (r, root', mem') /\
    (forall q, apart (p ++ ks ++ [k]) q -> get q root' = get q root) /\
    mem' ⊆ mem /\
    (false ∈ mem /\ (r = inl (- ENOMEM)%Z \/ r = inr (None, k)) \/
     r = inr (Some (Key <$> p ++ ks), k) /\ exists l, get (p ++ ks) root' = Some (JObj l)).
Proof.
  revert fuel root p j mem. induction ks as [|n ks IH]; intros fuel root p j mem Hj [Hn Hd]%Forall_cons Hf Hw.
  { exists (inr (Some (Key <$> p), k)), root, mem. cbn [app]. rewrite enter_end, app_nil_r by done.
    split; [done|]. split; [done|]. split; [done|]. right.
    split; [done|]. destruct j; try done. eauto. }
  simpl in Hf. destruct fuel as [|fuel]; [lia|]. rewrite <-app_comm_cons.
  rewrite (enter_step _ _ _ j) by (done || by destruct ks).
  destruct j as [| | | | |l]; try done. cbn [app writable] in Hw. simpl.
  assert (Hsplit : p ++ n :: ks ++ [k] = (p ++ [n]) ++ ks ++ [k]) by by rewrite <-(assoc_L (++)).
  assert (Hsplit' : p ++ n :: ks = (p ++ [n]) ++ ks) by by rewrite <-(assoc_L (++)).
  rewrite Hsplit, Hsplit'. destruct (assoc n l) as [x|] eqn:Ex; simpl.
  { apply (IH fuel root (p ++ [n]) x); [by rewrite get_snoc, Hj|done|lia|]. by destruct (ks ++ [k]) eqn:E; [destruct ks|]. }
  unfold j_add_new_object, add_container, add_at, json_object_object_add, deref.
  destruct (malloc mem) as [ok1 mem1] eqn:E1. pose proof (malloc_sub _ _ _ E1) as H1.
  unfold get in Hj. rewrite Hj. destruct ok1; simpl; [|eexists _, _, _; split; [done|]; naive_solver].
  destruct (malloc mem1) as [ok2 mem2] eqn:E2. pose proof (malloc_sub _ _ _ E2) as H2. simpl.
  destruct ok2; simpl.
  2: { destruct (enter_lost ks fuel root k mem2) as (r & mem' & -> & Hs & Hr); [done|lia|].
       eexists _, _, _. split; [done|]. split; [done|]. split; [set_solver|]. left. naive_solver. }
  pose proof (get_add p n l (JObj []) root Hj) as (Hg1 & Hg2 & Ho). unfold write.
  set (root1 := set_path _ _ root) in *.
  replace (fmap Key p ++ [Key n]) with (Key <$> p ++ [n]) by by rewrite fmap_app.
  destruct (IH fuel root1 (p ++ [n]) (JObj []) mem2) as (r & root' & mem' & -> & Hsame & Hm & Hr);
    [done|done|lia|by destruct ks as [|? []]|].
  exists r, root', mem'. split; [done|]. split; [|split; [set_solver|]; destruct Hr as [[? ?]|?]; [left; set_solver|auto]].
  intros q Hq. rewrite Hsame by done. destruct (decide ((p ++ [n]) `prefix_of` q)) as [[t ->]|Hnp].
  - rewrite !(get_app (p ++ [n]) t), Hg1, get_snoc. change (get p root) with (at_path (Key <$> p) root).
    rewrite Hj. simpl. rewrite Ex. simpl.
    destruct t as [|? t]; [|done]. destruct Hq as [_ Hq]. destruct Hq. rewrite app_nil_r. by apply prefix_app_r.
  - apply Ho. split; [done|]. intros Hp. destruct Hq as [_ Hq]. apply Hq. by apply prefix_app_r.
Qed.

(** Something that is not an object stops the search. *)
Lemma enter_blocked ks fuel root p j k :
  get p root = Some j -> Forall (fun k => DOT ∉ k) (ks ++ [k]) -> length ks <= fuel -> ~ writable (ks ++ [k]) j ->
  enter_loop fuel root (Some (Key <$> p)) (dotted (ks ++ [k])) true [] = None \/
  exists x, enter_loop fuel root (Some (Key <$> p)) (dotted (ks ++ [k])) true [] =
      Some (inr (Some (Key <$> p ++ ks), k), root, []) /\
    get (p ++ ks) root = Some x /\ forall l, x <> JObj l.
Proof.
  revert fuel p j. induction ks as [|n ks IH]; intros fuel p j Hj [Hn Hd]%Forall_cons Hf Hw.
  { right. exists j. cbn [app]. rewrite enter_end, app_nil_r by done. split_and!; try done. by intros l ->. }
  simpl in Hf. destruct fuel as [|fuel]; [lia|]. rewrite <-app_comm_cons.
  rewrite (enter_step _ _ _ j) by (done || by destruct ks).
  destruct (object_get_ex j n) as [x|] eqn:Ex.
  - replace (p ++ n :: ks) with ((p ++ [n]) ++ ks) by by rewrite <-(assoc_L (++)).
    apply (IH fuel (p ++ [n]) x); [by rewrite get_snoc, Hj|done|lia|]. intros Hx. apply Hw.
    destruct j; try done. simpl in *. rewrite Ex. by destruct (ks ++ [k]) eqn:E; [destruct ks|].
  - left. unfold j_add_new_object, add_container, add_at, json_object_object_add, deref.
    unfold get in Hj. rewrite Hj. destruct j; try done. destruct Hw. simpl in *. rewrite Ex.
    by destruct (ks ++ [k]) eqn:E; [destruct ks|].
Qed.

(** C33: adding a value at a dotted key creates the objects that its path
    misses and puts the value there: it is read back with the same key, what
    is in it with longer ones, and what the keys apart of it gave is kept,
    this even when memory lacks; the status is then possibly false. A path
    that meets something else than an object makes the assertion of json-c
    fail. *)
Theorem j_add_m_spec root ks val o :
  plain ks ->
  (~ writable ks root -> j_add_m root (Some []) (Some (dotted ks)) val [] = None) /\
  (writable ks root -> exists ok root' o', j_add_m root (Some []) (Some (dotted ks)) val o = Some (ok, root', o') /\
    (forall q, plain q -> apart ks q ->
       j_read_object_at_m root' (dotted q) = j_read_object_at_m root (dotted q)) /\
    (false ∉ o -> ok = true /\ j_read_object_at_m root' (dotted ks) = Some val /\
       forall q, plain q -> j_read_object_at_m root' (dotted (ks ++ q)) = j_read_object_at_m val (dotted q))).
Proof.
  intros Hp. pose proof Hp as [Hne Hd]. destruct ks as [|k ks _] using rev_ind; [done|]. clear Hne.
  unfold j_add_m, add_m_at, j_enter_m. change (Some []) with (Some (Key <$> [] : list step)).
  pose proof (length_dotted ks k) as Hlen. split.
  - intros Hw. destruct (enter_blocked ks (length (dotted (ks ++ [k]))) root [] root k) as [-> |(x & -> & Hx & Hno)]; try done.
    unfold add_at, json_object_object_add, deref. unfold get in Hx. simpl in Hx |- *. rewrite Hx. simpl.
    by destruct x; try done; destruct (Hno l).
  - intros Hw. destruct (enter_create ks (length (dotted (ks ++ [k]))) root [] root k o)
      as (r & root1 & o1 & -> & Hsame & Ho & Hr); try done. simpl in Hsame, Hr.
    assert (Hkeep : forall q, plain q -> apart (ks ++ [k]) q ->
      j_read_object_at_m root1 (dotted q) = j_read_object_at_m root (dotted q)).
    { intros q Hq Ha. rewrite !read_object_at_m by done. by apply Hsame. }
    destruct Hr as [[Hm [-> | ->]]|[-> [l Hl]]].
    { eexists _, _, _. split; [done|]. split; [done|]. intros Hno. by destruct Hno. }
    { unfold add_at, json_object_object_add, deref. simpl. destruct (malloc o1) as [[] o2];
      (eexists _, _, _; split; [done|]; split; [done|]; intros Hno; by destruct Hno). }
    unfold add_at, json_object_object_add, deref. pose proof (get_add ks k l val root1 Hl) as (Hg1 & _ & Hoth).
    unfold get in Hl. rewrite Hl. simpl. destruct (malloc o1) as [ok o2] eqn:E. apply malloc_sub in E as [_ Hok].
    destruct ok; eexists _, _, _; (split; [done|]); split.
    + intros q Hq Ha. rewrite <-Hkeep by done. rewrite !read_object_at_m by done. by apply Hoth.
    + intros _. split; [done|]. split; [by rewrite read_object_at_m|]. intros q Hq.
      rewrite !read_object_at_m; [|done|]; [by rewrite get_app; simpl; rewrite Hg1|].
      destruct Hq as [? ?]. split; [by destruct ks|by apply Forall_app].
    + done.
    + intros Hno. destruct Hno. by apply Ho, Hok.
Qed.

Lemma j_add_m_spec_witness :
  exists root', j_add_m (JObj [(B "a", JObj [(B "x", JInt 1)])]) (Some []) (Some (B "a.b.c")) (JStr (B "v")) [] =
    Some (true, root', []) /\ j_read_object_at_m root' (B "a.b.c") = Some (JStr (B "v")).
Proof.
  destruct (j_add_m_spec (JObj [(B "a", JObj [(B "x", JInt 1)])]) [B "a"; B "b"; B "c"] (JStr (B "v")) [])
    as [_ H]; [split; [discriminate|repeat constructor; by apply (bool_decide_unpack _)]|].
  destruct H as (ok & root' & o' & E & _ & Hr); [reflexivity|]. destruct Hr as (-> & Hv & _); [apply not_elem_of_nil|].
  exists root'. split; [|exact Hv]. vm_compute in E. by injection E as <- <-.
Defined.

End utils_json.
