(* ===== verification/Udb.v ===== *)
(** * The database of applications: [src/src/binding/afm-udb.c]

    The units that the installer wrote carry fields named [X-AFM-...]. The
    database reads them in JSON objects, a private and a public one for each
    application, that the binding serves. The values of json-c are the ones
    of [Jsonc.json]; they are shared between the lists of the database but
    none is changed after it is shared. Each value created, and each value
    added in a list or in an object, may lack memory; the code ignores the
    failures of additions. *)
From S2P Require Import Prelude CString UnitFs Jsonc.

Module udb.
Import unit_fs jsonc.

Definition x_afm_prefix : bytes := B "X-AFM-".
Definition service_extension : bytes := B ".service".
Definition key_unit_path : bytes := B "-unit-path".
Definition key_unit_name : bytes := B "-unit-name".
Definition key_unit_scope : bytes := B "-unit-scope".
Definition scope_user : bytes := B "user".
Definition scope_system : bytes := B "system".
Definition key_id : bytes := B "id".
Definition key_visibility : bytes := B "visibility".
Definition value_visible : bytes := B "visible".

Abbreviation object := (list (bytes * json)).

Record apps_side := Side { visibles : list json; all : list json; byname : object }.
Record afm_apps := Apps { privates : apps_side; publics : apps_side }.

(** [applications] is [None] for null pointers *)
Record afm_udb := Udb {
  applications : option afm_apps; refcount : Z; is_system : bool; is_user : bool; prefix : bytes
}.

(** ** Adding values *)

Definition object_add (obj : object) (k : bytes) (v : json) (o : oracle) : object * oracle :=
  let '(ok, o) := malloc o in (if ok then replace k v obj else obj, o).

Definition array_add (l : list json) (v : json) (o : oracle) : list json * oracle :=
  let '(ok, o) := malloc o in (if ok then l ++ [v] else l, o).

Definition empty_side : apps_side := Side [] [] [].

(** six values are created; [None] when one lacks *)
Definition apps_init (o : oracle) : option afm_apps * oracle :=
  let '(a, o) := malloc o in let '(b, o) := malloc o in let '(c, o) := malloc o in
  let '(d, o) := malloc o in let '(e, o) := malloc o in let '(f, o) := malloc o in
  (if a && b && c && d && e && f then Some (Apps empty_side empty_side) else None, o).

(** status and object *)
Definition append_field (obj : object) (name : bytes) (data : json) (o : oracle) : Z * object * oracle :=
  match assoc name obj with
  | None => let '(obj, o) := object_add obj name data o in (0%Z, obj, o)
  | Some (JArr l) =>
      let '(l, o) := array_add l data o in (0%Z, replace name (JArr l) obj, o)
  | Some item =>
      let '(ok, o) := malloc o in
      if negb ok then ((-1)%Z, obj, o)
      else
        let '(l, o) := array_add [] item o in
        let '(added, o) := malloc o in
        let '(l, o) := array_add l data o in
        (0%Z, if added then replace name (JArr l) obj else obj, o)
  end.

(** the value of a field: an integer when the whole text is one *)
Definition field_value (value : bytes) : json :=
  let '(ival, rest, erange) := strtol value in
  if negb (bool_decide (value = [])) && bool_decide (rest = []) && negb erange then JInt ival else JStr value.

Definition add_field (priv pub : object) (name value : bytes) (o : oracle) : Z * object * object * oracle :=
  let '(ok, o) := malloc o in
  if negb ok then ((-1)%Z, priv, pub, o)
  else
    let v := field_value value in
    match name with
    | "-"%char :: name' =>
        let '(_, priv, o) := append_field priv name' v o in (0%Z, priv, pub, o)
    | _ =>
        let '(_, priv, o) := append_field priv name v o in
        let '(_, pub, o) := append_field pub name v o in
        (0%Z, priv, pub, o)
    end.

(** ** Reading the fields of a unit *)

(** The value from [read], and what follows it: the text is translated in
    place, never beyond what was read. *)
Fixpoint value_loop (read write : bytes) : bytes * bytes :=
  match read with
  | [] => (rev write, [])
  | c :: read' =>
      if bool_decide (c = NL) then (rev write, read')
      else if bool_decide (c = "\"%char) then
        match read' with
        | [] => (rev ("\"%char :: write), [])
        | d :: read'' =>
            if bool_decide (d = "n"%char) then value_loop read'' (NL :: write)
            else if bool_decide (d = NL) then value_loop read'' (SPACE :: write)
            else value_loop read'' (d :: "\"%char :: write)
        end
      else value_loop read' (c :: write)
  end.

Definition not_equal (c : ascii) : bool := negb (bool_decide (c = "="%char)).

Fixpoint add_fields_loop (fuel : nat) (priv pub : object) (read : bytes) (o : oracle)
  : Z * object * object * oracle :=
  match fuel with
  | O => ((-1)%Z, priv, pub, o)
  | S fuel' =>
      match strstr read x_afm_prefix with
      | None => (0%Z, priv, pub, o)
      | Some read =>
          let name := drop (length x_afm_prefix) read in
          match strchr name "="%char with
          | None => add_fields_loop fuel' priv pub name o
          | Some value =>
              let '(v, read) := value_loop (drop 1 value) [] in
              let '(rc, priv, pub, o) := add_field priv pub (take_while not_equal name) v o in
              if (rc <? 0)%Z then ((-1)%Z, priv, pub, o)
              else add_fields_loop fuel' priv pub read o
          end
      end
  end.

Definition add_fields_of_content (priv pub : object) (content : bytes) (o : oracle)
  : Z * object * object * oracle := add_fields_loop (S (length content)) priv pub content o.

(** ** Cleaning the text of a unit *)

Inductive crop_state := BeginLine | NormalLine | AfterBackslash | Comment.
#[export] Instance crop_state_eq : EqDecision crop_state.
Proof. solve_decision. Defined.

(** state 1 on a character *)
Definition emit (write : bytes) (c : ascii) : crop_state * bytes :=
  if bool_decide (c = "\"%char) then (AfterBackslash, write)
  else (if bool_decide (c = NL) then BeginLine else NormalLine, c :: write).

Definition crop_char (x : crop_state * bytes) (c : ascii) : crop_state * bytes :=
  let '(st, write) := x in
  if bool_decide (c = CR) then (st, write)
  else
    match st with
    | BeginLine =>
        if bool_decide (c = ";"%char) || bool_decide (c = "#"%char) then (Comment, write)
        else if bool_decide (c = NL) then (BeginLine, write)
        else emit write c
    | NormalLine => emit write c
    | AfterBackslash =>
        if bool_decide (c = NL) then emit write SPACE else emit ("\"%char :: write) c
    | Comment => if bool_decide (c = NL) then (BeginLine, write) else (Comment, write)
    end.

(** the text before the final NUL; its length is the result *)
Definition crop_and_trim_unit_content (content : bytes) : bytes :=
  let '(st, write) := foldl crop_char (BeginLine, []) content in
  rev (if bool_decide (st = NormalLine) then NL :: write else write).

(** ** Units *)

Section Database.
Context (json_get_string : json -> bytes) (rp_file_get : bytes -> Z + bytes)
  (afm_units_root : bytes) (opendir : bytes -> directory).

(** the private and public objects of a unit, or [None] for -1 *)
Definition unit_objects (isuser : bool) (unitpath unitname content : bytes) (o : oracle)
  : option (object * object) * oracle :=
  let '(ok1, o) := malloc o in
  if negb ok1 then (None, o)
  else
    let '(ok2, o) := malloc o in
    if negb ok2 then (None, o)
    else
      let '(rc, priv, pub, o) := add_fields_of_content [] [] content o in
      if negb (rc =? 0)%Z then (None, o)
      else
        let '(rc, priv, pub, o) := add_field priv pub key_unit_path unitpath o in
        if negb (rc =? 0)%Z then (None, o)
        else
          let '(rc, priv, pub, o) := add_field priv pub key_unit_name unitname o in
          if negb (rc =? 0)%Z then (None, o)
          else
            let '(rc, priv, pub, o) :=
              add_field priv pub key_unit_scope (if isuser then scope_user else scope_system) o in
            if negb (rc =? 0)%Z then (None, o) else (Some (priv, pub), o).

(** one of the two sides of the record of a unit; the order of the
    additions of both sides is the one of the code *)
Definition addunit (apps : afm_apps) (isuser : bool) (unitpath unitname content : bytes) (o : oracle)
  : Z * afm_apps * oracle :=
  match unit_objects isuser unitpath unitname content o with
  | (None, o) => ((-1)%Z, apps, o)
  | (Some (priv, pub), o) =>
      match assoc key_id pub with
      | None => ((-1)%Z, apps, o)
      | Some id =>
          let strid := json_get_string id in
          let '(pub_all, o) := array_add (all (publics apps)) (JObj pub) o in
          let '(pub_byname, o) := object_add (byname (publics apps)) strid (JObj pub) o in
          let '(priv_all, o) := array_add (all (privates apps)) (JObj priv) o in
          let '(priv_byname, o) := object_add (byname (privates apps)) strid (JObj priv) o in
          let visible :=
            match assoc key_visibility priv with
            | Some visi => strcaseeq (json_get_string visi) value_visible
            | None => false
            end in
          if visible then
            let '(pub_vis, o) := array_add (visibles (publics apps)) (JObj pub) o in
            let '(priv_vis, o) := array_add (visibles (privates apps)) (JObj priv) o in
            (0%Z, Apps (Side priv_vis priv_all priv_byname) (Side pub_vis pub_all pub_byname), o)
          else
            (0%Z, Apps (Side (visibles (privates apps)) priv_all priv_byname)
                       (Side (visibles (publics apps)) pub_all pub_byname), o)
      end
  end.

(** the error, or the cleaned text; the realloc to its size gives a block *)
Definition read_unit_file (path : bytes) : Z + bytes :=
  match rp_file_get path with
  | inl rc => inl rc
  | inr content => inr (crop_and_trim_unit_content (cstring content))
  end.

(** is the unit considered? its name has the prefix and is a service *)
Definition is_candidate (prefix name : bytes) : bool :=
  (bool_decide (prefix = []) || starts_with prefix name) &&
  bool_decide (length service_extension <= length name) &&
  beq service_extension (drop (length name - length service_extension) name).

Definition update_cb (prefix : bytes) (updt : afm_apps * oracle) (name path : bytes) (isuser : bool)
  : afm_apps * oracle * Z :=
  let '(apps, o) := updt in
  if negb (is_candidate prefix name) then (apps, o, 0%Z)
  else
    match read_unit_file path with
    | inl _ => (apps, o, 0%Z)
    | inr content => let '(_, apps, o) := addunit apps isuser path name content o in (apps, o, 0%Z)
    end.

(** ** The database *)

Definition afm_udb_addref (afudb : afm_udb) : afm_udb :=
  Udb (applications afudb) (refcount afudb + 1) (is_system afudb) (is_user afudb) (prefix afudb).

(** [None] when the memory of the object is released *)
Definition afm_udb_unref (afudb : afm_udb) : option afm_udb :=
  if (refcount afudb - 1 =? 0)%Z then None
  else Some (Udb (applications afudb) (refcount afudb - 1) (is_system afudb) (is_user afudb) (prefix afudb)).

Definition with_applications (afudb : afm_udb) (apps : option afm_apps) : afm_udb :=
  Udb apps (refcount afudb) (is_system afudb) (is_user afudb) (prefix afudb).

(** the status, and the object unless it was released *)
Definition afm_udb_update (afudb : afm_udb) (o : oracle) : Z * option afm_udb * oracle :=
  let afudb := afm_udb_addref afudb in
  let list isuser s := units_fs_list afm_units_root opendir (update_cb (prefix afudb)) isuser true s in
  let '(apps, o) := apps_init o in
  match apps with
  | None => ((-1)%Z, afm_udb_unref afudb, o)
  | Some apps =>
      let '(apps, o, rcu) := if is_user afudb then list true (apps, o) else (apps, o, 0%Z) in
      if (rcu <? 0)%Z then ((-1)%Z, afm_udb_unref afudb, o)
      else
        let '(apps, o, rcs) := if is_system afudb then list false (apps, o) else (apps, o, 0%Z) in
        if (rcs <? 0)%Z then ((-1)%Z, afm_udb_unref afudb, o)
        else (0%Z, afm_udb_unref (with_applications afudb (Some apps)), o)
  end.

Definition afm_udb_create (sys usr : bool) (prefix : option bytes) (o : oracle) : option afm_udb * oracle :=
  let '(ok, o) := malloc o in
  if negb ok then (None, o)
  else
    let '(rc, afudb, o) := afm_udb_update (Udb None 1 sys usr (default [] prefix)) o in
    if (rc <? 0)%Z then (None, o) else (afudb, o).

(** the lists that are served, for an object that was created *)
Definition afm_udb_applications_private (apps : afm_apps) (all_ : bool) : list json :=
  if all_ then all (privates apps) else visibles (privates apps).

Definition afm_udb_applications_public (apps : afm_apps) (all_ : bool) : list json :=
  if all_ then all (publics apps) else visibles (publics apps).

Fixpoint search_no_case (obj : object) (id : bytes) : option json :=
  match obj with
  | [] => None
  | (k, v) :: obj' => if strcaseeq k id then Some v else search_no_case obj' id
  end.

Definition get_no_case (obj : object) (id : bytes) : option json :=
  match assoc id obj with
  | Some v => Some v
  | None => search_no_case obj id
  end.

Definition afm_udb_get_application_private (apps : afm_apps) (id : bytes) : option json :=
  get_no_case (byname (privates apps)) id.

Definition afm_udb_get_application_public (apps : afm_apps) (id : bytes) : option json :=
  get_no_case (byname (publics apps)) id.

End Database.

(** ** Cleaning *)

(** the room left: what is written is never beyond what is read *)
Lemma crop_room content x :
  length (foldl crop_char x content).2 +
    Nat.b2n (bool_decide ((foldl crop_char x content).1 = AfterBackslash)) <=
  length x.2 + Nat.b2n (bool_decide (x.1 = AfterBackslash)) + length content.
Proof.
  revert x. induction content as [|c content IH]; intros [st w]; simpl; [lia|].
  etrans; [apply IH|]. unfold crop_char, emit.
  destruct st; repeat (case_bool_decide; simplify_eq/=). all: try lia.
Qed.

Lemma crop_ends_line content w :
  (foldl crop_char (BeginLine, w) (content ++ [NL])).1 <> NormalLine \/
  exists v, (foldl crop_char (BeginLine, w) content) = (AfterBackslash, v).
Proof.
  rewrite foldl_snoc. destruct (foldl crop_char _ content) as [[] v]; simpl; eauto; left; done.
Qed.

(** C39: cleaning the text of a unit in place never writes beyond what it
    reads, and gives at most one character more than the text: none when
    the text ends with its line, one when the end of line is missing, as
    for "a". *)
Theorem crop_bounds content :
  length (foldl crop_char (BeginLine, []) content).2 <= length content /\
  length (crop_and_trim_unit_content content) <= length content + 1 /\
  (last content = Some NL -> length (crop_and_trim_unit_content content) <= length content) /\
  length (crop_and_trim_unit_content (B "a")) = length (B "a") + 1.
Proof.
  pose proof (crop_room content (BeginLine, [])) as Hr. simpl in Hr.
  unfold crop_and_trim_unit_content at 1 2.
  destruct (foldl crop_char (BeginLine, []) content) as [st w] eqn:E. simpl in Hr |- *.
  split_and!; [lia| | |done].
  - destruct st; simpl in Hr |- *; rewrite ?length_app, ?length_rev; simpl; lia.
  - intros Hl. destruct content as [|c content _] using rev_ind; [done|]. rewrite last_snoc in Hl.
    injection Hl as ->. rewrite length_rev.
    destruct (decide (st = NormalLine)) as [Hn|Hn]; [subst st|by rewrite (bool_decide_eq_false_2 _ Hn); lia].
    destruct (crop_ends_line content []) as [Hc|[v Hv]]; [by rewrite E in Hc|].
    rewrite foldl_snoc, Hv in E. simpl in E. injection E as <-.
    pose proof (crop_room content (BeginLine, [])) as Hr2. rewrite Hv in Hr2. simpl in Hr2.
    rewrite length_app. simpl. lia.
Qed.

Lemma crop_bounds_witness : length (crop_and_trim_unit_content (B "a" ++ [NL])) <= 2.
Proof. apply (crop_bounds (B "a" ++ [NL])). reflexivity. Defined.

(** what cleaning again the text written does *)
Definition again (st : crop_state) (w : bytes) : Prop :=
  match st with
  | NormalLine => foldl crop_char (BeginLine, []) (rev w) = (NormalLine, w)
  | AfterBackslash => foldl crop_char (BeginLine, []) (rev w ++ ["\"%char]) = (AfterBackslash, w)
  | BeginLine | Comment => foldl crop_char (BeginLine, []) (rev w) = (BeginLine, w)
  end.

Lemma again_emit s w c :
  (s = BeginLine /\ c <> ";"%char /\ c <> "#"%char /\ c <> NL \/ s = NormalLine) -> c <> CR ->
  foldl crop_char (BeginLine, []) (rev w) = (s, w) ->
  again (emit w c).1 (emit w c).2.
Proof.
  intros Hs Hc Hr. assert (E : crop_char (s, w) c = emit w c).
  { unfold crop_char. rewrite bool_decide_eq_false_2 by done.
    destruct Hs as [(-> & H1 & H2 & H3)| ->]; [|done]. by rewrite !bool_decide_eq_false_2 by done. }
  unfold emit in *. case_bool_decide as Hb; simpl.
  - subst c. by rewrite foldl_snoc, Hr.
  - case_bool_decide; simpl; rewrite foldl_snoc, Hr, E; done.
Qed.

Lemma again_char st w c : again st w -> again (crop_char (st, w) c).1 (crop_char (st, w) c).2.
Proof.
  intros Ha. unfold crop_char. case_bool_decide as Hcr; [done|]. destruct st; simpl in Ha.
  - destruct (bool_decide (c = ";"%char)) eqn:E1, (bool_decide (c = "#"%char)) eqn:E2; try done. bool_hyps.
    simpl. case_bool_decide; [done|]. eapply again_emit; [left; eauto|done|done].
  - eapply again_emit; [by right|done|done].
  - rewrite foldl_snoc in Ha. destruct (foldl crop_char _ (rev w)) as [s v] eqn:E.
    case_bool_decide as Hn.
    + simpl. rewrite foldl_snoc, E. destruct s; simpl in Ha; try discriminate Ha; injection Ha as <-; done.
    + unfold emit. case_bool_decide as Hb; simpl.
      * subst c. rewrite !foldl_snoc, E, Ha. done.
      * case_bool_decide; [done|]. simpl. rewrite !foldl_snoc, E, Ha. simpl.
        unfold emit. by rewrite !bool_decide_eq_false_2.
  - by case_bool_decide.
Qed.

(** Unless the text ends with a lone backslash, cleaning is idempotent:
    what it gives has no comment, no empty line, no continuation and no
    carriage return left to clean. *)
Theorem crop_idempotent content :
  (foldl crop_char (BeginLine, []) content).1 <> AfterBackslash ->
  crop_and_trim_unit_content (crop_and_trim_unit_content content) = crop_and_trim_unit_content content.
Proof.
  assert (Ha : again (foldl crop_char (BeginLine, []) content).1 (foldl crop_char (BeginLine, []) content).2).
  { induction content as [|c content IH] using rev_ind; [done|]. rewrite foldl_snoc.
    destruct (foldl crop_char _ content) as [st w]. by apply again_char. }
  unfold crop_and_trim_unit_content at 2 3. destruct (foldl crop_char _ content) as [st w]. simpl in Ha |- *.
  intros Hst. unfold crop_and_trim_unit_content. destruct st; try done; simpl.
  - rewrite Ha. done.
  - rewrite foldl_snoc, Ha. done.
  - rewrite Ha. done.
Qed.

Lemma crop_idempotent_witness :
  crop_and_trim_unit_content (crop_and_trim_unit_content (B "a\" ++ [NL] ++ B "b" ++ [NL; NL] ++ B "#c")) =
  B "a b" ++ [NL].
Proof.
  rewrite (crop_idempotent (B "a\" ++ [NL] ++ B "b" ++ [NL; NL] ++ B "#c")) by (vm_compute; discriminate).
  reflexivity.
Defined.

(** ** Fields *)

Definition is_private (name : bytes) : bool := match name with "-"%char :: _ => true | _ => false end.
Definition bare (name : bytes) : bytes := match name with "-"%char :: n => n | _ => name end.

(** with enough memory *)
Lemma append_field_nil obj name data : exists obj', append_field obj name data [] = (0%Z, obj', []).
Proof. unfold append_field. destruct (assoc name obj) as [[]|]; simpl; eauto. Qed.

Lemma append_field_absent obj name data :
  assoc name obj = None -> append_field obj name data [] = (0%Z, obj ++ [(name, data)], []).
Proof. intros Hn. unfold append_field. rewrite Hn. simpl. by rewrite replace_absent. Qed.

Lemma add_field_spec priv pub name value :
  add_field priv pub name value [] =
  (0%Z, (append_field priv (bare name) (field_value value) []).1.2,
   if is_private name then pub else (append_field pub (bare name) (field_value value) []).1.2, []).
Proof.
  unfold add_field. simpl. set (v := field_value value).
  assert (H : forall n, (let '(_, priv0, o) := append_field priv n v [] in
      let '(_, pub0, o) := append_field pub n v o in (0%Z, priv0, pub0, o)) =
    (0%Z, (append_field priv n v []).1.2, (append_field pub n v []).1.2, [])).
  { intros n. destruct (append_field_nil priv n v) as [x ->]. by destruct (append_field_nil pub n v) as [y ->]. }
  destruct name as [|[[] [] [] [] [] [] [] []] name]; try apply H. simpl.
  by destruct (append_field_nil priv name v) as [x ->].
Qed.

Lemma length_value_loop read write : length (value_loop read write).2 <= length read.
Proof.
  revert write. remember (length read) as n eqn:E. assert (Hn : length read <= n) by lia. clear E.
  revert read Hn. induction n as [|n IH]; intros [|c read] Hn write; simpl in *; try lia.
  case_bool_decide; [simpl; lia|]. case_bool_decide.
  - destruct read as [|e read]; simpl in *; [lia|].
    repeat case_bool_decide; (etrans; [apply IH; lia|lia]).
  - etrans; [apply IH; lia|lia].
Qed.

(** The reading of the fields ends, with a success when memory does not lack. *)
Lemma add_fields_total fuel priv pub read :
  length read < fuel -> exists priv' pub', add_fields_loop fuel priv pub read [] = (0%Z, priv', pub', []).
Proof.
  revert priv pub read. induction fuel as [|fuel IH]; intros priv pub read Hf; [lia|]. cbn [add_fields_loop].
  destruct (strstr read x_afm_prefix) as [t|] eqn:Es; [|eauto].
  apply length_strstr in Es as (Hl & r & ->). rewrite length_app in Hl. simpl length in Hl.
  rewrite drop_app_length. destruct (strchr r _) as [v|] eqn:Ec; [|apply IH; lia].
  apply length_strchr in Ec. pose proof (length_value_loop (drop 1 v) []) as Hv.
  rewrite length_drop in Hv. destruct (value_loop _ _) as [w rest]. simpl in Hv.
  rewrite add_field_spec. apply IH. lia.
Qed.

(** a field as the installer writes it, and the text that follows it *)
Record field := Field { f_name : bytes; f_value : bytes; f_noise : bytes }.

Definition escape (v : bytes) : bytes := flat_map (fun c => if bool_decide (c = NL) then B "\n" else [c]) v.

Definition print_field (f : field) : bytes :=
  x_afm_prefix ++ f_name f ++ B "=" ++ escape (f_value f) ++ [NL] ++ f_noise f.

(** a text without field, even overlapping the next one *)
Definition quiet (noise : bytes) : Prop := strstr (noise ++ B "X-AFM") x_afm_prefix = None.

Definition ok_field (f : field) : Prop :=
  ("="%char ∉ f_name f) /\ ("\"%char ∉ f_value f) /\ quiet (f_noise f).

Lemma value_loop_escape v rest write :
  "\"%char ∉ v -> value_loop (escape v ++ NL :: rest) write = (rev write ++ v, rest).
Proof.
  revert write. induction v as [|c v IH]; intros write Hv; [simpl; by rewrite app_nil_r|].
  apply not_elem_of_cons in Hv as [Hc Hv]. simpl. case_bool_decide as Hn; simpl.
  - subst c. rewrite IH by done. simpl. by rewrite <-(assoc_L (++)).
  - rewrite !bool_decide_eq_false_2 by done. rewrite IH by done. simpl. by rewrite <-(assoc_L (++)).
Qed.

Lemma quiet_end noise : quiet noise -> strstr noise x_afm_prefix = None.
Proof.
  unfold quiet. induction noise as [|c noise IH]; [done|]. cbn [app strstr].
  destruct (starts_with _ (c :: noise ++ _)) eqn:E; [done|]. intros Hq.
  destruct (starts_with _ (c :: noise)) eqn:E2; [|auto].
  apply starts_with_spec in E2 as [r E2]. change (c :: noise ++ B "X-AFM") with ((c :: noise) ++ B "X-AFM") in E.
  rewrite E2, <-(assoc_L (++)), starts_with_app in E. done.
Qed.

Lemma add_fields_print l fuel priv pub noise :
  quiet noise -> Forall ok_field l -> NoDup (bare ∘ f_name <$> l) ->
  (forall f, f ∈ l -> assoc (bare (f_name f)) priv = None /\ assoc (bare (f_name f)) pub = None) ->
  length l < fuel ->
  add_fields_loop fuel priv pub (noise ++ concat (print_field <$> l)) [] =
  (0%Z, priv ++ ((fun f => (bare (f_name f), field_value (f_value f))) <$> l),
   pub ++ ((fun f => (bare (f_name f), field_value (f_value f))) <$> filter (fun f => is_private (f_name f) = false) l),
   []).
Proof.
  revert fuel priv pub noise. induction l as [|f l IH]; intros fuel priv pub noise Hq HF Hnd Habs Hfuel;
    (destruct fuel as [|fuel]; [simpl in Hfuel; lia|]).
  { cbn [add_fields_loop]. simpl concat. rewrite app_nil_r, (quiet_end _ Hq). simpl. by rewrite !app_nil_r. }
  apply Forall_cons in HF as [(He & Hb & Hqf) HF]. rewrite fmap_cons, NoDup_cons in Hnd. destruct Hnd as [Hnew Hnd].
  destruct (Habs f) as [Hpriv Hpub]; [by left|].
  rewrite fmap_cons, concat_cons. unfold print_field at 1. cbn [add_fields_loop].
  rewrite <-!(assoc_L (++)), strstr_first by done.
  rewrite drop_app_length. change (B "=" ++ ?x) with ("="%char :: x). rewrite strchr_first by done.
  cbn [skipn]. rewrite drop_0. change ([NL] ++ ?x) with (NL :: x). rewrite value_loop_escape by done. simpl (rev [] ++ _).
  rewrite take_while_all.
  2: { apply Forall_forall. intros c Hc. unfold not_equal. rewrite bool_decide_eq_false_2; [done|]. by intros ->. }
  simpl (take_while _ _). rewrite app_nil_r, add_field_spec.
  rewrite (append_field_absent priv) by done. rewrite (append_field_absent pub) by done. simpl (_ <? 0)%Z. cbv iota.
  rewrite IH; [|done|done|done| |simpl in Hfuel; lia].
  - rewrite fmap_cons. cbn [fst snd]. destruct (is_private (f_name f)) eqn:Ep.
    + rewrite (filter_cons_False _ f) by congruence. by rewrite <-!(assoc_L (++)).
    + rewrite (filter_cons_True _ f) by done. rewrite fmap_cons. by rewrite <-!(assoc_L (++)).
  - intros g Hg. destruct (Habs g) as [Hg1 Hg2]; [by right|].
    assert (Hne : bare (f_name g) <> bare (f_name f)).
    { intros E. apply Hnew. change (bare (f_name f) ∈ bare ∘ f_name <$> l). rewrite <-E. change (bare (f_name g)) with ((bare ∘ f_name) g). by apply list_elem_of_fmap_2. }
    assert (Hadd : forall obj, assoc (bare (f_name g)) obj = None ->
      assoc (bare (f_name g)) (obj ++ [(bare (f_name f), field_value (f_value f))]) = None).
    { intros obj. rewrite !assoc_None, fmap_app, not_elem_of_app. simpl. rewrite list_elem_of_singleton. done. }
    cbn [fst snd]. split; [auto|]. destruct (is_private _); auto.
Qed.


(** ** What the database holds *)

(** an application read from a unit *)
Record app := App { a_id : bytes; a_priv : object; a_pub : object; a_visible : bool }.

(** the applications by identifier: the last unit of an identifier takes
    the place of the first *)
Fixpoint put_app (a : app) (index : list app) : list app :=
  match index with
  | [] => [a]
  | b :: index' => if beq (a_id a) (a_id b) then a :: index' else b :: put_app a index'
  end.

Definition index (l : list app) : list app := foldl (fun ix a => put_app a ix) [] l.

Definition side_of (f : app -> object) (l : list app) : apps_side :=
  Side ((fun a => JObj (f a)) <$> filter (fun a => a_visible a = true) l) ((fun a => JObj (f a)) <$> l)
       ((fun a => (a_id a, JObj (f a))) <$> index l).

Definition apps_of (l : list app) : afm_apps := Apps (side_of a_priv l) (side_of a_pub l).

(** the application found for an identifier *)
Definition find_app (ix : list app) (id : bytes) : option app :=
  match head (filter (fun a => a_id a = id) ix) with
  | Some a => Some a
  | None => head (filter (fun a => strcaseeq (a_id a) id = true) ix)
  end.

Lemma replace_index f a ix :
  replace (a_id a) (JObj (f a)) ((fun a => (a_id a, JObj (f a))) <$> ix) =
  (fun a => (a_id a, JObj (f a))) <$> put_app a ix.
Proof. induction ix as [|b ix IH]; simpl; [done|]. destruct (beq _ _); simpl; [done|]. by f_equal. Qed.

Lemma get_no_case_index f ix id :
  get_no_case ((fun a => (a_id a, JObj (f a))) <$> ix) id = (fun a => JObj (f a)) <$> find_app ix id.
Proof.
  assert (H1 : assoc id ((fun a => (a_id a, JObj (f a))) <$> ix) =
    (fun a => JObj (f a)) <$> head (filter (fun a => a_id a = id) ix)).
  { induction ix as [|a ix IH]; [done|]. cbn [fmap list_fmap assoc]. destruct (beq id (a_id a)) eqn:E.
    - apply beq_true in E. by rewrite filter_cons_True.
    - apply beq_false in E. rewrite filter_cons_False by congruence. exact IH. }
  assert (H2 : search_no_case ((fun a => (a_id a, JObj (f a))) <$> ix) id =
    (fun a => JObj (f a)) <$> head (filter (fun a => strcaseeq (a_id a) id = true) ix)).
  { clear H1. induction ix as [|a ix IH]; [done|]. cbn [fmap list_fmap search_no_case].
    destruct (strcaseeq (a_id a) id) eqn:E.
    - by rewrite filter_cons_True.
    - rewrite filter_cons_False by congruence. exact IH. }
  unfold get_no_case, find_app. rewrite H1. by destruct (head (filter (fun a => a_id a = id) ix)).
Qed.

Lemma put_app_elem a ix b : b ∈ put_app a ix -> b = a \/ b ∈ ix.
Proof.
  induction ix as [|c ix IH]; simpl; [rewrite list_elem_of_singleton; auto|].
  destruct (beq _ _); rewrite !elem_of_cons; naive_solver.
Qed.

Lemma put_app_ids a ix id : id ∈ a_id <$> put_app a ix <-> id = a_id a \/ id ∈ a_id <$> ix.
Proof.
  induction ix as [|c ix IH]; simpl; [by rewrite elem_of_cons|].
  destruct (beq (a_id a) (a_id c)) eqn:E; simpl; rewrite !elem_of_cons; [apply beq_true in E; naive_solver|].
  rewrite IH. naive_solver.
Qed.

Lemma put_app_head a ix id :
  head (filter (fun b => a_id b = id) (put_app a ix)) =
  if beq (a_id a) id then Some a else head (filter (fun b => a_id b = id) ix).
Proof.
  induction ix as [|c ix IH]; simpl.
  - destruct (beq (a_id a) id) eqn:E; [apply beq_true in E; by rewrite filter_cons_True|].
    apply beq_false in E. by rewrite filter_cons_False.
  - destruct (beq (a_id a) (a_id c)) eqn:E; simpl.
    + apply beq_true in E. destruct (beq (a_id a) id) eqn:E2.
      * apply beq_true in E2. by rewrite filter_cons_True.
      * apply beq_false in E2. by rewrite !filter_cons_False by congruence.
    + apply beq_false in E. rewrite !filter_cons. case_decide as Ec; [|exact IH].
      simpl. destruct (beq (a_id a) id) eqn:E2; [|done]. apply beq_true in E2. congruence.
Qed.

Lemma index_snoc l a : index (l ++ [a]) = put_app a (index l).
Proof. unfold index. by rewrite foldl_snoc. Qed.

Lemma index_elem l a : a ∈ index l -> a ∈ l.
Proof.
  induction l as [|b l IH] using rev_ind; [done|]. rewrite index_snoc, elem_of_app.
  intros [->|H]%put_app_elem; [by right; left|left; auto].
Qed.

Lemma index_ids l id : id ∈ a_id <$> index l <-> id ∈ a_id <$> l.
Proof.
  induction l as [|b l IH] using rev_ind; [done|].
  rewrite index_snoc, put_app_ids, fmap_app, elem_of_app, IH. simpl. rewrite list_elem_of_singleton. tauto.
Qed.

Lemma index_head l id :
  head (filter (fun a => a_id a = id) (index l)) = last (filter (fun a => a_id a = id) l).
Proof.
  induction l as [|b l IH] using rev_ind; [done|]. rewrite index_snoc, put_app_head, filter_app.
  destruct (beq (a_id b) id) eqn:E.
  - apply beq_true in E. rewrite (filter_cons_True _ b []) by done. rewrite filter_nil. by rewrite last_snoc.
  - apply beq_false in E. rewrite (filter_cons_False _ b []) by done. rewrite filter_nil, app_nil_r. apply IH.
Qed.

(** Asked for an identifier, the database gives the private and the
    public data of one same application: the last one of this very
    identifier, else one whose identifier only differs by the case, else
    nothing when there is none. *)
Theorem get_application_spec l id :
  match find_app (index l) id with
  | Some a =>
      afm_udb_get_application_private (apps_of l) id = Some (JObj (a_priv a)) /\
      afm_udb_get_application_public (apps_of l) id = Some (JObj (a_pub a)) /\
      a ∈ l /\ strcaseeq (a_id a) id = true /\
      ((exists b, b ∈ l /\ a_id b = id) -> last (filter (fun b => a_id b = id) l) = Some a)
  | None =>
      afm_udb_get_application_private (apps_of l) id = None /\
      afm_udb_get_application_public (apps_of l) id = None /\
      forall a, a ∈ l -> strcaseeq (a_id a) id = false
  end.
Proof.
  unfold afm_udb_get_application_private, afm_udb_get_application_public. simpl.
  rewrite !get_no_case_index.
  assert (Hrefl : forall s, strcaseeq s s = true) by (intros; apply beq_refl).
  destruct (find_app (index l) id) as [a|] eqn:E; unfold find_app in E; rewrite index_head in E.
  - split_and!; [done|done| | |].
    + destruct (last _) as [b|] eqn:El.
      * injection E as ->. apply last_Some_elem_of, list_elem_of_filter in El. naive_solver.
      * apply head_Some_elem_of, list_elem_of_filter in E as [_ E]. by apply index_elem.
    + destruct (last _) as [b|] eqn:El.
      * injection E as ->. apply last_Some_elem_of, list_elem_of_filter in El as [<- _]. apply Hrefl.
      * by apply head_Some_elem_of, list_elem_of_filter in E as [E _].
    + intros (b & Hb & Hid). destruct (last _) as [c|] eqn:El; [done|].
      apply last_None in El. assert (b ∈ filter (fun b => a_id b = id) l) by (by apply list_elem_of_filter).
      rewrite El in *. by edestruct (@not_elem_of_nil app).
  - destruct (last _) as [b|] eqn:El; [done|]. split_and!; [done|done|]. intros a Ha.
    destruct (strcaseeq (a_id a) id) eqn:Ea; [|done]. exfalso.
    assert (Hi : a_id a ∈ a_id <$> index l) by (apply index_ids; by apply list_elem_of_fmap_2).
    apply list_elem_of_fmap in Hi as (b & Hb1 & Hb2).
    assert (Hin : b ∈ filter (fun a => strcaseeq (a_id a) id = true) (index l)).
    { apply list_elem_of_filter. split; [by rewrite <-Hb1|done]. }
    apply head_None in E. rewrite E in Hin. by edestruct (@not_elem_of_nil app).
Qed.

(** ** Updates *)

Section Update.
Context (json_get_string : json -> bytes) (rp_file_get : bytes -> Z + bytes)
  (afm_units_root : bytes) (opendir : bytes -> directory).

(** the application of a text of unit *)
Definition app_of (isuser : bool) (path name content : bytes) : option app :=
  '(priv, pub) ← (unit_objects isuser path name content []).1;
  id ← assoc key_id pub;
  Some (App (json_get_string id) priv pub
    match assoc key_visibility priv with
    | Some visi => strcaseeq (json_get_string visi) value_visible
    | None => false
    end).

(** the application of a file *)
Definition app_of_file (prefix : bytes) (isuser : bool) (file : bytes * bytes) : option app :=
  let '(name, path) := file in
  if is_candidate prefix name then
    match read_unit_file rp_file_get path with
    | inl _ => None
    | inr content => app_of isuser path name content
    end
  else None.

(** the files of a directory of units, and the status of their listing *)
Definition files (isuser : bool) : list (bytes * bytes) * Z :=
  units_fs_list afm_units_root opendir (fun l name path _ => (l ++ [(name, path)], 0%Z)) isuser true [].

Lemma unit_objects_total isuser path name content :
  exists x, unit_objects isuser path name content [] = (Some x, []).
Proof.
  unfold unit_objects, add_fields_of_content. cbv beta iota zeta delta [malloc negb].
  destruct (add_fields_total (S (length content)) [] [] content) as (priv & pub & ->); [lia|].
  rewrite !add_field_spec. simpl. eauto.
Qed.

Lemma apps_of_snoc l a :
  apps_of (l ++ [a]) =
  let side (f : app -> object) s :=
    Side (if a_visible a then visibles s ++ [JObj (f a)] else visibles s) (all s ++ [JObj (f a)])
         (replace (a_id a) (JObj (f a)) (byname s)) in
  Apps (side a_priv (privates (apps_of l))) (side a_pub (publics (apps_of l))).
Proof.
  unfold apps_of, side_of. simpl.
  assert (Hf : filter (fun a => a_visible a = true) (l ++ [a]) =
    if a_visible a then filter (fun a => a_visible a = true) l ++ [a] else filter (fun a => a_visible a = true) l).
  { rewrite filter_app. destruct (a_visible a) eqn:E.
    - by rewrite (filter_cons_True _ a []).
    - rewrite (filter_cons_False _ a []) by congruence. by rewrite app_nil_r. }
  rewrite !fmap_app, !replace_index, index_snoc, Hf. by destruct (a_visible a); rewrite ?fmap_app.
Qed.

Lemma addunit_spec l isuser path name content :
  addunit json_get_string (apps_of l) isuser path name content [] =
  match app_of isuser path name content with
  | Some a => (0%Z, apps_of (l ++ [a]), [])
  | None => ((-1)%Z, apps_of l, [])
  end.
Proof.
  unfold addunit, app_of. destruct (unit_objects_total isuser path name content) as [[priv pub] ->]. simpl.
  destruct (assoc key_id pub) as [id|]; [|done]. simpl. rewrite apps_of_snoc.
  by destruct (match assoc key_visibility priv with Some _ => _ | None => _ end).
Qed.

Lemma list_apps prefix isuser l0 :
  units_fs_list afm_units_root opendir (update_cb json_get_string rp_file_get prefix) isuser true (apps_of l0, []) =
  ((apps_of (l0 ++ omap (app_of_file prefix isuser) (files isuser).1), []), (files isuser).2).
Proof.
  unfold files. set (f := fun l name path _ => _).
  destruct (units_fs_list_rel (fun l x => x = (apps_of (l0 ++ omap (app_of_file prefix isuser) l), []))
    afm_units_root opendir f (update_cb json_get_string rp_file_get prefix) isuser true [] (apps_of l0, []))
    as [H1 H2].
  - intros l x n p ->. unfold f. simpl. rewrite omap_app, (assoc_L (++)). simpl.
    destruct (is_candidate prefix n); simpl; [|by rewrite app_nil_r].
    destruct (read_unit_file rp_file_get p) as [e|content]; [by rewrite app_nil_r|]. rewrite addunit_spec.
    destruct (app_of isuser p n content); [done|by rewrite app_nil_r].
  - by rewrite app_nil_r.
  - rewrite (surjective_pairing (units_fs_list _ _ (update_cb _ _ _) _ _ _)), H1, <-H2. done.
Qed.

Lemma unref_addref afudb apps :
  (0 < refcount afudb)%Z ->
  afm_udb_unref (with_applications (afm_udb_addref afudb) apps) = Some (with_applications afudb apps).
Proof.
  intros Hr. unfold afm_udb_unref. simpl. destruct (Z.eqb_spec (refcount afudb + 1 - 1) 0); [lia|].
  unfold with_applications. repeat f_equal. lia.
Qed.

Lemma with_own afudb : with_applications afudb (applications afudb) = afudb.
Proof. by destruct afudb. Qed.

Definition scanned (afudb : afm_udb) (isuser : bool) : list app :=
  if (if isuser then is_user afudb else is_system afudb)
  then omap (app_of_file (prefix afudb) isuser) (files isuser).1 else [].

Lemma update_status prefix isuser x :
  (units_fs_list afm_units_root opendir (update_cb json_get_string rp_file_get prefix) isuser true x).2 = 0%Z \/
  (units_fs_list afm_units_root opendir (update_cb json_get_string rp_file_get prefix) isuser true x).2 = (-1)%Z.
Proof.
  apply units_fs_list_status. intros [apps o] n p. unfold update_cb. destruct (negb _); [done|].
  destruct (read_unit_file _ _); [done|]. by destruct (addunit _ _ _ _ _ _ _) as [[? ?] ?].
Qed.

(** one of the two listings of an update *)
Lemma scan_spec afudb (b isuser : bool) l0 a o a1 o1 rc :
  (if b then units_fs_list afm_units_root opendir (update_cb json_get_string rp_file_get (prefix afudb)) isuser true (a, o)
   else (a, o, 0%Z)) = (a1, o1, rc) ->
  (rc = 0%Z \/ rc = (-1)%Z) /\
  (a = apps_of l0 -> o = [] ->
   a1 = apps_of (l0 ++ if b then omap (app_of_file (prefix afudb) isuser) (files isuser).1 else []) /\ o1 = [] /\
   rc = if b then (files isuser).2 else 0%Z).
Proof.
  destruct b; intros E.
  - split; [rewrite <-(f_equal snd E : _ = rc); apply update_status|]. intros -> ->.
    rewrite list_apps in E. by injection E as <- <- <-.
  - injection E as <- <- <-. split; [auto|]. intros -> ->. by rewrite app_nil_r.
Qed.

(** C18: an update of the database is all or nothing: it either fails and
    changes nothing, or replaces the applications. When memory does not
    lack, it fails exactly when a directory cannot be read, and the
    applications are then those of the candidate units that can be read and
    have an identifier, of the user first, whatever the other units. *)
Theorem afm_udb_update_spec afudb o rc afudb' o' :
  (0 < refcount afudb)%Z ->
  afm_udb_update json_get_string rp_file_get afm_units_root opendir afudb o = (rc, afudb', o') ->
  ((rc = (-1)%Z /\ afudb' = Some afudb) \/
   (rc = 0%Z /\ exists apps, afudb' = Some (with_applications afudb (Some apps)) /\
      (o = [] -> apps = apps_of (scanned afudb true ++ scanned afudb false)))) /\
  (o = [] -> rc = 0%Z <->
     (is_user afudb = true -> (files true).2 = 0%Z) /\ (is_system afudb = true -> (files false).2 = 0%Z)).
Proof.
  intros Hr. assert (Hfail : afm_udb_unref (afm_udb_addref afudb) = Some afudb).
  { change (afm_udb_addref afudb) with (with_applications (afm_udb_addref afudb) (applications afudb)).
    rewrite unref_addref by done. f_equal. apply with_own. }
  unfold afm_udb_update. destruct (apps_init o) as [init oi] eqn:Ei.
  assert (Hinit : o = [] -> init = Some (apps_of []) /\ oi = []) by (intros ->; by injection Ei as <- <-).
  destruct init as [a0|].
  2: { intros [= <- <- <-]. split; [auto|]. intros Ho. by destruct (Hinit Ho). }
  simpl. destruct (if is_user afudb then _ else _) as [[a1 o1] rcu] eqn:Eu.
  apply (scan_spec _ _ _ []) in Eu as [[->| ->] Hu]; simpl.
  2: { intros [= <- <- <-]. split; [auto|]. intros Ho. destruct (Hinit Ho) as [[= ->] ->].
       destruct (Hu eq_refl eq_refl) as (_ & _ & E). split; [lia|]. intros [K _].
       destruct (is_user afudb); [rewrite K in E by done|]; lia. }
  destruct (if is_system afudb then _ else _) as [[a2 o2] rcs] eqn:Es.
  apply (scan_spec _ _ _ (scanned afudb true)) in Es as [Hrcs Hs].
  assert (Hall : o = [] -> a2 = apps_of (scanned afudb true ++ scanned afudb false) /\
    (is_user afudb = true -> (files true).2 = 0%Z) /\ rcs = if is_system afudb then (files false).2 else 0%Z).
  { intros Ho. destruct (Hinit Ho) as [[= ->] ->]. destruct (Hu eq_refl eq_refl) as (-> & -> & E).
    destruct (Hs eq_refl eq_refl) as (-> & _ & ->). split_and!; [done| |done]. intros Hus. by rewrite Hus in E. }
  destruct Hrcs as [->| ->]; simpl; intros [= <- <- <-].
  - rewrite unref_addref by done. split; [right; split; [done|]; exists a2; split; [done|]; intros Ho; by apply Hall|].
    intros Ho. split; [|done]. intros _. destruct (Hall Ho) as (_ & H1 & E). split; [done|].
    intros Hsy. by rewrite Hsy in E.
  - split; [auto|]. intros Ho. split; [lia|]. intros [_ K]. destruct (Hall Ho) as (_ & _ & E).
    destruct (is_system afudb); [rewrite K in E by done|]; lia.
Qed.

End Update.

(** ** Running the model *)

Definition sample_fields : list field :=
  [Field (B "id") (B "app") []; Field (B "-wgtdir") (B "/usr/app") []; Field (B "http-port") (B "1234") (B "[Service]")].
Definition sample_noise : bytes := B "[Unit]" ++ [NL].
Definition sample_text : bytes := Eval vm_compute in sample_noise ++ concat (print_field <$> sample_fields).


Definition sample_string (j : json) : bytes :=
  match j with JStr s => s | JInt z => fmt_d z | _ => B "?" end.
Definition sample_get (path : bytes) : Z + bytes :=
  if beq path (B "/units/system/afm-app.service") then inr sample_text else inl (- ENOENT)%Z.
Definition sample_dir (path : bytes) : directory :=
  if beq path (B "/units/system")
  then inr ([mk_dirent DT_REG (B "afm-app.service"); mk_dirent DT_OTHER (B "afm-app.service.d");
             mk_dirent DT_REG (B "afm-bad.service")], true)
  else inl ENOENT.
Definition sample_udb : afm_udb := Udb None 1 true true (B "afm-").

Lemma afm_udb_update_spec_witness :
  (files (B "/units") sample_dir true).2 = 0%Z /\ (files (B "/units") sample_dir false).2 = 0%Z.
Proof.
  set (x := afm_udb_update sample_string sample_get (B "/units") sample_dir sample_udb []).
  assert (Hx : x.1.1 = 0%Z) by (vm_compute; reflexivity).
  destruct (afm_udb_update_spec sample_string sample_get (B "/units") sample_dir sample_udb [] x.1.1 x.1.2 x.2)
    as [_ H]; [done| |].
  - unfold x. by destruct (afm_udb_update _ _ _ _ _ _) as [[? ?] ?].
  - destruct (proj1 (H eq_refl) Hx) as [H1 H2]. split; [by apply H1|by apply H2].
Defined.

Example sample_database :
  (fun u => (fun a => afm_udb_get_application_public a (B "APP")) <$> applications u) <$>
    (afm_udb_create sample_string sample_get (B "/units") sample_dir true true (Some (B "afm-")) []).1 =
  Some (Some (Some (JObj [(B "id", JStr (B "app")); (B "http-port", JInt 1234)]))).
Proof. vm_compute. reflexivity. Qed.

End udb.
