(* ===== verification/Systemd.v ===== *)
(** * Calls of systemd: [src/src/utils/utils-systemd.c]

    systemd is reached through D-Bus: the functions of sd-bus are the ones of
    a class, on a world that they may change. A negative status is a value
    of the left of a sum. The two buses are opened once and kept in static
    variables, that are a part of the state here, together with the outcomes
    of the allocations. [errno] is not modelled. *)
From S2P Require Import Prelude CString.

Module systemd.

(** ** sd-bus *)

Inductive argument := Astring (s : bytes) | Auint (u : Z).

(** An item of the reply to [ListUnitsByPatterns]. *)
Record SysD_ListUnitItem := ListUnitItem {
  item_name : bytes; description : bytes; load_state : bytes; active_state : bytes; sub_state : bytes;
  ignored : bytes; opath : bytes; job_id : Z; job_type : bytes; job_opath : bytes
}.

Class SdBus (W bus message : Type) := {
  sd_bus_default_user : W -> (Z + bus) * W;
  sd_bus_default_system : W -> (Z + bus) * W;
  (** bus, path, interface, member and arguments, the destination being
      systemd; the status and the reply *)
  sd_bus_call_method : bus -> bytes -> bytes -> bytes -> list argument -> W -> (Z + Z * message) * W;
  (** status of the reading of an object path and this path *)
  sd_bus_message_read_object : message -> Z + Z * bytes;
  (** the items of the array of a message, each one read or refused *)
  sd_bus_message_read_units : message -> Z + list (Z + SysD_ListUnitItem);
  sd_bus_get_property_uint : bus -> bytes -> bytes -> bytes -> W -> (Z + Z) * W;
  sd_bus_get_property_string : bus -> bytes -> bytes -> bytes -> W -> (Z + bytes) * W;
  (** the time passes *)
  nanosleep : Z -> W -> W
}.

Definition sdb_path : bytes := B "/org/freedesktop/systemd1".
Definition sdbi_job : bytes := B "org.freedesktop.systemd1.Job".
Definition sdbi_manager : bytes := B "org.freedesktop.systemd1.Manager".
Definition sdbi_service : bytes := B "org.freedesktop.systemd1.Service".
Definition sdbi_unit : bytes := B "org.freedesktop.systemd1.Unit".
Definition sdbp_active_state : bytes := B "ActiveState".
Definition sdbp_exec_main_pid : bytes := B "ExecMainPID".
Definition sdbm_get_unit : bytes := B "GetUnit".
Definition sdbm_get_unit_by_pid : bytes := B "GetUnitByPID".
Definition sdbm_list_unit_pattern : bytes := B "ListUnitsByPatterns".
Definition sdbm_load_unit : bytes := B "LoadUnit".
Definition sdbm_reload : bytes := B "Reload".
Definition sdbm_restart : bytes := B "Restart".
Definition sdbm_restart_unit : bytes := B "RestartUnit".
Definition sdbp_state : bytes := B "State".
Definition sdbm_start : bytes := B "Start".
Definition sdbm_start_unit : bytes := B "StartUnit".
Definition sdbm_stop : bytes := B "Stop".
Definition sdbm_stop_unit : bytes := B "StopUnit".

(** ** States *)

Inductive SysD_State :=
| SysD_State_INVALID | SysD_State_Inactive | SysD_State_Activating | SysD_State_Active
| SysD_State_Deactivating | SysD_State_Reloading | SysD_State_Failed.

#[export] Instance SysD_State_eq : EqDecision SysD_State.
Proof. solve_decision. Defined.

(** the value of the enumeration *)
Definition state_value (s : SysD_State) : Z :=
  match s with
  | SysD_State_INVALID => 0 | SysD_State_Inactive => 1 | SysD_State_Activating => 2 | SysD_State_Active => 3
  | SysD_State_Deactivating => 4 | SysD_State_Reloading => 5 | SysD_State_Failed => 6
  end.

Definition sds_state_names : list (option bytes) :=
  [None; Some (B "inactive"); Some (B "activating"); Some (B "active"); Some (B "deactivating");
   Some (B "reloading"); Some (B "failed")].

Definition state_name (s : SysD_State) : option bytes := mjoin (sds_state_names !! Z.to_nat (state_value s)).

Definition systemd_name_of_state (state : Z) : option bytes :=
  mjoin (sds_state_names !! Z.to_nat
    (if (0 <=? state)%Z && (state <? Z.of_nat (length sds_state_names))%Z
     then state else state_value SysD_State_INVALID)).

Definition named (name : bytes) (s : SysD_State) : bool := bool_decide (state_name s = Some name).

Definition systemd_state_of_name (name : bytes) : SysD_State :=
  match name with
  | "a"%char :: _ =>
      if named name SysD_State_Active then SysD_State_Active
      else if named name SysD_State_Activating then SysD_State_Activating
      else SysD_State_INVALID
  | "d"%char :: _ => if named name SysD_State_Deactivating then SysD_State_Deactivating else SysD_State_INVALID
  | "f"%char :: _ => if named name SysD_State_Failed then SysD_State_Failed else SysD_State_INVALID
  | "i"%char :: _ => if named name SysD_State_Inactive then SysD_State_Inactive else SysD_State_INVALID
  | "r"%char :: _ => if named name SysD_State_Reloading then SysD_State_Reloading else SysD_State_INVALID
  | _ => SysD_State_INVALID
  end.

(** The names and the states correspond to each other. *)
Lemma systemd_state_names name s :
  s <> SysD_State_INVALID ->
  systemd_state_of_name name = s <-> systemd_name_of_state (state_value s) = Some name.
Proof.
  intros Hs. split.
  - unfold systemd_state_of_name, named. intros <-. revert Hs.
    repeat (case_match; try done);
      repeat match goal with H : bool_decide _ = true |- _ => apply bool_decide_eq_true in H end; done.
  - destruct s; try done; simpl; intros [= <-]; reflexivity.
Qed.

(** ** Buses *)

Section Systemd.
Context {W bus message : Type} `{!SdBus W bus message}.

Record sd := Sd { sysbus : option bus; usrbus : option bus; world : W; mem : oracle }.

Definition with_world (s : sd) (w : W) : sd := Sd (sysbus s) (usrbus s) w (mem s).
Definition with_mem (s : sd) (o : oracle) : sd := Sd (sysbus s) (usrbus s) (world s) o.

Definition sderr2errno (rc : Z) : Z := if (rc <? 0)%Z then (-1)%Z else rc.

Definition systemd_get_bus (isuser : bool) (s : sd) : (Z + bus) * sd :=
  match (if isuser then usrbus s else sysbus s) with
  | Some b => (inr b, s)
  | None =>
      if isuser then
        match sd_bus_default_user (world s) with
        | (inl rc, w) => (inl (sderr2errno rc), with_world s w)
        | (inr b, w) => (inr b, Sd (sysbus s) (Some b) w (mem s))
        end
      else
        match sd_bus_default_system (world s) with
        | (inl rc, w) => (inl (sderr2errno rc), with_world s w)
        | (inr b, w) => (inr b, Sd (Some b) (usrbus s) w (mem s))
        end
  end.

Definition systemd_set_bus (isuser : bool) (b : option bus) (s : sd) : sd :=
  if isuser then Sd (sysbus s) b (world s) (mem s) else Sd b (usrbus s) (world s) (mem s).

(** a method or a property of a bus that is open *)
Definition call (b : bus) (path iface member : bytes) (args : list argument) (s : sd) : (Z + Z * message) * sd :=
  let '(r, w) := sd_bus_call_method b path iface member args (world s) in (r, with_world s w).

Definition get_dpath (msg : message) (s : sd) : option bytes * sd :=
  match sd_bus_message_read_object msg with
  | inl _ => (None, s)
  | inr (_, reply) => let '(ok, o) := malloc (mem s) in (if ok then Some reply else None, with_mem s o)
  end.

Definition get_unit_dpath (b : bus) (unit_ : bytes) (load : bool) (s : sd) : option bytes * sd :=
  match call b sdb_path sdbi_manager (if load then sdbm_load_unit else sdbm_get_unit) [Astring unit_] s with
  | (inl _, s) => (None, s)
  | (inr (_, ret), s) => get_dpath ret s
  end.

Definition get_unit_dpath_by_pid (b : bus) (pid : Z) (s : sd) : option bytes * sd :=
  match call b sdb_path sdbi_manager sdbm_get_unit_by_pid [Auint pid] s with
  | (inl _, s) => (None, s)
  | (inr (_, ret), s) => get_dpath ret s
  end.

Definition unit_pid (b : bus) (dpath : bytes) (s : sd) : Z * sd :=
  match sd_bus_get_property_uint b dpath sdbi_service sdbp_exec_main_pid (world s) with
  | (inl rc, w) => (rc, with_world s w)
  | (inr u, w) => (i32 u, with_world s w)
  end.

Definition unit_state (b : bus) (dpath : bytes) (s : sd) : SysD_State * sd :=
  match sd_bus_get_property_string b dpath sdbi_unit sdbp_active_state (world s) with
  | (inl _, w) => (SysD_State_INVALID, with_world s w)
  | (inr st, w) => (systemd_state_of_name st, with_world s w)
  end.

(** the status and the job, when the caller wants it *)
Definition get_job_from_reply (reply : message) (want : bool) (s : sd) : Z * option bytes * sd :=
  match sd_bus_message_read_object reply with
  | inl rc => (if want then rc else 0%Z, None, s)
  | inr (rc, obj) =>
      if negb want then (0%Z, None, s)
      else
        let '(ok, o) := malloc (mem s) in
        if ok then (rc, Some obj, with_mem s o) else ((- ENOMEM)%Z, None, with_mem s o)
  end.

(** a method whose reply is a job *)
Definition call_job (b : bus) (path iface member : bytes) (args : list argument) (want : bool) (s : sd)
  : Z * option bytes * sd :=
  match call b path iface member args s with
  | (inl rc, s) => (rc, None, s)
  | (inr (_, ret), s) => get_job_from_reply ret want s
  end.

Definition replace_arg : argument := Astring (B "replace").

Definition unit_start (b : bus) (dpath : bytes) (want : bool) (s : sd) :=
  call_job b dpath sdbi_unit sdbm_start [replace_arg] want s.
Definition unit_restart (b : bus) (dpath : bytes) (want : bool) (s : sd) :=
  call_job b dpath sdbi_unit sdbm_restart [replace_arg] want s.
Definition unit_stop (b : bus) (dpath : bytes) (want : bool) (s : sd) :=
  call_job b dpath sdbi_unit sdbm_stop [replace_arg] want s.
Definition unit_start_name (b : bus) (name : bytes) (want : bool) (s : sd) :=
  call_job b sdb_path sdbi_manager sdbm_start_unit [Astring name; replace_arg] want s.
Definition unit_restart_name (b : bus) (name : bytes) (want : bool) (s : sd) :=
  call_job b sdb_path sdbi_manager sdbm_restart_unit [Astring name; replace_arg] want s.
Definition unit_stop_name (b : bus) (name : bytes) (want : bool) (s : sd) :=
  call_job b sdb_path sdbi_manager sdbm_stop_unit [Astring name; replace_arg] want s.

Definition job_is_pending (b : bus) (job : bytes) (s : sd) : Z * sd :=
  match sd_bus_get_property_string b job sdbi_job sdbp_state (world s) with
  | (inl _, w) => (0%Z, with_world s w)
  | (inr _, w) => (1%Z, with_world s w)
  end.

(** ** Interface *)

Definition systemd_daemon_reload (isuser : bool) (s : sd) : Z * sd :=
  match systemd_get_bus isuser s with
  | (inl rc, s) => (rc, s)
  | (inr b, s) =>
      match call b sdb_path sdbi_manager sdbm_reload [] s with
      | (inl rc, s) => (rc, s)
      | (inr (rc, _), s) => (rc, s)
      end
  end.

Definition systemd_unit_dpath_by_name (isuser : bool) (name : bytes) (load : bool) (s : sd) : option bytes * sd :=
  match systemd_get_bus isuser s with
  | (inl _, s) => (None, s)
  | (inr b, s) => get_unit_dpath b name load s
  end.

Definition systemd_unit_dpath_by_pid (isuser : bool) (pid : Z) (s : sd) : option bytes * sd :=
  match systemd_get_bus isuser s with
  | (inl _, s) => (None, s)
  | (inr b, s) => get_unit_dpath_by_pid b pid s
  end.

(** the functions on a unit that give a job *)
Definition on_bus (f : bus -> sd -> Z * option bytes * sd) (isuser : bool) (s : sd) : Z * option bytes * sd :=
  match systemd_get_bus isuser s with
  | (inl rc, s) => (rc, None, s)
  | (inr b, s) => f b s
  end.

Definition systemd_unit_start_dpath isuser dpath want := on_bus (fun b => unit_start b dpath want) isuser.
Definition systemd_unit_restart_dpath isuser dpath want := on_bus (fun b => unit_restart b dpath want) isuser.
Definition systemd_unit_stop_dpath isuser dpath want := on_bus (fun b => unit_stop b dpath want) isuser.
Definition systemd_unit_start_name isuser name want := on_bus (fun b => unit_start_name b name want) isuser.
Definition systemd_unit_restart_name isuser name want := on_bus (fun b => unit_restart_name b name want) isuser.
Definition systemd_unit_stop_name isuser name want := on_bus (fun b => unit_stop_name b name want) isuser.

Definition systemd_unit_stop_pid (isuser : bool) (pid : Z) (want : bool) : sd -> Z * option bytes * sd :=
  on_bus (fun b s =>
    match get_unit_dpath_by_pid b pid s with
    | (None, s) => ((-1)%Z, None, s)
    | (Some dpath, s) => unit_stop b dpath want s
    end) isuser.

Definition systemd_unit_pid_of_dpath (isuser : bool) (dpath : bytes) (s : sd) : Z * sd :=
  match systemd_get_bus isuser s with
  | (inl rc, s) => (rc, s)
  | (inr b, s) => unit_pid b dpath s
  end.

Definition systemd_unit_state_of_dpath (isuser : bool) (dpath : bytes) (s : sd) : SysD_State * sd :=
  match systemd_get_bus isuser s with
  | (inl _, s) => (SysD_State_INVALID, s)
  | (inr b, s) => unit_state b dpath s
  end.

Definition systemd_job_is_pending (isuser : bool) (job : bytes) (s : sd) : Z * sd :=
  match systemd_get_bus isuser s with
  | (inl rc, s) => (rc, s)
  | (inr b, s) => job_is_pending b job s
  end.

(** the loop on the items: the last status and the count *)
Fixpoint list_items {A} (items : list (Z + SysD_ListUnitItem)) (callback : A -> SysD_ListUnitItem -> A)
    (closure : A) (count : Z) : A * Z :=
  match items with
  | [] => (closure, count)
  | inl rc :: _ => (closure, rc)
  | inr lui :: items' => list_items items' callback (callback closure lui) (count + 1)
  end.

Definition systemd_list_unit_pattern {A} (isuser : bool) (pattern : bytes)
    (callback : A -> SysD_ListUnitItem -> A) (closure : A) (s : sd) : Z * A * sd :=
  match systemd_get_bus isuser s with
  | (inl rc, s) => (rc, closure, s)
  | (inr b, s) =>
      match call b sdb_path sdbi_manager sdbm_list_unit_pattern [Auint 0; Auint 1; Astring pattern] s with
      | (inl rc, s) => (rc, closure, s)
      | (inr (_, ret), s) =>
          match sd_bus_message_read_units ret with
          | inl rc => (rc, closure, s)
          | inr items => let '(closure, rc) := list_items items callback closure 0 in (rc, closure, s)
          end
      end
  end.

End Systemd.

#[global] Arguments sd : clear implicits.

(** ** Memory

    While memory does not lack, the calls leave it so. *)

Section Memory.
Context {W bus message : Type} `{!SdBus W bus message}.
Implicit Types s : sd W bus.

Lemma get_bus_mem isuser s : mem (systemd_get_bus isuser s).2 = mem s.
Proof.
  unfold systemd_get_bus. destruct (if isuser then usrbus s else sysbus s); [done|].
  destruct isuser; [destruct (sd_bus_default_user _) as [[] ?]|destruct (sd_bus_default_system _) as [[] ?]]; done.
Qed.

Lemma call_mem b path iface member args s : mem (call b path iface member args s).2 = mem s.
Proof. unfold call. by destruct (sd_bus_call_method _ _ _ _ _ _). Qed.

Lemma get_dpath_mem msg s : mem s = [] -> mem (get_dpath msg s).2 = [].
Proof. unfold get_dpath. intros Hs. destruct (sd_bus_message_read_object msg) as [|[? ?]]; [done|]. by rewrite Hs. Qed.

Lemma dpath_by_pid_bus_mem b pid s : mem s = [] -> mem (get_unit_dpath_by_pid b pid s).2 = [].
Proof.
  intros Hs. unfold get_unit_dpath_by_pid.
  pose proof (call_mem b sdb_path sdbi_manager sdbm_get_unit_by_pid [Auint pid] s) as Hc.
  destruct (call _ _ _ _ _ _) as [[|[? ?]] s1]; simpl in Hc; [by rewrite <-Hs|]. apply get_dpath_mem. by rewrite <-Hs.
Qed.

Lemma call_job_mem b path iface member args want s :
  mem s = [] -> mem (call_job b path iface member args want s).2 = [].
Proof.
  intros Hs. unfold call_job. pose proof (call_mem b path iface member args s) as Hc.
  destruct (call _ _ _ _ _ _) as [[|[? ?]] s1]; simpl in Hc; [by rewrite <-Hs|]. unfold get_job_from_reply.
  destruct (sd_bus_message_read_object _) as [|[? ?]]; [by rewrite <-Hs|]. rewrite Hs in Hc.
  destruct want; simpl; [|done]. by rewrite Hc.
Qed.

Lemma on_bus_mem f isuser s :
  (forall b s, mem s = [] -> mem (f b s).2 = []) -> mem s = [] -> mem (on_bus f isuser s).2 = [].
Proof.
  intros Hf Hs. unfold on_bus. pose proof (get_bus_mem isuser s) as Hb.
  destruct (systemd_get_bus _ _) as [[|b] s1]; simpl in *; [by rewrite Hb|]. apply Hf. by rewrite Hb.
Qed.

Lemma start_dpath_mem isuser dpath want s : mem s = [] -> mem (systemd_unit_start_dpath isuser dpath want s).2 = [].
Proof. apply on_bus_mem. intros b s1. apply call_job_mem. Qed.

Lemma stop_pid_mem isuser pid want s : mem s = [] -> mem (systemd_unit_stop_pid isuser pid want s).2 = [].
Proof.
  apply on_bus_mem. intros b s1 H1. pose proof (dpath_by_pid_bus_mem b pid s1 H1) as H2.
  destruct (get_unit_dpath_by_pid b pid s1) as [[dpath|] s2]; [|done]. by apply call_job_mem.
Qed.

Ltac on_open_bus isuser s :=
  pose proof (get_bus_mem isuser s) as Hb;
  destruct (systemd_get_bus isuser s) as [[|b] s1]; simpl in Hb |- *; [congruence|].

Lemma dpath_by_name_mem isuser name load s : mem s = [] -> mem (systemd_unit_dpath_by_name isuser name load s).2 = [].
Proof.
  intros Hs. unfold systemd_unit_dpath_by_name. on_open_bus isuser s. unfold get_unit_dpath.
  pose proof (call_mem b sdb_path sdbi_manager (if load then sdbm_load_unit else sdbm_get_unit) [Astring name] s1) as Hc.
  destruct (call _ _ _ _ _ _) as [[|[? ?]] s2]; simpl in Hc; [simpl; congruence|]. apply get_dpath_mem. congruence.
Qed.

Lemma dpath_by_pid_mem isuser pid s : mem s = [] -> mem (systemd_unit_dpath_by_pid isuser pid s).2 = [].
Proof.
  intros Hs. unfold systemd_unit_dpath_by_pid. on_open_bus isuser s. apply dpath_by_pid_bus_mem. congruence.
Qed.

Lemma pid_of_dpath_mem isuser dpath s : mem s = [] -> mem (systemd_unit_pid_of_dpath isuser dpath s).2 = [].
Proof.
  intros Hs. unfold systemd_unit_pid_of_dpath. on_open_bus isuser s. unfold unit_pid.
  destruct (sd_bus_get_property_uint _ _ _ _ _) as [[] ?]; simpl; congruence.
Qed.

Lemma state_of_dpath_mem isuser dpath s : mem s = [] -> mem (systemd_unit_state_of_dpath isuser dpath s).2 = [].
Proof.
  intros Hs. unfold systemd_unit_state_of_dpath. on_open_bus isuser s. unfold unit_state.
  destruct (sd_bus_get_property_string _ _ _ _ _) as [[] ?]; simpl; congruence.
Qed.

Lemma job_is_pending_mem isuser job s : mem s = [] -> mem (systemd_job_is_pending isuser job s).2 = [].
Proof.
  intros Hs. unfold systemd_job_is_pending. on_open_bus isuser s. unfold job_is_pending.
  destruct (sd_bus_get_property_string _ _ _ _ _) as [[] ?]; simpl; congruence.
Qed.

End Memory.

(** ** What systemd answers

    A snapshot of what systemd knows. While no unit starts or stops, the
    questions leave the answers as they are, loading a unit included. *)
Record snapshot := Snapshot {
  dpath_of : bool -> bytes -> option bytes;  (** of the name of a unit *)
  unit_of_pid : bool -> Z -> option bytes;   (** path of the unit of a process *)
  pid_of : bool -> bytes -> Z + Z;           (** main process of the unit of a path *)
  state_of : bool -> bytes -> Z + bytes      (** name of its state *)
}.

Section Laws.
Context {W bus message : Type} `{!SdBus W bus message}.

Class SdLaws (answers : W -> snapshot -> Prop) (bus_of : bool -> bus) (path_reply : bytes -> message) : Prop := {
  open_bus (isuser : bool) w u : answers w u -> exists w',
    (if isuser then sd_bus_default_user w else sd_bus_default_system w) = (inr (bus_of isuser), w') /\ answers w' u;
  read_path p : sd_bus_message_read_object (path_reply p) = inr (1%Z, p);
  load_unit isuser name w u : answers w u -> exists w' rc,
    sd_bus_call_method (bus_of isuser) sdb_path sdbi_manager sdbm_load_unit [Astring name] w =
      (match dpath_of u isuser name with Some p => inr (1%Z, path_reply p) | None => inl rc end, w') /\ answers w' u;
  find_pid isuser pid w u : answers w u -> exists w' rc,
    sd_bus_call_method (bus_of isuser) sdb_path sdbi_manager sdbm_get_unit_by_pid [Auint pid] w =
      (match unit_of_pid u isuser pid with Some p => inr (1%Z, path_reply p) | None => inl rc end, w') /\ answers w' u;
  read_pid isuser p w u : answers w u -> exists w',
    sd_bus_get_property_uint (bus_of isuser) p sdbi_service sdbp_exec_main_pid w = (pid_of u isuser p, w') /\ answers w' u;
  read_state isuser p w u : answers w u -> exists w',
    sd_bus_get_property_string (bus_of isuser) p sdbi_unit sdbp_active_state w = (state_of u isuser p, w') /\ answers w' u
}.

Context (answers : W -> snapshot -> Prop) (bus_of : bool -> bus) (path_reply : bytes -> message)
  `{!SdLaws answers bus_of path_reply}.

(** the state of the process agrees with the snapshot, and memory does not
    lack *)
Definition ready (s : sd W bus) (u : snapshot) : Prop :=
  answers (world s) u /\ mem s = [] /\
  (forall (isuser : bool) b, (if isuser then usrbus s else sysbus s) = Some b -> b = bus_of isuser).

Definition pid_seen (u : snapshot) (isuser : bool) (p : bytes) : Z :=
  match pid_of u isuser p with inl rc => rc | inr pid => i32 pid end.

Definition state_seen (u : snapshot) (isuser : bool) (p : bytes) : SysD_State :=
  match state_of u isuser p with inl _ => SysD_State_INVALID | inr name => systemd_state_of_name name end.

Lemma get_bus_ready isuser s u :
  ready s u -> exists s', systemd_get_bus isuser s = (inr (bus_of isuser), s') /\ ready s' u.
Proof.
  intros (Ha & Hm & Hb). unfold systemd_get_bus.
  destruct (if isuser then usrbus s else sysbus s) as [b|] eqn:E.
  { exists s. by rewrite (Hb isuser b E). }
  destruct (open_bus isuser (world s) u Ha) as (w & Ho & Hw).
  destruct isuser; rewrite Ho; eexists; (split; [done|]); split_and!; try done;
    intros [] b' Hb'; simpl in Hb'; try (by injection Hb' as <-); first [by apply (Hb true)|by apply (Hb false)].
Qed.

Lemma ready_world s u w : ready s u -> answers w u -> ready (with_world s w) u.
Proof. by intros (_ & ? & ?) ?. Qed.

Lemma dpath_by_name_ready isuser name s u :
  ready s u -> exists s', systemd_unit_dpath_by_name isuser name true s = (dpath_of u isuser name, s') /\ ready s' u.
Proof.
  intros (s1 & E & H1)%(get_bus_ready isuser). unfold systemd_unit_dpath_by_name, get_unit_dpath, call. rewrite E.
  destruct (load_unit isuser name (world s1) u) as (w & rc & -> & Hw); [apply H1|].
  pose proof (ready_world _ _ _ H1 Hw) as Hr.
  destruct (dpath_of u isuser name); [|by eexists]. unfold get_dpath. rewrite read_path.
  destruct Hr as (? & Hm & ?). rewrite Hm. by eexists.
Qed.

Lemma dpath_by_pid_ready isuser pid s u :
  ready s u -> exists s', systemd_unit_dpath_by_pid isuser pid s = (unit_of_pid u isuser pid, s') /\ ready s' u.
Proof.
  intros (s1 & E & H1)%(get_bus_ready isuser). unfold systemd_unit_dpath_by_pid, get_unit_dpath_by_pid, call. rewrite E.
  destruct (find_pid isuser pid (world s1) u) as (w & rc & -> & Hw); [apply H1|].
  pose proof (ready_world _ _ _ H1 Hw) as Hr.
  destruct (unit_of_pid u isuser pid); [|by eexists]. unfold get_dpath. rewrite read_path.
  destruct Hr as (? & Hm & ?). rewrite Hm. by eexists.
Qed.

Lemma pid_of_dpath_ready isuser p s u :
  ready s u -> exists s', systemd_unit_pid_of_dpath isuser p s = (pid_seen u isuser p, s') /\ ready s' u.
Proof.
  intros (s1 & E & H1)%(get_bus_ready isuser). unfold systemd_unit_pid_of_dpath, unit_pid, pid_seen. rewrite E.
  destruct (read_pid isuser p (world s1) u) as (w & -> & Hw); [apply H1|].
  pose proof (ready_world _ _ _ H1 Hw) as Hr. destruct (pid_of u isuser p); by eexists.
Qed.

Lemma state_of_dpath_ready isuser p s u :
  ready s u -> exists s', systemd_unit_state_of_dpath isuser p s = (state_seen u isuser p, s') /\ ready s' u.
Proof.
  intros (s1 & E & H1)%(get_bus_ready isuser). unfold systemd_unit_state_of_dpath, unit_state, state_seen. rewrite E.
  destruct (read_state isuser p (world s1) u) as (w & -> & Hw); [apply H1|].
  pose proof (ready_world _ _ _ H1 Hw) as Hr. destruct (state_of u isuser p); by eexists.
Qed.

End Laws.

End systemd.
