(* ===== verification/Urun.v ===== *)
(** * The runner of applications: [src/src/binding/afm-urun.c]

    An application is run by starting its unit. Its private data, a JSON
    object of the database, are completed in place with the path on D-Bus of
    its unit, once for all or for each user: the objects are shared with the
    database, so they live in a store here and the database gives their
    references. The result [None] of an operation is a failed assertion or
    the use of a pointer that was not set; [errno] is not modelled. *)
From S2P Require Import Prelude CString Jsonc UtilsJson Udb Systemd.

Module urun.
Import jsonc utils_json udb systemd.

(** What the runner needs of the database: the references of its private
    objects, all or the visible ones, and the one of an identifier. *)
Class Database := {
  applications_private : bool -> list nat;
  get_application_private : bytes -> option nat
}.

Definition key_unit_d_path : bytes := B "-unit-dpath-".

(** ** The path of the unit *)

(** a name with "@." is completed with the user: what is around *)
Definition parametric (uname : bytes) : option (bytes * bytes) :=
  match strchr uname "@"%char with
  | Some (_ :: arodot) =>
      match arodot with
      | "."%char :: _ => Some (take (length uname - length arodot) uname, arodot)
      | _ => None
      end
  | _ => None
  end.

Section Urun.
Context {W bus message : Type} `{!SdBus W bus message} `{!Database}.

Abbreviation system := (sd W bus).

(** the end of [get_basis]: the path found is added, then read *)
Definition record_dpath (appli : json) (h : pointer) (key : bytes) (isuser : bool) (dp : bytes) (s : system)
  : option (option (bool * bytes) * json * system) :=
  let '(ok, o) := malloc (mem s) in
  if negb ok then Some (None, appli, with_mem s o)
  else
    match json_object_object_add appli h key (JStr dp) o with
    | Some (true, appli, o) => Some (Some (isuser, dp), appli, with_mem s o)
    | _ => None
    end.

Definition load_dpath (appli : json) (h : pointer) (key : bytes) (isuser : bool) (name : bytes) (s : system)
  : option (option (bool * bytes) * json * system) :=
  match systemd_unit_dpath_by_name isuser name true s with
  | (None, s) => Some (None, appli, s)
  | (Some dp, s) => record_dpath appli h key isuser dp s
  end.

Definition search_dpath (appli : json) (isuser : bool) (has_odp : bool) (uid : Z) (s : system)
  : option (option (bool * bytes) * json * system) :=
  match j_read_string_at appli (B "unit-name") with
  | None => Some (None, appli, s)
  | Some uname =>
      match parametric uname with
      | None => load_dpath appli (Some []) key_unit_d_path isuser uname s
      | Some (before, after) =>
          let nun := before ++ fmt_d uid ++ after in
          if has_odp then load_dpath appli (Some [Key key_unit_d_path]) (fmt_d uid) isuser nun s
          else if (uid <? 0)%Z then Some (None, appli, s)
          else
            let '(ok, o) := malloc (mem s) in
            if negb ok then Some (None, appli, with_mem s o)
            else
              match json_object_object_add appli (Some []) key_unit_d_path (JObj []) o with
              | None => None
              | Some (added, appli, o) =>
                  load_dpath appli (if added then Some [Key key_unit_d_path] else None) (fmt_d uid)
                    isuser nun (with_mem s o)
              end
      end
  end.

(** the scope and the path, or [Some None] for -1; the application *)
Definition get_basis (appli : json) (uid : Z) (s : system) : option (option (bool * bytes) * json * system) :=
  match j_read_string_at appli (B "unit-scope") with
  | None => Some (None, appli, s)
  | Some uscope =>
      let isuser := negb (beq uscope (B "system")) in
      match object_get_ex appli key_unit_d_path with
      | None => search_dpath appli isuser false uid s
      | Some (JStr dpath) => Some (Some (isuser, dpath), appli, s)
      | Some (JObj odp) =>
          if (uid <? 0)%Z then Some (None, appli, s)
          else
            match j_read_string_at (JObj odp) (fmt_d uid) with
            | Some dpath => Some (Some (isuser, dpath), appli, s)
            | None => search_dpath appli isuser true uid s
            end
      | Some _ => None
      end
  end.

(** ** Waiting *)

Definition WAIT_JOB_SECONDS : Z := 300.
Definition period_ms : Z := 10.
Definition period_ns : Z := period_ms * 1000000.
Definition trial_count : nat := Z.to_nat (WAIT_JOB_SECONDS * 1000 / period_ms).

Definition stable (state : SysD_State) : bool :=
  match state with SysD_State_Active | SysD_State_Failed | SysD_State_Inactive => true | _ => false end.

(** one trial, without its sleep: the job while it is pending, else the
    state of the unit *)
Definition trial (isuser : bool) (dpath : bytes) (job : option bytes) (state : SysD_State) (s : system)
  : option bytes * SysD_State * system :=
  let '(job, s) :=
    match job with
    | Some j => let '(rc, s) := systemd_job_is_pending isuser j s in (if (rc =? 0)%Z then None else Some j, s)
    | None => (None, s)
    end in
  match job with
  | Some _ => (job, state, s)
  | None => let '(state, s) := systemd_unit_state_of_dpath isuser dpath s in (None, state, s)
  end.

Definition sleep (s : system) : system := with_world s (nanosleep period_ns (world s)).

Fixpoint wait_loop (count : nat) (isuser : bool) (dpath : bytes) (job : option bytes) (state : SysD_State)
    (s : system) : SysD_State * system :=
  match count with
  | O => (state, s)
  | S count' =>
      let '(job, state, s) := trial isuser dpath job state s in
      match job with
      | None => if stable state then (state, s) else wait_loop count' isuser dpath job state (sleep s)
      | Some _ => wait_loop count' isuser dpath job state (sleep s)
      end
  end.

Definition wait_state_stable (isuser : bool) (dpath : bytes) (job : option bytes) (s : system)
  : SysD_State * system :=
  wait_loop trial_count isuser dpath job SysD_State_INVALID s.

(** ** Descriptions *)

Definition then_add (r : option (bool * json * oracle)) (k : json -> oracle -> option (option json * oracle))
  : option (option json * oracle) :=
  match r with
  | None => None
  | Some (false, _, o) => Some (None, o)
  | Some (true, result, o) => k result o
  end.

(** [Some None] is NULL *)
Definition mkstate (id : bytes) (runid pid : Z) (state : SysD_State) (o : oracle)
  : option (option json * oracle) :=
  let '(ok, o) := malloc o in
  if negb ok then Some (None, o)
  else
    then_add (j_add_integer (JObj []) (Some []) (Some (B "runid")) runid o) (fun result o =>
      let finish result o :=
        then_add (j_add_string result (Some []) (Some (B "state"))
                   (Some (if decide (state = SysD_State_Active) then B "running" else B "terminated")) o)
          (fun result o =>
        then_add (j_add_string result (Some []) (Some (B "id")) (Some id) o) (fun result o =>
        Some (Some result, o))) in
      if (0 <? pid)%Z then
        match j_add_new_array result (Some []) (Some (B "pids")) o with
        | None => None
        | Some (None, _, o) => Some (None, o)
        | Some (Some pids, result, o) => then_add (j_add_integer result pids None pid o) finish
        end
      else finish result o).

(** ** Operations *)

(** the runid, or -1 *)
Definition afm_urun_once (appli : json) (uid : Z) (s : system) : option (Z * json * system) :=
  match get_basis appli uid s with
  | None => None
  | Some (None, appli, s) => Some ((-1)%Z, appli, s)
  | Some (Some (isuser, udpath), appli, s) =>
      let '(rc, job, s) := systemd_unit_start_dpath isuser udpath true s in
      if (rc <? 0)%Z then Some ((-1)%Z, appli, s)
      else
        let '(state, s) := wait_state_stable isuser udpath job s in
        match state with
        | SysD_State_Active | SysD_State_Inactive =>
            let '(rc, s) := systemd_unit_pid_of_dpath isuser udpath s in
            Some (if (rc <? 0)%Z then (-1)%Z else rc, appli, s)
        | _ => Some ((-1)%Z, appli, s)
        end
  end.

Definition afm_urun_start (appli : json) (uid : Z) (s : system) := afm_urun_once appli uid s.

Definition afm_urun_terminate (runid uid : Z) (s : system) : Z * system :=
  let '(rc, _, s) := systemd_unit_stop_pid true (u32 runid) false s in
  let '(rc, s) :=
    if (rc <? 0)%Z
    then let '(rc, _, s) := systemd_unit_stop_pid false (u32 runid) false s in (rc, s)
    else (rc, s) in
  (if (rc <? 0)%Z then rc else 0%Z, s).

(** the error is ENOTSUP *)
Definition not_yet_implemented : Z := (-1)%Z.
Definition afm_urun_pause (runid uid : Z) : Z := not_yet_implemented.
Definition afm_urun_resume (runid uid : Z) : Z := not_yet_implemented.

Record urun := Urun { heap : list json; sysd : system }.

(** [get_basis] on the object of a reference *)
Definition basis_at (r : nat) (uid : Z) (st : urun) : option (option (bool * bytes) * urun) :=
  match get_basis (default JNull (heap st !! r)) uid (sysd st) with
  | None => None
  | Some (b, appli, s) => Some (b, Urun (<[r := appli]> (heap st)) s)
  end.

Definition id_at (r : nat) (st : urun) : option bytes := j_read_string_at (default JNull (heap st !! r)) (B "id").

Definition with_sysd {A} (f : system -> A * system) (st : urun) : A * urun :=
  let '(v, s) := f (sysd st) in (v, Urun (heap st) s).

(** the description of the application if it is active *)
Definition list_one (r : nat) (uid : Z) (result : list json) (st : urun) : option (list json * urun) :=
  match basis_at r uid st with
  | None => None
  | Some (None, st) => Some (result, st)
  | Some (Some (isuser, udpath), st) =>
      let '(pid, st) := with_sysd (systemd_unit_pid_of_dpath isuser udpath) st in
      match id_at r st with
      | Some id =>
          if (0 <? pid)%Z then
            let '(state, st) := with_sysd (systemd_unit_state_of_dpath isuser udpath) st in
            if decide (state = SysD_State_Active) then
              match mkstate id pid pid state (mem (sysd st)) with
              | None => None
              | Some (None, o) => Some (result, Urun (heap st) (with_mem (sysd st) o))
              | Some (Some desc, o) =>
                  let '(result, o) := array_add result desc o in
                  Some (result, Urun (heap st) (with_mem (sysd st) o))
              end
            else Some (result, st)
          else Some (result, st)
      | None => Some (result, st)
      end
  end.

Fixpoint list_loop (refs : list nat) (uid : Z) (result : list json) (st : urun) : option (list json * urun) :=
  match refs with
  | [] => Some (result, st)
  | r :: refs' =>
      match list_one r uid result st with
      | None => None
      | Some (result, st) => list_loop refs' uid result st
      end
  end.

(** [Some None] is NULL *)
Definition afm_urun_list (all_ : bool) (uid : Z) (st : urun) : option (option (list json) * urun) :=
  let '(ok, o) := malloc (mem (sysd st)) in
  let st := Urun (heap st) (with_mem (sysd st) o) in
  if negb ok then Some (None, st)
  else
    match list_loop (applications_private all_) uid [] st with
    | None => None
    | Some (result, st) => Some (Some result, st)
    end.

(** the search of the application of path [dpath] *)
Fixpoint state_loop (refs : list nat) (dpath : bytes) (runid uid : Z) (st : urun) : option (option json * urun) :=
  match refs with
  | [] => Some (None, st)
  | r :: refs' =>
      match basis_at r uid st with
      | None => None
      | Some (None, st) => state_loop refs' dpath runid uid st
      | Some (Some (isuser, udpath), st) =>
          match (if beq dpath udpath then id_at r st else None) with
          | None => state_loop refs' dpath runid uid st
          | Some id =>
              let '(pid, st) := with_sysd (systemd_unit_pid_of_dpath isuser udpath) st in
              let '(state, st) := with_sysd (systemd_unit_state_of_dpath isuser dpath) st in
              if (0 <? pid)%Z && bool_decide (state = SysD_State_Active) then
                match mkstate id runid pid state (mem (sysd st)) with
                | None => None
                | Some (result, o) => Some (result, Urun (heap st) (with_mem (sysd st) o))
                end
              else Some (None, st)
          end
      end
  end.

Definition afm_urun_state (runid uid : Z) (st : urun) : option (option json * urun) :=
  let '(dpath, st) := with_sysd (systemd_unit_dpath_by_pid true (u32 runid)) st in
  let '(dpath, st) :=
    match dpath with
    | Some _ => (dpath, st)
    | None => with_sysd (systemd_unit_dpath_by_pid false (u32 runid)) st
    end in
  match dpath with
  | None => Some (None, st)
  | Some dpath => state_loop (applications_private true) dpath runid uid st
  end.

(** the runid or a negative status, and the error number that is set, if any,
    the other ones being left by the functions called *)
Definition afm_urun_search_runid (id : bytes) (uid : Z) (st : urun) : option (Z * option Z * urun) :=
  match get_application_private id with
  | None => Some ((-1)%Z, Some ENOENT, st)
  | Some r =>
      match basis_at r uid st with
      | None => None
      | Some (None, st) => Some ((-1)%Z, None, st)
      | Some (Some (isuser, udpath), st) =>
          let '(pid, st) := with_sysd (systemd_unit_pid_of_dpath isuser udpath) st in
          Some (if (pid =? 0)%Z then ((-1)%Z, Some ESRCH, st) else (pid, None, st))
      end
  end.

End Urun.

#[global] Arguments urun : clear implicits.

(** ** The path of the unit, once for all *)

Lemma fmt_d_inj a b : (0 <= a < 2 ^ 31)%Z -> (0 <= b < 2 ^ 31)%Z -> fmt_d a = fmt_d b -> a = b.
Proof.
  intros Ha Hb. unfold fmt_d. rewrite !(proj2 (Z.ltb_ge _ 0)) by lia. intros E.
  destruct (dec_loop_spec 25 a []) as (da & Ea & _ & _ & <-); [lia|done|].
  destruct (dec_loop_spec 25 b []) as (db & Eb & _ & _ & <-); [lia|done|].
  rewrite Ea, Eb, !app_nil_r in E. by subst.
Qed.

Section Laws.
Context {W bus message : Type} `{!SdBus W bus message} `{!Database}.
Context (answers : W -> snapshot -> Prop) (bus_of : bool -> bus) (path_reply : bytes -> message)
  `{!SdLaws answers bus_of path_reply}.
Context (u : snapshot).

Abbreviation ready := (ready answers bus_of).

Definition scope_user (uscope : bytes) : bool := negb (beq uscope (B "system")).

(** the path that systemd gives to the unit of an application *)
Definition unit_path (isuser : bool) (uname : bytes) (uid : Z) : option bytes :=
  match parametric uname with
  | None => dpath_of u isuser uname
  | Some (before, after) =>
      if (uid <? 0)%Z then None else dpath_of u isuser (before ++ fmt_d uid ++ after)
  end.

Definition basis (appli : json) (uid : Z) : option (bool * bytes) :=
  match j_read_string_at appli (B "unit-scope"), j_read_string_at appli (B "unit-name") with
  | Some uscope, Some uname =>
      (fun p => (scope_user uscope, p)) <$> unit_path (scope_user uscope) uname uid
  | _, _ => None
  end.

(** the paths recorded in an application are the ones of systemd *)
Definition cache_ok (appli : json) : Prop :=
  match object_get_ex appli key_unit_d_path with
  | None => True
  | Some odp =>
      exists uscope uname, j_read_string_at appli (B "unit-scope") = Some uscope /\
        j_read_string_at appli (B "unit-name") = Some uname /\
        match odp with
        | JStr p => parametric uname = None /\ dpath_of u (scope_user uscope) uname = Some p
        | JObj l => is_Some (parametric uname) /\
            forall uid v, (0 <= uid < 2 ^ 31)%Z -> assoc (fmt_d uid) l = Some v ->
              exists p, v = JStr p /\ unit_path (scope_user uscope) uname uid = Some p
        | _ => False
        end
  end.

Definition same_fields (appli appli' : json) : Prop :=
  forall k, k <> key_unit_d_path -> object_get_ex appli' k = object_get_ex appli k.

Lemma load_dpath_ready appli h key isuser name s after :
  ready s u ->
  (forall dp, json_object_object_add appli h key (JStr dp) [] = Some (true, after dp, [])) ->
  exists s', ready s' u /\ load_dpath appli h key isuser name s =
    Some (match dpath_of u isuser name with
          | Some dp => (Some (isuser, dp), after dp)
          | None => (None, appli)
          end, s').
Proof.
  intros Hr Hadd. unfold load_dpath.
  destruct (dpath_by_name_ready _ _ _ isuser name s u Hr) as (s1 & -> & H1).
  destruct (dpath_of u isuser name) as [dp|]; [|by exists s1].
  unfold record_dpath. pose proof H1 as (Hw & Hm & Hb). rewrite Hm. simpl. rewrite Hadd. exists (with_mem s1 []).
  split; [by split_and!|done].
Qed.

Lemma same_replace v l : same_fields (JObj l) (JObj (replace key_unit_d_path v l)).
Proof. intros k Hk. simpl. rewrite assoc_replace. by rewrite (proj2 (beq_false _ _) Hk). Qed.

Lemma same_read a a' k : same_fields a a' -> k <> key_unit_d_path -> j_read_string_at a' k = j_read_string_at a k.
Proof. intros Hs Hk. unfold j_read_string_at, j_read_object_at. by rewrite Hs. Qed.

Lemma same_scope a a' : same_fields a a' -> j_read_string_at a' (B "unit-scope") = j_read_string_at a (B "unit-scope").
Proof. intros Hs. by apply same_read. Qed.

Lemma same_name a a' : same_fields a a' -> j_read_string_at a' (B "unit-name") = j_read_string_at a (B "unit-name").
Proof. intros Hs. by apply same_read. Qed.

Lemma same_basis a a' uid : same_fields a a' -> basis a' uid = basis a uid.
Proof. intros Hs. unfold basis. by rewrite (same_scope a a'), (same_name a a'). Qed.

(** what is recorded is answered *)
Lemma recorded_str l p uscope uid (s : sd W bus) :
  assoc key_unit_d_path l = Some (JStr p) -> j_read_string_at (JObj l) (B "unit-scope") = Some uscope ->
  get_basis (JObj l) uid s = Some (Some (scope_user uscope, p), JObj l, s).
Proof. intros Hp Hs. unfold get_basis. rewrite Hs. cbn [object_get_ex json_Jsonc]. by rewrite Hp. Qed.

Lemma recorded_user l m p uscope uid (s : sd W bus) :
  assoc key_unit_d_path l = Some (JObj m) -> j_read_string_at (JObj l) (B "unit-scope") = Some uscope ->
  (0 <= uid)%Z -> assoc (fmt_d uid) m = Some (JStr p) ->
  get_basis (JObj l) uid s = Some (Some (scope_user uscope, p), JObj l, s).
Proof.
  intros Hp Hs Hu Hm. unfold get_basis. rewrite Hs. cbn [object_get_ex json_Jsonc]. rewrite Hp.
  rewrite (proj2 (Z.ltb_ge _ _)) by done. unfold j_read_string_at, j_read_object_at. simpl. by rewrite Hm.
Qed.

(** the result of a search in a state that is [ready] *)
Definition found (appli : json) (uid : Z) (r : option (option (bool * bytes) * json * sd W bus)) : Prop :=
  exists appli' s', r = Some (basis appli uid, appli', s') /\
    ready s' u /\ cache_ok appli' /\ same_fields appli appli' /\
    (is_Some (basis appli uid) -> forall s2 : sd W bus, get_basis appli' uid s2 = Some (basis appli uid, appli', s2)).

Lemma not_found appli uid s :
  basis appli uid = None -> ready s u -> cache_ok appli -> found appli uid (Some (None, appli, s)).
Proof. intros Hb Hr Hc. exists appli, s. rewrite Hb. split_and!; try done. Qed.

(** the path of the unit of a user *)
Lemma user_found l m uid s uscope uname before after :
  ready s u -> cache_ok (JObj l) -> (0 <= uid < 2 ^ 31)%Z -> assoc key_unit_d_path l = Some (JObj m) ->
  j_read_string_at (JObj l) (B "unit-scope") = Some uscope ->
  j_read_string_at (JObj l) (B "unit-name") = Some uname -> parametric uname = Some (before, after) ->
  found (JObj l) uid (load_dpath (JObj l) (Some [Key key_unit_d_path]) (fmt_d uid) (scope_user uscope)
    (before ++ fmt_d uid ++ after) s).
Proof.
  intros Hr Hc Hu Hm Hs Hn Hpar.
  set (after_add := fun dp => JObj (replace key_unit_d_path (JObj (replace (fmt_d uid) (JStr dp) m)) l)).
  destruct (load_dpath_ready (JObj l) (Some [Key key_unit_d_path]) (fmt_d uid) (scope_user uscope)
    (before ++ fmt_d uid ++ after) s after_add Hr) as (s1 & H1 & ->).
  { intros dp. unfold json_object_object_add, deref, write. simpl. by rewrite Hm. }
  assert (Hbasis : basis (JObj l) uid = (fun p => (scope_user uscope, p)) <$>
    dpath_of u (scope_user uscope) (before ++ fmt_d uid ++ after)).
  { unfold basis, unit_path. by rewrite Hs, Hn, Hpar, (proj2 (Z.ltb_ge uid 0)) by lia. }
  destruct (dpath_of u _ _) as [dp|] eqn:Ed; [|by apply not_found].
  pose proof (same_replace (JObj (replace (fmt_d uid) (JStr dp) m)) l) as Hsame. fold (after_add dp) in Hsame.
  exists (after_add dp), s1. rewrite Hbasis. simpl. split_and!; try done.
  - unfold cache_ok. unfold after_add at 1. cbn [object_get_ex json_Jsonc]. rewrite assoc_replace, beq_refl.
    exists uscope, uname. rewrite (same_scope _ _ Hsame), (same_name _ _ Hsame). split_and!; try done.
    intros uid' v Hu'. rewrite assoc_replace. destruct (beq (fmt_d uid') (fmt_d uid)) eqn:E.
    + apply beq_true, fmt_d_inj in E as ->; [|done..]. intros [= <-]. exists dp. split; [done|].
      unfold unit_path. by rewrite Hpar, (proj2 (Z.ltb_ge uid 0)) by lia.
    + unfold cache_ok in Hc. cbn [object_get_ex json_Jsonc] in Hc. rewrite Hm in Hc.
      destruct Hc as (uscope' & uname' & Hs' & Hn' & _ & Hall). rewrite Hs in Hs'. rewrite Hn in Hn'.
      injection Hs' as <-. injection Hn' as <-. by apply Hall.
  - intros _ s2. apply (recorded_user _ (replace (fmt_d uid) (JStr dp) m)); [by rewrite assoc_replace, beq_refl| |lia|].
    + exact (eq_trans (same_scope _ _ Hsame) Hs).
    + by rewrite assoc_replace, beq_refl.
Qed.

Lemma get_basis_found appli uid s :
  ready s u -> cache_ok appli -> (uid < 2 ^ 31)%Z -> found appli uid (get_basis appli uid s).
Proof.
  intros Hr Hc Hu. unfold get_basis.
  destruct (j_read_string_at appli (B "unit-scope")) as [uscope|] eqn:Es.
  2: { apply not_found; [|done..]. unfold basis. by rewrite Es. }
  destruct appli as [| | | | |l]; try done. pose proof Hc as Hc'. unfold cache_ok in Hc'.
  destruct (object_get_ex (JObj l) key_unit_d_path) as [odp|] eqn:Eo.
  - destruct Hc' as (uscope' & uname & Hs & Hn & Hodp). rewrite Es in Hs. injection Hs as <-.
    destruct odp as [| | |p| |m]; try done.
    + exists (JObj l), s. destruct Hodp as [Hpar Hp].
      assert (Hb : basis (JObj l) uid = Some (scope_user uscope, p)).
      { unfold basis, unit_path. by rewrite Es, Hn, Hpar, Hp. }
      rewrite Hb. split_and!; try done. intros _ s2. by apply recorded_str.
    + destruct Hodp as [[[before after] Hpar] Hall]. destruct (Z.ltb_spec uid 0) as [Hneg|Hpos].
      { apply not_found; [|done..]. unfold basis, unit_path.
        rewrite Es, Hn, Hpar, (proj2 (Z.ltb_lt _ _)) by done. done. }
      unfold j_read_string_at at 1, j_read_object_at. simpl. destruct (assoc (fmt_d uid) m) as [v|] eqn:Em.
      * destruct (Hall uid v) as (p & -> & Hp); [lia|done|]. simpl. exists (JObj l), s.
        assert (Hb : basis (JObj l) uid = Some (scope_user uscope, p)).
        { unfold basis. by rewrite Es, Hn, Hp. }
        rewrite Hb. split_and!; try done. intros _ s2. by apply (recorded_user l m).
      * simpl. unfold search_dpath. rewrite Hn, Hpar. by apply (user_found l m _ _ _ uname).
  - unfold search_dpath. destruct (j_read_string_at (JObj l) (B "unit-name")) as [uname|] eqn:En.
    2: { apply not_found; [|done..]. unfold basis. by rewrite Es, En. }
    destruct (parametric uname) as [[before after]|] eqn:Hpar.
    + destruct (Z.ltb_spec uid 0) as [Hneg|Hpos].
      { apply not_found; [|done..]. unfold basis, unit_path.
        rewrite Es, En, Hpar, (proj2 (Z.ltb_lt _ _)) by done. done. }
      pose proof Hr as (Hw & Hm & Hbus). rewrite Hm. unfold json_object_object_add, deref, write. simpl.
      set (l1 := replace key_unit_d_path (JObj []) l).
      pose proof (same_replace (JObj []) l) as Hsame. fold l1 in Hsame.
      assert (Hm1 : assoc key_unit_d_path l1 = Some (JObj [])) by (unfold l1; by rewrite assoc_replace, beq_refl).
      change (negb (beq uscope _)) with (scope_user uscope). destruct (user_found l1 [] uid (with_mem s []) uscope uname before after) as (appli' & s' & -> & H1 & H2 & H3 & H4);
        [by split_and!| |lia|done|exact (eq_trans (same_scope _ _ Hsame) Es)|exact (eq_trans (same_name _ _ Hsame) En)|done|].
      { unfold cache_ok. cbn [object_get_ex json_Jsonc]. rewrite Hm1. exists uscope, uname.
        rewrite (same_scope _ _ Hsame), (same_name _ _ Hsame). split_and!; try done. }
      rewrite (same_basis _ _ _ Hsame) in H4 |- *. exists appli', s'. split_and!; try done.
      intros k Hk. by rewrite H3, Hsame.
    + destruct (load_dpath_ready (JObj l) (Some []) key_unit_d_path (scope_user uscope) uname s
        (fun dp => JObj (replace key_unit_d_path (JStr dp) l)) Hr) as (s1 & H1 & E); [done|].
      fold (scope_user uscope). rewrite E. clear E.
      assert (Hb : basis (JObj l) uid = (fun p => (scope_user uscope, p)) <$> dpath_of u (scope_user uscope) uname).
      { unfold basis, unit_path. by rewrite Es, En, Hpar. }
      destruct (dpath_of u (scope_user uscope) uname) as [dp|] eqn:Ed; [|by apply not_found].
      pose proof (same_replace (JStr dp) l) as Hsame. eexists _, s1. rewrite Hb. simpl. split_and!; try done.
      * unfold cache_ok. cbn [object_get_ex json_Jsonc]. rewrite assoc_replace, beq_refl. exists uscope, uname.
        by rewrite (same_scope _ _ Hsame), (same_name _ _ Hsame).
      * intros _ s2. apply recorded_str; [by rewrite assoc_replace, beq_refl|]. exact (eq_trans (same_scope _ _ Hsame) Es).
Qed.

(** C26: the path of the unit of an application, once found, is kept in its
    private data, for all or for each user: [get_basis] always gives the
    scope and the path that systemd knows for the unit and the user, keeps
    the recorded paths right and the other fields as they are, and does not
    ask systemd again. *)
Theorem get_basis_spec appli uid s :
  ready s u -> cache_ok appli -> (uid < 2 ^ 31)%Z ->
  exists appli' s', get_basis appli uid s = Some (basis appli uid, appli', s') /\
    ready s' u /\ cache_ok appli' /\ same_fields appli appli' /\
    (is_Some (basis appli uid) -> forall s2 : sd W bus, get_basis appli' uid s2 = Some (basis appli uid, appli', s2)).
Proof. apply get_basis_found. Qed.

(** ** Listing *)

Definition describe (id : bytes) (runid pid : Z) : json :=
  JObj [(B "runid", JInt runid); (B "pids", JArr [JInt pid]); (B "state", JStr (B "running")); (B "id", JStr id)].

Lemma mkstate_active id runid pid :
  (0 < pid)%Z -> mkstate id runid pid SysD_State_Active [] = Some (Some (describe id runid pid), []).
Proof. intros Hp. destruct pid; [lia|reflexivity|lia]. Qed.

(** the description of an application that runs *)
Definition running (uid : Z) (appli : json) : option json :=
  match basis appli uid, j_read_string_at appli (B "id") with
  | Some (isuser, p), Some id =>
      if (0 <? pid_seen u isuser p)%Z && bool_decide (state_seen u isuser p = SysD_State_Active)
      then Some (describe id (pid_seen u isuser p) (pid_seen u isuser p)) else None
  | _, _ => None
  end.

Definition app_at (st : urun W bus) (r : nat) : json := default JNull (heap st !! r).

Definition usable (st : urun W bus) : Prop := ready (sysd st) u /\ Forall cache_ok (heap st).

(** what an operation that only asks does *)
Definition asked (st st' : urun W bus) : Prop := usable st' /\ Forall2 same_fields (heap st) (heap st').

#[local] Instance same_fields_preorder : PreOrder same_fields.
Proof. split; [done|]. intros a b c Ha Hb k Hk. by rewrite Hb, Ha. Qed.

Lemma asked_refl st : usable st -> asked st st.
Proof. by split. Qed.

Lemma asked_trans st1 st2 st3 : asked st1 st2 -> asked st2 st3 -> asked st1 st3.
Proof. intros [_ H1] [Hu H2]. split; [done|]. by transitivity (heap st2). Qed.

Lemma asked_app st st' r : asked st st' -> same_fields (app_at st r) (app_at st' r).
Proof.
  intros [_ Hs]. unfold app_at. destruct (heap st !! r) as [a|] eqn:E.
  - destruct (Forall2_lookup_l _ _ _ _ _ Hs E) as (a' & -> & Ha). done.
  - apply lookup_ge_None in E. rewrite (Forall2_length _ _ _ Hs) in E.
    by rewrite (proj2 (lookup_ge_None _ _)).
Qed.

Lemma same_running a a' uid : same_fields a a' -> running uid a' = running uid a.
Proof. intros Hs. unfold running. rewrite (same_basis a a') by done. by rewrite (same_read a a' (B "id")). Qed.

Lemma asked_running st st' r uid : asked st st' -> running uid (app_at st' r) = running uid (app_at st r).
Proof. intros Hst. by apply same_running, asked_app. Qed.

Lemma asked_sysd st s : usable st -> ready s u -> asked st (Urun (heap st) s).
Proof. intros [_ Hc] Hs. destruct (asked_refl (Urun (heap st) s)); by split. Qed.

Lemma basis_at_asked r uid st :
  usable st -> (uid < 2 ^ 31)%Z ->
  exists st', basis_at r uid st = Some (basis (app_at st r) uid, st') /\ asked st st'.
Proof.
  intros [Hr Hc] Hu. unfold basis_at. fold (app_at st r).
  assert (Hca : cache_ok (app_at st r)).
  { unfold app_at. destruct (heap st !! r) as [a|] eqn:E; [|done]. by eapply Forall_lookup_1 in Hc. }
  destruct (get_basis_found (app_at st r) uid (sysd st) Hr Hca Hu) as (appli' & s' & -> & H1 & H2 & H3 & _).
  eexists. split; [done|]. split; [split; [done|]; by apply Forall_insert|]. simpl.
  destruct (asked_refl st) as [_ Hrefl]; [by split|].
  apply Forall2_same_length_lookup_2; [by rewrite length_insert|]. intros i a a' Ha.
  rewrite list_lookup_insert_Some. intros [(<- & <- & Hi)|[Hi Ha']].
  - unfold app_at in H3. by rewrite Ha in H3.
  - rewrite Ha in Ha'. by injection Ha' as <-.
Qed.

#[local] Arguments B _ : simpl never.

Lemma kept (result : list json) st st1 :
  asked st st1 -> exists st', Some (result, st1) = Some (result ++ option_list None, st') /\ asked st st'.
Proof. intros Hs. exists st1. split; [|done]. simpl. by rewrite app_nil_r. Qed.

Lemma list_one_asked r uid result st :
  usable st -> (uid < 2 ^ 31)%Z ->
  exists st', list_one r uid result st = Some (result ++ option_list (running uid (app_at st r)), st') /\ asked st st'.
Proof.
  intros Hst Hu. unfold list_one, running.
  destruct (basis_at_asked r uid st Hst Hu) as (st1 & -> & H1). destruct (H1) as [Hst1 _].
  destruct (basis (app_at st r) uid) as [[isuser p]|]; [|by apply kept].
  unfold with_sysd. destruct (pid_of_dpath_ready _ _ _ isuser p (sysd st1) u) as (s2 & -> & H2); [apply Hst1|].
  simpl. assert (id_at r (Urun (heap st1) s2) = j_read_string_at (app_at st r) (B "id")) as ->.
  { apply (same_read (app_at st r) (app_at st1 r)); [by apply asked_app|done]. }
  pose proof (asked_trans _ _ _ H1 (asked_sysd _ _ Hst1 H2)) as H12.
  destruct (j_read_string_at (app_at st r) (B "id")) as [id|]; simpl;
    [|by apply kept].
  destruct (Z.ltb_spec 0 (pid_seen u isuser p)) as [Hp|Hp]; simpl;
    [|by apply kept].
  destruct (state_of_dpath_ready _ _ _ isuser p s2 u H2) as (s3 & -> & H3). simpl.
  pose proof (asked_trans _ _ _ H1 (asked_sysd _ _ Hst1 H3)) as H13. case_bool_decide as Es.
  - rewrite decide_True by done. rewrite Es. destruct (H3) as (_ & Hm & _). rewrite Hm, mkstate_active by done.
    simpl. eexists. split; [done|]. apply (asked_trans _ _ _ H1), (asked_sysd _ _ Hst1).
    destruct H3 as (? & _ & ?). by split_and!.
  - rewrite decide_False by done. by apply kept.
Qed.

Lemma list_loop_asked refs uid result st :
  usable st -> (uid < 2 ^ 31)%Z ->
  exists st', list_loop refs uid result st =
    Some (result ++ omap (fun r => running uid (app_at st r)) refs, st') /\ asked st st'.
Proof.
  revert result st. induction refs as [|r refs IH]; intros result st Hst Hu; simpl.
  { exists st. rewrite app_nil_r. split; [done|by apply asked_refl]. }
  destruct (list_one_asked r uid result st Hst Hu) as (st1 & -> & H1). destruct (H1) as [Hst1 _].
  destruct (IH (result ++ option_list (running uid (app_at st r))) st1 Hst1 Hu) as (st2 & -> & H2).
  exists st2. split; [|by apply (asked_trans _ st1)]. do 2 f_equal. rewrite <-(assoc_L (++)). f_equal.
  rewrite (list_omap_ext _ (fun r => running uid (app_at st r)) _ refs); [by destruct (running uid (app_at st r))|].
  apply Forall_Forall2_diag, Forall_forall. intros r' _. by apply asked_running.
Qed.

(** C19: the list of the runners describes, in order, exactly the listed
    applications whose unit is active with a main process for the user; the
    paths recorded in the database remain right and its other fields are
    not changed, whatever was recorded before. *)
Theorem afm_urun_list_spec all_ uid st :
  usable st -> (uid < 2 ^ 31)%Z ->
  exists st', afm_urun_list all_ uid st =
    Some (Some (omap (fun r => running uid (app_at st r)) (applications_private all_)), st') /\
    usable st' /\ Forall2 same_fields (heap st) (heap st').
Proof.
  intros Hst Hu. unfold afm_urun_list. destruct Hst as [(Hw & Hm & Hb) Hc]. rewrite Hm. simpl.
  destruct (list_loop_asked (applications_private all_) uid [] (Urun (heap st) (with_mem (sysd st) []))) as (st' & -> & Hst');
    [by split|done|]. by exists st'.
Qed.

End Laws.

(** ** Waiting *)

Section Waiting.
Context {W bus message : Type} `{!SdBus W bus message}.
Context (isuser : bool) (dpath : bytes).

Abbreviation waiting := (option bytes * SysD_State * sd W bus)%type.

Definition next (x : waiting) : waiting := let '(job, state, s) := x in trial isuser dpath job state s.

(** what is known at the trial [n] *)
Definition at_trial (n : nat) (x : waiting) : waiting :=
  next (Nat.iter n (fun x => let '(job, state, s) := next x in (job, state, sleep s)) x).

(** the job is done and the unit is in a stable state *)
Definition settled (x : waiting) : Prop := x.1.1 = None /\ stable x.1.2 = true.

Lemma at_trial_S n x : at_trial (S n) x = at_trial n (let '(job, state, s) := next x in (job, state, sleep s)).
Proof. unfold at_trial. by rewrite Nat.iter_succ_r. Qed.

Lemma wait_loop_spec count job state s :
  stable state = false ->
  let '(state', s') := wait_loop count isuser dpath job state s in
  (exists n, n < count /\ at_trial n (job, state, s) = (None, state', s') /\ stable state' = true /\
     forall m, m < n -> ~ settled (at_trial m (job, state, s))) \/
  (stable state' = false /\ forall n, n < count -> ~ settled (at_trial n (job, state, s))).
Proof.
  revert job state s. induction count as [|count IH]; intros job state s Hs; simpl.
  { right. split; [done|lia]. }
  assert (H0 : at_trial 0 (job, state, s) = trial isuser dpath job state s) by done.
  assert (HS : forall n, at_trial (S n) (job, state, s) =
    at_trial n (let '(j, st, s1) := trial isuser dpath job state s in (j, st, sleep s1))) by (intros; apply at_trial_S).
  destruct (trial isuser dpath job state s) as [[job1 state1] s1] eqn:Et.
  assert (Hs1 : stable state1 = true -> job1 = None).
  { unfold trial in Et. destruct job as [j|]; [destruct (systemd_job_is_pending _ _ _) as [rc sj]; destruct (rc =? 0)%Z|];
      try (destruct (systemd_unit_state_of_dpath _ _ _); by injection Et as <- <- <-). injection Et as <- <- <-. congruence. }
  destruct (stable state1) eqn:Est.
  { rewrite (Hs1 eq_refl) in H0 |- *. left. exists 0. split; [lia|]. split; [done|]. split; [done|lia]. }
  assert (Hn0 : ~ settled (at_trial 0 (job, state, s))) by (rewrite H0; intros [_ Hst]; simpl in Hst; congruence).
  specialize (IH job1 state1 (sleep s1) Est).
  assert (match job1 with
          | None => wait_loop count isuser dpath job1 state1 (sleep s1)
          | Some _ => wait_loop count isuser dpath job1 state1 (sleep s1)
          end = wait_loop count isuser dpath job1 state1 (sleep s1)) as -> by by destruct job1.
  destruct (wait_loop _ _ _ _ _ _) as [state' s'].
  destruct IH as [(n & Hn & Hat & Hst' & Hm)|[Hst' Hall]];
    [left; exists (S n); split; [lia|]; rewrite HS; split; [done|]; split; [done|];
       intros [|m] Hlt; [done|]; rewrite HS; apply Hm; lia
    |right; split; [done|]; intros [|n] Hn; [done|]; rewrite HS; apply Hall; lia].
Qed.


End Waiting.

(** ** Without lack of memory

    Every operation then ends normally: what is recorded in an application
    is a path or an object, as [get_basis] expects, and remains so. *)

Definition typed (appli : json) : Prop :=
  match object_get_ex appli key_unit_d_path with
  | None | Some (JStr _) | Some (JObj _) => True
  | _ => False
  end.

Section Calm.
Context {W bus message : Type} `{!SdBus W bus message} `{!Database}.

Definition calm (st : urun W bus) : Prop := mem (sysd st) = [] /\ Forall typed (heap st).

Lemma with_sysd_calm {A} (f : sd W bus -> A * sd W bus) st v st' :
  calm st -> (mem (sysd st) = [] -> mem (f (sysd st)).2 = []) -> with_sysd f st = (v, st') -> calm st'.
Proof.
  intros [Hm Hh] Hf. unfold with_sysd. specialize (Hf Hm).
  destruct (f (sysd st)) as [v1 s1]. intros [= <- <-]. by split.
Qed.

Lemma typed_add l k v : k <> key_unit_d_path \/ typed (JObj [(key_unit_d_path, v)]) ->
  typed (JObj l) -> typed (JObj (replace k v l)).
Proof.
  unfold typed. cbn [object_get_ex json_Jsonc]. rewrite assoc_replace.
  destruct (beq key_unit_d_path k) eqn:E; [|done]. apply beq_true in E as <-. intros [?|Hv] _; [done|exact Hv].
Qed.

Lemma load_dpath_calm appli h key isuser name (s : sd W bus) after :
  mem s = [] -> typed appli ->
  (forall dp, json_object_object_add appli h key (JStr dp) [] = Some (true, after dp, []) /\ typed (after dp)) ->
  exists r appli' s', load_dpath appli h key isuser name s = Some (r, appli', s') /\ mem s' = [] /\ typed appli'.
Proof.
  intros Hs Ht Ha. unfold load_dpath. pose proof (dpath_by_name_mem isuser name true s Hs) as Hm.
  destruct (systemd_unit_dpath_by_name isuser name true s) as [[dp|] s1]; [|by eexists _, _, _].
  simpl in Hm. unfold record_dpath. rewrite Hm. simpl. destruct (Ha dp) as [-> ?]. by eexists _, _, _.
Qed.

Lemma get_basis_calm appli uid (s : sd W bus) :
  mem s = [] -> typed appli ->
  exists r appli' s', get_basis appli uid s = Some (r, appli', s') /\ mem s' = [] /\ typed appli'.
Proof.
  intros Hs Ht. unfold get_basis. destruct (j_read_string_at appli (B "unit-scope")) as [uscope|] eqn:Es;
    [|by eexists _, _, _]. destruct appli as [| | | | |l]; try done. pose proof Ht as Ht'. unfold typed in Ht'.
  set (isuser := negb _).
  assert (Hsearch : forall (has_odp : bool) m, (if has_odp then assoc key_unit_d_path l = Some (JObj m) else True) ->
    exists r appli' s', search_dpath (JObj l) isuser has_odp uid s = Some (r, appli', s') /\ mem s' = [] /\ typed appli').
  { intros has_odp m Hodp. unfold search_dpath.
    destruct (j_read_string_at (JObj l) (B "unit-name")) as [uname|]; [|by eexists _, _, _].
    destruct (parametric uname) as [[before after]|].
    - destruct has_odp.
      + apply (load_dpath_calm _ _ _ _ _ _ (fun dp => JObj (replace key_unit_d_path (JObj (replace (fmt_d uid) (JStr dp) m)) l))); [done..|].
        intros dp. unfold json_object_object_add, deref, write. simpl. rewrite Hodp. split; [done|].
        apply typed_add; [by right|done].
      + destruct (uid <? 0)%Z; [by eexists _, _, _|]. rewrite Hs. unfold json_object_object_add at 1, deref, write. simpl.
        apply (load_dpath_calm _ _ _ _ _ _ (fun dp => JObj (replace key_unit_d_path (JObj [(fmt_d uid, JStr dp)])
          (replace key_unit_d_path (JObj []) l)))); [done|apply typed_add; [by right|done]|].
        intros dp. unfold json_object_object_add, deref, write. simpl. rewrite assoc_replace, beq_refl. split; [done|].
        apply typed_add; [by right|]. apply typed_add; [by right|done].
    - apply (load_dpath_calm _ _ _ _ _ _ (fun dp => JObj (replace key_unit_d_path (JStr dp) l))); [done..|].
      intros dp. split; [done|]. apply typed_add; [by right|done]. }
  destruct (object_get_ex (JObj l) key_unit_d_path) as [odp|] eqn:Eo; [|by apply (Hsearch false [])].
  destruct odp as [| | |p| |m]; try done; [by eexists _, _, _|]. destruct (uid <? 0)%Z; [by eexists _, _, _|].
  destruct (j_read_string_at (JObj m) (fmt_d uid)); [by eexists _, _, _|]. by apply (Hsearch true m).
Qed.

Lemma basis_at_calm r uid st :
  calm st -> exists b st', basis_at r uid st = Some (b, st') /\ calm st'.
Proof.
  intros [Hm Hh]. unfold basis_at.
  destruct (get_basis_calm (default JNull (heap st !! r)) uid (sysd st)) as (b & appli' & s' & -> & Hs & Ht); [done| |].
  { destruct (heap st !! r) as [a|] eqn:E; [|done]. by eapply Forall_lookup_1 in Hh. }
  eexists _, _. split; [done|]. split; [done|]. by apply Forall_insert.
Qed.

Lemma mkstate_total id runid pid state : exists v, mkstate id runid pid state [] = Some (Some v, []).
Proof. unfold mkstate. destruct pid; simpl; by eexists. Qed.

Lemma wait_loop_mem count isuser dpath job state (s : sd W bus) :
  mem s = [] -> mem (wait_loop count isuser dpath job state s).2 = [].
Proof.
  revert job state s. induction count as [|count IH]; intros job state s Hs; simpl; [done|].
  assert (Ht : mem (trial isuser dpath job state s).2 = []).
  { unfold trial. assert (forall s1 : sd W bus, mem s1 = [] ->
      mem (let '(state, s) := systemd_unit_state_of_dpath isuser dpath s1 in (@None bytes, state, s)).2 = []) as Hst.
    { intros s1 H1. pose proof (state_of_dpath_mem isuser dpath s1 H1). by destruct (systemd_unit_state_of_dpath _ _ _). }
    destruct job as [j|]; [|by apply Hst]. pose proof (job_is_pending_mem isuser j s Hs) as Hj.
    destruct (systemd_job_is_pending _ _ _) as [rc s1]. simpl in Hj. destruct (rc =? 0)%Z; [by apply Hst|done]. }
  destruct (trial isuser dpath job state s) as [[job1 state1] s1]. simpl in Ht.
  destruct job1 as [j1|]; [|destruct (stable state1); [done|]]; by apply IH.
Qed.

Lemma once_calm appli uid (s : sd W bus) :
  mem s = [] -> typed appli ->
  exists rc appli' s', afm_urun_once appli uid s = Some (rc, appli', s') /\ mem s' = [] /\ typed appli'.
Proof.
  intros Hs Ht. unfold afm_urun_once.
  destruct (get_basis_calm appli uid s Hs Ht) as (b & appli' & s1 & -> & H1 & Ht1).
  destruct b as [[isuser udpath]|]; [|by eexists _, _, _].
  pose proof (start_dpath_mem isuser udpath true s1 H1) as H2.
  destruct (systemd_unit_start_dpath isuser udpath true s1) as [[rc job] s2]. simpl in H2.
  destruct (rc <? 0)%Z; [by eexists _, _, _|].
  pose proof (wait_loop_mem trial_count isuser udpath job SysD_State_INVALID s2 H2) as H3.
  unfold wait_state_stable. destruct (wait_loop _ _ _ _ _ _) as [state s3]. simpl in H3.
  pose proof (pid_of_dpath_mem isuser udpath s3 H3) as H4.
  destruct (systemd_unit_pid_of_dpath isuser udpath s3) as [pid s4]. simpl in H4.
  destruct state; by eexists _, _, _.
Qed.

Lemma list_loop_calm refs uid result st :
  calm st -> exists result' st', list_loop refs uid result st = Some (result', st') /\ calm st'.
Proof.
  revert result st. induction refs as [|r refs IH]; intros result st Hst; simpl; [by eexists _, _|].
  assert (Hone : exists result' st', list_one r uid result st = Some (result', st') /\ calm st').
  { unfold list_one. destruct (basis_at_calm r uid st Hst) as (b & st1 & -> & H1).
    destruct b as [[isuser p]|]; [|by eexists _, _].
    destruct (with_sysd _ st1) as [pid st2] eqn:E2. eapply with_sysd_calm in E2 as H2; [|done|apply pid_of_dpath_mem].
    destruct (id_at r st2) as [id|]; [|by eexists _, _]. destruct (0 <? pid)%Z; [|by eexists _, _].
    destruct (with_sysd _ st2) as [state st3] eqn:E3. eapply with_sysd_calm in E3 as H3; [|done|apply state_of_dpath_mem].
    case_decide; [|by eexists _, _]. destruct H3 as [Hm Hh]. rewrite Hm.
    destruct (mkstate_total id pid pid state) as [v ->]. simpl. by eexists _, _. }
  destruct Hone as (result' & st1 & -> & H1). by apply IH.
Qed.

Lemma list_calm all_ uid st :
  calm st -> exists result st', afm_urun_list all_ uid st = Some (result, st') /\ calm st'.
Proof.
  intros [Hm Hh]. unfold afm_urun_list. rewrite Hm. simpl.
  destruct (list_loop_calm (applications_private all_) uid [] (Urun (heap st) (with_mem (sysd st) []))) as (? & ? & -> & ?);
    [by split|]. by eexists _, _.
Qed.

Lemma state_loop_calm refs dpath runid uid st :
  calm st -> exists v st', state_loop refs dpath runid uid st = Some (v, st') /\ calm st'.
Proof.
  revert st. induction refs as [|r refs IH]; intros st Hst; simpl; [by eexists _, _|].
  destruct (basis_at_calm r uid st Hst) as (b & st1 & -> & H1). destruct b as [[isuser p]|]; [|by apply IH].
  destruct (if beq dpath p then _ else _) as [id|]; [|by apply IH].
  destruct (with_sysd _ st1) as [pid st2] eqn:E2. eapply with_sysd_calm in E2 as H2; [|done|apply pid_of_dpath_mem].
  destruct (with_sysd _ st2) as [state st3] eqn:E3. eapply with_sysd_calm in E3 as H3; [|done|apply state_of_dpath_mem].
  destruct (_ && _); [|by eexists _, _]. destruct H3 as [Hm Hh]. rewrite Hm.
  destruct (mkstate_total id runid pid state) as [v ->]. by eexists _, _.
Qed.

Lemma state_calm runid uid st :
  calm st -> exists v st', afm_urun_state runid uid st = Some (v, st') /\ calm st'.
Proof.
  intros Hst. unfold afm_urun_state.
  destruct (with_sysd _ st) as [d1 st1] eqn:E1. eapply with_sysd_calm in E1 as H1; [|done|apply dpath_by_pid_mem].
  destruct d1 as [d|]; [by apply state_loop_calm|].
  destruct (with_sysd _ st1) as [d2 st2] eqn:E2. eapply with_sysd_calm in E2 as H2; [|done|apply dpath_by_pid_mem].
  destruct d2 as [d|]; [by apply state_loop_calm|by eexists _, _].
Qed.

Lemma search_calm id uid st :
  calm st -> exists rc e st', afm_urun_search_runid id uid st = Some (rc, e, st') /\ calm st'.
Proof.
  intros Hst. unfold afm_urun_search_runid. destruct (get_application_private id) as [r|]; [|by eexists _, _, _].
  destruct (basis_at_calm r uid st Hst) as (b & st1 & -> & H1). destruct b as [[isuser p]|]; [|by eexists _, _, _].
  destruct (with_sysd _ st1) as [pid st2] eqn:E2. eapply with_sysd_calm in E2 as H2; [|done|apply pid_of_dpath_mem].
  destruct (pid =? 0)%Z; by eexists _, _, _.
Qed.

Lemma terminate_mem runid uid (s : sd W bus) : mem s = [] -> mem (afm_urun_terminate runid uid s).2 = [].
Proof.
  intros Hs. unfold afm_urun_terminate. pose proof (stop_pid_mem true (u32 runid) false s Hs) as H1.
  destruct (systemd_unit_stop_pid true _ _ _) as [[rc j] s1]. simpl in H1. destruct (rc <? 0)%Z; [|done].
  pose proof (stop_pid_mem false (u32 runid) false s1 H1) as H2.
  by destruct (systemd_unit_stop_pid false _ _ _) as [[? ?] ?].
Qed.

End Calm.

(** ** The references of the database

    The objects of the runner are the private ones of [Udb], that its lists
    and its table share: their references are their positions. *)

Definition private_heap (l : list app) : list json := (fun a => JObj (a_priv a)) <$> l.

Definition numbered (l : list app) : list app :=
  imap (fun i a => App (a_id a) [([], JInt (Z.of_nat i))] [] (a_visible a)) l.

Definition ref_of (a : app) : nat := match a_priv a with (_, JInt z) :: _ => Z.to_nat z | _ => 0 end.

Definition database_of (l : list app) : Database := {|
  applications_private all_ := ref_of <$> (if all_ then numbered l else filter (fun a => a_visible a = true) (numbered l));
  get_application_private id := ref_of <$> find_app (index (numbered l)) id
|}.

(** the application [a] of [l] and its numbered image *)
Definition images (l : list app) (b a : app) : Prop :=
  a_id b = a_id a /\ a_visible b = a_visible a /\ private_heap l !! ref_of b = Some (JObj (a_priv a)).

Lemma images_numbered l : Forall2 (images l) (numbered l) l.
Proof.
  apply Forall2_same_length_lookup_2; [apply length_imap|]. intros i b a Hb Ha.
  unfold numbered in Hb. rewrite list_lookup_imap, Ha in Hb. injection Hb as <-.
  split; [done|]. split; [done|]. unfold ref_of, private_heap. simpl. by rewrite Nat2Z.id, list_lookup_fmap, Ha.
Qed.

Lemma images_put l b a ix jx :
  images l b a -> Forall2 (images l) ix jx -> Forall2 (images l) (put_app b ix) (put_app a jx).
Proof.
  intros Hab H. induction H as [|b' a' ix jx Hab' H IH]; simpl; [by constructor|].
  destruct Hab as (E & ? & ?), Hab' as (E' & ? & ?). rewrite E, E'. by destruct (beq _ _); constructor.
Qed.

Lemma images_fold l l1 l2 ix jx :
  Forall2 (images l) l1 l2 -> Forall2 (images l) ix jx ->
  Forall2 (images l) (foldl (fun ix a => put_app a ix) ix l1) (foldl (fun ix a => put_app a ix) jx l2).
Proof.
  intros Hl. revert ix jx. induction Hl as [|b a l1 l2 Hba Hl IH]; intros ix jx Hx; simpl; [done|].
  by apply IH, images_put.
Qed.

Lemma images_index l : Forall2 (images l) (index (numbered l)) (index l).
Proof. apply images_fold; [apply images_numbered|constructor]. Qed.

Lemma images_filter l (P : app -> Prop) `{!forall a, Decision (P a)} ix jx :
  (forall b a, images l b a -> P b <-> P a) -> Forall2 (images l) ix jx ->
  Forall2 (images l) (filter P ix) (filter P jx).
Proof.
  intros HP Hl. induction Hl as [|b a ix jx Hab Hl IH]; [done|]. rewrite !filter_cons. pose proof (HP b a Hab).
  repeat case_decide; [by constructor|naive_solver..|done].
Qed.

Lemma images_find l ix jx id :
  Forall2 (images l) ix jx -> option_Forall2 (images l) (find_app ix id) (find_app jx id).
Proof.
  intros H. unfold find_app.
  pose proof (images_filter l (fun a => a_id a = id) ix jx) as H1.
  pose proof (images_filter l (fun a => strcaseeq (a_id a) id = true) ix jx) as H2.
  assert (Forall2 (images l) (filter (fun a => a_id a = id) ix) (filter (fun a => a_id a = id) jx)) as Ha.
  { apply H1; [|done]. by intros b a [-> _]. }
  assert (Forall2 (images l) (filter (fun a => strcaseeq (a_id a) id = true) ix)
    (filter (fun a => strcaseeq (a_id a) id = true) jx)) as Hb.
  { apply H2; [|done]. by intros b a [-> _]. }
  clear -Ha Hb. destruct Ha; simpl; [|by constructor]. by destruct Hb; constructor.
Qed.

Lemma images_heap l ix jx :
  Forall2 (images l) ix jx -> (fun r => private_heap l !! r) <$> (ref_of <$> ix) = Some <$> ((fun a => JObj (a_priv a)) <$> jx).
Proof. induction 1 as [|b a ix jx (_ & _ & Hh) H IH]; [done|]. rewrite !fmap_cons, Hh. by f_equal. Qed.

(** The references are the ones of the objects that the database serves. *)
Lemma database_of_spec l :
  (forall all_, (fun r => private_heap l !! r) <$> @applications_private (database_of l) all_ =
     Some <$> afm_udb_applications_private (apps_of l) all_) /\
  (forall id, @get_application_private (database_of l) id ≫= (fun r => private_heap l !! r) =
     afm_udb_get_application_private (apps_of l) id).
Proof.
  split.
  - intros all_. simpl. unfold afm_udb_applications_private. simpl.
    destruct all_; apply images_heap; [apply images_numbered|].
    apply images_filter; [|apply images_numbered]. by intros b a (_ & -> & _).
  - intros id. unfold afm_udb_get_application_private. simpl. rewrite get_no_case_index.
    pose proof (images_find l _ _ id (images_index l)) as H. by inversion H as [b a (_ & _ & Hh)|].
Qed.

(** ** Example *)

Definition sample_bus : SdBus snapshot bool bytes := {|
  sd_bus_default_user w := (inr true, w);
  sd_bus_default_system w := (inr false, w);
  sd_bus_call_method b _ _ member args w :=
    (match args with
     | [Astring name] => match dpath_of w b name with Some p => inr (1%Z, p) | None => inl (- ENOENT)%Z end
     | [Auint pid] => match unit_of_pid w b pid with Some p => inr (1%Z, p) | None => inl (- ESRCH)%Z end
     | _ => inl (- EINVAL)%Z
     end, w);
  sd_bus_message_read_object m := inr (1%Z, m);
  sd_bus_message_read_units _ := inr [];
  sd_bus_get_property_uint b p _ _ w := (pid_of w b p, w);
  sd_bus_get_property_string b p _ _ w := (state_of w b p, w);
  nanosleep _ w := w
|}.

Lemma sample_laws : @SdLaws _ _ _ sample_bus eq id id.
Proof.
  split; try done.
  - intros [] w u <-; by eexists.
  - intros isuser name w u <-. exists w. simpl. destruct (dpath_of w (id isuser) name) eqn:E; eexists; by rewrite ?E.
  - intros isuser pid w u <-. exists w. simpl. destruct (unit_of_pid w (id isuser) pid) eqn:E; eexists; by rewrite ?E.
  - intros isuser p w u <-. by exists w.
  - intros isuser p w u <-. by exists w.
Qed.

#[local] Existing Instance sample_bus.
#[local] Existing Instance sample_laws.

Definition sample_app (id scope name : bytes) (visible : bool) : app :=
  App id [(B "id", JStr id); (B "unit-name", JStr name); (B "unit-scope", JStr scope)] [(B "id", JStr id)] visible.

(** an application of users and one of the system *)
Definition sample_apps : list app :=
  [sample_app (B "mail") (B "user") (B "afm-mail@.service") true;
   sample_app (B "web") (B "system") (B "afm-web.service") true].

(** both run for the user 1001, the processes of users being numbered 10 *)
Definition sample_units : snapshot := {|
  dpath_of isuser name :=
    if beq name (B "afm-mail@1001.service") then Some (B "/mail/1001")
    else if beq name (B "afm-web.service") then Some (B "/web") else None;
  unit_of_pid isuser pid :=
    if (pid =? 10)%Z && isuser then Some (B "/web") else if (pid =? 20)%Z && negb isuser then Some (B "/web") else None;
  pid_of isuser p := inr (if isuser then 10%Z else 20%Z);
  state_of isuser p := inr (B "active")
|}.

Definition sample_state : urun snapshot bool := Urun (private_heap sample_apps) (Sd None None sample_units []).

#[local] Existing Instance database_of.

Lemma sample_usable : usable eq id sample_units sample_state.
Proof. split; [split_and!; [reflexivity|reflexivity|by intros []]|]. repeat constructor. Qed.

Lemma get_basis_spec_witness :
  exists appli' s', get_basis (JObj (a_priv (sample_app (B "mail") (B "user") (B "afm-mail@.service") true))) 1001
      (Sd None None sample_units []) = Some (Some (true, B "/mail/1001"), appli', s') /\
    forall s2 : sd snapshot bool, get_basis appli' 1001 s2 = Some (Some (true, B "/mail/1001"), appli', s2).
Proof.
  destruct (get_basis_spec eq id id sample_units
    (JObj (a_priv (sample_app (B "mail") (B "user") (B "afm-mail@.service") true))) 1001 (Sd None None sample_units []))
    as (appli' & s' & E & _ & _ & _ & Hagain).
  - split; [reflexivity|]. split; [reflexivity|]. intros [] b; discriminate.
  - exact I.
  - reflexivity.
  - exists appli', s'. split; [exact E|]. apply Hagain. eexists. reflexivity.
Defined.

Lemma afm_urun_list_spec_witness :
  exists st', @afm_urun_list _ _ _ sample_bus (database_of sample_apps) true 1001 sample_state =
    Some (Some [describe (B "mail") 10 10; describe (B "web") 20 20], st').
Proof.
  destruct (@afm_urun_list_spec _ _ _ sample_bus (database_of sample_apps) eq id id sample_laws sample_units true 1001 sample_state)
    as (st' & E & _).
  - exact sample_usable.
  - reflexivity.
  - exists st'. exact E.
Defined.

(** The scope of the process is not compared: the state of the process 10 of
    a user, whose unit has the same path as the one of an application of the
    system, is told to be the one of this application. *)
Example state_of_other_scope :
  fst <$> @afm_urun_state _ _ _ sample_bus (database_of sample_apps) 10 1001 sample_state =
  Some (Some (describe (B "web") 10 20)).
Proof. vm_compute. reflexivity. Qed.

End urun.
