(* ===== verification/Binding.v ===== *)
(** * The verbs of the binding: [src/src/binding/afm-binding.c]

    The binder calls a verb for each request of a client. The parameters of
    the request are extracted, the permissions that they need are checked,
    what is in continuation passing style, and the action of the verb is
    performed on the database of applications or by the runner. The
    functions of the binder and of json-c are parameters. The private
    objects of the database are the ones of the heap of the runner, its
    public ones are never changed. The result [None] of a verb is a failed
    assertion or the use of a null pointer. *)
From S2P Require Import Prelude CString UnitFs Auth Jsonc UtilsJson Udb Systemd Urun.

Module binding.
Import unit_fs auth jsonc udb systemd urun.

(** ** Names *)

Definition _all_ : bytes := B "all".
Definition _applstchg_ : bytes := B "application-list-changed".
Definition _detail_ : bytes := B "detail".
Definition _id_ : bytes := B "id".
Definition _once_ : bytes := B "once".
Definition _pause_ : bytes := B "pause".
Definition _resume_ : bytes := B "resume".
Definition _runid_ : bytes := B "runid".
Definition _runnables_ : bytes := B "runnables".
Definition _runners_ : bytes := B "runners".
Definition _start_ : bytes := B "start".
Definition _state_ : bytes := B "state".
Definition _terminate_ : bytes := B "terminate".
Definition _uid_ : bytes := B "uid".
Definition _update_ : bytes := B "update".

(** ** Permissions *)

Definition REDPESK_PREFIX : bytes := B "urn:redpesk:permission:afm:system:".
Definition AGL_PREFIX : bytes := B "urn:AGL:permission:afm:system:".

Definition DEF_PERM (suffix : bytes) : auth_t :=
  Or (Permission (REDPESK_PREFIX ++ suffix)) (Permission (AGL_PREFIX ++ suffix)).

Definition auth_perm_widget : auth_t := DEF_PERM (B "widget").
Definition auth_perm_widget_detail : auth_t := DEF_PERM (B "widget:detail").
Definition auth_perm_widget_start : auth_t := DEF_PERM (B "widget:start").
Definition auth_perm_runner : auth_t := DEF_PERM (B "runner").
Definition auth_perm_runner_state : auth_t := DEF_PERM (B "runner:state").
Definition auth_perm_runner_kill : auth_t := DEF_PERM (B "runner:kill").
Definition auth_perm_view_all : auth_t := DEF_PERM (B "view-all").
Definition auth_perm_set_uid : auth_t := DEF_PERM (B "set-uid").

Definition auth_detail : auth_t := Or auth_perm_widget auth_perm_widget_detail.
Definition auth_start : auth_t := Or auth_perm_widget auth_perm_widget_start.
Definition auth_state : auth_t := Or auth_perm_runner auth_perm_runner_state.
Definition auth_kill : auth_t := Or auth_perm_runner auth_perm_runner_kill.

(** ** Parameters *)

Definition Param_UID : Z := 1.
Definition Param_All : Z := 2.
Definition Param_Id : Z := 4.
Definition Param_RunId : Z := 8.

Inductive param_status :=
  no_error | error_bad_request | error_not_found | error_not_running | error_forbidden | error_out_of_memory.

#[export] Instance param_status_eq : EqDecision param_status.
Proof. solve_decision. Defined.

(** [args] and [req] are the request, [action] is an argument apart *)
Record params := Params {
  status : param_status; required : Z; found : Z; uid : Z; runid : Z;
  id : option bytes  (** [None] is NULL *)
}.

Definition with_status (p : params) (s : param_status) : params :=
  Params s (required p) (found p) (uid p) (runid p) (id p).
Definition with_uid (p : params) (v : Z) : params := Params (status p) (required p) (found p) v (runid p) (id p).
Definition with_runid (p : params) (v : Z) : params := Params (status p) (required p) (found p) (uid p) v (id p).
Definition with_id (p : params) (v : option bytes) : params :=
  Params (status p) (required p) (found p) (uid p) (runid p) v.
Definition set_found (p : params) (m : Z) : params :=
  Params (status p) (required p) (Z.lor (found p) m) (uid p) (runid p) (id p).

Inductive errcode :=
  | AFB_ERRNO_INTERNAL_ERROR | AFB_ERRNO_OUT_OF_MEMORY | AFB_ERRNO_NO_ITEM | AFB_ERRNO_BAD_STATE
  | AFB_ERRNO_FORBIDDEN | AFB_ERRNO_INVALID_REQUEST.

(** what is replied: a JSON value or an error *)
Inductive reply := Reply_json (object : json) | Reply_error (errcode_ : errcode).

(** A request: the description of the client and the parameters, [JNull]
    when there is none, and the status that the binder gives for a
    permission. *)
Record request := Request { client_info : json; get_json_object : json; check : bytes -> Z }.

Definition NOBODY : Z := 99.

Section Binding.
Context (json_object_get_int : Z -> Z) (json_object_get_boolean : json -> bool)
  (json_object_get_string : json -> bytes).
Context {W bus message : Type} `{!SdBus W bus message} `{!Database}.
Context (afudb : afm_apps) (errno_left : urun W bus -> Z).

Record state := State { ur : urun W bus; replies : list reply }.

Definition with_ur (st : state) (u : urun W bus) : state := State u (replies st).
Definition set_mem (st : state) (o : oracle) : state :=
  with_ur st (Urun (heap (ur st)) (with_mem (sysd (ur st)) o)).

Definition afb_req_reply (r : reply) (st : state) : option state := Some (State (ur st) (replies st ++ [r])).

Definition reply_json_object (object : json) : state -> option state := afb_req_reply (Reply_json object).
Definition reply_error (c : errcode) : state -> option state := afb_req_reply (Reply_error c).
Definition reply_status (status : Z) : state -> option state :=
  if (0 <=? status)%Z then reply_json_object (JBool true) else reply_error AFB_ERRNO_INTERNAL_ERROR.
Definition bad_request : state -> option state := reply_error AFB_ERRNO_INVALID_REQUEST.
Definition forbidden_request : state -> option state := reply_error AFB_ERRNO_FORBIDDEN.
Definition out_of_memory : state -> option state := reply_error AFB_ERRNO_OUT_OF_MEMORY.
Definition not_found : state -> option state := reply_error AFB_ERRNO_NO_ITEM.
Definition not_running : state -> option state := reply_error AFB_ERRNO_BAD_STATE.
Definition cant_start : state -> option state := reply_error AFB_ERRNO_INTERNAL_ERROR.

Definition get_req_uid (req : request) : Z :=
  match object_get_ex (client_info req) (B "uid") with
  | Some (JInt z) =>
      let val := json_object_get_int z in
      if (0 <=? val)%Z && (val <=? 65534)%Z then val else NOBODY
  | _ => NOBODY
  end.

(** [json_object_get_string] of a value that may be null *)
Definition string_of (obj : json) : option bytes :=
  match obj with JNull => None | _ => Some (json_object_get_string obj) end.

(** the fields of an object, one after the other *)
Definition extract_uid (args : json) (p : params) : params :=
  match object_get_ex args _uid_ with
  | None => p
  | Some (JInt z) =>
      let id := json_object_get_int z in
      if (id <? 0)%Z then with_status p error_bad_request
      else if (uid p =? id)%Z then p else set_found (with_uid p id) Param_UID
  | Some _ => with_status p error_bad_request
  end.

Definition extract_all (args : json) (expected : Z) (p : params) : params :=
  if has_flag expected Param_All then
    match object_get_ex args _all_ with
    | Some obj => if json_object_get_boolean obj then set_found p Param_All else p
    | None => p
    end
  else p.

Definition extract_id (args : json) (expected : Z) (p : params) : params :=
  if has_flag expected (Z.lor Param_Id Param_RunId) then
    match object_get_ex args _id_ with
    | Some obj => set_found (with_id p (string_of obj)) Param_Id
    | None => p
    end
  else p.

Definition extract_runid (args : json) (expected : Z) (p : params) : params :=
  if has_flag expected Param_RunId then
    match object_get_ex args _runid_ with
    | Some (JInt z) => set_found (with_runid p (json_object_get_int z)) Param_RunId
    | Some _ => with_status p error_bad_request
    | None => p
    end
  else p.

(** the parameters of [calloc], with [required] set *)
Definition extract_params (req : request) (required_ optional : Z) : params :=
  let expected := Z.lor optional required_ in
  let p := Params no_error required_ 0 (get_req_uid req) 0 None in
  match get_json_object req with
  | JInt z =>
      if has_flag expected Param_RunId then set_found (with_runid p (json_object_get_int z)) Param_RunId else p
  | JStr s =>
      if has_flag expected (Z.lor Param_Id Param_RunId) then set_found (with_id p (Some s)) Param_Id else p
  | JObj l =>
      extract_runid (JObj l) expected (extract_id (JObj l) expected (extract_all (JObj l) expected (extract_uid (JObj l) p)))
  | _ => p
  end.

(** ** Checks *)

Definition check_final (action : params -> state -> option state) (p : params) (st : state) : option state :=
  if bool_decide (status p = no_error) && (Z.land (required p) (found p) =? required p)%Z then action p st
  else
    match status p with
    | error_not_found => not_found st
    | error_not_running => not_running st
    | error_forbidden => forbidden_request st
    | error_out_of_memory => out_of_memory st
    | _ => bad_request st
    end.

Definition check_runid (action : params -> state -> option state) (p : params) (st : state) : option state :=
  if bool_decide (status p = no_error) && has_flag (required p) Param_RunId &&
     (Z.land (found p) (Z.lor Param_RunId Param_Id) =? Param_Id)%Z then
    match id p with
    | None => None
    | Some i =>
        match afm_urun_search_runid i (uid p) (ur st) with
        | None => None
        | Some (rc, e, u) =>
            let st := with_ur st u in
            check_final action
              (if (rc <? 0)%Z then
                 with_status p (if (default (errno_left u) e =? ESRCH)%Z then error_not_running else error_not_found)
               else set_found (with_runid p rc) Param_RunId) st
        end
    end
  else check_final action p st.

Definition has_auth_cb (status_ : Z) (p : params) : params :=
  if (status_ =? - ENOMEM)%Z then with_status p error_out_of_memory
  else if (status_ <=? 0)%Z then with_status p error_forbidden else p.

Definition has_auth (req : request) (p : params) (auth : auth_t) (callback : params -> state -> option state)
    (st : state) : option state :=
  let o := mem (sysd (ur st)) in
  match auth_check (check req) (2 + cost auth) auth o with
  | None => None
  | Some status_ => callback (has_auth_cb status_ p) (set_mem st (malloc o).2)
  end.

Definition check_permission_all (req : request) (action : params -> state -> option state) (p : params) (st : state)
  : option state :=
  if negb (bool_decide (status p = no_error)) || negb (has_flag (found p) Param_All) then check_runid action p st
  else has_auth req p auth_perm_view_all (check_runid action) st.

Definition check_permission_uid (req : request) (action : params -> state -> option state) (p : params) (st : state)
  : option state :=
  if negb (bool_decide (status p = no_error)) || negb (has_flag (found p) Param_UID)
  then check_permission_all req action p st
  else has_auth req p auth_perm_set_uid (check_permission_all req action) st.

Definition with_params (req : request) (required_ optional : Z) (action : params -> state -> option state)
    (st : state) : option state :=
  let '(ok, o) := malloc (mem (sysd (ur st))) in
  let st := set_mem st o in
  if negb ok then out_of_memory st
  else check_permission_uid req action (extract_params req required_ optional) st.

(** ** Verbs *)

Definition all_of (p : params) : bool := has_flag (found p) Param_All.

Definition a_runnables (p : params) (st : state) : option state :=
  reply_json_object (JArr (afm_udb_applications_public afudb (all_of p))) st.
Definition v_runnables (req : request) := with_params req 0 Param_All a_runnables.

Definition a_detail (p : params) (st : state) : option state :=
  match id p with
  | None => None
  | Some i =>
      match afm_udb_get_application_public afudb i with
      | Some resp => reply_json_object resp st
      | None => not_found st
      end
  end.
Definition v_detail (req : request) := with_params req Param_Id 0 a_detail.

(** the private object of the application, run once *)
Definition run_application (p : params) (st : state) (k : Z -> state -> option state) : option state :=
  match id p with
  | None => None
  | Some i =>
      match get_application_private i with
      | None => not_found st
      | Some r =>
          match afm_urun_once (default JNull (heap (ur st) !! r)) (uid p) (sysd (ur st)) with
          | None => None
          | Some (rc, appli, s) =>
              let st := with_ur st (Urun (<[r := appli]> (heap (ur st))) s) in
              if (rc <? 0)%Z then cant_start st else k rc st
          end
      end
  end.

Definition a_start (p : params) (st : state) : option state :=
  run_application p st (fun runid_ st =>
    if (runid_ =? 0)%Z then reply_json_object JNull st
    else
      let '(ok, o) := malloc (mem (sysd (ur st))) in
      reply_json_object (if ok then JInt runid_ else JNull) (set_mem st o)).
Definition v_start (req : request) := with_params req Param_Id 0 a_start.

Definition a_once (p : params) (st : state) : option state :=
  run_application p st (fun runid_ st =>
    if (runid_ =? 0)%Z then reply_json_object JNull st
    else
      match afm_urun_state runid_ (uid p) (ur st) with
      | None => None
      | Some (resp, u) => reply_json_object (default JNull resp) (with_ur st u)
      end).
Definition v_once (req : request) := with_params req Param_Id 0 a_once.

Definition a_pause (p : params) (st : state) : option state := reply_status (afm_urun_pause (runid p) (uid p)) st.
Definition v_pause (req : request) := with_params req Param_RunId 0 a_pause.

Definition a_resume (p : params) (st : state) : option state := reply_status (afm_urun_resume (runid p) (uid p)) st.
Definition v_resume (req : request) := with_params req Param_RunId 0 a_resume.

Definition a_terminate (p : params) (st : state) : option state :=
  let '(status_, s) := afm_urun_terminate (runid p) (uid p) (sysd (ur st)) in
  reply_status status_ (with_ur st (Urun (heap (ur st)) s)).
Definition v_terminate (req : request) := with_params req Param_RunId 0 a_terminate.

Definition a_runners (p : params) (st : state) : option state :=
  match afm_urun_list (all_of p) (uid p) (ur st) with
  | None => None
  | Some (resp, u) => reply_json_object (match resp with Some l => JArr l | None => JNull end) (with_ur st u)
  end.
Definition v_runners (req : request) := with_params req 0 Param_All a_runners.

Definition a_state (p : params) (st : state) : option state :=
  match afm_urun_state (runid p) (uid p) (ur st) with
  | None => None
  | Some (Some resp, u) => reply_json_object resp (with_ur st u)
  | Some (None, u) => reply_error AFB_ERRNO_INTERNAL_ERROR (with_ur st u)
  end.
Definition v_state (req : request) := with_params req Param_RunId 0 a_state.

(** name, function and authorisation, that the binder checks before *)
Definition verbs : list (bytes * (request -> state -> option state) * auth_t) :=
  [(_runnables_, v_runnables, auth_detail); (_detail_, v_detail, auth_detail);
   (_start_, v_start, auth_start); (_once_, v_once, auth_start);
   (_terminate_, v_terminate, auth_kill); (_pause_, v_pause, auth_kill); (_resume_, v_resume, auth_kill);
   (_runners_, v_runners, auth_state); (_state_, v_state, auth_state)].

End Binding.

(** ** The database *)

Section Update.
Context (json_get_string : json -> bytes) (rp_file_get : bytes -> Z + bytes)
  (afm_units_root : bytes) (opendir : bytes -> directory) (afb_api_new_event : bytes -> Z).

(** the event "application-list-changed" *)
Record event := Event { operation : bytes; event_data : bytes }.

Definition application_list_changed (operation_ data : bytes) (sent : list event) : list event :=
  sent ++ [Event operation_ data].

Definition onsighup (afudb : afm_udb) (sent : list event) (o : oracle) : option afm_udb * list event * oracle :=
  let '(_, afudb, o) := afm_udb_update json_get_string rp_file_get afm_units_root opendir afudb o in
  (afudb, application_list_changed _update_ _update_ sent, o).

Definition init (o : oracle) : Z * option afm_udb * oracle :=
  match afm_udb_create json_get_string rp_file_get afm_units_root opendir true false (Some (B "afm-")) o with
  | (None, o) => ((-1)%Z, None, o)
  | (Some afudb, o) => (afb_api_new_event _applstchg_, Some afudb, o)
  end.

End Update.

(** ** What a request is allowed to do *)

Section Safety.
Context (json_object_get_int : Z -> Z) (json_object_get_boolean : json -> bool)
  (json_object_get_string : json -> bytes).
Context {W bus message : Type} `{sb : !SdBus W bus message} `{db : !Database}.
Context (afudb : afm_apps) (errno_left : urun W bus -> Z).

Abbreviation extract := (extract_params json_object_get_int json_object_get_boolean json_object_get_string).
Abbreviation req_uid := (get_req_uid json_object_get_int).
Abbreviation run_verb := (with_params json_object_get_int json_object_get_boolean json_object_get_string errno_left).
Abbreviation action_type := (params -> state -> option (@state W bus)).

(** what the extraction found of the user and of the identifier *)
Definition extracted (req : request) (p : params) : Prop :=
  (uid p = req_uid req \/ has_flag (found p) Param_UID = true) /\
  (object_get_ex (get_json_object req) _id_ <> Some JNull -> has_flag (found p) Param_Id = true -> is_Some (id p)).

Lemma extracted_found req p m :
  has_flag m Param_Id = false -> extracted req p -> extracted req (set_found p m).
Proof. intros Hm [Hu Hi]. split; simpl; rewrite has_flag_lor; [|rewrite Hm, orb_false_r; done]. destruct Hu as [?| ->]; auto. Qed.

Lemma extract_params_extracted req required_ optional :
  extracted req (extract req required_ optional) /\ required (extract req required_ optional) = required_.
Proof.
  unfold extract_params. set (p0 := Params _ _ _ _ _ _).
  assert (H0 : extracted req p0) by (split; [by left|done]).
  destruct (get_json_object req) as [| |z|s| |l] eqn:Ea; try done.
  - case_match; [|done]. split; [|done]. by apply extracted_found.
  - case_match; [|done]. split; [|done]. split; simpl; [by left|by eexists].
  - assert (H1 : extracted req (extract_uid json_object_get_int (JObj l) p0) /\
      required (extract_uid json_object_get_int (JObj l) p0) = required_).
    { unfold extract_uid. destruct (object_get_ex _ _) as [[]|]; try done.
      case_match; [done|]. case_match; [done|]. split; [|done]. split; [by right|done]. }
    destruct H1 as [H1 R1]. set (p1 := extract_uid _ _ _) in *.
    assert (H2 : extracted req (extract_all json_object_get_boolean (JObj l) (Z.lor optional required_) p1) /\
      required (extract_all json_object_get_boolean (JObj l) (Z.lor optional required_) p1) = required_).
    { unfold extract_all. case_match; [|done]. destruct (object_get_ex _ _); [|done]. case_match; [|done].
      split; [by apply extracted_found|done]. }
    destruct H2 as [H2 R2]. set (p2 := extract_all _ _ _ _) in *.
    assert (H3 : extracted req (extract_id json_object_get_string (JObj l) (Z.lor optional required_) p2) /\
      required (extract_id json_object_get_string (JObj l) (Z.lor optional required_) p2) = required_).
    { unfold extract_id. case_match; [|done]. destruct (object_get_ex (JObj l) _id_) as [obj|] eqn:Ei; [|done].
      split; [|done]. destruct H2 as [Hu _]. split; simpl.
      - rewrite has_flag_lor. destruct Hu as [?| ->]; auto.
      - rewrite Ea. intros Hn _. destruct obj; simpl; [by destruct Hn|by eexists..]. }
    destruct H3 as [H3 R3]. set (p3 := extract_id _ _ _ _) in *.
    unfold extract_runid. case_match; [|done]. destruct (object_get_ex _ _runid_) as [[]|]; try done.
    split; [by apply extracted_found|done].
Qed.

(** the status of a check tells no more than the permissions *)
Lemma has_auth_cases req p auth k (st : @state W bus) :
  exists p' st', has_auth req p auth k st = k p' st' /\ replies st' = replies st /\
    (p' = p /\ eval (check req) auth = true \/
     (p' = with_status p error_forbidden \/ p' = with_status p error_out_of_memory)) /\
    heap (ur st') = heap (ur st) /\ (mem (sysd (ur st)) = [] -> mem (sysd (ur st')) = []).
Proof.
  unfold has_auth. destruct (auth_check_cases (check req) auth (mem (sysd (ur st))) (2 + cost auth)) as (s & -> & Hs & _);
    [done|]. eexists _, _. split; [done|]. split; [done|]. split; [|split; [done|]; by simpl; intros ->].
  unfold has_auth_cb. destruct (Z.eqb_spec s (- ENOMEM)); [auto|]. destruct (Z.leb_spec s 0); [auto|].
  left. split; [done|]. apply Hs. lia.
Qed.

Definition allowed (req : request) (p : params) : Prop :=
  status p = no_error /\ Z.land (required p) (found p) = required p /\
  (uid p = req_uid req \/ eval (check req) auth_perm_set_uid = true) /\
  (has_flag (found p) Param_All = true -> eval (check req) auth_perm_view_all = true).

(** the action is performed with allowed parameters, or an error is replied *)
Definition guarded (req : request) (required_ : Z) (action : action_type) (st : @state W bus) (r : option (@state W bus)) : Prop :=
  (exists p (st1 : @state W bus), r = action p st1 /\ allowed req p /\ required p = required_ /\ replies st1 = replies st) \/
  (exists c (st1 : @state W bus), r = Some st1 /\ replies st1 = replies st ++ [Reply_error c]) \/ r = None.

Lemma check_final_guarded req action p (st0 st : @state W bus) :
  (status p = no_error -> (uid p = req_uid req \/ eval (check req) auth_perm_set_uid = true) /\
     (has_flag (found p) Param_All = true -> eval (check req) auth_perm_view_all = true)) ->
  replies st = replies st0 -> guarded req (required p) action st0 (check_final action p st).
Proof.
  intros Hp Hst. unfold check_final. destruct (bool_decide_reflect (status p = no_error)) as [Hs|Hs]; simpl.
  - destruct (Z.eqb_spec (Z.land (required p) (found p)) (required p)) as [Hr|Hr].
    + left. exists p, st. split; [done|]. split; [|done]. destruct (Hp Hs). by split_and!.
    + right. left. rewrite Hs. eexists _, _. split; [done|]. simpl. by rewrite Hst.
  - right. left. destruct (status p); (eexists _, _; split; [done|]; simpl; by rewrite Hst).
Qed.

Lemma check_runid_guarded req action p (st0 st : @state W bus) :
  (status p = no_error -> (uid p = req_uid req \/ eval (check req) auth_perm_set_uid = true) /\
     (has_flag (found p) Param_All = true -> eval (check req) auth_perm_view_all = true)) ->
  replies st = replies st0 -> guarded req (required p) action st0 (check_runid errno_left action p st).
Proof.
  intros Hp Hst. unfold check_runid. case_match; [|by apply check_final_guarded].
  destruct (id p) as [i|]; [|by right; right].
  destruct (afm_urun_search_runid i (uid p) (ur st)) as [[[rc e] u]|]; [|by right; right].
  destruct (rc <? 0)%Z.
  - by case_match; apply (check_final_guarded req action (with_status p _)).
  - apply (check_final_guarded req action (set_found (with_runid p rc) Param_RunId)); [|done].
    simpl. intros Hs. destruct (Hp Hs) as [? Hall]. split; [done|]. rewrite has_flag_lor, orb_false_r. done.
Qed.

Lemma check_all_guarded req action p (st0 st : @state W bus) :
  (status p = no_error -> uid p = req_uid req \/ eval (check req) auth_perm_set_uid = true) ->
  replies st = replies st0 -> guarded req (required p) action st0 (check_permission_all errno_left req action p st).
Proof.
  intros Hp Hst. unfold check_permission_all.
  destruct (bool_decide_reflect (status p = no_error)) as [Hs|Hs]; simpl; [|by apply check_runid_guarded].
  destruct (has_flag (found p) Param_All) eqn:Ef; simpl.
  2: { apply check_runid_guarded; [|done]. intros _. split; [by apply Hp|]. by rewrite Ef. }
  destruct (has_auth_cases req p auth_perm_view_all (check_runid errno_left action) st)
    as (p' & st' & -> & Hst' & [[-> Hv]|Hp'] & _).
  - apply check_runid_guarded; [|congruence]. intros _. split; [by apply Hp|done].
  - destruct Hp' as [-> | ->]; (apply (check_runid_guarded req action (with_status p _)); [done|congruence]).
Qed.


(** ** Every request is answered *)

(** a reply is sent, only one, and memory does not lack after *)
Definition replied (st : @state W bus) (r : option (@state W bus)) : Prop :=
  exists st' x, r = Some st' /\ calm (ur st') /\ replies st' = replies st ++ [x].

Lemma replied_reply x (st0 st : @state W bus) :
  calm (ur st) -> replies st = replies st0 -> replied st0 (afb_req_reply x st).
Proof. intros Hc Hr. eexists _, x. split; [done|]. split; [done|]. simpl. by rewrite Hr. Qed.

Definition id_known (p : params) : Prop := has_flag (found p) Param_Id = true -> is_Some (id p).

(** an action that replies when it is given what it requires *)
Definition replying (required_ : Z) (action : action_type) : Prop :=
  forall p st, calm (ur st) -> Z.land required_ (found p) = required_ -> id_known p -> replied st (action p st).

Lemma replied_same (st st0 : @state W bus) r : replies st = replies st0 -> replied st r -> replied st0 r.
Proof. intros Hr (st' & x & -> & Hc & Hx). exists st', x. by rewrite <-Hr. Qed.

Lemma check_final_replied required_ action p (st : @state W bus) :
  replying required_ action -> required p = required_ -> id_known p -> calm (ur st) ->
  replied st (check_final action p st).
Proof.
  intros Ha <- Hid Hc. unfold check_final.
  destruct (bool_decide (status p = no_error)), (Z.eqb_spec (Z.land (required p) (found p)) (required p)); simpl;
    [by apply Ha|destruct (status p)..]; by apply replied_reply.
Qed.

Lemma check_runid_replied required_ action p (st : @state W bus) :
  replying required_ action -> required p = required_ -> id_known p -> calm (ur st) ->
  replied st (check_runid errno_left action p st).
Proof.
  intros Ha Hreq Hid Hc. unfold check_runid. case_match eqn:Hb; [|by apply (check_final_replied required_)].
  apply andb_true_iff in Hb as [_ Hb]. apply Z.eqb_eq in Hb.
  destruct Hid as [i Hi].
  { unfold has_flag. change Param_Id with (Z.land (Z.lor Param_RunId Param_Id) Param_Id). by rewrite Z.land_assoc, Hb. }
  rewrite Hi. destruct (search_calm i (uid p) (ur st) Hc) as (rc & e & u & -> & Hu).
  apply (replied_same (with_ur st u)); [done|]. apply (check_final_replied required_); [done| | |done].
  - by destruct (rc <? 0)%Z; [case_match|].
  - intros _. destruct (rc <? 0)%Z; [case_match|]; simpl; rewrite Hi; by eexists.
Qed.

Lemma check_all_replied required_ req action p (st : @state W bus) :
  replying required_ action -> required p = required_ -> id_known p -> calm (ur st) ->
  replied st (check_permission_all errno_left req action p st).
Proof.
  intros Ha Hreq Hid Hc. unfold check_permission_all.
  destruct (negb _ || _); [by apply (check_runid_replied required_)|].
  destruct (has_auth_cases req p auth_perm_view_all (check_runid errno_left action) st)
    as (p' & st' & -> & Hst' & Hp' & Hh & Hm). apply (replied_same st'); [done|].
  assert (Hc' : calm (ur st')) by (destruct Hc as [Hm0 Hh0]; split; [auto|by rewrite Hh]).
  apply (check_runid_replied required_); naive_solver.
Qed.

Lemma with_params_replied req required_ optional action (st : @state W bus) :
  replying required_ action -> object_get_ex (get_json_object req) _id_ <> Some JNull -> calm (ur st) ->
  replied st (run_verb req required_ optional action st).
Proof.
  intros Ha Hn Hc. unfold with_params. pose proof Hc as [Hm Hh]. rewrite Hm. simpl.
  assert (Hc0 : calm (ur (set_mem st []))) by by split.
  apply (replied_same (set_mem st [])); [done|].
  destruct (extract_params_extracted req required_ optional) as [[_ Hid] Hreq]. specialize (Hid Hn).
  revert Hid Hreq. generalize (extract req required_ optional) as p. intros p Hid Hreq.
  unfold check_permission_uid. destruct (negb _ || _); [by apply (check_all_replied required_)|].
  destruct (has_auth_cases req p auth_perm_set_uid (check_permission_all errno_left req action) (set_mem st []))
    as (p' & st' & -> & Hst' & Hp' & Hh' & Hm'). apply (replied_same st'); [done|].
  assert (Hc' : calm (ur st')) by (split; [auto|by rewrite Hh']).
  apply (check_all_replied required_); naive_solver.
Qed.

Lemma id_required p : Z.land Param_Id (found p) = Param_Id -> id_known p -> is_Some (id p).
Proof. intros Hf Hid. apply Hid. unfold has_flag. by rewrite Z.land_comm, Hf. Qed.

Lemma run_application_replied p (st : @state W bus) k :
  calm (ur st) -> Z.land Param_Id (found p) = Param_Id -> id_known p ->
  (forall rc st1, calm (ur st1) -> replied st1 (k rc st1)) -> replied st (run_application p st k).
Proof.
  intros Hc Hf Hid Hk. unfold run_application. destruct (id_required p Hf Hid) as [i ->].
  destruct (get_application_private i) as [r|]; [|by apply replied_reply]. destruct Hc as [Hm Hh].
  destruct (once_calm (default JNull (heap (ur st) !! r)) (uid p) (sysd (ur st))) as (rc & appli & s & -> & Hs & Ht); [done| |].
  { destruct (heap (ur st) !! r) as [a|] eqn:E; [|done]. by eapply Forall_lookup_1 in Hh. }
  assert (calm (Urun (<[r:=appli]> (heap (ur st))) s)) by (split; [done|]; by apply Forall_insert).
  destruct (rc <? 0)%Z; [by apply replied_reply|].
  apply (replied_same (with_ur st (Urun (<[r:=appli]> (heap (ur st))) s))); [done|]. by apply Hk.
Qed.

Lemma actions_replying :
  replying 0 (a_runnables afudb) /\ replying Param_Id (a_detail afudb) /\
  replying Param_Id a_start /\ replying Param_Id a_once /\ replying Param_RunId a_pause /\
  replying Param_RunId a_resume /\ replying Param_RunId a_terminate /\ replying 0 a_runners /\
  replying Param_RunId a_state.
Proof.
  split_and!; intros p st Hc Hf Hid.
  - by apply replied_reply.
  - unfold a_detail. destruct (id_required p Hf Hid) as [i ->].
    destruct (afm_udb_get_application_public afudb i); by apply replied_reply.
  - apply run_application_replied; [done..|]. intros rc st1 H1. destruct (rc =? 0)%Z; [by apply replied_reply|].
    destruct H1 as [Hm Hh]. rewrite Hm. simpl. apply replied_reply; [by split|done].
  - apply run_application_replied; [done..|]. intros rc st1 H1. destruct (rc =? 0)%Z; [by apply replied_reply|].
    destruct (state_calm rc (uid p) (ur st1) H1) as (v & u & -> & Hu). by apply replied_reply.
  - by apply replied_reply.
  - by apply replied_reply.
  - unfold a_terminate. pose proof (terminate_mem (runid p) (uid p) (sysd (ur st))) as Hm.
    destruct Hc as [Hm0 Hh]. specialize (Hm Hm0). destruct (afm_urun_terminate _ _ _) as [rc s].
    unfold reply_status. destruct (0 <=? rc)%Z; apply replied_reply; by try split.
  - unfold a_runners. destruct (list_calm (all_of p) (uid p) (ur st) Hc) as (v & u & -> & Hu). by apply replied_reply.
  - unfold a_state. destruct (state_calm (runid p) (uid p) (ur st) Hc) as ([v|] & u & -> & Hu); by apply replied_reply.
Qed.

(** C17: each verb of the binding ends and sends exactly one reply to its
    request, when memory does not lack and the identifier given, if any, is
    not null; the state that it leaves is such that the next requests are
    answered too. *)
Theorem verbs_reply req name verb auth (st : @state W bus) :
  (name, verb, auth) ∈ verbs json_object_get_int json_object_get_boolean json_object_get_string afudb errno_left ->
  object_get_ex (get_json_object req) _id_ <> Some JNull -> calm (ur st) ->
  exists st' x, verb req st = Some st' /\ replies st' = replies st ++ [x] /\ calm (ur st').
Proof.
  intros Hv Hn Hc. assert (replied st (verb req st)) as (st' & x & ? & ? & ?); [|by exists st', x].
  destruct actions_replying as (H1 & H2 & H3 & H4 & H5 & H6 & H7 & H8 & H9).
  unfold verbs in Hv. repeat (apply elem_of_cons in Hv as [Hv|Hv]; [injection Hv as _ -> _; by apply with_params_replied|]).
  by apply not_elem_of_nil in Hv.
Qed.

End Safety.

(** ** Example *)

Definition sample_int (z : Z) : Z := z.
Definition sample_boolean (j : json) : bool := match j with JBool b => b | _ => false end.
Definition sample_text (j : json) : bytes := match j with JStr s => s | _ => [] end.
Definition sample_errno (u : urun.urun snapshot bool) : Z := 0.

(** a request of the user 1001, who has one permission *)
Definition sample_request (args : json) : request :=
  Request (JObj [(B "uid", JInt 1001)]) args (fun p => if beq p (REDPESK_PREFIX ++ B "runner") then 1 else 0)%Z.

Definition sample_binding : @state snapshot bool := State sample_state [].

#[local] Existing Instance sample_bus.
#[local] Instance sample_db : Database := database_of sample_apps.

Lemma sample_calm : calm (ur sample_binding).
Proof. split; [reflexivity|]. repeat constructor. Qed.

Lemma verbs_reply_witness :
  exists st' x, v_runners sample_int sample_boolean sample_text sample_errno (sample_request JNull) sample_binding = Some st' /\
    replies st' = [x].
Proof.
  destruct (verbs_reply sample_int sample_boolean sample_text (apps_of sample_apps) sample_errno (sample_request JNull)
    _runners_ (v_runners sample_int sample_boolean sample_text sample_errno) auth_state sample_binding)
    as (st' & x & E & Hr & _).
  - unfold verbs. do 7 right. left.
  - discriminate.
  - exact sample_calm.
  - exists st', x. split; [exact E|exact Hr].
Defined.

(** the applications that run for the user, and for another one *)
Example runners_of_user :
  replies <$> v_runners sample_int sample_boolean sample_text sample_errno (sample_request JNull) sample_binding =
  Some [Reply_json (JArr [describe (B "mail") 10 10; describe (B "web") 20 20])].
Proof. vm_compute. reflexivity. Qed.

Example runners_of_other :
  replies <$> v_runners sample_int sample_boolean sample_text sample_errno
    (sample_request (JObj [(B "uid", JInt 0)])) sample_binding = Some [Reply_error AFB_ERRNO_FORBIDDEN].
Proof. vm_compute. reflexivity. Qed.

(** the identifier is null: the null pointer is used *)
Example null_identifier :
  v_detail sample_int sample_boolean sample_text (apps_of sample_apps) sample_errno
    (sample_request (JObj [(B "id", JNull)])) sample_binding = None.
Proof. vm_compute. reflexivity. Qed.

End binding.
