(* ===== verification/SecLsm.v ===== *)
(** * The security manager: interface of the library [sec-lsm-manager] and
    its wrapper [src/src/secmgr/secmgr-wrap.c]

    The library is not part of the sources: its functions are the class
    [Slm], and the class [SlmSpec] states what its documentation tells. A
    handle gathers a session, the identifier and the items of a package,
    that has an effect on the policy of the system when it is committed. *)
From S2P Require Import Prelude.

Module sec_lsm.

(** ** The library *)

(** [M] is the state of the library, [Hd] the type of its handles; a null
    handle is [None]. [sec_lsm_manager_create] may write a handle. *)
Class Slm (M Hd : Type) := {
  sec_lsm_manager_create : M -> M * option Hd * Z;
  sec_lsm_manager_destroy : M -> option Hd -> M;
  sec_lsm_manager_set_id : M -> option Hd -> bytes -> M * Z;
  sec_lsm_manager_add_path : M -> option Hd -> bytes -> option bytes -> M * Z;
  sec_lsm_manager_add_permission : M -> option Hd -> bytes -> M * Z;
  sec_lsm_manager_add_plug : M -> option Hd -> bytes -> bytes -> bytes -> M * Z;
  sec_lsm_manager_install : M -> option Hd -> M * Z;
  sec_lsm_manager_uninstall : M -> option Hd -> M * Z
}.

Inductive item :=
| Path (path slm_type : bytes)
| Permission (permission : bytes)
| Plug_item (exportdir importid importdir : bytes).

Record session := mk_session { session_id : option bytes; session_items : list item }.

Definition add_item (x : item) (s : session) : session :=
  mk_session (session_id s) (session_items s ++ [x]).

(** A status that is not negative tells that the function did its work; only
    the functions that install and uninstall change the policy. *)
Class SlmSpec (M Hd P : Type) `{Slm M Hd} := {
  policy : M -> P;
  content : M -> Hd -> session;
  commit : bool -> session -> P -> P;
  create_spec m :
    let '(m', h, rc) := sec_lsm_manager_create m in
    policy m' = policy m /\
    if (rc <? 0)%Z then h = None else exists x, h = Some x /\ content m' x = mk_session None [];
  destroy_spec m x : policy (sec_lsm_manager_destroy m (Some x)) = policy m;
  set_id_spec m x id :
    let '(m', rc) := sec_lsm_manager_set_id m (Some x) id in
    policy m' = policy m /\
    ((0 <= rc)%Z -> content m' x = mk_session (Some id) (session_items (content m x)));
  add_path_spec m x p t :
    let '(m', rc) := sec_lsm_manager_add_path m (Some x) p (Some t) in
    policy m' = policy m /\ ((0 <= rc)%Z -> content m' x = add_item (Path p t) (content m x));
  add_permission_spec m x p :
    let '(m', rc) := sec_lsm_manager_add_permission m (Some x) p in
    policy m' = policy m /\ ((0 <= rc)%Z -> content m' x = add_item (Permission p) (content m x));
  add_plug_spec m x e i d :
    let '(m', rc) := sec_lsm_manager_add_plug m (Some x) e i d in
    policy m' = policy m /\ ((0 <= rc)%Z -> content m' x = add_item (Plug_item e i d) (content m x));
  install_spec m x :
    let '(m', rc) := sec_lsm_manager_install m (Some x) in
    (0 <= rc)%Z -> policy m' = commit true (content m x) (policy m);
  uninstall_spec m x :
    let '(m', rc) := sec_lsm_manager_uninstall m (Some x) in
    (0 <= rc)%Z -> policy m' = commit false (content m x) (policy m)
}.

(** ** The wrapper

    The static handle, [errno] and the library. [None] is the failure of an
    assertion. *)
Section Wrap.
Context {M Hd : Type} `{Slm M Hd}.

Record wrap := mk_wrap { sm_handle : option Hd; errno : Z; library : M }.

Definition retcode (w : wrap) (rc : Z) : Z * wrap :=
  (rc, if (rc <? 0)%Z then mk_wrap (sm_handle w) (- rc) (library w) else w).

Definition secmgr_end (w : wrap) : wrap :=
  match sm_handle w with
  | Some _ => mk_wrap None (errno w) (sec_lsm_manager_destroy (library w) (sm_handle w))
  | None => w
  end.

Definition secmgr_begin (id : option bytes) (w : wrap) : Z * wrap :=
  match sm_handle w with
  | Some _ => ((- EBUSY)%Z, w)
  | None =>
      let '(m, h, rc) := sec_lsm_manager_create (library w) in
      let w := mk_wrap h (errno w) m in
      if (rc <? 0)%Z then retcode w rc
      else
        match id with
        | None => retcode w rc
        | Some id =>
            let '(m, rc) := sec_lsm_manager_set_id m h id in
            let w := mk_wrap h (errno w) m in
            if (rc <? 0)%Z then retcode (secmgr_end w) rc else retcode w rc
        end
  end.

(** a function on an existing handle *)
Definition on_handle (f : M -> option Hd -> M * Z) (w : wrap) : option (Z * wrap) :=
  match sm_handle w with
  | None => None
  | Some _ =>
      let '(m, rc) := f (library w) (sm_handle w) in
      Some (retcode (mk_wrap (sm_handle w) (errno w) m) rc)
  end.

Definition secmgr_install : wrap -> option (Z * wrap) := on_handle sec_lsm_manager_install.
Definition secmgr_uninstall : wrap -> option (Z * wrap) := on_handle sec_lsm_manager_uninstall.
Definition secmgr_permit (permission : bytes) : wrap -> option (Z * wrap) :=
  on_handle (fun m h => sec_lsm_manager_add_permission m h permission).
Definition secmgr_path (pathname pathtype : bytes) : wrap -> option (Z * wrap) :=
  on_handle (fun m h => sec_lsm_manager_add_path m h pathname (Some pathtype)).
Definition secmgr_plug (expdir impid impdir : bytes) : wrap -> option (Z * wrap) :=
  on_handle (fun m h => sec_lsm_manager_add_plug m h expdir impid impdir).

End Wrap.
#[global] Arguments wrap : clear implicits.

(** ** A session through the wrapper *)
Section Session.
Context {M Hd P : Type} `{SlmSpec M Hd P}.
Implicit Types w : wrap M Hd.

Definition add (x : item) : wrap M Hd -> option (Z * wrap M Hd) :=
  match x with
  | Path p t => secmgr_path p t
  | Permission p => secmgr_permit p
  | Plug_item e i d => secmgr_plug e i d
  end.

(** adding items up to the first that fails *)
Fixpoint add_all (l : list item) w : option (Z * wrap M Hd) :=
  match l with
  | [] => Some (0%Z, w)
  | x :: l =>
      match add x w with
      | Some (rc, w) => if (rc <? 0)%Z then Some (rc, w) else add_all l w
      | None => None
      end
  end.

Lemma wrap_add_spec x w h :
  sm_handle w = Some h -> exists rc w', add x w = Some (rc, w') /\ sm_handle w' = Some h /\
    policy (library w') = policy (library w) /\
    ((0 <= rc)%Z -> content (library w') h = add_item x (content (library w) h)).
Proof.
  intros Hh. assert (Hon : forall f, (let '(m, rc) := f (library w) (Some h) in
      policy m = policy (library w) /\ ((0 <= rc)%Z -> content m h = add_item x (content (library w) h))) ->
    exists rc w', on_handle f w = Some (rc, w') /\ sm_handle w' = Some h /\
      policy (library w') = policy (library w) /\
      ((0 <= rc)%Z -> content (library w') h = add_item x (content (library w) h))).
  { intros f Hf. unfold on_handle. rewrite Hh. destruct (f (library w) (Some h)) as [m rc].
    eexists _, _. split; [reflexivity|]. unfold retcode. cbn [snd]. by destruct (rc <? 0)%Z. }
  destruct x as [p t|p|e i d]; apply Hon.
  - apply add_path_spec.
  - apply add_permission_spec.
  - apply add_plug_spec.
Qed.

Lemma wrap_add_all_spec l w h :
  sm_handle w = Some h -> exists rc w', add_all l w = Some (rc, w') /\ sm_handle w' = Some h /\
    policy (library w') = policy (library w) /\
    ((0 <= rc)%Z -> content (library w') h =
       mk_session (session_id (content (library w) h)) (session_items (content (library w) h) ++ l)).
Proof.
  revert w. induction l as [|x l IH]; intros w Hh; simpl.
  { exists 0%Z, w. split_and!; try done. intros _. rewrite app_nil_r. by destruct (content _ _). }
  destruct (wrap_add_spec x w h Hh) as (rc & w1 & -> & H1 & P1 & C1). destruct (rc <? 0)%Z eqn:Er.
  { exists rc, w1. split_and!; try done. lia. }
  destruct (IH w1 H1) as (rc2 & w2 & E2 & H2 & P2 & C2). exists rc2, w2. split_and!; try done; [congruence|].
  intros Hrc. rewrite (C2 Hrc), C1 by lia. simpl. by rewrite <-app_assoc.
Qed.

Lemma wrap_begin_spec id w rc w' :
  sm_handle w = None -> secmgr_begin id w = (rc, w') ->
  policy (library w') = policy (library w) /\
  if (rc <? 0)%Z then sm_handle w' = None
  else exists h, sm_handle w' = Some h /\ content (library w') h = mk_session id [].
Proof.
  intros Hn. unfold secmgr_begin. rewrite Hn. pose proof (create_spec (library w)) as Hc.
  destruct (sec_lsm_manager_create (library w)) as [[m h] rc0]. destruct Hc as [Hp Hc]. unfold retcode.
  destruct (rc0 <? 0)%Z eqn:Er0.
  { intros [= <- <-]. rewrite Er0. by subst h. }
  destruct Hc as (x & -> & Hx). destruct id as [id|].
  2: { intros [= <- <-]. rewrite Er0. simpl. split; [done|]. by exists x. }
  pose proof (set_id_spec m x id) as Hi. destruct (sec_lsm_manager_set_id m (Some x) id) as [m1 rc1].
  destruct Hi as [Hp1 Hi]. destruct (rc1 <? 0)%Z eqn:Er1.
  { intros [= <- <-]. rewrite Er1. simpl. split; [|done]. rewrite destroy_spec. congruence. }
  intros [= <- <-]. rewrite Er1. simpl. split; [congruence|]. exists x. split; [done|].
  rewrite Hi by lia. by rewrite Hx.
Qed.

(** C30: The wrapper of the security manager keeps one session at a time: a
    beginning is refused while a session is open and changes nothing; a
    session that begins, adds its items without error, is installed and
    ends commits exactly the identifier and these items, in order; before
    the installation the policy is that of the beginning, and at the end no
    session is open. *)
Theorem secmgr_session id l w rc w1 :
  secmgr_begin id w = (rc, w1) -> (0 <= rc)%Z ->
  secmgr_begin id w1 = ((- EBUSY)%Z, w1) /\
  exists rc2 w2, add_all l w1 = Some (rc2, w2) /\ policy (library w2) = policy (library w) /\
    exists rc3 w3, secmgr_install w2 = Some (rc3, w3) /\ sm_handle (secmgr_end w3) = None /\
      ((0 <= rc2)%Z -> (0 <= rc3)%Z ->
       policy (library (secmgr_end w3)) = commit true (mk_session id l) (policy (library w))).
Proof.
  intros Hb Hrc. destruct (sm_handle w) as [h0|] eqn:Hw.
  { unfold secmgr_begin in Hb. rewrite Hw in Hb. injection Hb as <- _. by compute in Hrc. }
  apply wrap_begin_spec in Hb as [P1 Hb]; [|done]. destruct (rc <? 0)%Z eqn:Er; [lia|].
  destruct Hb as (h & H1 & C1). split; [unfold secmgr_begin; by rewrite H1|].
  destruct (wrap_add_all_spec l w1 h H1) as (rc2 & w2 & E2 & H2 & P2 & C2). exists rc2, w2.
  split; [done|]. split; [congruence|]. unfold secmgr_install, on_handle, retcode. rewrite H2.
  pose proof (install_spec (library w2) h) as Hi.
  destruct (sec_lsm_manager_install (library w2) (Some h)) as [m rc3]. eexists _, _. split; [reflexivity|].
  destruct (rc3 <? 0)%Z eqn:E3; cbn; (split; [done|]); intros K2 K3; [lia|].
  rewrite destroy_spec, (Hi K3), (C2 K2), C1, P2, P1. done.
Qed.

End Session.

(** ** A manager that accepts everything *)

(** the committed sessions, and the session of the only handle *)
Record sample_manager := mk_sample { committed : list (bool * session); opened : session }.

Definition sample_add (x : item) (m : sample_manager) : sample_manager * Z :=
  (mk_sample (committed m) (add_item x (opened m)), 0%Z).

#[export] Instance sample_slm : Slm sample_manager unit := {
  sec_lsm_manager_create m := (mk_sample (committed m) (mk_session None []), Some (), 0%Z);
  sec_lsm_manager_destroy m _ := m;
  sec_lsm_manager_set_id m _ id := (mk_sample (committed m) (mk_session (Some id) (session_items (opened m))), 0%Z);
  sec_lsm_manager_add_path m _ p t := sample_add (Path p (default [] t)) m;
  sec_lsm_manager_add_permission m _ p := sample_add (Permission p) m;
  sec_lsm_manager_add_plug m _ e i d := sample_add (Plug_item e i d) m;
  sec_lsm_manager_install m _ := (mk_sample (committed m ++ [(true, opened m)]) (opened m), 0%Z);
  sec_lsm_manager_uninstall m _ := (mk_sample (committed m ++ [(false, opened m)]) (opened m), 0%Z)
}.

#[export] Instance sample_spec : SlmSpec sample_manager unit (list (bool * session)).
Proof.
  refine {| policy := committed; content m _ := opened m; commit b s p := p ++ [(b, s)] |};
    intros; simpl; try done; by split; [|eexists].
Defined.

Definition sample_wrap : wrap sample_manager unit := mk_wrap None 0 (mk_sample [] (mk_session None [])).

Lemma secmgr_session_witness :
  let w1 := (secmgr_begin (Some (B "app")) sample_wrap).2 in
  secmgr_begin (Some (B "app")) w1 = ((- EBUSY)%Z, w1) /\
  exists rc2 w2, add_all [Permission (B "p"); Path (B "/app") (B "id")] w1 = Some (rc2, w2) /\
    policy (library w2) = [].
Proof.
  intros w1. assert (Hb : secmgr_begin (Some (B "app")) sample_wrap = (0%Z, w1)) by reflexivity.
  destruct (secmgr_session (P := list (bool * session)) (Some (B "app"))
    [Permission (B "p"); Path (B "/app") (B "id")] sample_wrap 0 w1 Hb (Z.le_refl 0))
    as (Hbusy & rc2 & w2 & Ha & Hp & _).
  split; [exact Hbusy|]. exists rc2, w2. split; [exact Ha|exact Hp].
Defined.

End sec_lsm.
