(* ===== verification/Manifest.v ===== *)
(** * Manifests: [src/src/utils/manifest.c]

    The check of a manifest and its normal form: the identifier and the
    version, the targets and the permissions. The values are those of the
    class [Jsonc]; the class [JsoncMake] has the functions that make values,
    and [JsoncLaws] what the documentation of json-c tells of them. The
    values are trees: a value shared by two others is not changed by the
    code once it is shared. *)
From S2P Require Import Prelude CString Jsonc.

Module manifest.
Export jsonc.

(** ** Values made by json-c and rp-jsonc *)

Class JsoncMake (J : Type) `{Jsonc J} := {
  (** [json_object_new_string], [json_object_new_object], when they succeed *)
  new_string : bytes -> J;
  new_object : J;
  (** [rp_jsonc_pack] of an object with a name and a value, its status when
      it fails *)
  pack_permission : J -> J -> Z + J
}.

Class JsoncLaws (J : Type) `{JsoncMake J} := {
  get_object j k v : object_get_ex j k = Some v -> get_type j = type_object;
  get_add j k v k' : get_type j = type_object ->
    object_get_ex (object_add j k v) k' = if bool_decide (k' = k) then Some v else object_get_ex j k';
  type_add j k v : get_type (object_add j k v) = get_type j;
  string_new s : get_string (new_string s) = Some s;
  type_new : get_type new_object = type_object;
  get_new k : object_get_ex new_object k = None;
  pack_ok n v j : pack_permission n v = inr j ->
    get_type j = type_object /\ object_get_ex j (B "name") = Some n /\ object_get_ex j (B "value") = Some v;
  pack_error n v z : pack_permission n v = inl z -> (z < 0)%Z;
  items_add j k i k' v a : object_get_ex j k = Some a -> get_type a = type_array ->
    exists a', (forall k0, object_get_ex (item_add j k i k' v) k0 =
                  if bool_decide (k0 = k) then Some a' else object_get_ex j k0) /\
      get_type a' = type_array /\
      array_items a' = alter (fun x => object_add x k' v) i (array_items a)
}.

(** ** Programs

    A program consumes outcomes of allocations; it is [None] when it uses a
    null pointer as a string. *)
Definition prog (A : Type) : Type := oracle -> option (A * oracle).

#[export] Instance prog_ret : MRet prog := fun A a o => Some (a, o).
#[export] Instance prog_bind : MBind prog := fun A B f m o =>
  match m o with Some (a, o) => f a o | None => None end.

Definition alloc : prog bool := fun o => Some (malloc o).

(** the string at a pointer *)
Definition at_pointer (p : option bytes) : prog bytes := fun o =>
  match p with Some s => Some (s, o) | None => None end.

Definition MANIFEST_RP_MANIFEST : bytes := B "rp-manifest".
Definition MANIFEST_ID : bytes := B "id".
Definition MANIFEST_VERSION : bytes := B "version".
Definition MANIFEST_ID_UNDERSCORE : bytes := B "id-underscore".
Definition MANIFEST_VER : bytes := B "ver".
Definition MANIFEST_IDAVER : bytes := B "idaver".
Definition MANIFEST_TARGET : bytes := B "target".
Definition MANIFEST_SHARP_TARGET : bytes := B "#target".
Definition MANIFEST_TARGETS : bytes := B "targets".
Definition MANIFEST_NAME : bytes := B "name".
Definition MANIFEST_VALUE : bytes := B "value".
Definition MANIFEST_VALUE_REQUIRED : bytes := B "required".
Definition MANIFEST_REQUIRED_PERMISSIONS : bytes := B "required-permission".

(** ** Strings *)

Definition make_lowercase (s : bytes) : bytes := tolower <$> s.

Definition dash_to_underscore (s : bytes) : bytes :=
  (fun c => if bool_decide (c = "-"%char) then "_"%char else c) <$> s.

Definition in_number (c : ascii) : bool := negb (bool_decide (c = SPACE)) && negb (bool_decide (c = "."%char)).

(** the length of the first two numbers of a version *)
Definition ver_length (version : bytes) : nat :=
  let lver := length (take_while in_number version) in
  if bool_decide (version !! lver = Some "."%char)
  then S lver + length (take_while in_number (drop (S lver) version))
  else lver.

Definition mkver (version : option bytes) : prog (option bytes) :=
  match version with
  | None => mret None
  | Some v => ok ← alloc; mret (if ok : bool then Some (make_lowercase (take (ver_length v) v)) else None)
  end.

Section Manifest.
(** the option of compilation [DISTINCT_VERSIONS] *)
Context (DISTINCT_VERSIONS : bool).
Context {J : Type} `{JsoncMake J}.

Definition mkidaver (id ver : bytes) : prog (option bytes) :=
  ok ← alloc;
  mret (if ok : bool then Some (if DISTINCT_VERSIONS then id ++ B "@" ++ ver else id) else None).

Definition strdup (s : bytes) : prog (option bytes) := ok ← alloc; mret (if ok : bool then Some s else None).

(** ** Additions *)

(** [json_object_object_add], that may fail for lack of memory *)
Definition json_object_object_add (jso : J) (key : bytes) (v : J) : prog (Z * J) :=
  ok ← alloc; mret (if ok : bool then (0%Z, object_add jso key v) else ((-1)%Z, jso)).

(** the test that follows the addition compares the pointers *)
Definition add (jso : J) (key value : bytes) : prog (Z * J) :=
  ok ← alloc;
  if ok : bool then
    '(rc, jso) ← json_object_object_add jso key (new_string value);
    mret (if (rc =? 0)%Z then (0%Z, jso) else ((- ENOMEM)%Z, jso))
  else mret ((- ENOMEM)%Z, jso).

(** ** Targets *)

(** the targets from [idx] on; the status of the addition is ignored *)
Fixpoint retargets_loop (items : list J) (idx : nat) (rc : Z) (jso : J) : prog (Z * J) :=
  match items with
  | [] => mret (rc, jso)
  | item :: items =>
      if negb (bool_decide (get_type item = type_object)) then retargets_loop items (S idx) (- EINVAL)%Z jso
      else match object_get_ex item MANIFEST_SHARP_TARGET with
           | Some _ => retargets_loop items (S idx) rc jso
           | None =>
               match object_get_ex item MANIFEST_TARGET with
               | None => retargets_loop items (S idx) (- EINVAL)%Z jso
               | Some targ =>
                   ok ← alloc;
                   retargets_loop items (S idx) rc
                     (if ok : bool then item_add jso MANIFEST_TARGETS idx MANIFEST_SHARP_TARGET targ else jso)
               end
           end
  end.

(** the items of the array at the key of the targets *)
Definition targets_of (jso : J) : option (list J) :=
  match object_get_ex jso MANIFEST_TARGETS with
  | Some targets => if bool_decide (get_type targets = type_array) then Some (array_items targets) else None
  | None => None
  end.

Definition retargets (jso : J) : prog (Z * J) :=
  match targets_of jso with
  | None => mret ((- EINVAL)%Z, jso)
  | Some items => retargets_loop items 0 0 jso
  end.

(** ** Permissions *)

Definition add_perm_from_string (perms permstring : J) : prog (Z * J) :=
  match pack_permission permstring (new_string MANIFEST_VALUE_REQUIRED) with
  | inl rc => mret (rc, perms)
  | inr obj => key ← at_pointer (get_string permstring); json_object_object_add perms key obj
  end.

Definition process_array_perm_cb (perms item : J) : prog (Z * J) :=
  match get_type item with
  | type_object =>
      match object_get_ex item MANIFEST_NAME, object_get_ex item MANIFEST_VALUE with
      | Some name, Some _ => key ← at_pointer (get_string name); json_object_object_add perms key item
      | _, _ => mret ((- EINVAL)%Z, perms)
      end
  | type_string => add_perm_from_string perms item
  | _ => mret ((- EINVAL)%Z, perms)
  end.

Definition process_object_perm_cb (perms item : J) (key : bytes) : prog (Z * J) :=
  match get_type item with
  | type_object =>
      match object_get_ex item MANIFEST_NAME with
      | None => mret ((- EINVAL)%Z, perms)
      | Some name =>
          n ← at_pointer (get_string name);
          if beq key n && bool_decide (is_Some (object_get_ex item MANIFEST_VALUE))
          then json_object_object_add perms key item
          else mret ((- EINVAL)%Z, perms)
      end
  | type_string =>
      match pack_permission (new_string key) item with
      | inl rc => mret (rc, perms)
      | inr obj => json_object_object_add perms key obj
      end
  | _ => mret ((- EINVAL)%Z, perms)
  end.

(** [rp_jsonc_array_until] and [rp_jsonc_object_until]: the calls stop at the
    first status that is not 0 *)
Fixpoint until {A} (cb : J -> A -> prog (Z * J)) (l : list A) (out : J) : prog (Z * J) :=
  match l with
  | [] => mret (0%Z, out)
  | x :: l => '(rc, out) ← cb out x; if (rc =? 0)%Z then until cb l out else mret (rc, out)
  end.

(** the permissions [in_] in the normal form; the value is [out] *)
Definition adapt_permissions (in_ : J) : prog (Z * option J) :=
  let filled (fill : J -> prog (Z * J)) : prog (Z * option J) :=
    ok ← alloc;
    if ok : bool then '(rc, out) ← fill new_object; mret (rc, Some out) else mret ((- ENOMEM)%Z, None) in
  match get_type in_ with
  | type_array => filled (until process_array_perm_cb (array_items in_))
  | type_object =>
      filled (until (fun out kv => process_object_perm_cb out kv.1 (default [] kv.2)) (object_items in_))
  | type_string => filled (fun out => add_perm_from_string out in_)
  | _ => mret ((- EINVAL)%Z, None)
  end.

(** [put] replaces the permissions in the object; as the key exists no
    memory is needed *)
Definition adapt_permissions_of (put : J -> J) (jso top : J) : prog (Z * J) :=
  if bool_decide (get_type jso = type_object) then
    match object_get_ex jso MANIFEST_REQUIRED_PERMISSIONS with
    | None => mret (0%Z, top)
    | Some in_ =>
        '(rc, out) ← adapt_permissions in_;
        mret (rc, match out with
                  | Some out => if (rc <? 0)%Z then top else put out
                  | None => top
                  end)
    end
  else mret ((- EINVAL)%Z, top).

(** the targets of the manifest from [idx] on *)
Fixpoint adapt_targets (items : list J) (idx : nat) (jso : J) : prog (Z * J) :=
  match items with
  | [] => mret (0%Z, jso)
  | item :: items =>
      '(rc, jso) ← adapt_permissions_of
                     (fun out => item_add jso MANIFEST_TARGETS idx MANIFEST_REQUIRED_PERMISSIONS out) item jso;
      if (rc =? 0)%Z then adapt_targets items (S idx) jso else mret (rc, jso)
  end.

Definition adapt_all_permissions (jso : J) : prog (Z * J) :=
  '(rc, jso) ← adapt_permissions_of (fun out => object_add jso MANIFEST_REQUIRED_PERMISSIONS out) jso jso;
  if (rc >=? 0)%Z then
    match targets_of jso with
    | None => mret ((- EINVAL)%Z, jso)
    | Some items => adapt_targets items 0 jso
    end
  else mret (rc, jso).

(** ** Identifier and version *)

Definition fulfill (jso : J) : prog (Z * J) :=
  match object_get_ex jso MANIFEST_ID, object_get_ex jso MANIFEST_VERSION with
  | Some id, Some version =>
      ver ← mkver (get_string version);
      i ← at_pointer (get_string id);
      d ← strdup i;
      match d with
      | None => mret ((- EINVAL)%Z, jso)
      | Some d =>
          let lowid := make_lowercase d in
          idaver ← match ver with Some v => mkidaver lowid v | None => mret None end;
          u ← strdup lowid;
          match u, ver, idaver with
          | Some u, Some ver, Some idaver =>
              '(rc, jso) ← add jso MANIFEST_ID lowid;
              '(rc, jso) ← if (rc =? 0)%Z then add jso MANIFEST_ID_UNDERSCORE (dash_to_underscore u) else mret (rc, jso);
              '(rc, jso) ← if (rc =? 0)%Z then add jso MANIFEST_IDAVER idaver else mret (rc, jso);
              if (rc =? 0)%Z then add jso MANIFEST_VER ver else mret (rc, jso)
          | _, _, _ => mret ((- EINVAL)%Z, jso)
          end
      end
  | _, _ => mret ((- EINVAL)%Z, jso)
  end.

Definition valid_char (c : ascii) : bool := isalnum c || is_in (B ".-_") c.

Definition check_valid_string (jso : J) (key : bytes) : prog Z :=
  match object_get_ex jso key with
  | None => mret (- EINVAL)%Z
  | Some jval =>
      value ← at_pointer (get_string jval);
      mret (if bool_decide (value = []) then (- EINVAL)%Z
            else if forallb valid_char value then 0%Z else (- EINVAL)%Z)
  end.

(** ** Entries *)

Definition manifest_normalize (obj : J) : prog (Z * J) :=
  '(rc, obj) ← fulfill obj;
  if (rc <? 0)%Z then mret (rc, obj)
  else
    '(rc, obj) ← retargets obj;
    if (rc <? 0)%Z then mret (rc, obj) else adapt_all_permissions obj.

Definition manifest_check (jso : J) : prog Z :=
  rc ← match object_get_ex jso MANIFEST_RP_MANIFEST with
       | None => mret (- EINVAL)%Z
       | Some jval => s ← at_pointer (get_string jval); mret (if beq (B "1") s then 0%Z else (- EINVAL)%Z)
       end;
  rc ← if (rc =? 0)%Z then check_valid_string jso MANIFEST_ID else mret rc;
  if (rc =? 0)%Z then check_valid_string jso MANIFEST_VERSION else mret rc.

(** the reading of the file gives a status and a value, that may be null *)
Definition manifest_read (rp_yaml_path_to_json_c : bytes -> Z * option J) (path : bytes) : Z * option J :=
  let '(rc, obj) := rp_yaml_path_to_json_c path in
  if (rc <? 0)%Z then (rc, obj)
  else match obj with None => ((- EBADF)%Z, None) | Some _ => (rc, obj) end.

Definition manifest_read_and_check (rp_yaml_path_to_json_c : bytes -> Z * option J) (path : bytes)
  : prog (Z * option J) :=
  match manifest_read rp_yaml_path_to_json_c path with
  | (rc, Some obj) =>
      if (rc >=? 0)%Z then
        rc ← manifest_check obj;
        '(rc, obj) ← if (rc <? 0)%Z then mret (rc, obj) else manifest_normalize obj;
        mret (rc, if (rc <? 0)%Z then None else Some obj)
      else mret (rc, Some obj)
  | (rc, None) => mret (rc, None)
  end.

End Manifest.

(** ** Lemmas *)

Lemma bind_Some {A C} (m : prog A) (f : A -> prog C) o x :
  (m ≫= f) o = Some x <-> exists a o1, m o = Some (a, o1) /\ f a o1 = Some x.
Proof.
  unfold mbind, prog_bind. destruct (m o) as [[a o1]|]; [|naive_solver]. split; [eauto|].
  by intros (? & ? & [= <- <-] & ?).
Qed.

(** a program that runs out of no memory *)
Definition enough {A} (m : prog A) (P : A -> Prop) : Prop :=
  forall a o, m [] = Some (a, o) -> o = [] /\ P a.

Lemma enough_ret {A} (a : A) (P : A -> Prop) : P a -> enough (mret a) P.
Proof. by intros HP ? ? [= <- <-]. Qed.

Lemma enough_bind {A C} (m : prog A) (f : A -> prog C) (P : A -> Prop) Q :
  enough m P -> (forall a, P a -> enough (f a) Q) -> enough (m ≫= f) Q.
Proof. intros Hm Hf x o (a & o1 & Ha & Hx)%bind_Some. destruct (Hm _ _ Ha) as [-> Hp]. by apply (Hf a Hp). Qed.

Lemma enough_alloc : enough alloc (fun b => b = true).
Proof. by intros b o [= <- <-]. Qed.

Lemma enough_pointer p : enough (at_pointer p) (fun s => p = Some s).
Proof. destruct p; intros s o; [by intros [= <- <-]|done]. Qed.

Lemma enough_weaken {A} (m : prog A) (P Q : A -> Prop) : (forall a, P a -> Q a) -> enough m P -> enough m Q.
Proof. intros Hpq Hm a o Ha. destruct (Hm _ _ Ha). auto. Qed.

Create HintDb prog.
#[export] Hint Resolve enough_ret enough_alloc enough_pointer : prog.

(** one step of a program *)
Ltac step_ret := apply enough_ret.
Ltac step_bind P := apply (enough_bind _ _ P); [auto with prog|].

Section Normal.
Context {J : Type} `{JsoncLaws J}.
Implicit Types j jso perms : J.

Lemma enough_add_value jso k v :
  enough (json_object_object_add jso k v) (fun r => r = (0%Z, object_add jso k v)).
Proof. step_bind (fun b => b = true). intros b ->. by step_ret. Qed.

Lemma enough_add jso k s : enough (add jso k s) (fun r => r = (0%Z, object_add jso k (new_string s))).
Proof.
  step_bind (fun b => b = true). intros b ->. eapply enough_bind; [apply enough_add_value|].
  intros ? ->. by step_ret.
Qed.

(** ** The normal form of the permissions *)

(** an object of the permissions: each key has a permission of that name,
    with a value *)
Definition canonical perms : Prop :=
  get_type perms = type_object /\
  forall k e, object_get_ex perms k = Some e ->
    get_type e = type_object /\ (object_get_ex e MANIFEST_NAME ≫= get_string) = Some k /\
    is_Some (object_get_ex e MANIFEST_VALUE).

(** the name of a permission in an array *)
Definition perm_name (item : J) : option bytes :=
  match get_type item with
  | type_string => get_string item
  | _ => object_get_ex item MANIFEST_NAME ≫= get_string
  end.

(** the names of the permissions in any of the accepted forms *)
Definition declared (in_ : J) : list bytes :=
  match get_type in_ with
  | type_array => omap perm_name (array_items in_)
  | type_object => (fun kv => default [] kv.2) <$> object_items in_
  | _ => option_list (get_string in_)
  end.

(** adding the permission [k] *)
Definition gains (k : bytes) perms perms' : Prop :=
  canonical perms' /\ forall k', is_Some (object_get_ex perms' k') <-> k' = k \/ is_Some (object_get_ex perms k').

Lemma gains_add perms k e :
  canonical perms -> get_type e = type_object -> (object_get_ex e MANIFEST_NAME ≫= get_string) = Some k ->
  is_Some (object_get_ex e MANIFEST_VALUE) -> gains k perms (object_add perms k e).
Proof.
  intros [Ht Hc] He Hn Hv. split; [split; [by rewrite type_add|]|].
  - intros k' e'. rewrite get_add by done. case_bool_decide as Hk; [|apply Hc]. subst k'. by intros [= <-].
  - intros k'. rewrite get_add by done. case_bool_decide as Hk; [|naive_solver].
    split; [by left|by eexists].
Qed.

(** a status and the permissions: either one more or an error *)
Definition gains_or_fails (nm : option bytes) perms (r : Z * J) : Prop :=
  (r.1 < 0)%Z \/ r.1 = 0%Z /\ exists k, nm = Some k /\ gains k perms r.2.

Lemma enough_pack perms (n v : J) k :
  canonical perms -> get_string n = Some k ->
  enough (match pack_permission n v with
          | inl rc => mret (rc, perms)
          | inr obj => json_object_object_add perms k obj
          end) (gains_or_fails (Some k) perms).
Proof.
  intros Hc Hk. destruct (pack_permission n v) as [z|obj] eqn:E.
  - step_ret. left. by eapply pack_error.
  - eapply enough_weaken; [|apply enough_add_value]. intros ? ->. right. split; [done|]. exists k. split; [done|].
    apply pack_ok in E as (Ht & Hn & Hv). apply gains_add; [done|done| |by exists v].
    unfold MANIFEST_NAME. by rewrite Hn.
Qed.

Lemma add_perm_from_string_spec perms s :
  canonical perms -> enough (add_perm_from_string perms s) (gains_or_fails (get_string s) perms).
Proof.
  intros Hc. unfold add_perm_from_string.
  destruct (get_string s) as [k|] eqn:Ek.
  - pose proof (enough_pack perms s (new_string MANIFEST_VALUE_REQUIRED) k Hc Ek) as Hp.
    by destruct (pack_permission _ _).
  - destruct (pack_permission _ _) as [z|obj] eqn:E; [|by intros ? ?].
    step_ret. left. by eapply pack_error.
Qed.

Lemma process_array_perm_cb_spec perms item :
  canonical perms -> enough (process_array_perm_cb perms item) (gains_or_fails (perm_name item) perms).
Proof.
  intros Hc. unfold process_array_perm_cb, perm_name. destruct (get_type item) eqn:Et; try by (step_ret; left).
  - by apply add_perm_from_string_spec.
  - destruct (object_get_ex item MANIFEST_NAME) as [n|] eqn:En; [|by step_ret; left].
    destruct (object_get_ex item MANIFEST_VALUE) as [v|] eqn:Ev; [|by step_ret; left].
    step_bind (fun s => get_string n = Some s). intros k Hk.
    eapply enough_weaken; [|apply enough_add_value]. intros ? ->. right. split; [done|]. exists k.
    split; [exact Hk|]. apply gains_add; [done|done|by rewrite En|by rewrite Ev].
Qed.

Lemma process_object_perm_cb_spec perms item k :
  canonical perms -> enough (process_object_perm_cb perms item k) (gains_or_fails (Some k) perms).
Proof.
  intros Hc. unfold process_object_perm_cb. destruct (get_type item) eqn:Et; try by (step_ret; left).
  - by apply enough_pack, string_new.
  - destruct (object_get_ex item MANIFEST_NAME) as [n|] eqn:En; [|by step_ret; left].
    step_bind (fun s => get_string n = Some s). intros s Hs.
    destruct (beq k s && _) eqn:Eb; [|by step_ret; left]. apply andb_true_iff in Eb as [Eb Ev].
    apply bool_decide_eq_true in Ev. apply beq_true in Eb as <-.
    eapply enough_weaken; [|apply enough_add_value]. intros ? ->. right. split; [done|]. exists k.
    split; [done|]. apply gains_add; [done|done|by rewrite En|done].
Qed.

Lemma until_spec {A} (cb : J -> A -> prog (Z * J)) (nm : A -> option bytes) l perms :
  (forall p x, canonical p -> enough (cb p x) (gains_or_fails (nm x) p)) -> canonical perms ->
  enough (until cb l perms) (fun r => (r.1 < 0)%Z \/ r.1 = 0%Z /\ canonical r.2 /\
    forall k, is_Some (object_get_ex r.2 k) <-> k ∈ omap nm l \/ is_Some (object_get_ex perms k)).
Proof.
  intros Hcb. revert perms. induction l as [|x l IH]; intros perms Hc; cbn [until omap list_omap].
  { step_ret. right. split_and!; try done. intros k. rewrite elem_of_nil. naive_solver. }
  eapply enough_bind; [by apply Hcb|]. intros [rc out] Hg. destruct (rc =? 0)%Z eqn:Er.
  2: { step_ret. left. destruct Hg as [|[? _]]; simpl in *; lia. }
  destruct Hg as [Hg|(_ & k & Hk & Hc' & Hg)]; simpl in *; [lia|].
  eapply enough_weaken; [|by apply IH]. intros [rc' out'] [?|(-> & Hc2 & H2)]; [by left|right].
  split_and!; try done. intros k'. rewrite H2, Hg, Hk. simpl. rewrite elem_of_cons. tauto.
Qed.

Lemma canonical_new : canonical new_object.
Proof. split; [apply type_new|]. intros k e. by rewrite get_new. Qed.

Lemma adapt_permissions_spec in_ :
  enough (adapt_permissions in_) (fun r => (r.1 < 0)%Z \/ r.1 = 0%Z /\ exists out, r.2 = Some out /\
    canonical out /\ forall k, is_Some (object_get_ex out k) <-> k ∈ declared in_).
Proof.
  assert (Hfill : forall fill : J -> prog (Z * J),
    enough (fill new_object) (fun r => (r.1 < 0)%Z \/ r.1 = 0%Z /\ canonical r.2 /\
      forall k, is_Some (object_get_ex r.2 k) <-> k ∈ declared in_) ->
    enough (ok ← alloc; if ok : bool then '(rc, out) ← fill new_object; mret (rc, Some out)
                        else mret ((- ENOMEM)%Z, None))
      (fun r => (r.1 < 0)%Z \/ r.1 = 0%Z /\ exists out, r.2 = Some out /\
         canonical out /\ forall k, is_Some (object_get_ex out k) <-> k ∈ declared in_)).
  { intros fill Hf. step_bind (fun b => b = true). intros b ->. eapply enough_bind; [exact Hf|].
    intros [rc out] Hr. step_ret. destruct Hr as [?|(? & ? & ?)]; [by left|right]. split; [done|]. by exists out. }
  assert (Hnone : forall (Q : Prop) k, Q \/ is_Some (object_get_ex new_object k) <-> Q).
  { intros Q k. rewrite get_new. split; [by intros [?|[]]|by left]. }
  unfold adapt_permissions. cbv zeta. unfold declared in *.
  destruct (get_type in_) eqn:Et; try by (step_ret; left).
  - apply (Hfill (fun out => add_perm_from_string out in_)). eapply enough_weaken; [|apply add_perm_from_string_spec, canonical_new].
    intros [rc out] [?|(? & k & Hk & Hc & Hg)]; [by left|right]. simpl in *. split_and!; try done.
    intros k'. rewrite Hg, Hk, Hnone. simpl. by rewrite list_elem_of_singleton.
  - apply (Hfill (until (fun out kv => process_object_perm_cb out kv.1 (default [] kv.2)) (object_items in_))).
    eapply enough_weaken;
      [|apply (until_spec _ (fun kv => Some (default [] kv.2)));
        [intros; by apply process_object_perm_cb_spec|apply canonical_new]].
    intros [rc out] [?|(? & Hc & Hg)]; [by left|right]. split_and!; try done. intros k.
    rewrite Hg, Hnone, list_elem_of_omap, list_elem_of_fmap. split; intros (kv & E1 & E2); exists kv; [|by subst].
    by injection E2.
  - apply (Hfill (until process_array_perm_cb (array_items in_))). eapply enough_weaken;
      [|apply (until_spec _ perm_name); [intros; by apply process_array_perm_cb_spec|apply canonical_new]].
    intros [rc out] [?|(? & Hc & Hg)]; [by left|right]. split_and!; try done. intros k. by rewrite Hg, Hnone.
Qed.

(** ** The normal form of the targets *)

(** the permissions of [j'] are those of [j] in normal form *)
Definition normal_permissions j j' : Prop :=
  match object_get_ex j MANIFEST_REQUIRED_PERMISSIONS with
  | None => object_get_ex j' MANIFEST_REQUIRED_PERMISSIONS = None
  | Some in_ => exists p, object_get_ex j' MANIFEST_REQUIRED_PERMISSIONS = Some p /\ canonical p /\
                  forall k, is_Some (object_get_ex p k) <-> k ∈ declared in_
  end.

(** [item] with its target at the key [#target] *)
Definition retargeted (item : J) : J :=
  match object_get_ex item MANIFEST_SHARP_TARGET, object_get_ex item MANIFEST_TARGET with
  | None, Some targ => object_add item MANIFEST_SHARP_TARGET targ
  | _, _ => item
  end.

Definition has_target (item : J) : Prop :=
  get_type item = type_object /\
  (is_Some (object_get_ex item MANIFEST_SHARP_TARGET) \/ is_Some (object_get_ex item MANIFEST_TARGET)).

(** changing the targets only *)
Definition other_keys j j' : Prop :=
  forall k, k <> MANIFEST_TARGETS -> object_get_ex j' k = object_get_ex j k.

Lemma targets_of_Some j l :
  targets_of j = Some l <-> exists a, object_get_ex j MANIFEST_TARGETS = Some a /\ get_type a = type_array /\
    l = array_items a.
Proof.
  unfold targets_of. destruct (object_get_ex j MANIFEST_TARGETS) as [a|]; [|naive_solver].
  case_bool_decide; naive_solver.
Qed.

(** adding to the target that follows [pre] *)
Lemma item_add_targets j pre x l k v :
  targets_of j = Some (pre ++ x :: l) ->
  let j' := item_add j MANIFEST_TARGETS (length pre) k v in
  targets_of j' = Some ((pre ++ [object_add x k v]) ++ l) /\ other_keys j j'.
Proof.
  intros (a & Ha & Ht & Hl)%targets_of_Some.
  destruct (items_add j MANIFEST_TARGETS (length pre) k v a Ha Ht) as (a' & Hg & Ht' & Hi). split.
  - apply targets_of_Some. exists a'. split; [by rewrite Hg, bool_decide_eq_true_2|]. split; [done|].
    rewrite Hi, <-Hl, <-app_assoc. simpl. by rewrite alter_app_r_alt, Nat.sub_diag by lia.
  - intros k' Hk'. by rewrite Hg, bool_decide_eq_false_2.
Qed.

Lemma retargets_loop_spec l pre rc jso :
  targets_of jso = Some (pre ++ l) ->
  enough (retargets_loop l (length pre) rc jso) (fun r => (0 <= r.1)%Z ->
    (0 <= rc)%Z /\ Forall has_target l /\ targets_of r.2 = Some (pre ++ (retargeted <$> l)) /\ other_keys jso r.2).
Proof.
  revert pre rc jso. induction l as [|x l IH]; intros pre rc jso Ht; cbn [retargets_loop].
  { step_ret. intros Hrc. by split_and!. }
  assert (Hnext : forall rc' jso' x', targets_of jso' = Some ((pre ++ [x']) ++ l) -> other_keys jso jso' ->
    ((0 <= rc')%Z -> (0 <= rc)%Z /\ has_target x /\ x' = retargeted x) ->
    enough (retargets_loop l (S (length pre)) rc' jso') (fun r => (0 <= r.1)%Z ->
      (0 <= rc)%Z /\ Forall has_target (x :: l) /\ targets_of r.2 = Some (pre ++ (retargeted <$> x :: l)) /\
      other_keys jso r.2)).
  { intros rc' jso' x' Ht' Ho Hrc. specialize (IH (pre ++ [x']) rc' jso' Ht'). rewrite length_app, Nat.add_1_r in IH.
    eapply enough_weaken; [|exact IH]. intros [v j] Hr Hv. destruct (Hr Hv) as (Hv' & Hl & Hts & Ho').
    destruct (Hrc Hv') as (? & ? & ->). split_and!; [done|by constructor| |].
    - rewrite Hts, <-app_assoc. done.
    - intros k Hk. by rewrite Ho', Ho. }
  rewrite cons_middle, app_assoc in Ht. unfold has_target, retargeted in Hnext.
  case_bool_decide as Hx; cbn [negb]; [|eapply Hnext; [exact Ht|done|unfold EINVAL; lia]].
  destruct (object_get_ex x MANIFEST_SHARP_TARGET) as [y|] eqn:Es.
  { apply (Hnext rc jso x Ht); [done|]. intros. split_and!; try done. left. by exists y. }
  destruct (object_get_ex x MANIFEST_TARGET) as [targ|] eqn:Et; [|eapply Hnext; [exact Ht|done|unfold EINVAL; lia]].
  step_bind (fun b => b = true). intros b ->.
  rewrite <-app_assoc in Ht. destruct (item_add_targets _ _ _ _ MANIFEST_SHARP_TARGET targ Ht) as [Ht' Ho].
  apply (Hnext rc _ _ Ht' Ho). intros. split_and!; try done. right. by exists targ.
Qed.

Lemma adapt_permissions_of_spec put jso top :
  enough (adapt_permissions_of put jso top) (fun r => (r.1 < 0)%Z \/ r.1 = 0%Z /\ get_type jso = type_object /\
    match object_get_ex jso MANIFEST_REQUIRED_PERMISSIONS with
    | None => r.2 = top
    | Some in_ => exists p, r.2 = put p /\ canonical p /\ forall k, is_Some (object_get_ex p k) <-> k ∈ declared in_
    end).
Proof.
  unfold adapt_permissions_of. case_bool_decide as Ht; [|by step_ret; left].
  destruct (object_get_ex jso MANIFEST_REQUIRED_PERMISSIONS) as [in_|]; [|by step_ret; right].
  eapply enough_bind; [apply adapt_permissions_spec|]. intros [rc out] Hr. step_ret. simpl in *.
  destruct Hr as [Hr|(-> & p & -> & Hp)]; [by left|right]. split; [done|]. split; [done|]. by exists p.
Qed.

(** the permissions of an object after they are replaced *)
Lemma normal_put j p in_ :
  get_type j = type_object -> object_get_ex j MANIFEST_REQUIRED_PERMISSIONS = Some in_ ->
  canonical p -> (forall k, is_Some (object_get_ex p k) <-> k ∈ declared in_) ->
  normal_permissions j (object_add j MANIFEST_REQUIRED_PERMISSIONS p).
Proof.
  intros Ht Hi Hc Hd. unfold normal_permissions. rewrite Hi. exists p. split; [|done].
  by rewrite get_add, bool_decide_eq_true_2.
Qed.

(** a target before and after the permissions are adapted *)
Definition adapted x x' : Prop :=
  get_type x = type_object /\ normal_permissions x x' /\
  forall k, k <> MANIFEST_REQUIRED_PERMISSIONS -> object_get_ex x' k = object_get_ex x k.

Lemma adapted_put x p in_ :
  get_type x = type_object -> object_get_ex x MANIFEST_REQUIRED_PERMISSIONS = Some in_ ->
  canonical p -> (forall k, is_Some (object_get_ex p k) <-> k ∈ declared in_) ->
  adapted x (object_add x MANIFEST_REQUIRED_PERMISSIONS p).
Proof.
  intros Ht Hi Hc Hd. split; [done|]. split; [by eapply normal_put|]. intros k Hk.
  by rewrite get_add, bool_decide_eq_false_2.
Qed.

Lemma adapted_same x :
  get_type x = type_object -> object_get_ex x MANIFEST_REQUIRED_PERMISSIONS = None -> adapted x x.
Proof. intros Ht Hn. split; [done|]. split; [|done]. unfold normal_permissions. by rewrite Hn. Qed.

Lemma adapt_targets_spec l pre jso :
  targets_of jso = Some (pre ++ l) ->
  enough (adapt_targets l (length pre) jso) (fun r => (0 <= r.1)%Z ->
    exists l', targets_of r.2 = Some (pre ++ l') /\ Forall2 adapted l l' /\ other_keys jso r.2).
Proof.
  revert pre jso. induction l as [|x l IH]; intros pre jso Ht; cbn [adapt_targets].
  { step_ret. intros _. by exists []. }
  eapply enough_bind; [apply adapt_permissions_of_spec|]. intros [rc jso'] Hr.
  destruct (rc =? 0)%Z eqn:Er; [|step_ret; destruct Hr as [|[? _]]; simpl in *; lia].
  destruct Hr as [|(_ & Hx & Hr)]; [simpl in *; lia|]. simpl in Hr.
  assert (Hstep : exists x', targets_of jso' = Some ((pre ++ [x']) ++ l) /\ adapted x x' /\ other_keys jso jso').
  { destruct (object_get_ex x MANIFEST_REQUIRED_PERMISSIONS) as [in_|] eqn:Ei.
    - destruct Hr as (p & -> & Hc & Hd). eexists.
      destruct (item_add_targets _ _ _ _ MANIFEST_REQUIRED_PERMISSIONS p Ht) as [Ht' Ho].
      split; [exact Ht'|]. split; [by eapply adapted_put|done].
    - subst jso'. exists x. rewrite <-app_assoc. split; [exact Ht|]. split; [by apply adapted_same|done]. }
  destruct Hstep as (x' & Ht' & Ha & Ho). specialize (IH (pre ++ [x']) jso' Ht').
  rewrite length_app, Nat.add_1_r in IH. eapply enough_weaken; [|exact IH]. intros [v j] Hv Hle.
  destruct (Hv Hle) as (l' & Hl' & Hf & Ho'). exists (x' :: l'). rewrite <-app_assoc in Hl'.
  split; [exact Hl'|]. split; [by constructor|]. intros k Hk. by rewrite Ho', Ho.
Qed.

(** ** The identifier and the version *)

(** the string at a key *)
Definition text jso (k : bytes) : option bytes := object_get_ex jso k ≫= get_string.

Lemma text_get jso k s : text jso k = Some s -> exists v, object_get_ex jso k = Some v /\ get_string v = Some s.
Proof. unfold text. destruct (object_get_ex jso k) as [v|]; [|done]. by exists v. Qed.

Context (DISTINCT_VERSIONS : bool).

Definition short_version (ver : bytes) : bytes := make_lowercase (take (ver_length ver) ver).

(** the strings that complete a manifest *)
Definition fulfilled jso (id ver : bytes) : J :=
  let low := make_lowercase id in
  let put k v j := object_add j k (new_string v) in
  put MANIFEST_VER (short_version ver)
    (put MANIFEST_IDAVER (if DISTINCT_VERSIONS then low ++ B "@" ++ short_version ver else low)
       (put MANIFEST_ID_UNDERSCORE (dash_to_underscore low) (put MANIFEST_ID low jso))).

Lemma fulfill_spec jso :
  enough (fulfill DISTINCT_VERSIONS jso) (fun r => (0 <= r.1)%Z ->
    exists id ver, text jso MANIFEST_ID = Some id /\ text jso MANIFEST_VERSION = Some ver /\
      get_type jso = type_object /\ r.2 = fulfilled jso id ver).
Proof.
  assert (Hbad : forall j, enough (mret ((- EINVAL)%Z, j)) (fun r : Z * J => (0 <= r.1)%Z ->
    exists id ver, text jso MANIFEST_ID = Some id /\ text jso MANIFEST_VERSION = Some ver /\
      get_type jso = type_object /\ r.2 = fulfilled jso id ver)).
  { intros j. step_ret. simpl. unfold EINVAL. lia. }
  unfold fulfill. destruct (object_get_ex jso MANIFEST_ID) as [i|] eqn:Ei; [|apply Hbad].
  destruct (object_get_ex jso MANIFEST_VERSION) as [w|] eqn:Ew; [|apply Hbad].
  assert (Hver : enough (mkver (get_string w)) (fun v => v = (short_version <$> get_string w))).
  { unfold mkver. destruct (get_string w); [|by step_ret]. step_bind (fun b => b = true). intros b ->. by step_ret. }
  assert (Hdup : forall t, enough (strdup t) (fun d => d = Some t)).
  { intros t. step_bind (fun b => b = true). intros b ->. by step_ret. }
  eapply enough_bind; [exact Hver|]. intros ver ->. eapply enough_bind; [apply enough_pointer|]. intros id Hid.
  eapply enough_bind; [apply Hdup|]. intros d ->. cbv zeta. set (low := make_lowercase id).
  apply (enough_bind _ _ (fun d => d = ((fun v => if DISTINCT_VERSIONS then low ++ B "@" ++ v else low) <$>
    (short_version <$> get_string w)))).
  { destruct (get_string w); [|by step_ret]. simpl. step_bind (fun b => b = true). intros b ->. by step_ret. }
  intros ida ->. eapply enough_bind; [apply Hdup|]. intros u ->. destruct (get_string w) as [ver|] eqn:Es; [|apply Hbad].
  cbn [fmap option_fmap option_map]. do 3 (eapply enough_bind; [apply enough_add|]; intros ? ->; cbn [Z.eqb]).
  eapply enough_weaken; [|apply enough_add]. intros ? ->. intros _. exists id, ver.
  unfold text. rewrite Ei, Ew. split_and!; try done. by eapply get_object.
Qed.

Lemma get_fulfilled jso id ver k :
  get_type jso = type_object ->
  object_get_ex (fulfilled jso id ver) k =
    if bool_decide (k ∈ [MANIFEST_ID; MANIFEST_ID_UNDERSCORE; MANIFEST_IDAVER; MANIFEST_VER])
    then object_get_ex (fulfilled jso id ver) k else object_get_ex jso k.
Proof.
  intros Ht. case_bool_decide as Hk; [done|]. unfold fulfilled. rewrite !get_add by (by rewrite ?type_add).
  rewrite !not_elem_of_cons in Hk. destruct Hk as (? & ? & ? & ? & _). by rewrite !bool_decide_eq_false_2.
Qed.

(** ** The whole normal form *)

(** a target before and after *)
Definition normal_target x x' : Prop :=
  has_target x /\ normal_permissions x x' /\
  object_get_ex x' MANIFEST_SHARP_TARGET =
    match object_get_ex x MANIFEST_SHARP_TARGET with
    | Some t => Some t
    | None => object_get_ex x MANIFEST_TARGET
    end.

Lemma adapted_retargeted x x' : has_target x -> adapted (retargeted x) x' -> normal_target x x'.
Proof.
  intros [Ht Hh] (_ & Hn & Hk). split; [done|]. rewrite Hk by done. clear Hk. unfold retargeted in *.
  unfold normal_permissions in *.
  destruct (object_get_ex x MANIFEST_SHARP_TARGET) as [t|] eqn:Es; [by rewrite Es|].
  destruct (object_get_ex x MANIFEST_TARGET) as [t|] eqn:Et.
  - rewrite !get_add in * by done. rewrite bool_decide_eq_false_2 in Hn by done.
    by rewrite bool_decide_eq_true_2.
  - by destruct Hh as [[? ?]|[? ?]].
Qed.

(** a key that is not one of a list *)
Ltac not_key := apply (bool_decide_unpack _); vm_compute; exact I.

(** a manifest before and after *)
Definition normal_manifest j j' : Prop :=
  exists id ver items items',
    text j MANIFEST_ID = Some id /\ text j MANIFEST_VERSION = Some ver /\
    text j' MANIFEST_ID = Some (make_lowercase id) /\
    text j' MANIFEST_ID_UNDERSCORE = Some (dash_to_underscore (make_lowercase id)) /\
    text j' MANIFEST_VER = Some (short_version ver) /\
    text j' MANIFEST_IDAVER =
      Some (if DISTINCT_VERSIONS then make_lowercase id ++ B "@" ++ short_version ver else make_lowercase id) /\
    targets_of j = Some items /\ targets_of j' = Some items' /\ Forall2 normal_target items items' /\
    normal_permissions j j'.

Lemma text_fulfilled jso id ver :
  get_type jso = type_object ->
  let j := fulfilled jso id ver in
  text j MANIFEST_ID = Some (make_lowercase id) /\
  text j MANIFEST_ID_UNDERSCORE = Some (dash_to_underscore (make_lowercase id)) /\
  text j MANIFEST_VER = Some (short_version ver) /\
  text j MANIFEST_IDAVER =
    Some (if DISTINCT_VERSIONS then make_lowercase id ++ B "@" ++ short_version ver else make_lowercase id).
Proof.
  intros Ht. unfold text, fulfilled. cbv zeta. rewrite !get_add by (by rewrite ?type_add).
  by split_and!; rewrite ?bool_decide_eq_false_2, bool_decide_eq_true_2 by done; simpl; rewrite string_new.
Qed.

Lemma manifest_normalize_spec jso :
  enough (manifest_normalize DISTINCT_VERSIONS jso) (fun r => (0 <= r.1)%Z -> normal_manifest jso r.2).
Proof.
  unfold manifest_normalize. eapply enough_bind; [apply fulfill_spec|]. intros [rc j1] K1. simpl in K1.
  destruct (rc <? 0)%Z eqn:E1; [step_ret; simpl; lia|].
  destruct K1 as (id & ver & Hid & Hver & Hobj & ->); [lia|]. set (j1 := fulfilled jso id ver).
  assert (F1 : forall k, k ∉ [MANIFEST_ID; MANIFEST_ID_UNDERSCORE; MANIFEST_IDAVER; MANIFEST_VER] ->
    object_get_ex j1 k = object_get_ex jso k).
  { intros k Hk. unfold j1. rewrite get_fulfilled by done. by rewrite bool_decide_eq_false_2. }
  assert (T1 : targets_of j1 = targets_of jso).
  { unfold targets_of. by rewrite F1 by not_key. }
  unfold retargets. destruct (targets_of j1) as [items|] eqn:Et.
  2: { apply (enough_bind _ _ (fun r => r = ((- EINVAL)%Z, j1))); [by step_ret|]. intros r ->.
       step_ret. simpl. unfold EINVAL. lia. }
  eapply enough_bind; [exact (retargets_loop_spec items [] 0 j1 Et)|]. intros [rc2 j2] K2. simpl in K2.
  destruct (rc2 <? 0)%Z eqn:E2; [step_ret; simpl; lia|].
  destruct K2 as (_ & Hht & T2 & F2); [lia|]. unfold adapt_all_permissions.
  eapply enough_bind; [apply adapt_permissions_of_spec|]. intros [rc3 j3] K3. simpl in K3.
  destruct (rc3 >=? 0)%Z eqn:E3; [|step_ret; simpl; lia]. destruct K3 as [|(_ & Ho2 & K3)]; [lia|].
  assert (K3' : targets_of j3 = targets_of j2 /\ adapted j2 j3).
  { destruct (object_get_ex j2 MANIFEST_REQUIRED_PERMISSIONS) as [in_|] eqn:Ei.
    - destruct K3 as (p & -> & Hc & Hd). split; [|by eapply adapted_put]. unfold targets_of.
      by rewrite get_add, bool_decide_eq_false_2.
    - subst j3. split; [done|by apply adapted_same]. }
  destruct K3' as [T3 (_ & N3 & F3)]. rewrite T3, T2.
  eapply enough_weaken; [|exact (adapt_targets_spec _ [] j3 (eq_trans T3 T2))].
  intros [rc4 j4] K4 Hrc. destruct (K4 Hrc) as (items' & T4 & Ha & F4). simpl in *.
  assert (F : forall k, k <> MANIFEST_TARGETS -> k <> MANIFEST_REQUIRED_PERMISSIONS ->
    object_get_ex j4 k = object_get_ex j1 k).
  { intros k Hk Hp. by rewrite F4, F3, F2. }
  destruct (text_fulfilled jso id ver Hobj) as (X1 & X2 & X3 & X4). fold j1 in X1, X2, X3, X4.
  exists id, ver, items, items'. unfold text in *. rewrite !F by done. split_and!; try done.
  - rewrite Forall2_fmap_l in Ha. clear -H1 Ha Hht. induction Ha; [constructor|].
    apply Forall_cons in Hht as [? ?]. constructor; [by apply adapted_retargeted|auto].
  - unfold normal_permissions in *. rewrite F4 by done. rewrite F2 in N3 by done.
    by rewrite F1 in N3 by not_key.
Qed.

(** ** The check *)

(** the strings that the check accepts *)
Definition valid_text (s : bytes) : Prop := s <> [] /\ Forall (fun c => valid_char c = true) s.

Lemma check_valid_string_spec jso k :
  enough (check_valid_string jso k) (fun rc => rc = 0%Z /\ (exists s, text jso k = Some s /\ valid_text s) \/
    rc = (- EINVAL)%Z).
Proof.
  unfold check_valid_string, text. destruct (object_get_ex jso k) as [v|]; [|by step_ret; right].
  eapply enough_bind; [apply enough_pointer|]. intros s Hs. step_ret. case_bool_decide; [by right|].
  destruct (forallb valid_char s) eqn:E; [left|by right]. split; [done|]. exists s. split; [exact Hs|].
  split; [done|]. rewrite forallb_forall in E. apply Forall_forall. intros c Hc%list_elem_of_In. by apply E.
Qed.

Lemma manifest_check_spec jso :
  enough (manifest_check jso) (fun rc => rc = 0%Z /\ text jso MANIFEST_RP_MANIFEST = Some (B "1") /\
    (exists s, text jso MANIFEST_ID = Some s /\ valid_text s) /\
    (exists s, text jso MANIFEST_VERSION = Some s /\ valid_text s) \/ rc = (- EINVAL)%Z).
Proof.
  unfold manifest_check. apply (enough_bind _ _ (fun rc =>
    rc = 0%Z /\ text jso MANIFEST_RP_MANIFEST = Some (B "1") \/ rc = (- EINVAL)%Z)).
  { unfold text. destruct (object_get_ex jso MANIFEST_RP_MANIFEST) as [v|]; [|by step_ret; right].
    eapply enough_bind; [apply enough_pointer|]. intros s Hs. step_ret. destruct (beq _ s) eqn:E; [left|by right].
    apply beq_true in E. subst s. by split. }
  intros rc [[-> K1]| ->]; cbn [Z.eqb].
  2: { apply (enough_bind _ _ (fun rc => rc = (- EINVAL)%Z)); [by step_ret|]. intros rc ->. by step_ret; right. }
  eapply enough_bind; [apply check_valid_string_spec|]. intros rc [[-> K2]| ->]; [|by step_ret; right].
  eapply enough_weaken; [|apply check_valid_string_spec]. intros rc [[-> K3]| ->]; [left|by right]. done.
Qed.

(** ** Property *)

(** C15: Reading a manifest, when memory does not lack and it succeeds, gives
    the normal form of the value of the file: its identifier and version
    have only allowed characters, the identifier is in lower case, the
    derived strings are there, each target has its key [#target], and the
    permissions, of the manifest and of each target, are an object whose
    keys are exactly the declared permissions, each with its name and a
    value. *)
Theorem manifest_read_normal rd path rc r o :
  manifest_read_and_check DISTINCT_VERSIONS rd path [] = Some ((rc, r), o) -> (0 <= rc)%Z ->
  exists rc0 j j', manifest_read rd path = (rc0, Some j) /\ r = Some j' /\
    text j MANIFEST_RP_MANIFEST = Some (B "1") /\
    (exists id, text j MANIFEST_ID = Some id /\ valid_text id) /\
    (exists ver, text j MANIFEST_VERSION = Some ver /\ valid_text ver) /\
    normal_manifest j j'.
Proof.
  unfold manifest_read_and_check. destruct (manifest_read rd path) as [rc0 [j|]] eqn:Er.
  2: { intros [= <- <- <-] Hrc. unfold manifest_read in Er. destruct (rd path) as [z w].
       destruct (z <? 0)%Z eqn:Ez; [injection Er; lia|]. destruct w; [done|]. injection Er as <-.
       unfold EBADF in Hrc. lia. }
  destruct (rc0 >=? 0)%Z eqn:E0; [|intros [= <- _ _]; lia].
  intros Hrun Hrc. assert (Hq : enough (rc ← manifest_check j;
      '(rc, obj) ← if (rc <? 0)%Z then mret (rc, j) else manifest_normalize DISTINCT_VERSIONS j;
      mret (rc, if (rc <? 0)%Z then None else Some obj)) (fun x => (0 <= x.1)%Z ->
        exists j', x.2 = Some j' /\ text j MANIFEST_RP_MANIFEST = Some (B "1") /\
          (exists id, text j MANIFEST_ID = Some id /\ valid_text id) /\
          (exists ver, text j MANIFEST_VERSION = Some ver /\ valid_text ver) /\ normal_manifest j j')).
  { eapply enough_bind; [apply manifest_check_spec|]. intros rc1 [(-> & K1 & K2 & K3)| ->].
    - cbn [Z.ltb]. eapply enough_bind; [apply manifest_normalize_spec|]. intros [rc2 j'] Hn. step_ret.
      simpl in *. intros Hge. destruct (rc2 <? 0)%Z eqn:E2; [lia|]. exists j'. split_and!; auto.
    - eapply (enough_bind _ _ (fun x => x.1 = (- EINVAL)%Z)); [by step_ret|]. intros [z w] Hz. simpl in Hz.
      subst z. by step_ret. }
  destruct (Hq _ _ Hrun) as [_ Hx]. destruct (Hx Hrc) as (j' & K1 & K2). by exists rc0, j, j'.
Qed.

(** A manifest whose identifier is null is not refused: the check reads the
    string of a null pointer. *)
Lemma manifest_check_null jso v w :
  object_get_ex jso MANIFEST_RP_MANIFEST = Some v -> get_string v = Some (B "1") ->
  object_get_ex jso MANIFEST_ID = Some w -> get_string w = None ->
  manifest_check jso [] = None.
Proof.
  intros K1 K2 K3 K4. unfold manifest_check, check_valid_string. rewrite K1, K2, K3, K4. reflexivity.
Qed.

End Normal.

(** ** Witness *)

#[export] Instance json_make : JsoncMake json := {
  new_string s := JStr s;
  new_object := JObj [];
  pack_permission n v := inr (JObj [(B "name", n); (B "value", v)])
}.

Lemma json_get_add (j : json) k v k' : get_type j = type_object ->
  object_get_ex (object_add j k v) k' = if bool_decide (k' = k) then Some v else object_get_ex j k'.
Proof. destruct j; try done. intros _. apply assoc_replace. Qed.

Lemma json_items_add (j : json) k i k' v a : object_get_ex j k = Some a -> get_type a = type_array ->
  exists a', (forall k0, object_get_ex (item_add j k i k' v) k0 =
                if bool_decide (k0 = k) then Some a' else object_get_ex j k0) /\
    get_type a' = type_array /\ array_items a' = alter (fun x => object_add x k' v) i (array_items a).
Proof.
  destruct j as [| | | | |l]; try done. destruct a as [| | | |items|]; try done. intros Ha _.
  exists (JArr (alter (fun x => json_add x k' v) i items)). split; [|done].
  intros k0. cbn in Ha |- *. rewrite Ha. apply assoc_replace.
Qed.

#[export] Instance json_laws : JsoncLaws json.
Proof.
  split.
  - by intros [].
  - exact json_get_add.
  - by intros [].
  - done.
  - done.
  - done.
  - by intros n v j [= <-].
  - done.
  - exact json_items_add.
Qed.

Definition sample_source : json :=
  JObj [(B "rp-manifest", JStr (B "1")); (B "id", JStr (B "My-App")); (B "version", JStr (B "1.2.3"));
        (B "required-permission", JArr [JStr (B "urn:a"); JObj [(B "name", JStr (B "urn:b")); (B "value", JStr (B "optional"))]]);
        (B "targets", JArr [JObj [(B "target", JStr (B "main"));
           (B "required-permission", JObj [(B "urn:c", JStr (B "required"))])]])].

Definition sample_read (_ : bytes) : Z * option json := (0%Z, Some sample_source).

Definition sample_normal : json :=
  Eval vm_compute in
    match manifest_read_and_check true sample_read (B "/m") [] with Some ((_, Some j), _) => j | _ => JNull end.

Lemma manifest_read_normal_witness :
  manifest_read_and_check true sample_read (B "/m") [] = Some ((0%Z, Some sample_normal), []) /\
  text sample_normal MANIFEST_IDAVER = Some (B "my-app@1.2") /\
  normal_manifest true sample_source sample_normal.
Proof.
  assert (Hrun : manifest_read_and_check true sample_read (B "/m") [] = Some ((0%Z, Some sample_normal), []))
    by (vm_compute; reflexivity).
  split; [exact Hrun|]. split; [vm_compute; reflexivity|].
  destruct (manifest_read_normal true sample_read (B "/m") 0 (Some sample_normal) [] Hrun (Z.le_refl 0))
    as (rc0 & j0 & j1 & Hr & Hj & _ & _ & _ & Hn).
  injection Hj as <-. unfold manifest_read, sample_read in Hr. injection Hr as _ <-. exact Hn.
Defined.

End manifest.
