(* ===== verification/PkgFiles.v ===== *)
(** * The files of a package: first part of [src/src/afmpkg/afmpkg.c]

    The state of the processing of a package, the checks of its manifest
    against the tree of its files, and the computation of the type of each
    file.  The second part, in [Afmpkg], applies the types.

    The entries of the tree are designated by their handle from the top of
    the tree.  The buffer [path] has [PATH_MAX] characters and its string
    is read with [cstring]. *)
From Stdlib Require Import Sorted.
From S2P Require Import Prelude CString Permset PathEntry PathVars PathType UnitFs Afid Package Jsonc.

Module pkg_files.
Export path_entry path_type jsonc.
Import path_vars.
Import package(afmpkg_mode(..)).

(** ** State *)

(** a call of an operation of the back end, with the status it returned *)
Inductive call :=
| Call_begin (appid : option bytes) (mode : afmpkg_mode) (rc : Z)
| Call_tagfile (path : bytes) (tag : path_type) (rc : Z)
| Call_setperm (perm : bytes) (rc : Z)
| Call_setplug (exportdir importid importdir : bytes) (rc : Z)
| Call_setunits (units : list unit_fs.unitdesc) (rc : Z)
| Call_end (status rc : Z).

(** the result of [fstatat] *)
Inductive stat := Stat_error (errno : Z) | Stat_reg | Stat_dir | Stat_other.

Section State.
Context {J C : Type}.

(** The fields of [afmpkg_state_t] that change (the operations and the mode
    are parameters), then what the code reads and changes outside of it: the
    closure of the back end with the calls made to it, the files made
    executable, the outcomes of the allocations, the identifiers in use, the
    template of the units.  [fault] tells that a null pointer was used as a
    string or dereferenced: the process stops there and what the model does
    afterwards has no meaning. *)
Record state := mk_state {
  files : option path_entry;
  rc : Z;
  manifest : option J;
  appid : option bytes;
  permset : option permset.permset_s;
  packdir : handle;
  offset_root : nat;
  offset_pack : nat;
  path : bytes;
  closure : C;
  calls : list call;
  chmods : list bytes;
  mem : oracle;
  afids : afid.manager;
  template : option bytes;
  fault : bool
}.

Definition set_files (s : state) (v : option path_entry) : state :=
  mk_state v (rc s) (manifest s) (appid s) (permset s) (packdir s) (offset_root s) (offset_pack s) (path s) (closure s) (calls s) (chmods s) (mem s) (afids s) (template s) (fault s).
Definition set_rc (s : state) (v : Z) : state :=
  mk_state (files s) v (manifest s) (appid s) (permset s) (packdir s) (offset_root s) (offset_pack s) (path s) (closure s) (calls s) (chmods s) (mem s) (afids s) (template s) (fault s).
Definition set_manifest (s : state) (v : option J) : state :=
  mk_state (files s) (rc s) v (appid s) (permset s) (packdir s) (offset_root s) (offset_pack s) (path s) (closure s) (calls s) (chmods s) (mem s) (afids s) (template s) (fault s).
Definition set_appid (s : state) (v : option bytes) : state :=
  mk_state (files s) (rc s) (manifest s) v (permset s) (packdir s) (offset_root s) (offset_pack s) (path s) (closure s) (calls s) (chmods s) (mem s) (afids s) (template s) (fault s).
Definition set_permset (s : state) (v : option permset.permset_s) : state :=
  mk_state (files s) (rc s) (manifest s) (appid s) v (packdir s) (offset_root s) (offset_pack s) (path s) (closure s) (calls s) (chmods s) (mem s) (afids s) (template s) (fault s).
Definition set_packdir (s : state) (v : handle) : state :=
  mk_state (files s) (rc s) (manifest s) (appid s) (permset s) v (offset_root s) (offset_pack s) (path s) (closure s) (calls s) (chmods s) (mem s) (afids s) (template s) (fault s).
Definition set_offset_root (s : state) (v : nat) : state :=
  mk_state (files s) (rc s) (manifest s) (appid s) (permset s) (packdir s) v (offset_pack s) (path s) (closure s) (calls s) (chmods s) (mem s) (afids s) (template s) (fault s).
Definition set_offset_pack (s : state) (v : nat) : state :=
  mk_state (files s) (rc s) (manifest s) (appid s) (permset s) (packdir s) (offset_root s) v (path s) (closure s) (calls s) (chmods s) (mem s) (afids s) (template s) (fault s).
Definition set_path (s : state) (v : bytes) : state :=
  mk_state (files s) (rc s) (manifest s) (appid s) (permset s) (packdir s) (offset_root s) (offset_pack s) v (closure s) (calls s) (chmods s) (mem s) (afids s) (template s) (fault s).
Definition set_closure (s : state) (v : C) : state :=
  mk_state (files s) (rc s) (manifest s) (appid s) (permset s) (packdir s) (offset_root s) (offset_pack s) (path s) v (calls s) (chmods s) (mem s) (afids s) (template s) (fault s).
Definition set_calls (s : state) (v : list call) : state :=
  mk_state (files s) (rc s) (manifest s) (appid s) (permset s) (packdir s) (offset_root s) (offset_pack s) (path s) (closure s) v (chmods s) (mem s) (afids s) (template s) (fault s).
Definition set_chmods (s : state) (v : list bytes) : state :=
  mk_state (files s) (rc s) (manifest s) (appid s) (permset s) (packdir s) (offset_root s) (offset_pack s) (path s) (closure s) (calls s) v (mem s) (afids s) (template s) (fault s).
Definition set_mem (s : state) (v : oracle) : state :=
  mk_state (files s) (rc s) (manifest s) (appid s) (permset s) (packdir s) (offset_root s) (offset_pack s) (path s) (closure s) (calls s) (chmods s) v (afids s) (template s) (fault s).
Definition set_afids (s : state) (v : afid.manager) : state :=
  mk_state (files s) (rc s) (manifest s) (appid s) (permset s) (packdir s) (offset_root s) (offset_pack s) (path s) (closure s) (calls s) (chmods s) (mem s) v (template s) (fault s).
Definition set_template (s : state) (v : option bytes) : state :=
  mk_state (files s) (rc s) (manifest s) (appid s) (permset s) (packdir s) (offset_root s) (offset_pack s) (path s) (closure s) (calls s) (chmods s) (mem s) (afids s) v (fault s).
Definition set_fault (s : state) (v : bool) : state :=
  mk_state (files s) (rc s) (manifest s) (appid s) (permset s) (packdir s) (offset_root s) (offset_pack s) (path s) (closure s) (calls s) (chmods s) (mem s) (afids s) (template s) v.

(** the entry of the package *)
Definition pack_entry (s : state) : option path_entry := files s ≫= sub (packdir s).

(** writing a text in the path, at an offset *)
Definition put_path (s : state) (offset : nat) (text : bytes) : state :=
  set_path s (take offset (path s) ++ store text (drop offset (path s))).

(** the string that a pointer designates *)
Definition deref (s : state) (p : option bytes) : bytes * state :=
  match p with
  | Some t => (t, s)
  | None => ([], set_fault s true)
  end.

Definition put_state_rc (s : state) (v : Z) : state :=
  if (v <? 0)%Z && (rc s >=? 0)%Z then set_rc s v else s.

End State.
#[global] Arguments state : clear implicits.

Section Files.
Context {J C : Type} `{Jsonc J}.
Abbreviation state := (state J C).

(** ** Types of the entries *)

(** the address of [key_type] *)
Definition key_type : Z := 1.

Definition types : list path_type :=
  [Unset; Default; Conf; Data; Exec; Http; Icon; Id; Lib; Plug; Public; Public_Exec; Public_Lib].
Definition of_value (z : Z) : path_type := default Unset (types !! Z.to_nat z).

Definition get_entry_type (s : state) (entry : handle) : path_type :=
  match files s ≫= sub entry with
  | Some e => of_value (path_entry_var e key_type)
  | None => Unset
  end.

Definition set_entry_type (s : state) (entry : handle) (type : path_type) : Z * state :=
  match files s with
  | None => (0%Z, s)
  | Some top =>
      match sub entry top with
      | None => (0%Z, s)
      | Some e =>
          let '(rc, e', _, o) := path_entry_var_set e key_type (value type) NULL (mem s) in
          (rc, set_mem (set_files s (Some (alter_at (fun x => with_vars x (vars e')) entry top))) o)
      end
  end.

(** ** Iterations *)

(** calls of a function on a list *)
Definition for_all {A} (fun_ : state -> A -> state) (l : list A) (s : state) : state :=
  fold_left fun_ l s.

Definition for_each_of_array (s : state) (obj : option J) (key : bytes) (fun_ : state -> J -> state) : state :=
  match obj ≫= fun j => object_get_ex j key with
  | Some item => for_all fun_ (array_items item) s
  | None => s
  end.

Definition for_each_of_object (s : state) (obj : option J) (key : bytes)
  (fun_ : state -> J * option bytes -> state) : state :=
  match obj ≫= fun j => object_get_ex j key with
  | Some item => for_all fun_ (object_items item) s
  | None => s
  end.

Definition for_each_of_manifest (s : state) (key : bytes) (fun_ : state -> J -> state) : state :=
  for_each_of_array s (manifest s) key fun_.

Definition MANIFEST_TARGETS : bytes := B "targets".
Definition MANIFEST_PLUGS : bytes := B "plugs".
Definition MANIFEST_NAME : bytes := B "name".
Definition MANIFEST_VALUE : bytes := B "value".
Definition MANIFEST_PROVIDED_BINDING : bytes := B "provided-binding".
Definition MANIFEST_FILE_PROPERTIES : bytes := B "file-properties".
Definition MANIFEST_REQUIRED_PERMISSIONS : bytes := B "required-permission".
Definition MANIFEST_REQUIRED_CONFIGS : bytes := B "required-config".
Definition MANIFEST_VALUE_OPTIONAL : bytes := B "optional".
Definition MANIFEST_VALUE_REQUIRED : bytes := B "required".

Definition for_each_target (s : state) (fun_ : state -> J -> state) : state :=
  for_each_of_manifest s MANIFEST_TARGETS fun_.

(** The iteration writes the path of the entry at [offset] in the buffer,
    with its final NUL, before it calls the function. *)
Definition in_buffer (offset : nat) (flgs : Z) (base : handle) (fun_ : state -> handle -> state * Z)
  (s : state) (h : handle) (p : bytes) : state * Z :=
  fun_ (if has_flag flgs PATH_ENTRY_FORALL_NO_PATH then s else put_path s offset (p ++ [NUL])) (base ++ h).

Definition for_each_entry (s : state) (flgs : Z) (fun_ : state -> handle -> state * Z) : state * Z :=
  match pack_entry s with
  | None => (s, 0%Z)
  | Some e =>
      let offset := offset_pack s in
      let offset :=
        if negb (has_flag flgs PATH_ENTRY_FORALL_SILENT_ROOT) then
          let toplen := path_entry_length e in
          if bool_decide (toplen < offset) then offset - (toplen + 1) else offset
        else offset in
      path_entry_for_each_in_buffer flgs (Some e) (in_buffer offset flgs (packdir s) fun_) s
        [] (PATH_MAX - offset)
  end.

Definition for_each_content_entry (s : state) (flgs : Z) (fun_ : state -> handle -> state * Z) : state * Z :=
  for_each_entry s (Z.lor flgs PATH_ENTRY_FORALL_SILENT_ROOT) fun_.

(** the handle in the tree of a path in the package *)
Definition pack_get (s : state) (base : handle) (p : bytes) : option handle :=
  match files s ≫= sub base with
  | None => None
  | Some e => match (path_entry_get e p).2 with Some h => Some (base ++ h) | None => None end
  end.

(** ** Checking permissions *)

Definition check_one_permission_cb (s : state) (item : J * option bytes) : state :=
  let jso := item.1 in
  let '(perm, s) :=
    match get_type jso with
    | type_object =>
        let '(perm, s) :=
          match object_get_ex jso MANIFEST_NAME with
          | None => (None, s)
          | Some name => (if bool_decide (get_type name = type_string) then get_string name else None, s)
          end in
        match object_get_ex jso MANIFEST_VALUE with
        | None => (perm, s)
        | Some v =>
            let '(text, s) := deref s (get_string v) in
            if beq text MANIFEST_VALUE_OPTIONAL then (perm, s)
            else if beq text MANIFEST_VALUE_REQUIRED then (perm, s)
            else (None, s)
        end
    | type_string => (get_string jso, s)
    | _ => (None, s)
    end in
  match perm, permset s with
  | Some perm, Some ps =>
      let '(_, ps, o) := permset.permset_grant ps perm (mem s) in
      let '(_, ps, o) := permset.permset_request ps perm o in
      set_mem (set_permset s (Some ps)) o
  | _, _ => s
  end.

Definition check_permissions_cb (s : state) (jso : J) : state :=
  for_each_of_object s (Some jso) MANIFEST_REQUIRED_PERMISSIONS check_one_permission_cb.

Definition check_permissions (s : state) : Z * state :=
  let s := match manifest s with Some m => check_permissions_cb s m | None => s end in
  (0%Z, for_each_target s check_permissions_cb).

(** ** Checking contents *)
Section Stat.
Context (fstatat : bytes -> stat).

(** the path on disk of an entry of the package and its status *)
Definition stat_entry (s : state) (entry : handle) : (Z + stat) * state :=
  match files s with
  | None => (inl (- ENOENT)%Z, s)
  | Some top =>
      match path_entry_relpath top (Some (rev (packdir s))) PATH_ENTRY_FORCE_LEADING_SLASH (rev entry)
              (drop (offset_pack s) (path s)) (PATH_MAX - offset_pack s) with
      | None => (inl (- ENOENT)%Z, set_fault s true)
      | Some (length, b) =>
          let s := set_path s (take (offset_pack s) (path s) ++ b) in
          if bool_decide (PATH_MAX < length + offset_root s) then (inl (- ENAMETOOLONG)%Z, s)
          else match fstatat (cstring (path s)) with
               | Stat_error errno => (inl (- errno)%Z, s)
               | st => (inr st, s)
               end
      end
  end.

Definition check_src_type_definition (s : state) (src type : bytes) : Z * state :=
  let entry :=
    match pack_get s (packdir s) src with
    | Some e => Some e
    | None => match pack_get s (packdir s) (B "htdocs") with
              | Some h => pack_get s h src
              | None => None
              end
    end in
  match entry with
  | None => ((- ENOENT)%Z, s)
  | Some e =>
      match stat_entry s e with
      | (inl rc, s) => (rc, s)
      | (inr Stat_reg, s) | (inr Stat_dir, s) => (0%Z, s)
      | (inr _, s) => ((- EINVAL)%Z, s)
      end
  end.

Definition is_string (j : J) : bool := bool_decide (get_type j = type_string).

Definition check_target_content (s : state) (target : J) : state :=
  let '(rc, s) :=
    match object_get_ex target (B "content") with
    | None => ((- EINVAL)%Z, s)
    | Some content =>
        if negb (bool_decide (get_type content = type_object)) then ((- EINVAL)%Z, s)
        else match object_get_ex content (B "src") with
        | None => ((- EINVAL)%Z, s)
        | Some src =>
            if negb (is_string src) then ((- EINVAL)%Z, s)
            else match object_get_ex content (B "type") with
            | None => ((- EINVAL)%Z, s)
            | Some type =>
                if negb (is_string type) then ((- EINVAL)%Z, s)
                else
                  let '(src, s) := deref s (get_string src) in
                  let '(type, s) := deref s (get_string type) in
                  check_src_type_definition s src type
            end
        end
    end in
  put_state_rc s rc.

Definition check_config_file (s : state) (src : bytes) : Z * state :=
  match pack_get s (packdir s) src with
  | None => ((- ENOENT)%Z, s)
  | Some e =>
      match stat_entry s e with
      | (inl rc, s) => (rc, s)
      | (inr Stat_reg, s) => (0%Z, s)
      | (inr _, s) => ((- EINVAL)%Z, s)
      end
  end.

Definition check_one_target_config_cb (s : state) (jso : J) : state :=
  let '(rc, s) :=
    if negb (is_string jso) then ((- EINVAL)%Z, s)
    else let '(src, s) := deref s (get_string jso) in check_config_file s src in
  put_state_rc s rc.

Definition check_target_config (s : state) (target : J) : state :=
  match object_get_ex target MANIFEST_REQUIRED_CONFIGS with
  | Some configs => for_all check_one_target_config_cb (optarray_items configs) s
  | None => s
  end.

Definition check_target_cb (s : state) (target : J) : state :=
  check_target_config (check_target_content s target) target.

Definition check_contents (s : state) : Z * state :=
  let s := for_each_target s check_target_cb in (rc s, s).

(** ** Computing the types *)

Definition reset_type_cb (s : state) (entry : handle) : state * Z :=
  let '(rc, s) := set_entry_type s entry Unset in (put_state_rc s rc, 0%Z).

Definition compute_explicit_file_properties_cb (s : state) (jso : J) : state :=
  let '(rc, s) :=
    match object_get_ex jso (B "name"), object_get_ex jso (B "value") with
    | Some name, Some v =>
        let '(name, s) := deref s (get_string name) in
        match pack_get s (packdir s) name with
        | None => ((- ENOENT)%Z, s)
        | Some entry =>
            let '(strval, s) := deref s (get_string v) in
            let type := path_type_of_property_key strval in
            if bool_decide (type = Unset) then ((- EINVAL)%Z, s)
            else
              let prvtype := get_entry_type s entry in
              if bool_decide (prvtype = Unset) then (0%Z, (set_entry_type s entry type).2)
              else if negb (bool_decide (prvtype = type)) then ((- EEXIST)%Z, s)
              else (0%Z, s)
        end
    | _, _ => ((- EINVAL)%Z, s)
    end in
  put_state_rc s rc.

(** the two callbacks that give a type to the entry named at a key *)
Definition give_type (key : bytes) (type : path_type) (s : state) (jso : J) : state :=
  let '(rc, s) :=
    match object_get_ex jso key with
    | Some name =>
        let '(name, s) := deref s (get_string name) in
        match pack_get s (packdir s) name with
        | None => ((- ENOENT)%Z, s)
        | Some entry => (0%Z, (set_entry_type s entry type).2)
        end
    | None => ((- EINVAL)%Z, s)
    end in
  put_state_rc s rc.

Definition compute_implicit_plug_property_cb : state -> J -> state := give_type (B "name") Plug.
Definition compute_provided_binding_property_cb : state -> J -> state := give_type (B "value") Public_Lib.

Definition compute_target_file_properties_cb (s : state) (jso : J) : state :=
  match object_get_ex jso (B "content") with
  | None => s
  | Some content =>
      match object_get_ex content (B "src"), object_get_ex content (B "type") with
      | Some src, Some type =>
          let '(src, s) := deref s (get_string src) in
          match pack_get s (packdir s) src with
          | None => put_state_rc s (- ENOENT)%Z
          | Some entry =>
              if bool_decide (get_entry_type s entry = Unset) then
                let '(type, s) := deref s (get_string type) in
                if mime_type_is_executable type then (set_entry_type s entry Exec).2 else s
              else s
          end
      | _, _ => s
      end
  end.

Definition parent_type (s : state) (entry : handle) : path_type * state :=
  match path_entry_parent entry with
  | Some p => (get_entry_type s p, s)
  | None => (Unset, set_fault s true)
  end.

Definition compute_default_files_properties_cb (s : state) (entry : handle) : state * Z :=
  let '(rc, s) :=
    match fstatat (cstring (path s)) with
    | Stat_error errno => ((- errno)%Z, s)
    | Stat_other => ((- EINVAL)%Z, s)
    | st =>
        let curtype := get_entry_type s entry in
        if negb (bool_decide (curtype = Unset)) then (0%Z, s)
        else
          let curtype :=
            match st with
            | Stat_dir => path_type_of_dirname (default [] (last entry))
            | _ => curtype
            end in
          let '(curtype, s) :=
            if bool_decide (curtype = Unset) then parent_type s entry else (curtype, s) in
          let curtype := if bool_decide (curtype = Unset) then Id else curtype in
          set_entry_type s entry curtype
    end in
  (put_state_rc s rc, rc).

Definition compute_public_files_properties_cb (s : state) (entry : handle) : state * Z :=
  let s :=
    match get_entry_type s entry with
    | Plug =>
        if bool_decide (entry = packdir s) then s
        else match path_entry_parent entry with
             | Some p => if bool_decide (get_entry_type s p = Public) then s
                         else (set_entry_type s p Plug).2
             | None => set_fault s true
             end
    | Public | Public_Exec | Public_Lib =>
        if bool_decide (entry = packdir s) then s
        else match path_entry_parent entry with
             | Some p => (set_entry_type s p Public).2
             | None => set_fault s true
             end
    | _ => s
    end in
  (s, 0%Z).

(** [if (state->rc >= 0) ...] *)
Definition when_ok (f : state -> state) (s : state) : state := if (rc s >=? 0)%Z then f s else s.

Definition compute_files_properties (s : state) : Z * state :=
  let '(v, s) := set_entry_type s (packdir s) Id in
  let s := set_rc s v in
  let s := when_ok (fun s => (for_each_content_entry s PATH_ENTRY_FORALL_NO_PATH reset_type_cb).1) s in
  let s := when_ok (fun s => for_each_of_manifest s MANIFEST_PLUGS compute_implicit_plug_property_cb) s in
  let s := when_ok (fun s => for_each_of_manifest s MANIFEST_PROVIDED_BINDING
                               compute_provided_binding_property_cb) s in
  let s := when_ok (fun s => for_each_of_manifest s MANIFEST_FILE_PROPERTIES
                               compute_explicit_file_properties_cb) s in
  let s := when_ok (fun s => for_each_target s compute_target_file_properties_cb) s in
  let s := when_ok (fun s => (for_each_content_entry s PATH_ENTRY_FORALL_BEFORE
                                compute_default_files_properties_cb).1) s in
  let s := when_ok (fun s => (for_each_entry s (Z.lor PATH_ENTRY_FORALL_AFTER PATH_ENTRY_FORALL_NO_PATH)
                                compute_public_files_properties_cb).1) s in
  (rc s, s).

(** ** Applying the types to the modes of the files *)
Section Chmod.
Context (chmod : bytes -> Z).

(** [chmod] returns 0 or the opposite of [errno] *)
Definition make_file_executable (s : state) (filename : bytes) : Z * state :=
  (chmod filename, set_chmods s (chmods s ++ [filename])).

Definition setup_file_properties_cb (s : state) (entry : handle) : state * Z :=
  let s :=
    match get_entry_type s entry with
    | Public_Exec | Exec =>
        let '(rc, s) := make_file_executable s (cstring (path s)) in put_state_rc s rc
    | _ => s
    end in
  (s, 0%Z).

Definition setup_files_properties (s : state) : Z * state :=
  let s := (for_each_content_entry s 0 setup_file_properties_cb).1 in (rc s, s).

End Chmod.
End Stat.
End Files.

(** ** Order of the visits *)

(** a strict prefix *)
Definition above (h k : handle) : Prop := exists n j, k = h ++ n :: j.

Lemma above_irrefl h : ~ above h h.
Proof. intros (n & j & E). apply (f_equal length) in E. rewrite length_app in E. simpl in E. lia. Qed.

Lemma above_under h k j : above k h -> h `prefix_of` j -> above k j.
Proof. intros (n & i & ->) [x ->]. exists n, (i ++ x). by rewrite <-app_assoc. Qed.

Lemma parent_above k h : path_entry_parent k = Some h -> above h k.
Proof.
  unfold path_entry_parent. destruct k as [|n k _] using rev_ind; [done|].
  destruct (k ++ [n]) eqn:E; [by destruct k|]. rewrite <-E. intros [= <-].
  rewrite removelast_last. by exists n, [].
Qed.

Lemma StronglySorted_app {A} (R : A -> A -> Prop) l l' :
  StronglySorted R l -> StronglySorted R l' -> (forall x y, x ∈ l -> y ∈ l' -> R x y) ->
  StronglySorted R (l ++ l').
Proof.
  induction 1 as [|x l Hl IH Hx]; intros Hl' HR; simpl; [done|]. constructor.
  - apply IH; [done|]. intros y z Hy Hz. apply HR; [by right|done].
  - apply Forall_app. split; [done|]. apply Forall_forall. intros y Hy. apply HR; [by left|done].
Qed.

(** visits below different children are unrelated *)
Lemma siblings_apart (h : handle) (n m : bytes) k k' :
  n <> m -> (h ++ [n]) `prefix_of` k -> (h ++ [m]) `prefix_of` k' -> ~ above k k'.
Proof.
  intros Hn [x ->] [y ->] (z & j & E). rewrite <-!app_assoc in E. apply app_inv_head in E.
  simpl in E. congruence.
Qed.

Section Order.
Context (flgs : Z).

(** in the order of the calls, [after] its children or [before] them *)
Lemma visits_sorted e silent h path :
  wf e ->
  (before flgs = false -> StronglySorted (fun a b => ~ above a.1 b.1) (visits flgs silent e h path)) /\
  (after flgs = false -> StronglySorted (fun a b => ~ above b.1 a.1) (visits flgs silent e h path)).
Proof.
  intros He. revert silent h path. induction e as [n f v l IH] using entry_ind. intros silent h path.
  cbn [visits children]. set (memo := path_in _ _ _ _). set (rec := flat_map _ l).
  assert (Hu : forall x, x ∈ rec -> above h x.1).
  { intros [k p] (c & Hc & Hv)%elem_flat_map. apply visits_under in Hv as [j ->].
    exists (name c), j. simpl. by rewrite <-app_assoc. }
  assert (Hrec : (before flgs = false -> StronglySorted (fun a b => ~ above a.1 b.1) rec) /\
                 (after flgs = false -> StronglySorted (fun a b => ~ above b.1 a.1) rec)).
  { clear Hu. subst rec. clearbody memo. inversion_clear He as [? ? ? ? Hd _ Hw]. revert IH Hd Hw.
    induction l as [|c l IHl]; intros IH Hd Hw; simpl; [split; constructor|].
    inversion_clear IH as [|? ? Hc Hl]. inversion_clear Hw as [|? ? Hwc Hwl].
    simpl in Hd. apply NoDup_cons in Hd as [Hcl Hd].
    destruct (IHl Hl Hd Hwl) as [I1 I2]. destruct (Hc Hwc false (h ++ [name c]) memo) as [J1 J2].
    assert (Hx : forall x y, x ∈ visits flgs false c (h ++ [name c]) memo ->
      y ∈ flat_map (fun child => visits flgs false child (h ++ [name child]) memo) l ->
      ~ above x.1 y.1 /\ ~ above y.1 x.1).
    { intros [k p] [k' p'] Hx (d & Hdl & Hy)%elem_flat_map.
      apply visits_under in Hx, Hy. assert (name c <> name d).
      { intros E. apply Hcl. rewrite E. by apply list_elem_of_fmap_2. }
      split; [eapply (siblings_apart h (name c) (name d))|eapply (siblings_apart h (name d) (name c))]; eauto. }
    split; intros Hf; apply StronglySorted_app; auto; intros x y X Y; by apply (Hx x y X Y). }
  destruct Hrec as [R1 R2]. split; intros Hf; rewrite Hf, ?andb_false_r, ?app_nil_l, ?app_nil_r;
    (destruct (emits _ _ _); simpl; rewrite ?app_nil_r; [|by auto]).
  - destruct (after flgs); simpl; rewrite ?app_nil_r; [|by auto].
    apply StronglySorted_app; [auto|repeat constructor|].
    intros x y X ->%list_elem_of_singleton. simpl. apply Hu in X as Ha. intros Hb.
    destruct Ha as (m & j & E), Hb as (m' & j' & E'). rewrite E in E'.
    apply (f_equal length) in E'. rewrite !length_app in E'. simpl in E'. lia.
  - destruct (before flgs); simpl; rewrite ?app_nil_r; [|by auto]. constructor; [auto|].
    apply Forall_forall. intros x X. simpl. apply Hu in X as Ha. intros Hb.
    destruct Ha as (m & j & E), Hb as (m' & j' & E'). rewrite E in E'.
    apply (f_equal length) in E'. rewrite !length_app in E'. simpl in E'. lia.
Qed.

End Order.

(** an iteration keeps what its function keeps *)
Lemma do_foreach_inv {S} (P : S -> Prop) (f : S -> handle -> bytes -> S * Z) flgs size silent e h p c :
  (forall s h p, P s -> P (f s h p).1) -> P c -> P (do_foreach f flgs size silent e h p c).1.
Proof.
  intros Hf. revert silent h p c. induction e as [n fl v l IH] using entry_ind. intros silent h p c Hc.
  cbn [do_foreach children]. destruct (negb silent && _); [done|].
  set (memo := if silent then p else _). set (emit := negb silent && _).
  assert (H1 : P (if emit && before flgs then f c h memo else (c, 0%Z)).1)
    by (destruct (emit && before flgs); [by apply Hf|done]).
  destruct (if emit && before flgs then _ else _) as [c1 rc1]. simpl in H1.
  match goal with |- context [?F l c1 rc1] => set (loop := F) end.
  assert (H2 : P (loop l c1 rc1).1).
  { clear Hc. revert c1 rc1 H1. induction IH as [|x l Hx Hl IHl]; intros c1 rc1 H1; simpl; [done|].
    destruct (rc1 =? 0)%Z; [|done]. 
    specialize (Hx false (h ++ [name x]) memo c1 H1).
    destruct (do_foreach f flgs size false x _ memo c1) as [c' rc']. by apply IHl. }
  destruct (loop l c1 rc1) as [c2 rc2]. simpl in H2.
  destruct (emit && _ && _); [by apply Hf|done].
Qed.

(** ** Executions of the back end *)

(** the back end, from a closure, answers a call and gives a new closure *)
Class Steps (C : Type) := step : C -> call -> C -> Prop.

(** the execution of a list of calls *)
Inductive runs {C : Type} `{Steps C} : C -> list call -> C -> Prop :=
| runs_nil c : runs c [] c
| runs_cons c x c1 l c2 : step c x c1 -> runs c1 l c2 -> runs c (x :: l) c2.

Lemma runs_app {C} `{Steps C} c l c1 k c2 : runs c l c1 -> runs c1 k c2 -> runs c (l ++ k) c2.
Proof. induction 1; [done|]. intros. simpl. econstructor; eauto. Qed.

Lemma runs_one {C} `{Steps C} c x c1 : step c x c1 -> runs c [x] c1.
Proof. intros. by repeat econstructor. Qed.

Lemma runs_app_inv {C} `{Steps C} c l k c2 : runs c (l ++ k) c2 -> exists c1, runs c l c1 /\ runs c1 k c2.
Proof.
  revert c. induction l as [|x l IH]; intros c Hr; simpl in *; [exists c; split; [constructor|done]|].
  inversion Hr as [|? ? c1 ? ? Hs Hr']; subst. destruct (IH _ Hr') as (c3 & H1 & H2).
  exists c3. split; [by econstructor|done].
Qed.

(** ** What the processing of a package keeps *)
Section Keeps.
Context {J C : Type} `{Jsonc J} {back_end : Steps C}.
Abbreviation state := (state J C).
Implicit Types s : state.

(** calls made between the beginning and the end *)
Definition inner (c : call) : Prop :=
  match c with Call_begin _ _ _ | Call_end _ _ => False | _ => True end.

(** the entry has a variable for its type *)
Definition has_type s (k : handle) : Prop :=
  exists e v, files s ≫= sub k = Some e /\ search_var (vars e) key_type = Some v.

(** the back end was only called as within a transaction, and answered *)
Definition traced s s' : Prop :=
  exists l, calls s' = calls s ++ l /\ Forall inner l /\ runs (closure s) l (closure s').

Lemma traced_same s s' : calls s' = calls s -> closure s' = closure s -> traced s s'.
Proof.
  intros E1 E2. exists []. rewrite app_nil_r, E2. split; [done|]. split; constructor.
Qed.

(** the shape of the tree, the package and the start of the path remain;
    types change in the package only; the calls are those of a transaction *)
Record keeps s s' : Prop := {
  keeps_shape : erase <$> files s' = erase <$> files s;
  keeps_packdir : packdir s' = packdir s;
  keeps_root : offset_root s' = offset_root s;
  keeps_pack : offset_pack s' = offset_pack s;
  keeps_length : length (path s') = length (path s);
  keeps_path : take (offset_root s) (path s') = take (offset_root s) (path s);
  keeps_calls : traced s s';
  keeps_outside k : ~ packdir s `prefix_of` k -> get_entry_type s' k = get_entry_type s k;
  keeps_typed k : has_type s k -> has_type s' k
}.

#[export] Instance keeps_preorder : PreOrder keeps.
Proof.
  split.
  - intros s. split; try done. by apply traced_same.
  - intros s1 s2 s3 [A1 A2 A3 A4 A5 A6 (l & A7 & A7' & A7r) A8 A9] [B1 B2 B3 B4 B5 B6 (k & B7 & B7' & B7r) B8 B9].
    split; try congruence.
    + exists (l ++ k). rewrite B7, A7, app_assoc. split; [done|]. split; [by apply Forall_app|].
      by eapply runs_app.
    + intros j Hj. rewrite B8, A8; [done|done|]. by rewrite A2.
    + auto.
Qed.

(** the path of the package is in the buffer, after the root, and the
    package is in the tree *)
Record good s : Prop := {
  good_length : length (path s) = PATH_MAX;
  good_root : offset_root s <= offset_pack s;
  good_pack : offset_pack s < PATH_MAX;
  good_top top : files s = Some top -> wf top;
  good_entry : exists e, pack_entry s = Some e /\ offset_root s + length (name e) < offset_pack s
}.

Lemma keeps_entry s s' k :
  keeps s s' -> is_Some (files s ≫= sub k) -> is_Some (files s' ≫= sub k).
Proof.
  intros [Hs _ _ _ _ _ _ _ _]. destruct (files s) as [t|], (files s') as [t'|]; simpl in *; try done.
  injection Hs as Hs. eauto using sub_same_shape.
Qed.

Lemma keeps_good s s' : keeps s s' -> good s -> good s'.
Proof.
  intros K [G1 G2 G3 G4 (e & He & Hl)]. pose proof K as [K1 K2 K3 K4 K5 _ _ _ _].
  split; [congruence|by rewrite K3, K4|congruence| |].
  - intros top Ht. rewrite Ht in K1. destruct (files s) as [t|]; [|done]. injection K1 as K1.
    apply wf_erase. rewrite K1. by apply wf_erase, G4.
  - unfold pack_entry in *. rewrite K2, K3, K4. destruct (files s) as [t|], (files s') as [t'|]; try done.
    simpl in *. injection K1 as K1. pose proof (sub_erase (packdir s) t) as E1.
    rewrite <-K1, sub_erase, He in E1. destruct (sub (packdir s) t') as [e'|]; [|done].
    exists e'. split; [done|]. simpl in E1. injection E1 as E1.
    assert (Hn : name e' = name e) by (destruct e, e'; simpl in *; by injection E1).
    by rewrite Hn.
Qed.

Lemma keeps_put_path s offset text :
  offset_root s <= offset -> offset <= length (path s) -> keeps s (put_path s offset text).
Proof.
  intros Ho Hl. split; try done; simpl.
  - rewrite length_app, length_store, length_take, length_drop. lia.
  - rewrite take_app_le by (rewrite length_take; lia). by rewrite take_take, Nat.min_l.
  - by apply traced_same.
Qed.

Lemma keeps_set_rc s v : keeps s (set_rc s v).
Proof. split; try done. by apply traced_same. Qed.

Lemma keeps_put_state_rc s v : keeps s (put_state_rc s v).
Proof. unfold put_state_rc. destruct (_ && _); [apply keeps_set_rc|done]. Qed.

Lemma keeps_deref s p : keeps s (deref s p).2.
Proof. destruct p; simpl; [done|]. split; try done. by apply traced_same. Qed.

(** ** Reading and changing types *)

Lemma of_value_value t : of_value (value t) = t.
Proof. by destruct t. Qed.

Lemma get_type_info s k :
  get_entry_type s k =
  match files s ≫= info k with Some (_, v) => of_value (varval (search_var v key_type)) | None => Unset end.
Proof.
  unfold get_entry_type, info. destruct (files s) as [t|]; simpl; [|done]. by destruct (sub k t).
Qed.

Lemma has_type_info s k :
  has_type s k <-> exists f v x, files s ≫= info k = Some (f, v) /\ search_var v key_type = Some x.
Proof.
  unfold has_type, info. destruct (files s) as [t|]; simpl; [|naive_solver].
  destruct (sub k t) as [e|]; simpl; [|naive_solver]. split.
  - intros (e' & v & [= <-] & Hv). eauto.
  - intros (f & v & x & [= <- <-] & Hv). eauto.
Qed.

(** Giving a type to an entry either changes this type alone, or fails for
    lack of memory and changes nothing; it succeeds when the entry already
    has a type. *)
Lemma set_entry_type_cases s k t v s' :
  is_Some (files s ≫= sub k) -> set_entry_type s k t = (v, s') ->
  erase <$> files s' = erase <$> files s /\
  (exists top o, s' = set_mem (set_files s top) o) /\
  ((v = 0%Z /\ (forall j, get_entry_type s' j = if bool_decide (j = k) then t else get_entry_type s j) /\
    (forall j, has_type s' j <-> j = k \/ has_type s j)) \/
   (v = (- ENOMEM)%Z /\ ~ has_type s k /\ (forall j, get_entry_type s' j = get_entry_type s j) /\
    (forall j, has_type s' j <-> has_type s j))).
Proof.
  intros He. unfold set_entry_type. destruct (files s) as [top|] eqn:Hf; [|by destruct He].
  simpl in He. destruct He as [e He]. rewrite He.
  destruct (path_entry_var_set e key_type (value t) NULL (mem s)) as [[[v1 e'] d] o] eqn:Hv.
  intros [= <- <-]. set (s' := set_mem _ o).
  split; [simpl; by rewrite (erase_alter_vars (fun _ => vars e'))|]. split; [by do 2 eexists|].
  assert (Hi : forall j, files s' ≫= info j =
    if bool_decide (j = k) then Some (flags e, vars e') else info j top).
  { intros j. simpl. rewrite info_alter_at by done. rewrite He. by case_bool_decide. }
  assert (Hik : info k top = Some (flags e, vars e)) by (unfold info; by rewrite He).
  assert (Hg : forall j, get_entry_type s' j =
    if bool_decide (j = k) then of_value (varval (search_var (vars e') key_type)) else get_entry_type s j).
  { intros j. rewrite !get_type_info, Hi, Hf. simpl. by case_bool_decide. }
  assert (Ht : forall j, has_type s' j <->
    if bool_decide (j = k) then is_Some (search_var (vars e') key_type) else has_type s j).
  { intros j. rewrite (has_type_info s'), Hi.
    case_bool_decide as Hj; [|by rewrite has_type_info, Hf].
    split; [intros (f & v & x & [= <- <-] & Hx); by eexists|intros [x Hx]; eauto]. }
  assert (Hk : has_type s k <-> is_Some (search_var (vars e) key_type)).
  { rewrite has_type_info, Hf. simpl. rewrite Hik. split; [intros (f & v & x & [= <- <-] & Hx); by eexists|].
    intros [x Hx]. eauto. }
  unfold path_entry_var_set in Hv. destruct (search_var (vars e) key_type) as [x|] eqn:Hs.
  - injection Hv as <- <- _ _. left. simpl in *.
    rewrite (search_assign (vars e) key_type (value t) NULL) in * by (by rewrite Hs).
    rewrite bool_decide_eq_true_2 in * by done.
    split; [done|]. split.
    + intros j. rewrite Hg. simpl. by rewrite of_value_value.
    + intros j. rewrite Ht. case_bool_decide; naive_solver.
  - destruct (malloc (mem s)) as [[] o']; injection Hv as <- <- _ _; simpl in *.
    + left. split; [done|]. split; [intros j; rewrite Hg; by rewrite of_value_value|].
      intros j. rewrite Ht. case_bool_decide; naive_solver.
    + right. split; [done|]. split; [rewrite Hk; by intros [? ?]|]. rewrite Hs in Hg, Ht. split.
      * intros j. rewrite Hg. case_bool_decide; [|done]. subst j.
        rewrite get_type_info, Hf. simpl. by rewrite Hik, Hs.
      * intros j. rewrite Ht. case_bool_decide; [|done]. subst j. rewrite Hk. done.
Qed.

Lemma set_entry_type_absent s k t :
  files s ≫= sub k = None -> set_entry_type s k t = (0%Z, s).
Proof. unfold set_entry_type. destruct (files s) as [top|]; simpl; [|done]. by intros ->. Qed.

Lemma keeps_set_entry_type s k t :
  packdir s `prefix_of` k -> keeps s (set_entry_type s k t).2.
Proof.
  intros Hk. destruct (files s ≫= sub k) as [e|] eqn:He.
  2: { by rewrite set_entry_type_absent. }
  destruct (set_entry_type s k t) as [v s'] eqn:E.
  destruct (set_entry_type_cases s k t v s' ltac:(by eexists) E) as (H1 & (top & o & ->) & H2).
  simpl in H1. split; try done.
  - by apply traced_same.
  - intros j Hj. destruct H2 as [(_ & -> & _)|(_ & _ & -> & _)]; [|done].
    rewrite bool_decide_eq_false_2; [done|]. by intros ->.
  - intros j Hj. destruct H2 as [(_ & _ & ->)|(_ & _ & _ & ->)]; auto.
Qed.

Lemma set_entry_type_typed s k t :
  has_type s k ->
  (set_entry_type s k t).1 = 0%Z /\ forall j,
  get_entry_type (set_entry_type s k t).2 j = if bool_decide (j = k) then t else get_entry_type s j.
Proof.
  intros Hk. destruct (set_entry_type s k t) as [v s'] eqn:E.
  destruct (set_entry_type_cases s k t v s') as (_ & _ & [(-> & H1 & _)|(_ & H1 & _)]); try done.
  destruct Hk as (e & x & He & _). by eexists.
Qed.

(** ** Operations of a package keep it *)

Lemma for_all_keeps {A} (f : state -> A -> state) l s :
  (forall s x, good s -> keeps s (f s x)) -> good s -> keeps s (for_all f l s).
Proof.
  intros Hf. revert s. induction l as [|x l IH]; intros s Hg; simpl; [done|].
  etrans; [by apply Hf|]. apply IH. eapply keeps_good; eauto.
Qed.

Lemma for_each_of_array_keeps s obj key f :
  (forall s x, good s -> keeps s (f s x)) -> good s -> keeps s (for_each_of_array s obj key f).
Proof. unfold for_each_of_array. destruct (_ ≫= _); [apply for_all_keeps|done]. Qed.

Lemma for_each_of_object_keeps s obj key f :
  (forall s x, good s -> keeps s (f s x)) -> good s -> keeps s (for_each_of_object s obj key f).
Proof. unfold for_each_of_object. destruct (_ ≫= _); [apply for_all_keeps|done]. Qed.

(** the offset at which the paths of an iteration are written *)
Definition entry_offset s (flgs : Z) (e : path_entry) : nat :=
  if negb (has_flag flgs PATH_ENTRY_FORALL_SILENT_ROOT) then
    if bool_decide (path_entry_length e < offset_pack s)
    then offset_pack s - (path_entry_length e + 1) else offset_pack s
  else offset_pack s.

Lemma entry_offset_bounds s flgs e :
  good s -> pack_entry s = Some e ->
  offset_root s <= entry_offset s flgs e <= offset_pack s.
Proof.
  intros [_ G2 _ _ (e' & He & Hl)] He'. rewrite He in He'. injection He' as ->.
  unfold entry_offset, path_entry_length. destruct (has_flag _ _); simpl; [lia|].
  case_bool_decide; lia.
Qed.

Lemma in_buffer_keeps s s' offset flgs f h p :
  good s -> keeps s s' -> offset_root s <= offset <= offset_pack s ->
  (forall s' k, good s' -> packdir s' `prefix_of` k -> keeps s' (f s' k).1) ->
  keeps s (in_buffer offset flgs (packdir s) f s' h p).1.
Proof.
  intros Hg Hk Ho Hf. pose proof (keeps_good _ _ Hk Hg) as Hg'. unfold in_buffer.
  assert (Hp : keeps s' (put_path s' offset (p ++ [NUL]))).
  { apply keeps_put_path; [by rewrite (keeps_root _ _ Hk); lia|].
    rewrite (good_length _ Hg'). pose proof (good_pack _ Hg). lia. }
  destruct (has_flag _ _).
  - etrans; [done|]. apply Hf; [done|]. rewrite (keeps_packdir _ _ Hk). by apply prefix_app_r.
  - etrans; [done|]. etrans; [done|]. apply Hf; [eapply keeps_good; eauto|].
    simpl. rewrite (keeps_packdir _ _ Hk). by apply prefix_app_r.
Qed.

Lemma for_each_entry_keeps s flgs f :
  good s -> (forall s' k, good s' -> packdir s' `prefix_of` k -> keeps s' (f s' k).1) ->
  keeps s (for_each_entry s flgs f).1.
Proof.
  intros Hg Hf. unfold for_each_entry. destruct (pack_entry s) as [e|] eqn:He; [|done].
  pose proof (entry_offset_bounds s flgs e Hg He) as Ho. unfold entry_offset in Ho. cbv zeta.
  apply (do_foreach_inv (keeps s)); [|done]. intros s' h p Hk. by apply in_buffer_keeps.
Qed.

Lemma for_each_content_entry_keeps s flgs f :
  good s -> (forall s' k, good s' -> packdir s' `prefix_of` k -> keeps s' (f s' k).1) ->
  keeps s (for_each_content_entry s flgs f).1.
Proof. apply for_each_entry_keeps. Qed.

Lemma pack_get_Some s base p h :
  pack_get s base p = Some h -> base `prefix_of` h /\ is_Some (files s ≫= sub h).
Proof.
  unfold pack_get, path_entry_get. destruct (files s) as [top|]; simpl; [|done].
  destruct (sub base top) as [e|] eqn:He; [|done]. rewrite get_length_spec. cbv zeta.
  destruct (sub _ e) as [x|] eqn:Hx; simpl; [|done]. intros [= <-].
  split; [by apply prefix_app_r|]. rewrite sub_app, He. simpl. by rewrite Hx.
Qed.

Lemma length_put_name top rh slash offset buffer length :
  List.length (put_name top rh slash offset buffer length).2 = List.length buffer.
Proof.
  unfold put_name. destruct slash; [destruct (bool_decide (offset < length))|];
    simpl; repeat case_bool_decide; simpl; by rewrite ?length_inserts, ?length_insert.
Qed.

Lemma length_relpath top root flgs rh buffer length n b :
  path_entry_relpath top root flgs rh buffer length = Some (n, b) ->
  List.length b = List.length buffer.
Proof.
  revert n b. induction rh as [|x rh IH]; intros n b; simpl; case_bool_decide;
    try (destruct (negb _); intros [= <- <-]; try case_bool_decide; by rewrite ?length_insert).
  - case_bool_decide.
    + destruct (negb _); [by intros [= <- <-]|done].
    + intros [= E]. apply (f_equal snd) in E. simpl in E. rewrite <-E. apply length_put_name.
  - case_bool_decide; [apply IH|]. destruct (at_start _ _ _).
    + intros [= E]. apply (f_equal snd) in E. simpl in E. rewrite <-E. apply length_put_name.
    + destruct (path_entry_relpath _ _ _ rh _ _) as [[o b']|]; [|done].
      intros [= E]. apply (f_equal snd) in E. simpl in E. rewrite <-E, length_put_name. by eapply IH.
Qed.

Lemma stat_entry_keeps fstatat s entry : good s -> keeps s (stat_entry fstatat s entry).2.
Proof.
  intros Hg. unfold stat_entry. destruct (files s) as [top|] eqn:Hf; [|done].
  destruct (path_entry_relpath _ _ _ _ _ _) as [[n b]|] eqn:Hr.
  2: { split; try done. by apply traced_same. }
  apply length_relpath in Hr.
  assert (K : keeps s (set_path s (take (offset_pack s) (path s) ++ b))).
  { destruct Hg as [G1 G2 G3 _ _]. split; try done; simpl.
    - rewrite length_app, Hr, length_take, length_drop. lia.
    - rewrite take_app_le by (rewrite length_take; lia). by rewrite take_take, Nat.min_l.
    - by apply traced_same. }
  destruct (bool_decide _); [done|]. by destruct (fstatat _).
Qed.

End Keeps.

(** Proofs that an operation keeps the package follow its text: the steps
    that change the state are named and their lemma recorded, and the goal
    is a chain of recorded facts. *)
Ltac keep_name t K :=
  let x := fresh "r" in let s := fresh "s" in
  pose proof K; destruct t as [x s]; cbn [fst snd] in *.

Ltac keep_goods :=
  repeat match goal with
  | K : keeps ?s ?s', G : good ?s |- _ =>
      lazymatch goal with
      | _ : good s' |- _ => fail
      | _ => pose proof (keeps_good s s' K G)
      end
  end.

Ltac keep_step :=
  keep_goods;
  match goal with
  | |- keeps _ _ => solve [done]
  | |- keeps ?s (put_state_rc ?s' ?v) => transitivity s'; [|apply keeps_put_state_rc]
  | K : keeps ?s ?s' |- keeps ?s ?s' => exact K
  | K : keeps ?s1 ?s' |- keeps ?s ?s' => transitivity s1; [clear K|exact K]
  | |- context [match pack_get ?s ?b ?p with _ => _ end] =>
      let E := fresh "E" in let h := fresh "h" in
      destruct (pack_get s b p) as [h|] eqn:E; [apply pack_get_Some in E as [? ?]|]
  | |- context [deref ?s ?p] => keep_name (deref s p) (keeps_deref s p)
  | G : good ?s |- context [stat_entry ?f ?s ?e] =>
      keep_name (stat_entry f s e) (stat_entry_keeps f s e G)
  | |- context [match ?x with _ => _ end] =>
      lazymatch x with context [match _ with _ => _ end] => fail | _ => destruct x end
  | |- keeps _ (if ?x then _ else _) => destruct x
  end.

Section Callbacks.
Context {J C : Type} `{Jsonc J} {back_end : Steps C}.
Abbreviation state := (state J C).
Implicit Types s : state.

Lemma check_one_permission_cb_keeps s item : good s -> keeps s (check_one_permission_cb s item).
Proof.
  intros Hg. unfold check_one_permission_cb.
  match goal with |- keeps s (let '(_, _) := ?x in _) => assert (K : keeps s x.2) end.
  { destruct (get_type item.1); try done. destruct (object_get_ex _ MANIFEST_NAME);
      (destruct (object_get_ex _ MANIFEST_VALUE); simpl; [|done]); repeat keep_step. }
  match goal with |- keeps s (let '(_, _) := ?x in _) => destruct x as [p s1] end.
  simpl in K. etrans; [exact K|].
  destruct p as [p|], (permset s1) as [ps|]; try done.
  destruct (permset.permset_grant _ _ _) as [[? ?] o]. destruct (permset.permset_request _ _ _) as [[? ?] ?].
  split; try done. by apply traced_same.
Qed.

Lemma check_permissions_keeps s : good s -> keeps s (check_permissions s).2.
Proof.
  intros Hg. unfold check_permissions. cbn [snd].
  assert (Hcb : forall s x, good s -> keeps s (check_permissions_cb s x)).
  { intros. apply for_each_of_object_keeps; auto using check_one_permission_cb_keeps. }
  destruct (manifest s).
  - etrans; [by apply Hcb|]. apply for_each_of_array_keeps; [done|]. eapply keeps_good; eauto.
  - by apply for_each_of_array_keeps.
Qed.

Lemma check_src_keeps fstatat s src type :
  good s -> keeps s (check_src_type_definition fstatat s src type).2.
Proof. intros Hg. unfold check_src_type_definition. repeat keep_step. Qed.

Lemma check_config_file_keeps fstatat s src : good s -> keeps s (check_config_file fstatat s src).2.
Proof. intros Hg. unfold check_config_file. repeat keep_step. Qed.

Lemma check_target_content_keeps fstatat s t : good s -> keeps s (check_target_content fstatat s t).
Proof.
  intros Hg. unfold check_target_content.
  match goal with |- keeps s (let '(_, _) := ?x in _) => assert (K : keeps s x.2) end.
  { repeat (match goal with |- keeps _ (snd (match ?x with _ => _ end)) =>
      lazymatch x with deref _ _ => fail | _ => destruct x end end; try done).
    repeat keep_step. keep_goods. etrans; [|apply check_src_keeps; done]. repeat keep_step. }
  match goal with |- keeps s (let '(_, _) := ?x in _) => destruct x as [p s1] end.
  simpl in K. etrans; [exact K|]. apply keeps_put_state_rc.
Qed.

Lemma check_target_config_keeps fstatat s t : good s -> keeps s (check_target_config fstatat s t).
Proof.
  intros Hg. unfold check_target_config. destruct (object_get_ex _ _); [|done].
  apply for_all_keeps; [|done]. clear s Hg. intros s x Hg. unfold check_one_target_config_cb.
  destruct (negb _); [apply keeps_put_state_rc|]. keep_step.
  keep_goods. pose proof (check_config_file_keeps fstatat s0 r ltac:(done)) as K.
  destruct (check_config_file _ _ _) as [v s1]. simpl in K. repeat keep_step.
Qed.

Lemma check_contents_keeps fstatat s : good s -> keeps s (check_contents fstatat s).2.
Proof.
  intros Hg. apply for_each_of_array_keeps; [|done]. clear s Hg. intros s t Hg.
  unfold check_target_cb. etrans; [by apply check_target_content_keeps|].
  apply check_target_config_keeps. eapply keeps_good; [|done]. by apply check_target_content_keeps.
Qed.

Lemma reset_type_cb_keeps s k : packdir s `prefix_of` k -> keeps s (reset_type_cb s k).1.
Proof.
  intros Hk. unfold reset_type_cb. pose proof (keeps_set_entry_type s k Unset Hk).
  destruct (set_entry_type s k Unset). simpl in *. repeat keep_step.
Qed.

Lemma give_type_keeps key t s x : good s -> keeps s (give_type key t s x).
Proof.
  intros Hg. unfold give_type. destruct (object_get_ex x key); [|repeat keep_step].
  keep_step. keep_step; [|repeat keep_step]. pose proof (keeps_set_entry_type s0 h t ltac:(done)).
  repeat keep_step.
Qed.

Lemma explicit_keeps s x : good s -> keeps s (compute_explicit_file_properties_cb s x).
Proof.
  intros Hg. unfold compute_explicit_file_properties_cb.
  destruct (object_get_ex x (B "name")), (object_get_ex x (B "value")); try (by repeat keep_step).
  keep_step. keep_step; [|repeat keep_step]. keep_step.
  match goal with K : keeps s0 s1 |- _ => rewrite <-(keeps_packdir _ _ K) in * end.
  set (t := path_type_of_property_key _). pose proof (keeps_set_entry_type s1 h t ltac:(done)).
  repeat keep_step.
Qed.

Lemma target_keeps s x : good s -> keeps s (compute_target_file_properties_cb s x).
Proof.
  intros Hg. unfold compute_target_file_properties_cb.
  destruct (object_get_ex x (B "content")) as [c|]; [|done].
  destruct (object_get_ex c (B "src")), (object_get_ex c (B "type")); try done.
  keep_step. keep_step; [|repeat keep_step]. destruct (bool_decide _); [|repeat keep_step].
  keep_step. match goal with K : keeps s0 s1 |- _ => rewrite <-(keeps_packdir _ _ K) in * end.
  pose proof (keeps_set_entry_type s1 h Exec ltac:(done)). repeat keep_step.
Qed.

Lemma default_cb_keeps fstatat s k :
  packdir s `prefix_of` k -> keeps s (compute_default_files_properties_cb fstatat s k).1.
Proof.
  intros Hk. unfold compute_default_files_properties_cb.
  assert (Hset : forall t s1, keeps s s1 -> keeps s (set_entry_type s1 k t).2).
  { intros t s1 K. etrans; [exact K|]. apply keeps_set_entry_type. by rewrite (keeps_packdir _ _ K). }
  match goal with |- keeps s (fst (let '(_, _) := ?x in _)) => assert (K : keeps s x.2) end.
  { assert (Hp : keeps s (parent_type s k).2).
    { unfold parent_type. destruct (path_entry_parent k); [done|].
      split; try done. by apply traced_same. }
    destruct (parent_type s k) as [pt sp] eqn:Ep. simpl in Hp.
    destruct (fstatat _); try done; destruct (negb _); try done;
      destruct (bool_decide _); try rewrite Ep; auto; by apply Hset. }
  match goal with |- keeps s (fst (let '(_, _) := ?x in _)) => destruct x as [v s1] end.
  simpl in *. repeat keep_step.
Qed.

Lemma parent_under (b k p : handle) :
  b `prefix_of` k -> k <> b -> path_entry_parent k = Some p -> b `prefix_of` p.
Proof.
  intros [j ->] Hne. unfold path_entry_parent. destruct (b ++ j) eqn:E; [done|]. rewrite <-E in Hne |- *.
  clear E.
  intros [= <-]. destruct j as [|x j _] using rev_ind; [by rewrite app_nil_r in Hne|].
  rewrite app_assoc, removelast_last. by apply prefix_app_r.
Qed.

Lemma public_cb_keeps s k :
  packdir s `prefix_of` k -> keeps s (compute_public_files_properties_cb s k).1.
Proof.
  intros Hk. unfold compute_public_files_properties_cb.
  assert (Hset : forall t p, k <> packdir s -> path_entry_parent k = Some p ->
    keeps s (set_entry_type s p t).2).
  { intros t p Hne Hp. apply keeps_set_entry_type. by eapply parent_under. }
  assert (Hf : keeps s (set_fault s true)).
  { split; try done. by apply traced_same. }
  destruct (get_entry_type s k); simpl; try done; case_bool_decide; try done;
    destruct (path_entry_parent k) eqn:Ep; try done; try (by apply Hset).
  case_bool_decide; [done|]. by apply Hset.
Qed.

Lemma when_ok_keeps f s : keeps s (f s) -> keeps s (when_ok f s).
Proof. unfold when_ok. by destruct (_ >=? _)%Z. Qed.

Lemma setup_cb_keeps chmod s k : keeps s (setup_file_properties_cb chmod s k).1.
Proof.
  unfold setup_file_properties_cb.
  assert (keeps s (set_chmods s (chmods s ++ [cstring (path s)]))).
  { split; try done. by apply traced_same. }
  destruct (get_entry_type s k); simpl; try done; repeat keep_step.
Qed.

End Callbacks.

(** ** A sample *)

Fixpoint wfb (e : path_entry) : bool :=
  let 'Entry _ _ _ l := e in
  bool_decide (NoDup (name <$> l)) &&
  forallb (fun c => negb (bool_decide (name c = [])) && forallb not_slash (name c)) l && forallb wfb l.

Lemma wfb_wf e : wfb e = true -> wf e.
Proof.
  induction e as [n f v l IH] using entry_ind. simpl. rewrite !andb_true_iff. intros [[H1 H2] H3].
  rewrite forallb_forall in H2, H3. rewrite Forall_forall in IH.
  constructor; [by apply bool_decide_eq_true in H1| |]; apply Forall_forall; intros c Hc.
  - specialize (H2 c ltac:(by apply list_elem_of_In)). apply andb_true_iff in H2 as [H2 H4].
    apply negb_true_iff, bool_decide_eq_false in H2. split; [done|]. apply Forall_forall. intros x Hx.
    rewrite forallb_forall in H4. apply negb_true_iff. apply H4. by apply list_elem_of_In.
  - apply IH; [done|]. apply H3. by apply list_elem_of_In.
Qed.

(** the tree of some paths *)
Definition tree_of (paths : list bytes) : path_entry :=
  fold_left (fun t p => (path_entry_add t p []).1.2) paths (Entry [] 0 [] []).

Definition sample_tree : path_entry :=
  Eval vm_compute in tree_of [B "/app/.rpconfig/manifest.yml"; B "/app/bin/tool"; B "/app/share/public/doc"].

Definition sample_manifest : json :=
  JObj [(B "id", JStr (B "app"));
        (B "file-properties", JArr [JObj [(B "name", JStr (B "share/public")); (B "value", JStr (B "public"))]])].

Definition sample_state : state json unit :=
  mk_state (Some sample_tree) 0 (Some sample_manifest) None None [B "app"] 0 4
    (B "/app" ++ repeat NUL (PATH_MAX - 4)) () [] [] [] (afid.mk_manager false []) None false.

Definition sample_stat (p : bytes) : stat :=
  if bool_decide (p ∈ [B "/app/.rpconfig"; B "/app/bin"; B "/app/share"; B "/app/share/public"])
  then Stat_dir else Stat_reg.

Lemma sample_good : good sample_state.
Proof.
  split.
  - vm_compute. reflexivity.
  - apply (bool_decide_unpack (0 <= 4)). done.
  - vm_compute. lia.
  - intros top [= <-]. by apply wfb_wf.
  - eexists. split; [vm_compute; reflexivity|]. vm_compute. lia.
Qed.

End pkg_files.
