(* ===== verification/PkgTypes.v ===== *)
(** * The types of the files of a package

    What the passes of [compute_files_properties] (in [PkgFiles]) compute:
    every file of the package gets a type, by default the one of its
    directory, and what is public is reachable through public directories. *)
From Stdlib Require Import Sorted.
From S2P Require Import Prelude CString PathEntry PathVars PathType Package Jsonc PkgFiles.

Module pkg_types.
Import pkg_files.
Import path_vars.

Section Passes.
Context {J C : Type} `{Jsonc J} {back_end : Steps C}.
Abbreviation state := (state J C).
Implicit Types s : state.

(** ** Iterations as runs *)

Lemma run_inv {S} (P : S -> Prop) (f : S -> handle -> bytes -> S * Z) l c :
  (forall x h p, P x -> P (f x h p).1) -> P c -> P (run f l c).1.
Proof.
  intros Hf. revert c. induction l as [|[h p] l IH]; intros c Hc; simpl; [done|].
  pose proof (Hf c h p Hc) as H1. destruct (f c h p) as [c' rc]. simpl in H1.
  destruct (rc =? 0)%Z; [auto|done].
Qed.

Lemma for_each_entry_run s flgs (f : state -> handle -> state * Z) e :
  pack_entry s = Some e ->
  has_flag (order_flags flgs) PATH_ENTRY_FORALL_ABSOLUTE = false ->
  let silent := has_flag (order_flags flgs) PATH_ENTRY_FORALL_SILENT_ROOT in
  fits (order_flags flgs) (PATH_MAX - entry_offset s flgs e) silent e [] = true ->
  for_each_entry s flgs f =
  run (in_buffer (entry_offset s flgs e) flgs (packdir s) f) (visits (order_flags flgs) silent e [] []) s.
Proof.
  intros He Ha silent Hf. unfold for_each_entry. rewrite He. cbv zeta.
  fold (entry_offset s flgs e). unfold path_entry_for_each_in_buffer. fold (order_flags flgs).
  rewrite land_two by (done || by apply Ha). by apply do_foreach_run.
Qed.

(** the name on disk of a path of the package *)
Definition disk s (p : bytes) : bytes := cstring (take (offset_pack s) (path s) ++ p ++ [NUL]).

Lemma cstring_put s offset p :
  offset + length p < length (path s) ->
  cstring (path (put_path s offset (p ++ [NUL]))) = cstring (take offset (path s) ++ p ++ [NUL]).
Proof.
  intros Hl. simpl. unfold store.
  rewrite (take_ge (p ++ [NUL])) by (rewrite length_app, length_drop; simpl; lia).
  unfold cstring. generalize (drop (length (p ++ [NUL])) (drop offset (path s))). intros r.
  rewrite !(assoc_L (++)). generalize (take offset (path s) ++ p). intros q.
  induction q as [|c q IH]; simpl; [done|]. by rewrite IH.
Qed.

(** ** The types that the manifest gives *)

Definition only_set s s' : Prop := forall k, get_entry_type s k <> Unset -> get_entry_type s' k <> Unset.

#[local] Instance only_set_preorder : PreOrder only_set.
Proof. split; [by intros s k|]. intros s1 s2 s3 H1 H2 k Hk. auto. Qed.

Lemma set_only_set s k t : t <> Unset -> only_set s (set_entry_type s k t).2.
Proof.
  intros Ht j Hj. destruct (files s ≫= sub k) as [e|] eqn:He.
  2: { by rewrite set_entry_type_absent. }
  destruct (set_entry_type s k t) as [v s'] eqn:E.
  destruct (set_entry_type_cases s k t v s' ltac:(by eexists) E) as (_ & _ & [(_ & H1 & _)|(_ & _ & H1 & _)]);
    simpl; rewrite H1; [|done]. by case_bool_decide.
Qed.

Lemma put_rc_only_set s s' v : only_set s s' -> only_set s (put_state_rc s' v).
Proof. intros Hs. unfold put_state_rc. destruct (_ && _); exact Hs. Qed.

Lemma deref_only_set s p : only_set s (deref s p).2.
Proof. destruct p; by intros k Hk. Qed.

Lemma for_all_only_set {A} (f : state -> A -> state) l s :
  (forall s x, only_set s (f s x)) -> only_set s (for_all f l s).
Proof.
  intros Hf. revert s. induction l as [|x l IH]; intros s; simpl; [done|]. etrans; [apply Hf|apply IH].
Qed.

Lemma manifest_only_set s key f :
  (forall s x, only_set s (f s x)) -> only_set s (for_each_of_manifest s key f).
Proof.
  unfold for_each_of_manifest, for_each_of_array. destruct (_ ≫= _); [|done].
  apply for_all_only_set.
Qed.

Lemma give_type_only_set key t s x : t <> Unset -> only_set s (give_type key t s x).
Proof.
  intros Ht. unfold give_type. destruct (object_get_ex x key) as [j|]; [|by apply put_rc_only_set].
  pose proof (deref_only_set s (get_string j)) as Hd. destruct (deref s _) as [n s1]. simpl in Hd.
  destruct (pack_get _ _ _); apply put_rc_only_set; [|done]. etrans; [exact Hd|]. by apply set_only_set.
Qed.

Lemma explicit_only_set s x : only_set s (compute_explicit_file_properties_cb s x).
Proof.
  unfold compute_explicit_file_properties_cb.
  destruct (object_get_ex x (B "name")) as [j|], (object_get_ex x (B "value")) as [j'|];
    try (by apply put_rc_only_set).
  pose proof (deref_only_set s (get_string j)) as Hd. destruct (deref s _) as [n s1]. simpl in Hd.
  destruct (pack_get _ _ _) as [h|]; [|by apply put_rc_only_set].
  pose proof (deref_only_set s1 (get_string j')) as Hd'. destruct (deref s1 _) as [t s2]. simpl in Hd'.
  set (ty := path_type_of_property_key t). assert (Hs : only_set s s2) by (by etrans).
  case_bool_decide; [by apply put_rc_only_set|].
  repeat case_bool_decide; apply put_rc_only_set; try done. etrans; [exact Hs|]. by apply set_only_set.
Qed.

Lemma target_only_set s x : only_set s (compute_target_file_properties_cb s x).
Proof.
  unfold compute_target_file_properties_cb. destruct (object_get_ex x (B "content")) as [c|]; [|done].
  destruct (object_get_ex c (B "src")) as [j|], (object_get_ex c (B "type")) as [j'|]; try done.
  pose proof (deref_only_set s (get_string j)) as Hd. destruct (deref s _) as [n s1]. simpl in Hd.
  destruct (pack_get _ _ _) as [h|]; [|by apply put_rc_only_set]. case_bool_decide; [|done].
  pose proof (deref_only_set s1 (get_string j')) as Hd'. destruct (deref s1 _) as [t s2]. simpl in Hd'.
  destruct (mime_type_is_executable t); [|by etrans].
  etrans; [exact Hd|]. etrans; [exact Hd'|]. by apply set_only_set.
Qed.

(** ** The pass that resets the types *)

Lemma put_rc_ok s v : (0 <= rc (put_state_rc s v))%Z -> (0 <= rc s)%Z /\ (0 <= v)%Z.
Proof.
  unfold put_state_rc. destruct (v <? 0)%Z eqn:E1, (rc s >=? 0)%Z eqn:E2; simpl; lia.
Qed.

Lemma in_buffer_no_path offset flgs pd (f : state -> handle -> state * Z) s h p :
  has_flag flgs PATH_ENTRY_FORALL_NO_PATH = true -> in_buffer offset flgs pd f s h p = f s (pd ++ h).
Proof. unfold in_buffer. by intros ->. Qed.

Lemma reset_run offset flgs l s s' v :
  has_flag flgs PATH_ENTRY_FORALL_NO_PATH = true -> good s ->
  (forall k p, (k, p) ∈ l -> is_Some (files s ≫= sub (packdir s ++ k))) ->
  run (in_buffer offset flgs (packdir s) reset_type_cb) l s = (s', v) -> (0 <= rc s')%Z ->
  keeps s s' /\ (0 <= rc s)%Z /\ (forall k p, (k, p) ∈ l -> has_type s' (packdir s ++ k)) /\
  forall j, (forall k, k ∈ l.*1 -> j <> packdir s ++ k) -> get_entry_type s' j = get_entry_type s j.
Proof.
  intros Hnp. revert s. induction l as [|[h p] l IH]; intros s Hg Hin; simpl.
  { intros [= <- <-] Hrc. split_and!; [done|done| |done]. intros k p Hk. by apply elem_of_nil in Hk. }
  rewrite in_buffer_no_path by done.
  pose proof (reset_type_cb_keeps s (packdir s ++ h) ltac:(by apply prefix_app_r)) as K.
  unfold reset_type_cb in *. destruct (set_entry_type s _ Unset) as [v1 s1] eqn:E. simpl in *.
  pose proof (Hin h p ltac:(left)) as Hex.
  destruct (set_entry_type_cases _ _ _ _ _ Hex E) as (_ & (top & o & ->) & Hset).
  set (s1 := set_mem _ o) in *. intros Hrun Hrc. rewrite <-(keeps_packdir _ _ K) in Hrun.
  apply IH in Hrun as (K2 & H2 & H3 & H4); [|by eapply keeps_good| |done].
  2: { intros k q Hk. rewrite (keeps_packdir _ _ K). eapply keeps_entry; [done|]. eapply Hin. by right. }
  apply put_rc_ok in H2 as [H2 Hv]. rewrite (keeps_packdir _ _ K) in H3, H4.
  destruct Hset as [(_ & Hj & Ht)|(-> & _)]; [|unfold ENOMEM in Hv; lia].
  split_and!; [by etrans|exact H2| |].
  - intros k q [[= -> ->]|Hk]%elem_of_cons; [|eauto].
    eapply keeps_typed; [exact K2|]. eapply keeps_typed; [apply keeps_put_state_rc|]. apply Ht. by left.
  - intros j Hn. rewrite H4 by (intros k Hk; apply Hn; by right).
    assert (E' : get_entry_type (put_state_rc s1 v1) j = get_entry_type s1 j)
      by (unfold put_state_rc; by destruct (_ && _)).
    rewrite E', Hj, bool_decide_eq_false_2; [done|]. apply Hn. by left.
Qed.

(** ** The pass of the default types *)

(** the type of a file: the one it has, or else the one of the name of a
    directory, or else the one of the parent directory, or else [Id] *)
Definition default_rule (st : stat) (nm : bytes) (cur parent : path_type) : path_type :=
  let dir := match st with Stat_dir => path_type_of_dirname nm | _ => Unset end in
  if negb (bool_decide (cur = Unset)) then cur
  else if negb (bool_decide (dir = Unset)) then dir
  else if negb (bool_decide (parent = Unset)) then parent
  else Id.

Lemma default_rule_set st nm cur parent : default_rule st nm cur parent <> Unset.
Proof. unfold default_rule. by repeat case_bool_decide. Qed.

Lemma removelast_snoc (pd k : handle) n : removelast (pd ++ k ++ [n]) = pd ++ k.
Proof. by rewrite app_assoc, removelast_last. Qed.

Lemma parent_snoc (pd k : handle) n : path_entry_parent (pd ++ k ++ [n]) = Some (pd ++ k).
Proof.
  unfold path_entry_parent. rewrite removelast_snoc.
  destruct (pd ++ k ++ [n]) eqn:E; [|done]. by destruct pd, k.
Qed.

Lemma last_snoc_handle (pd k : handle) n : last (pd ++ k ++ [n]) = Some n.
Proof. by rewrite app_assoc, last_snoc. Qed.

(** [fstatat] fails with an error number *)
Definition stat_fails (fstatat : bytes -> stat) : Prop :=
  forall p errno, fstatat p = Stat_error errno -> (0 < errno)%Z.

Lemma default_step fstatat s pd k n s' :
  stat_fails fstatat -> has_type s (pd ++ k ++ [n]) ->
  compute_default_files_properties_cb fstatat s (pd ++ k ++ [n]) = (s', 0%Z) ->
  path s' = path s /\
  forall j, get_entry_type s' j =
    if bool_decide (j = pd ++ k ++ [n])
    then default_rule (fstatat (cstring (path s))) n (get_entry_type s j) (get_entry_type s (pd ++ k))
    else get_entry_type s j.
Proof.
  intros Hst Ht. unfold compute_default_files_properties_cb, parent_type.
  rewrite parent_snoc, last_snoc_handle. cbn [default]. set (e := pd ++ k ++ [n]) in *.
  set (st := fstatat _). intros E.
  assert (Hs : (s' = s /\ get_entry_type s e <> Unset) \/
    (s' = (set_entry_type s e (default_rule st n (get_entry_type s e) (get_entry_type s (pd ++ k)))).2)).
  { assert (Hw : forall t, (let '(v, s1) := set_entry_type s e t in (put_state_rc s1 v, v)) = (s', 0%Z) ->
      s' = (set_entry_type s e t).2).
    { intros t. destruct (set_entry_type s e t) as [v s1]. by intros [= <- ->]. }
    unfold default_rule. destruct st as [z| | |] eqn:Est; [|repeat case_bool_decide..|]; simpl in *;
      try congruence; try (right; by apply Hw); try (left; by injection E as <-).
    - injection E as _ E. apply Hst in Est. lia. }
  clear E. destruct Hs as [[-> Hne]|Hs].
  - split; [done|]. intros j. case_bool_decide as Hj; [|done]. subst j. unfold default_rule.
    by rewrite (bool_decide_eq_false_2 (get_entry_type s e = Unset)).
  - pose proof (set_entry_type_typed s e) as Hty. set (t := default_rule _ _ _ _) in Hs.
    destruct (set_entry_type s e t) as [v s1] eqn:E. simpl in Hs. subst s1.
    destruct (set_entry_type_cases s e t v s') as (_ & (top & o & ->) & _); try done.
    { destruct Ht as (x & y & Hx & _). by eexists. }
    split; [done|]. intros j. destruct (Hty t Ht) as [_ Hty']. rewrite E in Hty'. simpl in Hty'.
    rewrite Hty'. case_bool_decide as Hj; [|done]. by subst j.
Qed.

Lemma path_put_rc s v : path (put_state_rc s v) = path s.
Proof. unfold put_state_rc. by destruct (_ && _). Qed.

Lemma take_put_path s offset text : offset <= length (path s) ->
  take offset (path (put_path s offset text)) = take offset (path s).
Proof. intros Hl. simpl. by rewrite take_app_le, take_take, Nat.min_id by (rewrite length_take; lia). Qed.

Lemma default_run fstatat flgs l s s' :
  stat_fails fstatat -> has_flag flgs PATH_ENTRY_FORALL_NO_PATH = false -> good s ->
  NoDup l.*1 -> StronglySorted (fun a b => ~ above b.1 a.1) l ->
  (forall k p, (k, p) ∈ l -> k <> [] /\ has_type s (packdir s ++ k) /\ offset_pack s + length p < PATH_MAX) ->
  run (in_buffer (offset_pack s) flgs (packdir s) (compute_default_files_properties_cb fstatat)) l s
    = (s', 0%Z) ->
  (forall j, (forall k, k ∈ l.*1 -> j <> packdir s ++ k) -> get_entry_type s' j = get_entry_type s j) /\
  (forall k n p, (k ++ [n], p) ∈ l ->
     get_entry_type s' (packdir s ++ k ++ [n]) =
     default_rule (fstatat (disk s p)) n (get_entry_type s (packdir s ++ k ++ [n]))
       (get_entry_type s' (packdir s ++ k))).
Proof.
  intros Hst Hnp. revert s. induction l as [|[h p] l IH]; intros s Hg Hd Hs Hin; simpl.
  { intros [= <-]. split; [done|]. intros k n p Hk. by apply elem_of_nil in Hk. }
  destruct (Hin h p ltac:(left)) as (Hne & Ht & Hlen).
  destruct h as [|n h _] using rev_ind; [done|]. clear Hne.
  pose proof (good_length _ Hg) as HL. pose proof (good_root _ Hg) as HR.
  assert (Kp : keeps s (put_path s (offset_pack s) (p ++ [NUL]))) by (apply keeps_put_path; lia).
  unfold in_buffer at 1. rewrite Hnp. set (sp := put_path s (offset_pack s) (p ++ [NUL])) in *.
  pose proof (default_cb_keeps fstatat sp (packdir s ++ h ++ [n]) ltac:(by apply prefix_app_r)) as Kc.
  destruct (compute_default_files_properties_cb _ _ _) as [s2 v2] eqn:E2. simpl in Kc.
  destruct (v2 =? 0)%Z eqn:Ev; [|intros [= <- ->]; by rewrite Z.eqb_refl in Ev].
  apply Z.eqb_eq in Ev. subst v2.
  apply default_step in E2 as [Hp2 Hg2]; [|done|by eapply keeps_typed].
  assert (K2 : keeps s s2) by (by etrans).
  rewrite fmap_cons in Hd. apply NoDup_cons in Hd as [Hh Hd]. inversion_clear Hs as [|? ? Hs' Hab].
  rewrite Forall_forall in Hab.
  intros Hrun. rewrite <-(keeps_packdir _ _ K2), <-(keeps_pack _ _ K2) in Hrun.
  apply IH in Hrun as [I1 I2]; [|by eapply keeps_good|done|done|].
  2: { intros k q Hk. rewrite (keeps_packdir _ _ K2), (keeps_pack _ _ K2).
       destruct (Hin k q ltac:(by right)) as (? & ? & ?). split_and!; [done| |done].
       by eapply keeps_typed. }
  rewrite (keeps_packdir _ _ K2) in I1, I2.
  assert (Hstat : cstring (path sp) = disk s p) by (apply cstring_put; lia).
  rewrite Hstat in Hg2.
  assert (Hdisk : forall q, disk s2 q = disk s q).
  { intros q. unfold disk. rewrite (keeps_pack _ _ K2), Hp2. unfold sp.
    by rewrite take_put_path by lia. }
  assert (Hnot : forall k, k ∈ l.*1 -> packdir s ++ h ++ [n] <> packdir s ++ k).
  { intros k Hk E. apply app_inv_head in E. by subst k. }
  split.
  - intros j Hj. rewrite I1 by (intros k Hk; apply Hj; by right).
    rewrite Hg2, bool_decide_eq_false_2; [done|]. apply Hj. by left.
  - intros k m q [[= E ->]|Hk]%elem_of_cons.
    + apply app_inj_tail in E as [-> ->]. rewrite I1 by exact Hnot.
      rewrite Hg2, bool_decide_eq_true_2 by done. f_equal.
      rewrite I1.
      * rewrite Hg2, bool_decide_eq_false_2; [done|]. intros E. apply app_inv_head in E.
        apply (f_equal length) in E. rewrite length_app in E. simpl in E. lia.
      * intros k' ([k1 q1] & -> & Hk1)%list_elem_of_fmap E. apply app_inv_head in E. subst h.
        apply (Hab _ Hk1). exists n, []. done.
    + rewrite (I2 _ _ _ Hk), Hdisk, Hg2. rewrite bool_decide_eq_false_2; [done|].
      intros E. apply (Hnot (k ++ [m])); [|done]. by apply (list_elem_of_fmap_2 fst) in Hk.
Qed.

Lemma default_cb_status fstatat s k s' v :
  stat_fails fstatat ->
  compute_default_files_properties_cb fstatat s k = (s', v) -> v = 0%Z \/ (rc s' < 0)%Z.
Proof.
  intros Hst. unfold compute_default_files_properties_cb.
  match goal with |- (let '(_, _) := ?x in _) = _ -> _ => assert (Hx : (x.1 <= 0)%Z); [|destruct x as [v1 s1]] end.
  { assert (Hset : forall t (s1 : state), ((set_entry_type s1 k t).1 <= 0)%Z).
    { intros t s1. destruct (files s1 ≫= sub k) as [e|] eqn:He; [|by rewrite set_entry_type_absent].
      destruct (set_entry_type s1 k t) as [w s2] eqn:E.
      destruct (set_entry_type_cases s1 k t w s2 ltac:(by eexists) E) as (_ & _ & [(-> & _)|(-> & _)]);
        simpl; unfold ENOMEM; lia. }
    destruct (fstatat _) eqn:Est; [apply Hst in Est; simpl; lia| | |unfold EINVAL; simpl; lia];
      destruct (negb _); simpl; try lia; destruct (bool_decide _); try destruct (parent_type s k); apply Hset. }
  simpl in Hx. intros [= <- <-]. destruct (decide (v1 = 0%Z)) as [->|Hv]; [by left|right].
  unfold put_state_rc. destruct (v1 <? 0)%Z eqn:E1, (rc s1 >=? 0)%Z eqn:E2; simpl; lia.
Qed.

Lemma default_run_status fstatat offset flgs pd l s s' v :
  stat_fails fstatat -> (0 <= rc s')%Z ->
  run (in_buffer offset flgs pd (compute_default_files_properties_cb fstatat)) l s = (s', v) -> v = 0%Z.
Proof.
  intros Hst Hrc. revert s. induction l as [|[h p] l IH]; intros s; simpl; [by intros [= _ <-]|].
  unfold in_buffer at 1. destruct (compute_default_files_properties_cb _ _ _) as [s1 v1] eqn:E.
  destruct (v1 =? 0)%Z eqn:Ev; [apply IH|]. intros [= -> ->].
  apply default_cb_status in E as [->|E]; [done|lia|done].
Qed.

(** ** The pass of the public types *)

Definition public_kind (t : path_type) : bool :=
  match t with Public | Public_Exec | Public_Lib => true | _ => false end.

(** the type of a directory, after an entry of it of type [t] *)
Definition bump (t cur : path_type) : path_type :=
  if public_kind t then Public
  else match t with Plug => if bool_decide (cur = Public) then cur else Plug | _ => cur end.

Lemma public_step s k n s' v :
  has_type s (packdir s ++ k) ->
  compute_public_files_properties_cb s (packdir s ++ k ++ [n]) = (s', v) ->
  v = 0%Z /\ forall j, get_entry_type s' j =
    if bool_decide (j = packdir s ++ k)
    then bump (get_entry_type s (packdir s ++ k ++ [n])) (get_entry_type s j) else get_entry_type s j.
Proof.
  intros Ht. unfold compute_public_files_properties_cb.
  rewrite (bool_decide_eq_false_2 (packdir s ++ k ++ [n] = packdir s)).
  2: { intros E. apply (f_equal length) in E. rewrite !length_app in E. simpl in E. lia. }
  rewrite parent_snoc. intros [= <- <-]. split; [done|]. intros j.
  assert (Hset : forall t, get_entry_type (set_entry_type s (packdir s ++ k) t).2 j =
    if bool_decide (j = packdir s ++ k) then t else get_entry_type s j)
    by (intros t; by apply set_entry_type_typed).
  unfold bump. destruct (get_entry_type s (packdir s ++ k ++ [n])); simpl;
    try (apply Hset); try (by case_bool_decide).
  destruct (decide (j = packdir s ++ k)) as [->|Hj].
  - rewrite (bool_decide_eq_true_2 (packdir s ++ k = packdir s ++ k)) in * by done.
    destruct (bool_decide _); [done|apply Hset].
  - rewrite (bool_decide_eq_false_2 (j = packdir s ++ k)) in * by done.
    destruct (bool_decide _); [done|apply Hset].
Qed.

Lemma public_root s s' v :
  compute_public_files_properties_cb s (packdir s ++ []) = (s', v) -> s' = s /\ v = 0%Z.
Proof.
  unfold compute_public_files_properties_cb. rewrite app_nil_r, bool_decide_eq_true_2 by done.
  by destruct (get_entry_type s (packdir s)); intros [= <- <-].
Qed.

Lemma public_run flgs offset l s s' v :
  has_flag flgs PATH_ENTRY_FORALL_NO_PATH = true ->
  StronglySorted (fun a b => ~ above a.1 b.1) l ->
  (forall k n p, (k ++ [n], p) ∈ l -> has_type s (packdir s ++ k)) ->
  run (in_buffer offset flgs (packdir s) compute_public_files_properties_cb) l s = (s', v) ->
  (forall j, get_entry_type s j = Public -> get_entry_type s' j = Public) /\
  (forall j, get_entry_type s j = Plug -> get_entry_type s' j = Plug \/ get_entry_type s' j = Public) /\
  only_set s s' /\
  (forall j, (forall n p, (j ++ [n], p) ∉ l) -> get_entry_type s' (packdir s ++ j) = get_entry_type s (packdir s ++ j)) /\
  (forall k n p, (k ++ [n], p) ∈ l ->
     let t := get_entry_type s' (packdir s ++ k ++ [n]) in
     let d := get_entry_type s' (packdir s ++ k) in
     (public_kind t = true -> d = Public) /\ (t = Plug -> d = Plug \/ d = Public)).
Proof.
  intros Hnp. revert s. induction l as [|[h p] l IH]; intros s Hs Hin; cbn [run].
  { intros [= <- <-]. split_and!; auto; [done|]. intros k n p Hk. by apply elem_of_nil in Hk. }
  rewrite in_buffer_no_path by done.
  destruct (compute_public_files_properties_cb s (packdir s ++ h)) as [s1 v1] eqn:E1.
  inversion_clear Hs as [|? ? Hs' Hab]. rewrite Forall_forall in Hab.
  destruct h as [|m h _] using rev_ind.
  { apply public_root in E1 as [-> ->]. intros Hrun.
    apply IH in Hrun as (I1 & I2 & I3 & I4 & I5); [|done|by intros; eapply Hin; right].
    split_and!; [done..| |].
    - intros j Hj. apply I4. intros n q Hq. apply (Hj n q). by right.
    - intros k n q [[= E ->]|Hk]%elem_of_cons; [by destruct k|eauto]. }
  pose proof (Hin h m p ltac:(left)) as Ht.
  pose proof (public_cb_keeps s (packdir s ++ h ++ [m]) ltac:(by apply prefix_app_r)) as K.
  rewrite E1 in K. simpl in K. apply public_step in E1 as [-> G1]; [|done]. cbn [Z.eqb].
  intros Hrun. rewrite <-(keeps_packdir _ _ K) in Hrun.
  apply IH in Hrun as (I1 & I2 & I3 & I4 & I5); [|done|].
  2: { intros k n q Hk. rewrite (keeps_packdir _ _ K). eapply keeps_typed; [done|].
       eapply Hin. by right. }
  rewrite (keeps_packdir _ _ K) in I4, I5.
  set (pd := packdir s) in *. set (t := get_entry_type s (pd ++ h ++ [m])) in *.
  assert (B1 : forall j, get_entry_type s j = Public -> get_entry_type s1 j = Public).
  { intros j Hj. rewrite G1, Hj. case_bool_decide; [|done]. unfold bump. destruct t; done. }
  assert (B2 : forall j, get_entry_type s j = Plug ->
    get_entry_type s1 j = Plug \/ get_entry_type s1 j = Public).
  { intros j Hj. rewrite G1, Hj. case_bool_decide; [|by left]. unfold bump. destruct t; simpl; auto. }
  split_and!.
  - auto.
  - intros j [Hj|Hj]%B2; auto.
  - etrans; [|exact I3]. intros j Hj. rewrite G1. case_bool_decide; [|done]. unfold bump.
    destruct t; simpl; try done. by case_bool_decide.
  - intros j Hj. rewrite I4, G1, bool_decide_eq_false_2; [done| |].
    + intros E. apply app_inv_head in E. subst j. apply (Hj m p). left.
    + intros n q Hq. apply (Hj n q). by right.
  - intros k n q [[= E ->]|Hk]%elem_of_cons; [|eauto]. apply app_inj_tail in E as [-> ->].
    cbv zeta. assert (Hself : get_entry_type s' (pd ++ h ++ [m]) = t).
    { rewrite I4.
      - rewrite G1, bool_decide_eq_false_2; [done|]. intros E. apply app_inv_head in E.
        apply (f_equal length) in E. rewrite length_app in E. simpl in E. lia.
      - intros n q Hq. apply (Hab _ Hq). simpl. by exists n, []. }
    rewrite Hself. assert (Hd : get_entry_type s1 (pd ++ h) = bump t (get_entry_type s (pd ++ h)))
      by by rewrite G1, bool_decide_eq_true_2.
    split; intros Hk.
    + apply I1. rewrite Hd. unfold bump. by rewrite Hk.
    + rewrite Hk in Hd. unfold bump in Hd. simpl in Hd. case_bool_decide as Hc; [|auto].
      right. apply I1. by rewrite Hd.
Qed.

(** ** The whole computation *)

(** the package after operations that keep it *)
Lemma keeps_pack_entry s s' e :
  keeps s s' -> pack_entry s = Some e -> exists e', pack_entry s' = Some e' /\ erase e' = erase e.
Proof.
  intros [K1 K2 _ _ _ _ _ _ _]. unfold pack_entry. rewrite K2.
  destruct (files s) as [t|], (files s') as [t'|]; simpl in *; try done. injection K1 as K1. intros He.
  pose proof (sub_erase (packdir s) t) as E. rewrite <-K1, sub_erase, He in E.
  destruct (sub (packdir s) t') as [e'|]; [|done]. exists e'. split; [done|]. by injection E.
Qed.

Lemma pack_entry_sub s e k : pack_entry s = Some e -> files s ≫= sub (packdir s ++ k) = sub k e.
Proof.
  unfold pack_entry. destruct (files s) as [t|]; simpl; [|done]. rewrite sub_app. by intros ->.
Qed.

Lemma pack_entry_wf s e : good s -> pack_entry s = Some e -> wf e.
Proof.
  intros Hg. unfold pack_entry. destruct (files s) as [t|] eqn:Ef; simpl; [|done].
  intros He. eapply wf_sub; [|done]. by apply (good_top _ Hg).
Qed.

(** the visits of a pass: the entries of the package, with its top or not *)
Lemma visited flgs silent e k :
  wf e -> (before flgs || after flgs) = true -> only_added flgs = false ->
  k ∈ (visits flgs silent e [] []).*1 <-> is_Some (sub k e) /\ (silent = true -> k <> []).
Proof.
  intros Hwf Hba Ho. rewrite list_elem_of_fmap. split.
  - intros ([k' p] & -> & Hv). apply visits_elem in Hv as (j & x & -> & Hs & Hm & _); [|done..].
    simpl. split; [by eexists|]. intros -> ->. by unfold emits in Hm; rewrite bool_decide_eq_true_2 in Hm.
  - intros [[x Hx] Hk]. exists (k, path_text flgs k e (path_in flgs silent [] e)). split; [done|].
    apply visits_elem; [done..|]. exists k, x. split_and!; try done. unfold emits. rewrite Ho. simpl.
    rewrite andb_true_r. destruct silent; [|done]. simpl. rewrite bool_decide_eq_false_2; auto.
Qed.

Definition FORALL_CONTENT : Z := Z.lor PATH_ENTRY_FORALL_BEFORE PATH_ENTRY_FORALL_SILENT_ROOT.

Lemma default_pass fstatat s e s' v :
  stat_fails fstatat -> good s -> pack_entry s = Some e ->
  (forall k, is_Some (sub k e) -> has_type s (packdir s ++ k)) ->
  fits FORALL_CONTENT (PATH_MAX - offset_pack s) true e [] = true ->
  for_each_content_entry s PATH_ENTRY_FORALL_BEFORE (compute_default_files_properties_cb fstatat) = (s', v) ->
  (0 <= rc s')%Z ->
  v = 0%Z /\ get_entry_type s' (packdir s) = get_entry_type s (packdir s) /\
  forall k n, is_Some (sub (k ++ [n]) e) ->
    get_entry_type s' (packdir s ++ k ++ [n]) =
    default_rule (fstatat (disk s (path_text FORALL_CONTENT (k ++ [n]) e []))) n
      (get_entry_type s (packdir s ++ k ++ [n])) (get_entry_type s' (packdir s ++ k)).
Proof.
  intros Hst Hg He Ht Hfit. unfold for_each_content_entry. fold FORALL_CONTENT.
  rewrite (for_each_entry_run s FORALL_CONTENT _ e He eq_refl Hfit).
  change (order_flags _) with FORALL_CONTENT. change (has_flag FORALL_CONTENT _) with true.
  change (entry_offset s _ e) with (offset_pack s). intros Hrun Hrc.
  pose proof (default_run_status _ _ _ _ _ _ _ _ Hst Hrc Hrun) as ->.
  pose proof (pack_entry_wf _ _ Hg He) as Hwf.
  apply default_run in Hrun as [H1 H2]; [|done|done|done|by apply visits_NoDup| |].
  - split_and!; [done| |].
    + apply H1. intros k Hk E. apply (visited FORALL_CONTENT true e k Hwf eq_refl eq_refl) in Hk as [_ Hk].
      apply (Hk eq_refl). destruct k as [|x k]; [done|]. apply (f_equal length) in E. 
      rewrite length_app in E. simpl in E. lia.
    + intros k n [x Hx]. apply H2. apply visits_elem; [done..|]. exists (k ++ [n]), x.
      split_and!; try done. unfold emits. rewrite bool_decide_eq_false_2; [done|]. by destruct k.
  - by apply visits_sorted.
  - intros k p Hv. pose proof (visits_fit _ _ _ _ _ _ _ _ Hfit eq_refl ltac:(done) Hwf Hv) as Hl.
    assert (Hk : k ∈ (visits FORALL_CONTENT true e [] []).*1) by (by apply (list_elem_of_fmap_2 fst) in Hv).
    apply (visited FORALL_CONTENT true e k Hwf eq_refl eq_refl) in Hk as [Hk Hk']. split_and!; auto.
    change (entry_offset s _ e) with (offset_pack s) in Hl. lia.
Qed.

Lemma when_ok_inv f s :
  (0 <= rc (when_ok f s))%Z -> (0 <= rc s)%Z /\ when_ok f s = f s.
Proof. unfold when_ok. destruct (rc s >=? 0)%Z eqn:E; [|lia]. intros _. split; [lia|done]. Qed.

Definition FORALL_RESET : Z :=
  Z.lor (Z.lor PATH_ENTRY_FORALL_NO_PATH PATH_ENTRY_FORALL_SILENT_ROOT) PATH_ENTRY_FORALL_AFTER.
Definition FORALL_PUBLIC : Z := Z.lor PATH_ENTRY_FORALL_AFTER PATH_ENTRY_FORALL_NO_PATH.

Lemma reset_pass s e :
  good s -> pack_entry s = Some e ->
  let s' := (for_each_content_entry s PATH_ENTRY_FORALL_NO_PATH reset_type_cb).1 in
  (0 <= rc s')%Z -> has_type s (packdir s) ->
  keeps s s' /\ get_entry_type s' (packdir s) = get_entry_type s (packdir s) /\
  forall k, is_Some (sub k e) -> has_type s' (packdir s ++ k).
Proof.
  intros Hg He s'. subst s'. unfold for_each_content_entry.
  set (fl := Z.lor PATH_ENTRY_FORALL_NO_PATH PATH_ENTRY_FORALL_SILENT_ROOT).
  rewrite (for_each_entry_run s fl _ e He eq_refl) by (by apply fits_no_path).
  change (order_flags fl) with FORALL_RESET. change (has_flag FORALL_RESET _) with true.
  pose proof (pack_entry_wf _ _ Hg He) as Hwf.
  pose proof (fun k => visited FORALL_RESET true e k Hwf eq_refl eq_refl) as Hvis.
  destruct (run _ _ s) as [s' v] eqn:Hrun. cbn [fst]. intros Hrc Hpd.
  apply reset_run in Hrun as (K & _ & H1 & H2); [|done|done| |done].
  2: { intros k p Hv. rewrite (pack_entry_sub _ _ _ He). apply (list_elem_of_fmap_2 fst), Hvis in Hv.
       by destruct Hv. }
  split_and!; [done| |].
  - apply H2. intros k Hk E. apply Hvis in Hk as [_ Hk]. apply (Hk eq_refl).
    destruct k as [|x k]; [done|]. apply (f_equal length) in E. rewrite length_app in E. simpl in E. lia.
  - intros k Hk. destruct (decide (k = [])) as [->|Hne].
    + rewrite app_nil_r. by eapply keeps_typed.
    + assert (Hin : k ∈ (visits FORALL_RESET true e [] []).*1) by (by apply Hvis).
      apply list_elem_of_fmap in Hin as ([k' p] & -> & Hin). by eapply H1.
Qed.

Lemma public_pass s e :
  good s -> pack_entry s = Some e -> (forall k, is_Some (sub k e) -> has_type s (packdir s ++ k)) ->
  let s' := (for_each_entry s FORALL_PUBLIC compute_public_files_properties_cb).1 in
  only_set s s' /\
  forall k n, is_Some (sub (k ++ [n]) e) ->
    let t := get_entry_type s' (packdir s ++ k ++ [n]) in
    let d := get_entry_type s' (packdir s ++ k) in
    (public_kind t = true -> d = Public) /\ (t = Plug -> d = Plug \/ d = Public).
Proof.
  intros Hg He Ht s'. subst s'.
  rewrite (for_each_entry_run s FORALL_PUBLIC _ e He eq_refl) by (by apply fits_no_path).
  change (order_flags FORALL_PUBLIC) with FORALL_PUBLIC. change (has_flag FORALL_PUBLIC _) with false.
  pose proof (pack_entry_wf _ _ Hg He) as Hwf.
  pose proof (fun k => visited FORALL_PUBLIC false e k Hwf eq_refl eq_refl) as Hvis.
  destruct (run _ _ s) as [s' v] eqn:Hrun. cbn [fst].
  apply public_run in Hrun as (_ & _ & H1 & _ & H2); [|done|by apply visits_sorted|].
  - split; [done|]. intros k n Hk. assert (Hin : k ++ [n] ∈ (visits FORALL_PUBLIC false e [] []).*1).
    { by apply Hvis. }
    apply list_elem_of_fmap in Hin as ([k' p] & E & Hin). simpl in E. subst k'. by eapply H2.
  - intros k n p Hv. apply (list_elem_of_fmap_2 fst), Hvis in Hv as [[x Hx] _]. apply Ht.
    simpl in Hx. rewrite sub_app in Hx. by destruct (sub k e).
Qed.

(** the steps of [compute_files_properties] after the first *)
Definition steps (fstatat : bytes -> stat) : list (state -> state) :=
  [ (fun s => (for_each_content_entry s PATH_ENTRY_FORALL_NO_PATH reset_type_cb).1);
    (fun s => for_each_of_manifest s MANIFEST_PLUGS compute_implicit_plug_property_cb);
    (fun s => for_each_of_manifest s MANIFEST_PROVIDED_BINDING compute_provided_binding_property_cb);
    (fun s => for_each_of_manifest s MANIFEST_FILE_PROPERTIES compute_explicit_file_properties_cb);
    (fun s => for_each_target s compute_target_file_properties_cb);
    (fun s => (for_each_content_entry s PATH_ENTRY_FORALL_BEFORE
                 (compute_default_files_properties_cb fstatat)).1);
    (fun s => (for_each_entry s (Z.lor PATH_ENTRY_FORALL_AFTER PATH_ENTRY_FORALL_NO_PATH)
                 compute_public_files_properties_cb).1) ].

Lemma steps_keep fstatat s f : good s -> f ∈ steps fstatat -> keeps s (f s).
Proof.
  intros Hg. unfold steps. rewrite !elem_of_cons, elem_of_nil.
  intros [->|[->|[->|[->|[->|[->|[->|[]]]]]]]].
  - apply for_each_content_entry_keeps; [done|]. intros. by apply reset_type_cb_keeps.
  - apply for_each_of_array_keeps; [|done]. intros. by apply give_type_keeps.
  - apply for_each_of_array_keeps; [|done]. intros. by apply give_type_keeps.
  - apply for_each_of_array_keeps; [|done]. intros. by apply explicit_keeps.
  - apply for_each_of_array_keeps; [|done]. intros. by apply target_keeps.
  - apply for_each_content_entry_keeps; [done|]. intros. by apply default_cb_keeps.
  - apply for_each_entry_keeps; [done|]. intros. by apply public_cb_keeps.
Qed.

Definition do_steps (l : list (state -> state)) s : state := fold_left (fun s f => when_ok f s) l s.

Lemma compute_steps fstatat s :
  compute_files_properties fstatat s =
  let '(v, s1) := set_entry_type s (packdir s) Id in
  let s' := do_steps (steps fstatat) (set_rc s1 v) in (rc s', s').
Proof. reflexivity. Qed.

Lemma do_steps_keep fstatat l s :
  (forall f, f ∈ l -> f ∈ steps fstatat) -> good s -> keeps s (do_steps l s).
Proof.
  revert s. induction l as [|f l IH]; intros s Hl Hg; [done|].
  assert (K : keeps s (when_ok f s)) by (apply when_ok_keeps, steps_keep with fstatat; [done|apply Hl; left]).
  etrans; [exact K|]. apply IH; [|by eapply keeps_good]. intros g Hgl. apply Hl. by right.
Qed.

Lemma compute_files_properties_keeps fstatat s :
  good s -> keeps s (compute_files_properties fstatat s).2.
Proof.
  intros Hg. rewrite compute_steps.
  pose proof (keeps_set_entry_type s (packdir s) Id ltac:(done)) as K.
  destruct (set_entry_type s (packdir s) Id) as [v s1]. simpl in K. cbn [snd].
  assert (K1 : keeps s (set_rc s1 v)) by (etrans; [exact K|apply keeps_set_rc]).
  etrans; [exact K1|]. apply (do_steps_keep fstatat); [done|]. by eapply keeps_good.
Qed.

(** a negative status makes the rest of the steps do nothing *)
Lemma do_steps_ok (l : list (state -> state)) s : (0 <= rc (do_steps l s))%Z -> (0 <= rc s)%Z.
Proof.
  revert s. induction l as [|f l IH]; intros s; [done|].
  intros Hrc. apply IH in Hrc. by apply when_ok_inv in Hrc as [? _].
Qed.

Lemma do_steps_cons f (l : list (state -> state)) s :
  (0 <= rc (do_steps (f :: l) s))%Z -> do_steps (f :: l) s = do_steps l (f s) /\ (0 <= rc (f s))%Z.
Proof.
  intros Hrc. pose proof (do_steps_ok l _ Hrc) as Hw. apply when_ok_inv in Hw as [_ Hw].
  unfold do_steps in *. cbn [fold_left] in *. rewrite Hw in *. split; [done|]. by apply do_steps_ok in Hrc.
Qed.

Lemma do_steps_app (l l' : list (state -> state)) s : do_steps (l ++ l') s = do_steps l' (do_steps l s).
Proof. apply fold_left_app. Qed.

(** the steps from the plugs to the targets only give types *)
Lemma manifest_steps_set fstatat s : only_set s (do_steps (take 4 (drop 1 (steps fstatat))) s).
Proof.
  assert (Hall : Forall (fun f => forall s, only_set s (f s)) (take 4 (drop 1 (steps fstatat)))).
  { repeat constructor; intros s0; apply manifest_only_set; intros s1 x;
      [by apply give_type_only_set|by apply give_type_only_set|apply explicit_only_set|apply target_only_set]. }
  revert s. induction Hall as [|f l Hf _ IH]; intros s; [done|].
  etrans; [|apply IH]. unfold when_ok. destruct (_ >=? _)%Z; [apply Hf|done].
Qed.

Lemma first_step s e v s1 :
  good s -> pack_entry s = Some e -> set_entry_type s (packdir s) Id = (v, s1) -> (0 <= v)%Z ->
  keeps s (set_rc s1 v) /\ has_type (set_rc s1 v) (packdir s) /\
  get_entry_type (set_rc s1 v) (packdir s) = Id.
Proof.
  intros Hg He E Hv. pose proof (keeps_set_entry_type s (packdir s) Id ltac:(done)) as K.
  rewrite E in K. simpl in K. split; [etrans; [exact K|apply keeps_set_rc]|].
  pose proof (set_entry_type_cases s (packdir s) Id v s1 ltac:(by eexists) E) as (_ & _ & [(_ & H1 & H2)|(-> & _)]);
    [|unfold ENOMEM in Hv; lia].
  split; [apply H2; by left|]. change (get_entry_type s1 (packdir s) = Id).
  by rewrite H1, bool_decide_eq_true_2.
Qed.

(** the last two steps *)
Lemma last_steps fstatat b e :
  stat_fails fstatat -> good b -> pack_entry b = Some e ->
  (forall k, is_Some (sub k e) -> has_type b (packdir b ++ k)) -> get_entry_type b (packdir b) <> Unset ->
  fits FORALL_CONTENT (PATH_MAX - offset_pack b) true e [] = true ->
  let d := do_steps (drop 5 (steps fstatat)) b in
  (0 <= rc d)%Z ->
  (forall k, is_Some (sub k e) -> get_entry_type d (packdir b ++ k) <> Unset) /\
  (forall k n, is_Some (sub (k ++ [n]) e) ->
     let t := get_entry_type d (packdir b ++ k ++ [n]) in
     let p := get_entry_type d (packdir b ++ k) in
     (public_kind t = true -> p = Public) /\ (t = Plug -> p = Plug \/ p = Public)).
Proof.
  intros Hst Gb Heb Tb Ub Hfb. cbv zeta.
  change (drop 5 (steps fstatat)) with
    [(fun s : state => (for_each_content_entry s PATH_ENTRY_FORALL_BEFORE
                 (compute_default_files_properties_cb fstatat)).1);
     (fun s : state => (for_each_entry s FORALL_PUBLIC compute_public_files_properties_cb).1)].
  intros Hv. apply do_steps_cons in Hv as Hc. destruct Hc as [Ec Hc]. rewrite Ec in *. clear Ec.
  pose proof (for_each_content_entry_keeps b PATH_ENTRY_FORALL_BEFORE _ Gb
    (fun s' k _ Hk => default_cb_keeps fstatat s' k Hk)) as Kc.
  destruct (for_each_content_entry b _ _) as [c w] eqn:Erun. cbn [fst] in *.
  destruct (default_pass fstatat b e c w Hst Gb Heb Tb Hfb Erun Hc) as (_ & Ic & Dc).
  apply do_steps_cons in Hv as Hd. destruct Hd as [Ed Hd]. rewrite Ed in *. clear Ed.
  pose proof (keeps_good _ _ Kc Gb) as Gc. pose proof (keeps_packdir _ _ Kc) as Pc.
  destruct (keeps_pack_entry _ _ _ Kc Heb) as (ec & Hec & Eec).
  destruct (public_pass c ec Gc Hec) as [Sd Dd].
  { intros k Hk. rewrite Pc. eapply keeps_typed, Tb; [exact Kc|]. eapply sub_same_shape; eauto. }
  rewrite Pc in Dd. split.
  - intros k Hk. apply Sd. destruct k as [|n k _] using rev_ind; [by rewrite app_nil_r, Ic|].
    rewrite Dc by done. apply default_rule_set.
  - intros k n Hk. apply Dd. eapply sub_same_shape; [|done]. done.
Qed.

End Passes.

(** ** Properties

    The types do not depend on the executions of the back end: any will do
    in their proofs. *)
Section Properties.
Context {J C : Type} `{Jsonc J}.
Abbreviation state := (state J C).
Implicit Types s : state.

#[local] Instance any_steps D : Steps D := fun _ _ _ => True.

(** C9: when [compute_files_properties] succeeds, every file of the package
    has a type; a public file is in a public directory, and so on up to the
    directory of the package; a plug is in a directory that is a plug or
    public; types out of the package are unchanged. *)
Theorem compute_types fstatat s e s' v :
  stat_fails fstatat -> good s -> pack_entry s = Some e ->
  fits FORALL_CONTENT (PATH_MAX - offset_pack s) true e [] = true ->
  compute_files_properties fstatat s = (v, s') -> (0 <= v)%Z ->
  (forall k, is_Some (sub k e) -> get_entry_type s' (packdir s ++ k) <> Unset) /\
  (forall k n, is_Some (sub (k ++ [n]) e) ->
     let t := get_entry_type s' (packdir s ++ k ++ [n]) in
     let d := get_entry_type s' (packdir s ++ k) in
     (public_kind t = true -> d = Public) /\ (t = Plug -> d = Plug \/ d = Public)) /\
  (forall j, ~ packdir s `prefix_of` j -> get_entry_type s' j = get_entry_type s j).
Proof.
  intros Hst Hg He Hfit Hc Hv.
  pose proof (compute_files_properties_keeps fstatat s Hg) as K. rewrite Hc in K. simpl in K.
  rewrite compute_steps in Hc. destruct (set_entry_type s (packdir s) Id) as [v0 s0] eqn:E0.
  pose proof (f_equal fst Hc) as Hv'. apply (f_equal snd) in Hc. cbn [fst snd] in Hc, Hv'. subst v s'.
  pose proof (do_steps_ok _ _ Hv) as Hv0. change (rc (set_rc s0 v0)) with v0 in Hv0.
  destruct (first_step s e v0 s0 Hg He E0 Hv0) as (K0 & T0 & I0).
  set (s1 := set_rc s0 v0) in *. clearbody s1. clear s0 v0 E0 Hv0.
  pose proof (keeps_good _ _ K0 Hg) as G1. pose proof (keeps_packdir _ _ K0) as P1.
  destruct (keeps_pack_entry _ _ _ K0 He) as (e1 & He1 & Ee1). rewrite <-P1 in T0, I0.
  (** the reset *)
  change (steps fstatat) with
    ((fun s : state => (for_each_content_entry s PATH_ENTRY_FORALL_NO_PATH reset_type_cb).1)
      :: take 4 (drop 1 (steps fstatat)) ++ drop 5 (steps fstatat)) in *.
  apply do_steps_cons in Hv as Ha. destruct Ha as [Ea Ha]. rewrite Ea in *. clear Ea.
  destruct (reset_pass s1 e1 G1 He1 Ha T0) as (Ka & Ia & Ta). rewrite I0 in Ia.
  set (a := fst (for_each_content_entry s1 _ _)) in *. clearbody a. clear Ha T0 I0.
  (** the manifest *)
  rewrite do_steps_app in *. pose proof (manifest_steps_set fstatat a) as Sb.
  pose proof (keeps_good _ _ Ka G1) as Ga.
  pose proof (do_steps_keep fstatat (take 4 (drop 1 (steps fstatat))) a
    (fun f Hf => subseteq_drop 1 _ _ (subseteq_take 4 _ _ Hf)) Ga) as Kb.
  set (b := do_steps (take 4 _) a) in *. clearbody b.
  pose proof (keeps_good _ _ Kb Ga) as Gb. assert (K1b : keeps s1 b) by (by etrans).
  pose proof (keeps_packdir _ _ K1b) as Pb.
  destruct (keeps_pack_entry _ _ _ K1b He1) as (eb & Heb & Eeb).
  assert (Tb : forall k, is_Some (sub k eb) -> has_type b (packdir b ++ k)).
  { intros k Hk. rewrite Pb. eapply keeps_typed, Ta; [exact Kb|]. eapply sub_same_shape; eauto. }
  destruct (last_steps fstatat b eb) as [L1 L2]; try done.
  { rewrite Pb. apply Sb. by rewrite Ia. }
  { rewrite (keeps_pack _ _ K1b), (keeps_pack _ _ K0), <-fits_erase, Eeb, Ee1, fits_erase. exact Hfit. }
  rewrite Pb, P1 in L1, L2.
  assert (Hshape : forall k, is_Some (sub k e) -> is_Some (sub k eb)).
  { intros k. apply sub_same_shape. congruence. }
  split_and!; [by auto|intros k n Hk; apply L2; by auto|]. apply (keeps_outside _ _ K).
Qed.

(** The pass of the default types, when it succeeds, leaves the type of
    the directory of the package and gives to each other file the type it
    had, or else the one of the name of a directory, or else the type of its
    parent, or else the type [Id]. *)
Theorem default_types fstatat s e s' v :
  stat_fails fstatat -> good s -> pack_entry s = Some e ->
  (forall k, is_Some (sub k e) -> has_type s (packdir s ++ k)) ->
  fits FORALL_CONTENT (PATH_MAX - offset_pack s) true e [] = true ->
  for_each_content_entry s PATH_ENTRY_FORALL_BEFORE (compute_default_files_properties_cb fstatat) = (s', v) ->
  (0 <= rc s')%Z ->
  get_entry_type s' (packdir s) = get_entry_type s (packdir s) /\
  forall k n, is_Some (sub (k ++ [n]) e) ->
    get_entry_type s' (packdir s ++ k ++ [n]) =
    default_rule (fstatat (disk s (path_text FORALL_CONTENT (k ++ [n]) e []))) n
      (get_entry_type s (packdir s ++ k ++ [n])) (get_entry_type s' (packdir s ++ k)).
Proof. intros Hst Hg He Ht Hfit Hrun Hrc. by eapply default_pass in Hrun as (_ & ? & ?). Qed.

End Properties.

(** ** Witnesses *)

#[local] Instance sample_steps : Steps unit := fun _ _ _ => True.

Lemma sample_stat_fails : stat_fails sample_stat.
Proof. intros p errno. unfold sample_stat. by destruct (bool_decide _). Qed.

Definition sample_types (s : state json unit) : list path_type :=
  get_entry_type s <$> [[B "app"]; [B "app"; B "bin"]; [B "app"; B "bin"; B "tool"]; [B "app"; B "share"];
    [B "app"; B "share"; B "public"]; [B "app"; B "share"; B "public"; B "doc"]].

Lemma compute_types_witness :
  let s' := (compute_files_properties sample_stat sample_state).2 in
  sample_types s' = [Public; Exec; Exec; Public; Public; Public] /\
  (forall k e, pack_entry sample_state = Some e -> is_Some (sub k e) ->
     get_entry_type s' ([B "app"] ++ k) <> Unset).
Proof.
  split; [vm_compute; reflexivity|]. intros k e He.
  apply (compute_types sample_stat sample_state e _ 0 sample_stat_fails sample_good He).
  - injection He as <-. vm_compute. reflexivity.
  - apply pair_status. vm_compute. reflexivity.
  - done.
Defined.

(** the state after the reset *)
Definition sample_reset : state json unit :=
  (for_each_content_entry (set_entry_type sample_state [B "app"] Id).2 PATH_ENTRY_FORALL_NO_PATH
     reset_type_cb).1.

Lemma sample_reset_facts :
  good sample_reset /\
  forall e, pack_entry sample_reset = Some e ->
    forall k, is_Some (sub k e) -> has_type sample_reset (packdir sample_reset ++ k).
Proof.
  pose proof (keeps_set_entry_type sample_state [B "app"] Id ltac:(done)) as K.
  pose proof (keeps_good _ _ K sample_good) as G. unfold sample_reset. set (s1 := snd (set_entry_type _ _ _)) in *.
  assert (He : exists e, pack_entry s1 = Some e) by (eexists; vm_compute; reflexivity).
  destruct He as [e He].
  destruct (reset_pass s1 e G He) as (K' & _ & T).
  { vm_compute. done. }
  { eexists _, _. split; vm_compute; reflexivity. }
  split; [exact (keeps_good _ _ K' G)|]. intros e' He' k Hk.
  destruct (keeps_pack_entry _ _ _ K' He) as (e2 & He2 & Ee2).
  rewrite He' in He2. injection He2 as <-.
  rewrite (keeps_packdir _ _ K'). apply T. exact (sub_same_shape k _ _ Ee2 Hk).
Qed.

Lemma default_types_witness :
  let r := for_each_content_entry sample_reset PATH_ENTRY_FORALL_BEFORE
             (compute_default_files_properties_cb sample_stat) in
  get_entry_type r.1 [B "app"; B "bin"] = Exec /\
  get_entry_type r.1 (packdir sample_reset) = get_entry_type sample_reset (packdir sample_reset).
Proof.
  intros r. split; [vm_compute; reflexivity|].
  assert (He : exists e, pack_entry sample_reset = Some e /\
    fits FORALL_CONTENT (PATH_MAX - offset_pack sample_reset) true e [] = true).
  { eexists. split; [vm_compute; reflexivity|vm_compute; reflexivity]. }
  destruct He as (e & He & Hfit). destruct sample_reset_facts as [G T].
  assert (Hv : r.2 = 0%Z) by (vm_compute; reflexivity).
  assert (Hrc : (rc r.1 =? 0)%Z = true) by (vm_compute; reflexivity). apply Z.eqb_eq in Hrc.
  assert (Hrc' : (0 <= rc r.1)%Z) by (rewrite Hrc; apply Z.le_refl). clear Hrc.
  pose proof (pair_status_r r 0 Hv) as Hrun. clear Hv. unfold r at 1 in Hrun. clearbody r.
  exact (proj1 (default_types sample_stat sample_reset e r.1 0 sample_stat_fails G He (T e He)
    Hfit Hrun Hrc')).
Defined.

End pkg_types.
