(* ===== verification/PathRemove.v ===== *)
(** * More on trees of paths: absolute paths and removals

    The path that [path_entry_path] writes with a forced leading slash, and
    the tree that [path_entry_destroy] leaves. *)
From S2P Require Import Prelude CString PathEntry.

Module path_remove.
Import path_entry.

(** ** Absolute paths *)

(** a slash before each name *)
Definition abs_path (h : handle) : bytes := flat_map (cons SLASH) h.

Lemma abs_path_snoc h n : abs_path (h ++ [n]) = abs_path h ++ SLASH :: n.
Proof. unfold abs_path. rewrite flat_map_app. simpl. by rewrite app_nil_r. Qed.

Lemma name_at_sub top h x : sub h top = Some x -> name_at top (rev h) = name x.
Proof. unfold name_at. rewrite rev_involutive. by intros ->. Qed.

Lemma sub_snoc_name top h n x : sub (h ++ [n]) top = Some x -> name x = n.
Proof.
  rewrite sub_app. destruct (sub h top) as [y|]; [|done]. simpl.
  destruct (find_child n (children y)) as [c|] eqn:Ef; [|done]. intros [= <-].
  by eapply find_child_name.
Qed.

Lemma sub_snoc_ok top h n x : wf top -> sub (h ++ [n]) top = Some x -> ok_name n.
Proof.
  intros Hwf Hs. pose proof (sub_snoc_name _ _ _ _ Hs) as Hn. rewrite sub_app in Hs.
  destruct (sub h top) as [y|] eqn:Ey; [|done]. simpl in Hs.
  destruct (find_child n (children y)) as [c|] eqn:Ef; [|done].
  rewrite <-(find_child_name _ _ _ Ef). apply (wf_child_ok y); [by eapply wf_sub|].
  by eapply find_child_in.
Qed.

(** The path of an entry with a forced slash. *)
Lemma relpath_forced top h x b :
  wf top -> name top = [] -> sub h top = Some x -> h <> [] ->
  path_entry_path top (rev h) b (length b) PATH_ENTRY_FORCE_LEADING_SLASH =
  Some (length (abs_path h), store (abs_path h ++ [NUL]) b).
Proof.
  intros Hwf Htop. unfold path_entry_path. revert x.
  induction h as [|n h IH] using rev_ind; intros x Hs Hne; [done|].
  pose proof (name_at_sub _ _ _ Hs) as Hat. rewrite (sub_snoc_name _ _ _ _ Hs) in Hat.
  destruct (sub_snoc_ok _ _ _ _ Hwf Hs) as [Hn _].
  assert (Hy : exists y, sub h top = Some y).
  { rewrite sub_app in Hs. destruct (sub h top) as [y|]; [by exists y|done]. }
  destruct Hy as [y Hy]. rewrite rev_app_distr in Hat |- *. simpl in Hat |- *.
  rewrite (bool_decide_eq_false_2 (name_at top (n :: rev h) = [])) by by rewrite Hat.
  change (forced PATH_ENTRY_FORCE_LEADING_SLASH) with true. cbn [orb].
  rewrite abs_path_snoc. destruct h as [|m h _] using rev_ind.
  - simpl in Hat. unfold at_start. simpl. rewrite (bool_decide_eq_true_2 (name_at top [] = [])) by exact Htop.
    change 0 with (length (@nil ascii)).
    rewrite (put_name_spec top [n] true [] b b); [|by rewrite Hat|apply holds_nil].
    simpl in Hat |- *. by rewrite Hat.
  - pose proof (name_at_sub _ _ _ Hy) as Hat'. rewrite (sub_snoc_name _ _ _ _ Hy) in Hat'.
    destruct (sub_snoc_ok _ _ _ _ Hwf Hy) as [Hm _].
    assert (Hstart : at_start top None (rev (h ++ [m])) = false).
    { unfold at_start. rewrite rev_app_distr in Hat' |- *. simpl in Hat' |- *.
      rewrite (bool_decide_eq_false_2 (name_at top (m :: rev h) = [])) by by rewrite Hat'.
      by rewrite (bool_decide_eq_false_2 (name_at top (m :: rev h) = [])) by by rewrite Hat'. }
    rewrite Hstart, (IH y Hy) by (by destruct h).
    rewrite (put_name_spec _ _ true _ _ b); [|by rewrite Hat|apply holds_store].
    rewrite Hat. done.
Qed.

(** ** Removals *)

Lemma find_child_unlink n m l :
  NoDup (name <$> l) -> find_child m (unlink_child n l) = if beq n m then None else find_child m l.
Proof.
  induction l as [|c l IH]; intros Hd; simpl in *; [by destruct (beq n m)|].
  apply NoDup_cons in Hd as [Hc Hd]. destruct (beq (name c) n) eqn:Ec.
  - apply beq_true in Ec. subst n. destruct (beq (name c) m) eqn:Em; [|done].
    apply beq_true in Em. subst m. by apply find_child_None.
  - simpl. rewrite IH by done. destruct (beq (name c) m) eqn:Em, (beq n m) eqn:En; try done.
    apply beq_true in Em, En. apply beq_false in Ec. congruence.
Qed.

Lemma unlink_child_sub n l : sublist (unlink_child n l) l.
Proof.
  induction l as [|c l IH]; simpl; [done|]. destruct (beq (name c) n); by constructor.
Qed.

Lemma wf_unlink n e : wf e -> wf (with_children e (unlink_child n (children e))).
Proof.
  intros [nm f v l Hd Hok Hl]. simpl. pose proof (unlink_child_sub n l) as Hs. constructor.
  - eapply sublist_NoDup; [exact Hd|]. by apply fmap_sublist.
  - rewrite Forall_forall in *. intros c Hc. apply Hok. by eapply sublist_subseteq.
  - rewrite Forall_forall in *. intros c Hc. apply Hl. by eapply sublist_subseteq.
Qed.

(** after the removal of the child [n] of the entry [p] *)
Lemma info_unlink p n k e :
  wf e ->
  info k (alter_at (fun x => with_children x (unlink_child n (children x))) p e) =
  if bool_decide ((p ++ [n]) `prefix_of` k) then None else info k e.
Proof.
  revert k e. induction p as [|m p IH]; intros k e He.
  - simpl. destruct k as [|x k].
    + rewrite bool_decide_eq_false_2; [done|]. intros [j Hj]. done.
    + rewrite !info_cons. cbn [children with_children]. destruct He as [nm f v l Hd _ _].
      cbn [children]. rewrite find_child_unlink by done. destruct (beq n x) eqn:E.
      * apply beq_true in E. subst x. rewrite bool_decide_eq_true_2; [done|]. by exists k.
      * apply beq_false in E. rewrite bool_decide_eq_false_2; [done|]. intros [j [= Hj _]]. congruence.
  - simpl. destruct k as [|x k].
    + rewrite bool_decide_eq_false_2; [done|]. intros [j Hj]. done.
    + rewrite !info_cons. cbn [children with_children]. rewrite find_child_alter.
      2: { intros c Hc. rewrite name_alter_at by done. by eapply find_child_name. }
      destruct (beq m x) eqn:E.
      * apply beq_true in E. subst x. destruct (find_child m (children e)) as [c|] eqn:Ec; simpl.
        -- rewrite IH by (by eapply wf_find_child).
           by rewrite (bool_decide_ext (m :: p ++ [n] `prefix_of` m :: k) (p ++ [n] `prefix_of` k))
             by (split; [apply prefix_cons_inv_2|apply prefix_cons]).
        -- by destruct (bool_decide _).
      * apply beq_false in E. rewrite bool_decide_eq_false_2; [done|]. intros [j [= Hj _]]. congruence.
Qed.

(** Destroying an entry that is not the top of the tree. *)
Lemma destroy_spec top h :
  wf top -> h <> [] ->
  exists top', path_entry_destroy top h = Some top' /\ wf top' /\ name top' = name top /\
    forall k, info k top' = if bool_decide (h `prefix_of` k) then None else info k top.
Proof.
  intros Hwf Hne. destruct h as [|n h _] using rev_ind; [done|].
  unfold path_entry_destroy. rewrite last_snoc, removelast_last. eexists. split; [done|].
  split; [apply wf_alter_at; [done|by apply wf_unlink|done]|].
  split; [by apply name_alter_at|]. intros k. by apply info_unlink.
Qed.

End path_remove.
