(* ===== verification/Afmpkg.v ===== *)
(** * Installing and uninstalling packages: second part of
    [src/src/afmpkg/afmpkg.c]

    The packages are the directories of the tree of the files that hold a
    manifest. They are detected first, embedded ones before the embedding
    ones; each one is processed between a call [begin] and a call [end] of
    the back end, then removed from the tree; what remains at the end gets
    the default tag. *)
From Stdlib Require Import Sorted.
From S2P Require Import Prelude CString Permset PathEntry PathVars PathType UnitFs Afid UnitText Package.
From S2P Require Import Jsonc PkgFiles PkgTypes.

Module afmpkg.
Export pkg_files pkg_types.
Import path_vars.
Import package(afmpkg_t, afmpkg_mode(..), operations, begin_, tagfile, setperm, setplug, setunits, end_,
  redpakid, redpak_auto).

(** the manifest file that makes a directory a package *)
Inductive manif := name_manifest | name_config.
#[export] Instance manif_eq : EqDecision manif.
Proof. solve_decision. Defined.

Definition manif_text (m : manif) : bytes :=
  match m with name_manifest => B ".rpconfig/manifest.yml" | name_config => B "config.xml" end.

Definition default_permissions : list bytes := [B "urn:redpesk:token:valid"].
Definition DEFAULT_TCP_PORT_BASE : Z := 29000.

(** ** Executions of the back end *)

(** the operations answer the calls *)
Definition ops_steps {C} (ops : operations C) : Steps C := fun c x c' =>
  match x with
  | Call_begin i m v => begin_ ops c i m = (c', v)
  | Call_tagfile p t v => tagfile ops c p t = (c', v)
  | Call_setperm p v => setperm ops c p = (c', v)
  | Call_setplug e i d v => setplug ops c e i d = (c', v)
  | Call_setunits u v => setunits ops c u = (c', v)
  | Call_end st v => end_ ops c st = (c', v)
  end.

(** ** The roots of packages *)

(** [count] is the length of the array and [alloc] its capacity *)
Record rootpkgs := mk_rootpkgs { alloc : nat; roots : list (handle * manif) }.

Definition rootpkgs_init : rootpkgs := mk_rootpkgs 10 [].

Definition rootpkgs_add (r : rootpkgs) (entry : handle) (type : manif) (o : oracle)
  : Z * rootpkgs * oracle :=
  if bool_decide (length (roots r) = alloc r) then
    let nall := 2 * alloc r in
    let '(ok, o) := malloc o in
    if ok then (0%Z, mk_rootpkgs nall (roots r ++ [(entry, type)]), o)
    else ((- ENOMEM)%Z, r, o)
  else (0%Z, mk_rootpkgs (alloc r) (roots r ++ [(entry, type)]), o).

(** the manifest of an entry, if it is the root of a package *)
Definition package_manif (e : path_entry) : option manif :=
  if path_entry_has_child e then
    if (0 =? (path_entry_get_length e (manif_text name_manifest) 22).1)%Z then Some name_manifest
    else if (0 =? (path_entry_get_length e (manif_text name_config) 10).1)%Z then Some name_config
    else None
  else None.

Definition detect_package_roots_cb (top : path_entry) (clo : rootpkgs * oracle) (entry : handle)
  (path : bytes) : rootpkgs * oracle * Z :=
  match sub entry top with
  | None => (clo, 0%Z)
  | Some e =>
      match package_manif e with
      | None => (clo, 0%Z)
      | Some pkg => let '(rc, r, o) := rootpkgs_add clo.1 entry pkg clo.2 in (r, o, rc)
      end
  end.

(** What the processing receives and what it relies on: the request, the
    back end and the mode; the calls of the system; the directories of the
    framework, set when it is built; the readers of the manifests; the files
    of units and the expansion of the template. *)
Class Env (J C : Type) := mk_env {
  apkg : afmpkg_t;
  opers : operations C;
  mode : afmpkg_mode;
  fstatat : bytes -> stat;
  chmod : bytes -> Z;
  FWK_APP_DIR : bytes;
  FWK_ICON_DIR : bytes;
  read_and_check : manif -> bytes -> Z * option J;
  afm_units_root : bytes;
  opendir : bytes -> unit_fs.directory;
  rp_file_get : bytes -> Z + bytes;
  default_path : bytes;
  apply_mustach : bytes -> J -> Z * bytes
}.

Section Process.
Context {J C : Type} `{Jsonc J} `{Env J C}.
Abbreviation state := (state J C).

(** ** Calls of the back end *)

#[export] Instance env_steps : Steps C := ops_steps opers.

Definition called (s : state) (c : C) (x : call) : state := set_calls (set_closure s c) (calls s ++ [x]).

Definition call_begin (s : state) (appid : option bytes) : state * Z :=
  let '(c, rc) := begin_ opers (closure s) appid mode in (called s c (Call_begin appid mode rc), rc).
Definition call_tagfile (s : state) (p : bytes) (tag : path_type) : state * Z :=
  let '(c, rc) := tagfile opers (closure s) p tag in (called s c (Call_tagfile p tag rc), rc).
Definition permit (s : state) (perm : bytes) : state * Z :=
  let '(c, rc) := setperm opers (closure s) perm in (called s c (Call_setperm perm rc), rc).
Definition call_setplug (s : state) (exportdir importid importdir : bytes) : state * Z :=
  let '(c, rc) := setplug opers (closure s) exportdir importid importdir in
  (called s c (Call_setplug exportdir importid importdir rc), rc).
Definition call_setunits (s : state) (units : list unit_fs.unitdesc) : state * Z :=
  let '(c, rc) := setunits opers (closure s) units in (called s c (Call_setunits units rc), rc).
Definition call_end (s : state) (status : Z) : state * Z :=
  let '(c, rc) := end_ opers (closure s) status in (called s c (Call_end status rc), rc).

(** ** Plugs *)

(** The test of the truncation of the import path never holds. *)
Definition for_each_plug_cb (fun_ : state -> handle -> bytes -> bytes -> state) (s : state) (desc : J) : state :=
  match object_get_ex desc MANIFEST_NAME with
  | None => put_state_rc s (- EINVAL)%Z
  | Some item =>
      let '(expdir, s) := deref s (get_string item) in
      match object_get_ex desc MANIFEST_VALUE with
      | None => put_state_rc s (- EINVAL)%Z
      | Some item =>
          let '(impid, s) := deref s (get_string item) in
          match pack_get s (packdir s) expdir with
          | None => put_state_rc s (- ENOENT)%Z
          | Some entry =>
              let s := put_path s (offset_pack s)
                         (take (PATH_MAX - offset_pack s - 1) (SLASH :: expdir) ++ [NUL]) in
              let text := take (offset_root s) (cstring (path s)) ++ FWK_APP_DIR ++ [SLASH] ++ impid
                            ++ B "/plugins" in
              fun_ s entry impid (take PATH_MAX text)
          end
      end
  end.

Definition for_each_plug (fun_ : state -> handle -> bytes -> bytes -> state) (s : state) : state :=
  for_each_of_manifest s MANIFEST_PLUGS (for_each_plug_cb fun_).

(** ** Security *)

Definition setup_security_file_cb (s : state) (entry : handle) : state * Z :=
  let type := get_entry_type s entry in
  let type := if bool_decide (type = Unset) then Conf else type in
  let '(s, rc) := call_tagfile s (cstring (path s)) type in
  (put_state_rc s rc, 0%Z).

Definition set_plug_cb (s : state) (entry : handle) (impid impdir : bytes) : state :=
  let '(s, rc) := call_setplug s (cstring (path s)) impid impdir in put_state_rc s rc.

(** the loop on the permissions requested and granted; there is one turn per
    permission at most *)
Fixpoint permit_loop (fuel : nat) (cur : bool * permset.permset_s) (s : state) : Z * state :=
  match cur with
  | (false, ps) => (0%Z, set_permset s (Some ps))
  | (true, ps) =>
      match fuel with
      | O => (0%Z, set_permset s (Some ps))
      | S fuel' =>
          let '(perm, s) := deref s (permset.permset_current ps) in
          let '(s, rc) := permit s perm in
          if (rc <? 0)%Z then (rc, set_permset s (Some ps))
          else permit_loop fuel'
                 (permset.permset_select_next ps permset.Select_Requested_And_Granted) s
      end
  end.

Fixpoint permit_defaults (l : list bytes) (s : state) : Z * state :=
  match l with
  | [] => (0%Z, s)
  | perm :: l' =>
      let '(s, rc) := permit s perm in
      if (rc <? 0)%Z then (rc, s) else permit_defaults l' s
  end.

Definition setup_security (s : state) : Z * state :=
  let s := (for_each_entry s PATH_ENTRY_FORALL_AFTER setup_security_file_cb).1 in
  if (rc s <? 0)%Z then (rc s, s)
  else
    let '(v, s) :=
      match permset s with
      | None => (0%Z, set_fault s true)
      | Some ps => permit_loop (permset.count ps)
                     (permset.permset_select_first ps permset.Select_Requested_And_Granted) s
      end in
    if (v <? 0)%Z then (v, s)
    else
      let '(v, s) := permit_defaults default_permissions s in
      if (v <? 0)%Z then (v, s)
      else let s := for_each_plug set_plug_cb s in (rc s, s).

Definition setdown_security_file_cb (s : state) (entry : handle) : state * Z :=
  call_tagfile s (cstring (path s)) Id.

Definition setdown_security (s : state) : Z * state :=
  let s := (for_each_entry s 0 setdown_security_file_cb).1 in
  (0%Z, for_each_plug set_plug_cb s).

(** ** Metadata *)

(** [item] is the index of the target *)
Definition add_meta_to_target (s : state) (item : nat) : state :=
  let '(ok, afid, port, s) :=
    if negb (bool_decide (mode = Install)) then (true, 0%Z, 0%Z, s)
    else
      let '(afid, m) := afid.get_new_afid afm_units_root opendir rp_file_get (afids s) in
      let s := set_afids s m in
      if (afid <? 0)%Z then (false, 0%Z, 0%Z, set_rc s (- EADDRNOTAVAIL)%Z)
      else (true, afid, (DEFAULT_TCP_PORT_BASE + afid)%Z, s) in
  if (ok : bool) then
    match pack_target (J := J) afid port, manifest s with
    | Some object, Some m =>
        set_manifest s (Some (item_add m MANIFEST_TARGETS item (B "#metatarget") object))
    | _, _ => set_rc s (- ENOMEM)%Z
    end
  else s.

Definition is_slash_end (p : bytes) : bool := bool_decide (last p = Some SLASH).
Definition strip (p : ascii -> bool) (floor : nat) (s : bytes) : bytes :=
  take (Nat.max (length (rev (drop_while p (rev s)))) (floor - 1)) s.

(** The search upward of the marker file: [cur] is the directory under
    examination. The space is not checked in the code, whose test is always
    true. *)
Fixpoint search_marker (fuel : nat) (floor : nat) (marker cur : bytes) : option bytes :=
  match fuel with
  | O => None
  | S fuel' =>
      if bool_decide (length cur < floor) then None
      else
        let cur := if bool_decide (cur = []) || is_slash_end cur then cur else cur ++ [SLASH] in
        match fstatat (cur ++ marker) with
        | Stat_reg => Some (removelast cur)
        | _ =>
            let cur := strip is_slash floor cur in
            if bool_decide (length cur <= floor) then None
            else search_marker fuel' floor marker (strip not_slash floor cur)
        end
  end.

Definition get_redpakid (s : state) : option bytes :=
  match redpakid apkg with
  | Some str => Some str
  | None =>
      match redpak_auto apkg with
      | None => None
      | Some str =>
          let cur := cstring (path s) in search_marker (S (length cur)) (offset_root s) str cur
      end
  end.

Definition add_meta_to_manifest (s : state) : Z * state :=
  let s :=
    if negb (bool_decide (offset_root s = offset_pack s)) then put_path s (offset_pack s) [NUL]
    else put_path s (offset_root s) [SLASH; NUL] in
  let redpakid := get_redpakid s in
  let root :=
    match redpakid, redpak_auto apkg with
    | Some r, Some _ => r
    | _, _ => default [] (package.root apkg)
    end in
  let install_dir := cstring (drop (length root) (path s)) in
  match pack_manifest (J := J) install_dir FWK_ICON_DIR
          (match redpakid with Some _ => true | None => false end) redpakid root, manifest s with
  | Some object, Some m =>
      let s := set_manifest s (Some (object_add m (B "#metadata") object)) in
      let v := rc s in
      let s := set_rc s 0 in
      let count := match manifest s ≫= fun m => object_get_ex m MANIFEST_TARGETS with
                   | Some item => length (array_items item)
                   | None => 0
                   end in
      let s := for_all add_meta_to_target (seq 0 count) s in
      if (rc s <? 0)%Z then (rc s, s) else (v, set_rc s v)
  | _, _ => ((- ENOMEM)%Z, s)
  end.

(** ** Units *)

Definition process_units (s : state) : Z * state :=
  match manifest s with
  | None => (0%Z, set_fault s true)
  | Some m =>
      let '(v, t, (s, o)) :=
        unit_text.unit_process_split rp_file_get default_path apply_mustach (template s) m
          (Some call_setunits) s (mem s) in
      (v, set_mem (set_template s t) o)
  end.

(** ** One package *)

Definition install_afmpkg (s : state) : Z * state :=
  let '(ok, o) := malloc (mem s) in
  let s := set_mem s o in
  if negb ok then ((- ENOMEM)%Z, set_permset s None)
  else
    let s := set_permset s (Some permset.permset_create) in
    let '(v, s) :=
      let '(v, s) := check_permissions s in
      if (v <? 0)%Z then (v, s) else
      let '(v, s) := check_contents fstatat s in
      if (v <? 0)%Z then (v, s) else
      let '(v, s) := compute_files_properties fstatat s in
      if (v <? 0)%Z then (v, s) else
      let '(v, s) := setup_files_properties chmod s in
      if (v <? 0)%Z then (v, s) else
      let '(v, s) := setup_security s in
      if (v <? 0)%Z then (v, s) else
      process_units s in
    (v, set_permset s None).

Definition uninstall_afmpkg (s : state) : Z * state :=
  let '(v, s) := process_units s in
  if (v <? 0)%Z then (v, s) else setdown_security s.

Definition get_manifest (s : state) (m : manif) : Z * state :=
  let room := PATH_MAX - 1 - offset_pack s in
  let text := take room (manif_text m) in
  let s := put_path s (offset_pack s) (SLASH :: text ++ repeat NUL (room - length text)) in
  let '(v, j) := read_and_check m (cstring (path s)) in
  (v, set_manifest s j).

(** what is between the reading of the manifest and its release *)
Definition transaction (s : state) : Z * state :=
  let s := set_appid s (manifest s ≫= fun m => object_get_ex m (B "id") ≫= get_string) in
  let '(s, v) := call_begin s (appid s) in
  let '(v, s) :=
    if (v >=? 0)%Z then
      if bool_decide (mode = Install) then install_afmpkg s else uninstall_afmpkg s
    else (v, s) in
  let '(s, v2) := call_end s v in
  (if (v2 <? 0)%Z then v2 else v, s).

Definition process_package (s : state) (m : manif) : Z * state :=
  let '(v, s) := get_manifest s m in
  if (v <? 0)%Z then (v, s)
  else
    let '(v, s) := add_meta_to_manifest s in
    let '(v, s) := if (v <? 0)%Z then (v, s) else transaction s in
    (v, set_appid (set_manifest s None) None).

(** ** The files without package *)

Definition process_default_tree_add_cb (s : state) (entry : handle) : state * Z :=
  call_tagfile s (cstring (path s)) Default.

Definition process_default_tree_detect_cb (s : state) (entry : handle) (path : bytes) : state * Z :=
  (s, 1%Z).

Definition FORALL_DETECT : Z :=
  Z.lor (Z.lor PATH_ENTRY_FORALL_ONLY_ADDED PATH_ENTRY_FORALL_NO_PATH) PATH_ENTRY_FORALL_BEFORE.
Definition FORALL_DEFAULT : Z := Z.lor PATH_ENTRY_FORALL_ONLY_ADDED PATH_ENTRY_FORALL_BEFORE.

Definition process_default_tree (s : state) (root : path_entry) : Z * state :=
  if bool_decide (mode = Install) then
    let v := (path_entry_for_each_in_buffer FORALL_DETECT (Some root) process_default_tree_detect_cb s [] 0).2 in
    if (v >? 0)%Z then
      let '(s, v) := call_begin s None in
      let '(s, v) :=
        if (v >=? 0)%Z then
          path_entry_for_each_in_buffer FORALL_DEFAULT (Some root)
            (in_buffer (offset_root s) FORALL_DEFAULT [] process_default_tree_add_cb) s []
            (PATH_MAX - offset_root s)
        else (s, v) in
      let '(s, v) := call_end s v in (v, s)
    else (v, s)
  else (0%Z, s).

(** ** The packages of a request *)

(** a package at the top of the tree, which has no name, is not processed:
    its path dereferences a null pointer *)
Definition process_rootpkg (s : state) (entry : handle) (type : manif) : Z * state :=
  let s := set_packdir (set_appid (set_manifest (set_permset (set_rc s 0) None) None) None) entry in
  match files s with
  | None => (0%Z, set_fault s true)
  | Some top =>
      match path_entry_path top (rev entry) (drop (offset_root s) (path s)) (PATH_MAX - offset_root s)
              PATH_ENTRY_FORCE_LEADING_SLASH with
      | None => (0%Z, set_fault s true)
      | Some (length, b) =>
          let s := set_path s (take (offset_root s) (path s) ++ b) in
          let s := set_offset_pack s (offset_root s + length) in
          if bool_decide (PATH_MAX <= offset_pack s) then (0%Z, set_fault s true)
          else
            let s := put_path s (offset_pack s) [NUL] in
            let '(v, s) := process_package s type in
            (v, set_files s (files s ≫= fun top => path_entry_destroy top (packdir s)))
      end
  end.

Fixpoint rootpkgs_for_each (l : list (handle * manif)) (s : state) : Z * state :=
  match l with
  | [] => (0%Z, s)
  | (entry, type) :: l' =>
      let '(v, s) := process_rootpkg s entry type in
      if (v =? 0)%Z then rootpkgs_for_each l' s else (v, s)
  end.

Definition FORALL_ROOTS : Z := Z.lor PATH_ENTRY_FORALL_NO_PATH PATH_ENTRY_FORALL_AFTER.

(** the package roots of a tree, with the status of the search *)
Definition detect_roots (files : path_entry) (o : oracle) : rootpkgs * oracle * Z :=
  path_entry_for_each_in_buffer FORALL_ROOTS (Some files) (detect_package_roots_cb files)
    (rootpkgs_init, o) [] 0.

(** the path of the root, without its final slashes *)
Definition root_path : bytes := rev (drop_while is_slash (rev (default [] (package.root apkg)))).

(** [stack] is the former content of the buffer of the path *)
Definition initial_state (stack : bytes) (c : C) (o : oracle) (m : afid.manager) (t : option bytes) : state :=
  let r := default [] (package.root apkg) in
  put_path (mk_state (Some (package.files apkg)) 0 None None None [] (length root_path) 0
              (store (match package.root apkg with Some _ => r ++ [NUL] | None => [] end) stack)
              c [] [] o m t false) (length root_path) [NUL].

Definition afmpkg_process (stack : bytes) (c : C) (o : oracle) (m : afid.manager) (t : option bytes)
  : Z * state :=
  let s := initial_state stack c o m t in
  if bool_decide (PATH_MAX <= length (default [] (package.root apkg))) then ((- ENAMETOOLONG)%Z, s)
  else
    let '(r, o, v) := detect_roots (package.files apkg) o in
    let s := set_mem s o in
    let '(v, s) := if (v >=? 0)%Z then rootpkgs_for_each (roots r) s else (v, s) in
    match files s with
    | Some top => if (v >=? 0)%Z then process_default_tree s top else (v, s)
    | None => (v, s)
    end.

(** ** A transaction keeps the package *)

#[local] Arguments unit_text.unit_process_split : simpl never.
Implicit Types s : state.

Lemma keeps_called s c x : inner x -> step (closure s) x c -> keeps s (called s c x).
Proof.
  intros Hx Hs. split; try done. exists [x]. split; [done|]. split; [by constructor|by apply runs_one].
Qed.

Lemma keeps_fault s : keeps s (set_fault s true).
Proof. split; try done. by apply traced_same. Qed.

Lemma keeps_permset s p : keeps s (set_permset s p).
Proof. split; try done. by apply traced_same. Qed.

Lemma keeps_mem s o : keeps s (set_mem s o).
Proof. split; try done. by apply traced_same. Qed.

Lemma keeps_template s t : keeps s (set_template s t).
Proof. split; try done. by apply traced_same. Qed.

Lemma tagfile_keeps s p t : keeps s (call_tagfile s p t).1.
Proof. unfold call_tagfile. destruct (tagfile _ _ _ _) eqn:E. by apply keeps_called. Qed.

Lemma permit_keeps s p : keeps s (permit s p).1.
Proof. unfold permit. destruct (setperm _ _ _) eqn:E. by apply keeps_called. Qed.

Lemma setunits_keeps s u : keeps s (call_setunits s u).1.
Proof. unfold call_setunits. destruct (setunits _ _ _) eqn:E. by apply keeps_called. Qed.

Lemma setup_security_file_cb_keeps s k : keeps s (setup_security_file_cb s k).1.
Proof.
  unfold setup_security_file_cb. set (t := if bool_decide _ then _ else _).
  pose proof (tagfile_keeps s (cstring (path s)) t) as K. destruct (call_tagfile _ _ _). simpl in *.
  repeat keep_step.
Qed.

Lemma set_plug_cb_keeps s e i d : keeps s (set_plug_cb s e i d).
Proof.
  unfold set_plug_cb, call_setplug. destruct (setplug _ _ _ _ _) as [c v] eqn:E.
  pose proof (keeps_called s c (Call_setplug (cstring (path s)) i d v) I E). repeat keep_step.
Qed.

Lemma for_each_plug_keeps f s :
  (forall s e i d, good s -> keeps s (f s e i d)) -> good s -> keeps s (for_each_plug f s).
Proof.
  intros Hf Hg. apply for_each_of_array_keeps; [|done]. clear s Hg. intros s x Hg.
  unfold for_each_plug_cb. destruct (object_get_ex x MANIFEST_NAME); [|repeat keep_step].
  keep_step. destruct (object_get_ex x MANIFEST_VALUE); [|repeat keep_step].
  keep_step. keep_goods. keep_step; [|repeat keep_step].
  set (text := (take (PATH_MAX - _ - 1) _ ++ [NUL])).
  assert (K : keeps s1 (put_path s1 (offset_pack s1) text)).
  { apply keeps_put_path; [by apply good_root|]. rewrite (good_length s1) by done.
    pose proof (good_pack s1 ltac:(done)). lia. }
  cbv zeta. transitivity s0; [done|]. transitivity s1; [done|]. etrans; [exact K|]. apply Hf. by eapply keeps_good.
Qed.

Lemma permit_loop_keeps fuel cur s : keeps s (permit_loop fuel cur s).2.
Proof.
  revert cur s. induction fuel as [|fuel IH]; intros [[] ps] s; simpl; try apply keeps_permset.
  pose proof (keeps_deref s (permset.permset_current ps)) as Kd. destruct (deref _ _) as [p s1].
  pose proof (permit_keeps s1 p) as Kp. destruct (permit s1 p) as [s2 v]. simpl in *.
  etrans; [exact Kd|]. etrans; [exact Kp|]. destruct (v <? 0)%Z; [apply keeps_permset|apply IH].
Qed.

Lemma permit_defaults_keeps l s : keeps s (permit_defaults l s).2.
Proof.
  revert s. induction l as [|p l IH]; intros s; simpl; [done|].
  pose proof (permit_keeps s p) as Kp. destruct (permit s p) as [s2 v]. simpl in *.
  destruct (v <? 0)%Z; [done|]. etrans; [exact Kp|apply IH].
Qed.

Lemma setup_security_keeps s : good s -> keeps s (setup_security s).2.
Proof.
  intros Hg. unfold setup_security.
  assert (K0 : keeps s (for_each_entry s PATH_ENTRY_FORALL_AFTER setup_security_file_cb).1).
  { apply for_each_entry_keeps; [done|]. intros. apply setup_security_file_cb_keeps. }
  set (s0 := fst (for_each_entry _ _ _)) in *. cbv zeta. destruct (rc s0 <? 0)%Z; [done|].
  match goal with |- keeps s (snd (let '(_, _) := ?x in _)) => assert (K1 : keeps s0 x.2); [|destruct x as [v s1]] end.
  { destruct (permset s0); [apply permit_loop_keeps|apply keeps_fault]. }
  simpl in K1. destruct (v <? 0)%Z; [by etrans|].
  pose proof (permit_defaults_keeps default_permissions s1) as K2.
  destruct (permit_defaults default_permissions s1) as [v2 s2]. simpl in K2.
  assert (K : keeps s s2) by (etrans; [exact K0|etrans; [exact K1|exact K2]]).
  destruct (v2 <? 0)%Z; [done|]. etrans; [exact K|].
  apply for_each_plug_keeps; [intros; apply set_plug_cb_keeps|by eapply keeps_good].
Qed.

Lemma setdown_security_keeps s : good s -> keeps s (setdown_security s).2.
Proof.
  intros Hg. unfold setdown_security. cbn [snd].
  assert (K0 : keeps s (for_each_entry s 0 setdown_security_file_cb).1).
  { apply for_each_entry_keeps; [done|]. intros. apply tagfile_keeps. }
  etrans; [exact K0|].
  apply for_each_plug_keeps; [intros; apply set_plug_cb_keeps|by eapply keeps_good].
Qed.

Lemma process_units_keeps s : keeps s (process_units s).2.
Proof.
  unfold process_units. destruct (manifest s) as [m|]; [|apply keeps_fault].
  match goal with |- context [unit_text.unit_process_split ?a ?b ?c ?d ?e ?f ?g ?h] =>
    assert (K : keeps s (unit_text.unit_process_split a b c d e f g h).2.1);
      [|destruct (unit_text.unit_process_split a b c d e f g h) as [[v t] [s1 o]]] end.
  { unfold unit_text.unit_process_split, unit_text.unit_process_raw.
    assert (Hsp : forall c, keeps s (unit_text.internal_for_split (Some call_setunits) (s, mem s) c).1.1).
    { intros c. unfold unit_text.internal_for_split. destruct (unit_text.corpus_split _ _) as [[[v us] o]|]; [|done].
      destruct (v >? 0)%Z; [|done]. simpl. pose proof (setunits_keeps s us) as K.
      by destruct (call_setunits s us). }
    destruct (match template s with Some t => (0%Z, template s) | None => _ end) as [v t].
    destruct (v =? 0)%Z; [|done]. destruct t as [t|]; [|done].
    destruct (apply_mustach t m) as [v1 inst]. destruct (v1 =? 0)%Z; [|done].
    specialize (Hsp (unit_text.dedup_slashes inst)).
    by destruct (unit_text.internal_for_split _ _ _) as [s1 v2]. }
  simpl in *. etrans; [exact K|]. etrans; [apply keeps_template|apply keeps_mem].
Qed.

(** a step of a sequence that stops at the first negative status *)
Lemma seq_keeps s (a : Z * state) (f : state -> Z * state) :
  good s -> keeps s a.2 -> (forall s', good s' -> keeps s' (f s').2) ->
  keeps s (let '(v, s) := a in if (v <? 0)%Z then (v, s) else f s).2.
Proof.
  intros Hg Ka Hf. destruct a as [v s1]. simpl in Ka. destruct (v <? 0)%Z; [done|].
  etrans; [exact Ka|]. apply Hf. by eapply keeps_good.
Qed.

Lemma install_afmpkg_keeps s : good s -> keeps s (install_afmpkg s).2.
Proof.
  intros Hg. unfold install_afmpkg. destruct (malloc (mem s)) as [[] o]; cbn [negb]; cbv zeta;
    [|etrans; [apply keeps_mem|apply keeps_permset]].
  set (s1 := set_permset (set_mem s o) (Some permset.permset_create)).
  assert (K1 : keeps s s1) by (etrans; [apply keeps_mem|apply keeps_permset]).
  assert (G1 : good s1) by by eapply keeps_good.
  match goal with |- keeps s (snd (let '(_, _) := ?x in _)) => assert (K : keeps s1 x.2); [|destruct x as [v s2]] end.
  2: { simpl in *. etrans; [exact K1|]. etrans; [exact K|apply keeps_permset]. }
  apply seq_keeps; [done|by apply check_permissions_keeps|]. clear -H. intros s Hg.
  apply seq_keeps; [done|by apply check_contents_keeps|]. clear -H. intros s Hg.
  apply seq_keeps; [done|by apply compute_files_properties_keeps|]. clear -H. intros s Hg.
  apply seq_keeps; [done| |].
  { apply for_each_content_entry_keeps; [done|]. intros. apply setup_cb_keeps. }
  clear -H. intros s Hg.
  apply seq_keeps; [done|by apply setup_security_keeps|]. intros. apply process_units_keeps.
Qed.

Lemma uninstall_afmpkg_keeps s : good s -> keeps s (uninstall_afmpkg s).2.
Proof.
  intros Hg. apply seq_keeps; [done|apply process_units_keeps|]. intros. by apply setdown_security_keeps.
Qed.

(** ** No error of the back end is lost at an installation *)

Definition status (x : call) : Z :=
  match x with
  | Call_begin _ _ v | Call_tagfile _ _ v | Call_setperm _ v | Call_setplug _ _ _ v | Call_setunits _ v
  | Call_end _ v => v
  end.

Definition accepted (x : call) : Prop := (0 <= status x)%Z.

(** unless the state has a negative status, the calls since [b] succeeded *)
Definition sound (b s : state) : Prop :=
  exists l, calls s = calls b ++ l /\ ((0 <= rc s)%Z -> Forall accepted l).

Lemma sound_refl s : sound s s.
Proof. exists []. by rewrite app_nil_r. Qed.

Lemma sound_same b s s' :
  sound b s -> calls s' = calls s -> ((0 <= rc s')%Z -> (0 <= rc s)%Z) -> sound b s'.
Proof. intros (l & Hc & Hl) E Hrc. exists l. rewrite E. auto. Qed.

Lemma put_state_rc_ok s v : (0 <= rc (put_state_rc s v))%Z -> (0 <= rc s)%Z /\ (0 <= v)%Z.
Proof.
  unfold put_state_rc. destruct (v <? 0)%Z eqn:Ev, (rc s >=? 0)%Z eqn:Er; simpl; lia.
Qed.

Lemma put_state_rc_calls s v : calls (put_state_rc s v) = calls s.
Proof. unfold put_state_rc. by destruct (_ && _). Qed.

Lemma sound_put_rc b s v : sound b s -> sound b (put_state_rc s v).
Proof.
  intros Hs. apply (sound_same b s); [done|apply put_state_rc_calls|]. by intros [? _]%put_state_rc_ok.
Qed.

Lemma sound_called b s c x :
  sound b s -> sound b (put_state_rc (called s c x) (status x)).
Proof.
  intros (l & Hc & Hl). exists (l ++ [x]). rewrite put_state_rc_calls. simpl. rewrite Hc, app_assoc.
  split; [done|]. intros [Hrc Hx]%put_state_rc_ok. apply Forall_app. split; [auto|by repeat constructor].
Qed.

Lemma sound_deref b s p : sound b s -> sound b (deref s p).2.
Proof. intros Hs. destruct p; [done|]. by apply (sound_same b s). Qed.

Lemma setup_security_file_cb_sound b s k : sound b s -> sound b (setup_security_file_cb s k).1.
Proof.
  intros Hs. unfold setup_security_file_cb, call_tagfile.
  destruct (tagfile opers _ _ _) as [c v]. by apply (sound_called b s c (Call_tagfile _ _ v)).
Qed.

Lemma for_each_entry_sound b s flgs f :
  (forall s k, sound b s -> sound b (f s k).1) -> sound b s -> sound b (for_each_entry s flgs f).1.
Proof.
  intros Hf Hs. unfold for_each_entry. destruct (pack_entry s) as [e|]; [|done]. cbv zeta.
  apply (do_foreach_inv (sound b)); [|done]. intros s' h p Hs'. unfold in_buffer. apply Hf.
  destruct (has_flag _ _); [done|]. by apply (sound_same b s').
Qed.

Lemma for_each_plug_sound b s : sound b s -> sound b (for_each_plug set_plug_cb s).
Proof.
  unfold for_each_plug, for_each_of_manifest, for_each_of_array. destruct (_ ≫= _) as [item|]; [|done].
  generalize (array_items item). intros l. revert s. induction l as [|x l IH]; intros s Hs; simpl; [done|].
  apply IH. unfold for_each_plug_cb.
  destruct (object_get_ex x MANIFEST_NAME) as [j|]; [|by apply sound_put_rc].
  apply (sound_deref b s (get_string j)) in Hs. destruct (deref s _) as [n s1].
  destruct (object_get_ex x MANIFEST_VALUE) as [j'|]; [|by apply sound_put_rc].
  apply (sound_deref b s1 (get_string j')) in Hs. destruct (deref s1 _) as [i s2].
  destruct (pack_get _ _ _) as [k|]; [|by apply sound_put_rc]. unfold set_plug_cb, call_setplug.
  destruct (setplug opers _ _ _ _) as [c v]. apply (sound_called b _ c (Call_setplug _ _ _ v)).
  by apply (sound_same b s2).
Qed.

Lemma permit_sound b s p : sound b s -> (0 <= (permit s p).2)%Z -> sound b (permit s p).1.
Proof.
  intros (l & Hc & Hl). unfold permit. destruct (setperm opers _ _) as [c v]. simpl. intros Hv.
  exists (l ++ [Call_setperm p v]). simpl. rewrite Hc, app_assoc. split; [done|]. intros Hrc.
  apply Forall_app. split; [auto|by repeat constructor].
Qed.

Lemma permit_loop_sound b fuel cur s :
  sound b s -> (0 <= (permit_loop fuel cur s).1)%Z -> sound b (permit_loop fuel cur s).2.
Proof.
  revert cur s. induction fuel as [|fuel IH]; intros [[] ps] s Hs; simpl; try by (intros _; apply (sound_same b s)).
  apply (sound_deref b s (permset.permset_current ps)) in Hs. destruct (deref s _) as [p s1]. simpl in Hs.
  pose proof (permit_sound b s1 p Hs) as Hp. destruct (permit s1 p) as [s2 v]. simpl in *.
  destruct (v <? 0)%Z eqn:Ev; simpl; [lia|]. apply IH, Hp. lia.
Qed.

Lemma permit_defaults_sound b l s :
  sound b s -> (0 <= (permit_defaults l s).1)%Z -> sound b (permit_defaults l s).2.
Proof.
  revert s. induction l as [|p l IH]; intros s Hs; simpl; [done|].
  pose proof (permit_sound b s p Hs) as Hp. destruct (permit s p) as [s2 v]. simpl in *.
  destruct (v <? 0)%Z eqn:Ev; simpl; [lia|]. apply IH, Hp. lia.
Qed.

Lemma setup_security_sound s :
  (0 <= (setup_security s).1)%Z ->
  sound s (setup_security s).2 /\ (setup_security s).1 = rc (setup_security s).2.
Proof.
  unfold setup_security.
  assert (K0 : sound s (for_each_entry s PATH_ENTRY_FORALL_AFTER setup_security_file_cb).1).
  { apply for_each_entry_sound; [|apply sound_refl]. intros. by apply setup_security_file_cb_sound. }
  set (s0 := fst (for_each_entry _ _ _)) in *. destruct (rc s0 <? 0)%Z eqn:Er; [simpl; lia|].
  match goal with |- context [let '(_, _) := ?x in _] =>
    assert (K1 : (0 <= x.1)%Z -> sound s x.2); [|destruct x as [v s1]] end.
  { destruct (permset s0); [by apply permit_loop_sound|]. intros _. by apply (sound_same s s0). }
  simpl in K1. destruct (v <? 0)%Z eqn:Ev; [simpl; lia|].
  pose proof (permit_defaults_sound s default_permissions s1 (K1 ltac:(lia))) as K2.
  destruct (permit_defaults default_permissions s1) as [v2 s2]. simpl in K2.
  destruct (v2 <? 0)%Z eqn:Ev2; simpl; [lia|]. intros _. split; [|done]. apply for_each_plug_sound, K2. lia.
Qed.

Lemma process_units_sound b s :
  (0 <= rc s)%Z -> sound b s -> (0 <= (process_units s).1)%Z -> sound b (process_units s).2.
Proof.
  intros Hrc (l & Hc & Hl). specialize (Hl Hrc). unfold process_units.
  destruct (manifest s) as [m|]; [|intros _; by exists l].
  unfold unit_text.unit_process_split, unit_text.unit_process_raw.
  destruct (match template s with Some t => (0%Z, template s) | None => _ end) as [v t].
  destruct (v =? 0)%Z; [|intros _; by exists l]. destruct t as [t|]; [|intros _; by exists l].
  destruct (apply_mustach t m) as [v1 inst]. destruct (v1 =? 0)%Z; [|intros _; by exists l].
  unfold unit_text.internal_for_split. destruct (unit_text.corpus_split _ _) as [[[w us] o]|]; [|intros _; by exists l].
  destruct (w >? 0)%Z; [|intros _; by exists l]. unfold call_setunits. simpl.
  destruct (setunits opers (closure s) us) as [c x]. simpl. intros Hx. exists (l ++ [Call_setunits us x]).
  simpl. rewrite Hc, app_assoc. split; [done|]. intros _. apply Forall_app. split; [done|by repeat constructor].
Qed.

(** what holds whatever the back end does makes no call of it *)
Definition no_steps : Steps C := fun _ _ _ => False.

Lemma quiet s s' : keeps (back_end := no_steps) s s' -> calls s' = calls s.
Proof.
  intros [_ _ _ _ _ _ (l & Hc & _ & Hr) _ _]. inversion Hr as [|? ? ? ? ? Hs]; [|done].
  subst l. by rewrite app_nil_r in Hc.
Qed.

(** a quiet step of a sequence that ends with calls *)
Lemma quiet_seq s (a : Z * state) (f : state -> Z * state) :
  good s -> keeps (back_end := no_steps) s a.2 ->
  (forall s', good s' -> (0 <= (f s').1)%Z -> exists l, calls (f s').2 = calls s' ++ l /\ Forall accepted l) ->
  let r := let '(v, s) := a in if (v <? 0)%Z then (v, s) else f s in
  (0 <= r.1)%Z -> exists l, calls r.2 = calls s ++ l /\ Forall accepted l.
Proof.
  intros Hg Ka Hf r. destruct a as [v s1]. simpl in Ka, r. subst r. destruct (v <? 0)%Z eqn:Ev; simpl; [lia|].
  rewrite <-(quiet _ _ Ka). apply Hf. exact (keeps_good (back_end := no_steps) _ _ Ka Hg).
Qed.

Lemma install_afmpkg_accepted s :
  good s -> (0 <= (install_afmpkg s).1)%Z ->
  exists l, calls (install_afmpkg s).2 = calls s ++ l /\ Forall accepted l.
Proof.
  intros Hg. unfold install_afmpkg. destruct (malloc (mem s)) as [[] o]; cbn [negb]; cbv zeta; [|done].
  set (s1 := set_permset (set_mem s o) (Some permset.permset_create)).
  assert (G1 : good s1).
  { destruct Hg. by split. }
  change (calls s) with (calls s1).
  match goal with |- (0 <= fst (let '(_, _) := ?x in _))%Z -> _ =>
    assert (K : (0 <= x.1)%Z -> exists l, calls x.2 = calls s1 ++ l /\ Forall accepted l);
      [|by destruct x as [v s2]] end.
  apply quiet_seq; [done|by apply check_permissions_keeps|]. clear s Hg s1 G1. intros s Hg.
  apply quiet_seq; [done|by apply check_contents_keeps|]. clear s Hg. intros s Hg.
  apply quiet_seq; [done|by apply compute_files_properties_keeps|]. clear s Hg. intros s Hg.
  apply quiet_seq; [done| |].
  { apply for_each_content_entry_keeps; [done|]. intros. apply setup_cb_keeps. }
  clear s Hg. intros s Hg. pose proof (setup_security_sound s) as K.
  destruct (setup_security s) as [v s1]. simpl in K. destruct (v <? 0)%Z eqn:Ev; simpl; [lia|].
  destruct K as [K ->]; [lia|]. intros Hv.
  destruct (process_units_sound s s1 ltac:(lia) K Hv) as (l & Hc & Hl). exists l. split; [done|]. apply Hl.
  assert (Hrc : rc (process_units s1).2 = rc s1); [|lia].
  clear. unfold process_units. destruct (manifest s1) as [m|]; [|done].
  unfold unit_text.unit_process_split, unit_text.unit_process_raw.
  destruct (match template s1 with Some t => (0%Z, template s1) | None => _ end) as [v t].
  destruct (v =? 0)%Z; [|done]. destruct t as [t|]; [|done].
  destruct (apply_mustach t m) as [v1 inst]. destruct (v1 =? 0)%Z; [|done].
  unfold unit_text.internal_for_split. destruct (unit_text.corpus_split _ _) as [[[w us] o]|]; [|done].
  destruct (w >? 0)%Z; [|done]. unfold call_setunits. simpl. by destruct (setunits opers (closure s1) us).
Qed.

(** ** The calls for a package *)

Lemma keeps_same_calls s s' :
  files s' = files s -> packdir s' = packdir s -> offset_root s' = offset_root s ->
  offset_pack s' = offset_pack s -> path s' = path s -> calls s' = calls s -> closure s' = closure s ->
  keeps s s'.
Proof.
  intros E1 E2 E3 E4 E5 E6 E7.
  assert (Hg : forall k, get_entry_type s' k = get_entry_type s k) by (intros; unfold get_entry_type; by rewrite E1).
  split; rewrite ?E1, ?E2, ?E3, ?E4, ?E5, ?E6; try done.
  - by apply traced_same.
  - intros k. unfold has_type. by rewrite E1.
Qed.

Lemma traced_none s s' : traced s s' -> calls s' = calls s -> closure s' = closure s.
Proof.
  intros (l & Hc & _ & Hr) E. rewrite E in Hc. symmetry in Hc.
  rewrite <-(app_nil_r (calls s)) in Hc at 2. apply app_inv_head in Hc as ->. by inversion Hr.
Qed.

Lemma get_manifest_keeps s m :
  good s -> keeps s (get_manifest s m).2 /\ calls (get_manifest s m).2 = calls s.
Proof.
  intros Hg. unfold get_manifest. set (text := SLASH :: _).
  assert (K : keeps s (put_path s (offset_pack s) text)).
  { apply keeps_put_path; [by apply good_root|]. rewrite (good_length _ Hg). pose proof (good_pack _ Hg). lia. }
  destruct (read_and_check _ _) as [v j]. split; [|done].
  etrans; [exact K|]. by apply keeps_same_calls.
Qed.

Lemma add_meta_to_target_keeps s i :
  keeps s (add_meta_to_target s i) /\ calls (add_meta_to_target s i) = calls s.
Proof.
  unfold add_meta_to_target.
  assert (Hq : forall s1 s2 : state, (files s2 = files s1 /\ packdir s2 = packdir s1 /\
    offset_root s2 = offset_root s1 /\ offset_pack s2 = offset_pack s1 /\ path s2 = path s1 /\
    calls s2 = calls s1 /\ closure s2 = closure s1) -> keeps s1 s2 /\ calls s2 = calls s1).
  { intros s1 s2 (?&?&?&?&?&?&?). split; [by apply keeps_same_calls|done]. }
  apply Hq. destruct (negb _); [|destruct (afid.get_new_afid _ _ _ _) as [a m]; destruct (a <? 0)%Z; [done|]];
    (destruct (pack_target _ _); [|done]); simpl; by destruct (manifest s).
Qed.

Lemma add_meta_to_manifest_keeps s :
  good s -> keeps s (add_meta_to_manifest s).2 /\ calls (add_meta_to_manifest s).2 = calls s.
Proof.
  intros Hg. unfold add_meta_to_manifest. pose proof (good_root _ Hg). pose proof (good_pack _ Hg).
  match goal with |- context [get_redpakid ?x] => set (s1 := x) end.
  assert (K : keeps s s1 /\ calls s1 = calls s).
  { subst s1. destruct (negb _); (split; [|done]); apply keeps_put_path; rewrite ?(good_length _ Hg); lia. }
  clearbody s1. cbv zeta. destruct (pack_manifest _ _ _ _ _) as [obj|], (manifest s1) as [m|] eqn:Em; try done.
  set (s2 := set_rc (set_manifest s1 _) 0).
  assert (K2 : keeps s s2 /\ calls s2 = calls s).
  { destruct K as [K Kc]. split; [|done]. etrans; [exact K|]. by apply keeps_same_calls. }
  match goal with |- context [for_all _ ?x s2] => generalize x end. intros l.
  assert (K3 : keeps s (for_all add_meta_to_target l s2) /\ calls (for_all add_meta_to_target l s2) = calls s).
  { clearbody s2. revert s2 K2. induction l as [|i l IH]; intros s2 [K2 C2]; simpl; [done|].
    apply IH. destruct (add_meta_to_target_keeps s2 i) as [K3 C3]. split; [by etrans|congruence]. }
  destruct K3 as [K3 C3]. destruct (rc _ <? 0)%Z; [done|]. split; [|exact C3].
  etrans; [exact K3|apply keeps_set_rc].
Qed.

(** The calls for a transaction: [begin], the calls of the processing when
    [begin] succeeds, and [end] with the status, which tells any error of
    these calls at an installation. *)
Definition bracket (id : option bytes) (l : list call) (v : Z) : Prop :=
  exists b mid st e, l = Call_begin id mode b :: mid ++ [Call_end st e] /\ Forall inner mid /\
    ((b < 0)%Z -> mid = [] /\ st = b) /\
    ((0 <= st)%Z -> mode = Install -> Forall accepted mid) /\ v = (if (e <? 0)%Z then e else st).

(** the same state, before any call of the back end since [s] *)
Definition rewound s s' : state := set_closure (set_calls s' (calls s)) (closure s).

Lemma keeps_rewound s1 s2 s3 s4 :
  keeps s1 (rewound s2 s3) -> files s4 = files s3 -> packdir s4 = packdir s3 ->
  offset_root s4 = offset_root s3 -> offset_pack s4 = offset_pack s3 -> path s4 = path s3 ->
  keeps s1 s2 -> calls s2 = calls s1 -> keeps s1 (rewound s1 s4).
Proof.
  intros K E1 E2 E3 E4 E5 K2 C2. etrans; [exact K|].
  apply keeps_same_calls; try done. symmetry. apply traced_none; [apply (keeps_calls _ _ K2)|done].
Qed.

Lemma transaction_bracket s :
  good s -> exists id l, calls (transaction s).2 = calls s ++ l /\ bracket id l (transaction s).1 /\
    runs (closure s) l (closure (transaction s).2) /\ keeps s (rewound s (transaction s).2).
Proof.
  intros Hg. unfold transaction. set (id := manifest s ≫= _). exists id. cbv zeta.
  unfold call_begin. cbn [appid set_appid closure]. destruct (begin_ opers _ id mode) as [c b] eqn:Eb.
  set (s1 := called (set_appid s id) c (Call_begin id mode b)).
  assert (Hq : forall s2 : state, keeps s1 s2 -> exists mid, Forall inner mid /\
    calls s2 = calls s1 ++ mid /\ runs c mid (closure s2) /\ keeps s (rewound s s2)).
  { intros s2 [A1 A2 A3 A4 A5 A6 (mid & A7 & A7' & Ar) A8 A9]. exists mid. split; [done|]. split; [|split].
    - exact A7.
    - exact Ar.
    - split; try done. by apply traced_same. }
  match goal with |- context [let '(_, _) := ?x in let '(_, _) := call_end _ _ in _] =>
    assert (Hx : keeps s1 x.2 /\ ((b < 0)%Z -> x = (b, s1)) /\ ((0 <= x.1)%Z -> mode = Install ->
      exists l, calls x.2 = calls s1 ++ l /\ Forall accepted l)); [|destruct x as [st s2]] end.
  { destruct (b >=? 0)%Z eqn:Ev; [|split; [done|split; [by intros|simpl; lia]]].
    assert (G1 : good s1).
    { destruct Hg as [g1 g2 g3 g4 g5]. by split. }
    split; [|split; [intros; lia|]].
    - destruct (bool_decide _); [by apply install_afmpkg_keeps|by apply uninstall_afmpkg_keeps].
    - intros Hx Hm. rewrite (bool_decide_eq_true_2 _ Hm) in Hx |- *. by apply install_afmpkg_accepted. }
  destruct Hx as (K & Hb & Ha). cbn [fst snd] in K, Ha. unfold call_end.
  destruct (end_ opers (closure s2) st) as [c2 e] eqn:Ee.
  destruct (Hq s2 K) as (mid & Hm & Hc & Hr & K'). cbn [fst snd].
  exists (Call_begin id mode b :: mid ++ [Call_end st e]). split; [|split; [|split]].
  - cbn. rewrite Hc. subst s1. simpl. by rewrite <-!app_assoc.
  - exists b, mid, st, e. split_and!; [done|done| | |done].
    + intros Hneg. specialize (Hb Hneg). injection Hb as -> ->. split; [|done].
      rewrite <-(app_nil_r (calls s1)) in Hc at 1. by apply app_inv_head in Hc.
    + intros Hst Hi. destruct (Ha Hst Hi) as (l & Hl & Hf). rewrite Hc in Hl.
      by apply app_inv_head in Hl as ->.
  - apply runs_cons with c; [exact Eb|]. eapply runs_app; [exact Hr|]. by apply runs_one.
  - etrans; [exact K'|]. by apply keeps_same_calls.
Qed.

Lemma process_package_calls s m :
  good s -> let '(v, s') := process_package s m in
  keeps s (rewound s s') /\
  exists l, calls s' = calls s ++ l /\ runs (closure s) l (closure s') /\
    ((v < 0)%Z /\ l = [] \/ exists id, bracket id l v).
Proof.
  intros Hg. unfold process_package.
  destruct (get_manifest_keeps s m Hg) as [K1 C1]. destruct (get_manifest s m) as [v1 s1]. cbn [snd] in *.
  assert (Hfail : forall v s2, keeps s s2 -> calls s2 = calls s -> (v < 0)%Z ->
    keeps s (rewound s s2) /\ exists l, calls s2 = calls s ++ l /\ runs (closure s) l (closure s2) /\
      ((v < 0)%Z /\ l = [] \/ exists id, bracket id l v)).
  { intros v s2 K C2 Hv. pose proof (traced_none _ _ (keeps_calls _ _ K) C2) as D2. split.
    - etrans; [exact K|]. by apply keeps_same_calls.
    - exists []. rewrite app_nil_r, D2. split; [done|]. split; [constructor|by left]. }
  destruct (v1 <? 0)%Z eqn:E1; [by apply Hfail; [..|lia]|].
  pose proof (keeps_good _ _ K1 Hg) as G1.
  destruct (add_meta_to_manifest_keeps s1 G1) as [K2 C2].
  destruct (add_meta_to_manifest s1) as [v2 s2]. cbn [snd] in *.
  assert (K : keeps s s2) by by etrans. assert (Cc : calls s2 = calls s) by congruence.
  pose proof (traced_none _ _ (keeps_calls _ _ K) Cc) as D.
  destruct (v2 <? 0)%Z eqn:E2.
  { apply Hfail; [|done|lia]. etrans; [exact K|]. by apply keeps_same_calls. }
  destruct (transaction_bracket s2) as (id & l & Hc & Hb & Hr & Kt); [by eapply keeps_good|].
  destruct (transaction s2) as [v3 s3]. cbn [fst snd] in *. split.
  - apply (keeps_rewound s s2 s3); try done. by etrans; [exact K|].
  - exists l. cbn. rewrite Hc, Cc, <-D. split; [done|]. split; [done|]. right. by exists id.
Qed.

End Process.

End afmpkg.
