(* ===== verification/AfmpkgRun.v ===== *)
(** * The processing of the packages of a request

    Which packages are found and in which order, what the back end is told
    for each of them, and what becomes of the other files. *)
From Stdlib Require Import Sorted.
From S2P Require Import Prelude CString Permset PathEntry PathVars PathRemove PathType UnitFs Afid UnitText.
From S2P Require Import Package Jsonc PkgFiles PkgTypes Afmpkg.

Module afmpkg_run.
Import afmpkg path_remove.
Import path_vars.
Import package(afmpkg_t, afmpkg_mode(..), operations, begin_, tagfile, setperm, setplug, setunits, end_).

(** ** Detection *)

Lemma rootpkgs_add_cases r k m o :
  length (roots r) <= alloc r -> 0 < alloc r ->
  let '(v, r', o') := rootpkgs_add r k m o in
  (v = 0%Z /\ roots r' = roots r ++ [(k, m)] /\ length (roots r') <= alloc r' /\ 0 < alloc r' \/
   v = (- ENOMEM)%Z /\ r' = r /\ false ∈ o) /\ (false ∈ o' -> false ∈ o).
Proof.
  intros Hl Ha. unfold rootpkgs_add. case_bool_decide as Hc.
  - destruct (malloc o) as [b o'] eqn:Em. apply malloc_cases in Em as (used & -> & Hb).
    destruct b; (split; [|rewrite elem_of_app; by right]).
    + left. cbn [roots alloc]. rewrite length_app. simpl. split_and!; try done; lia.
    + right. split_and!; try done. apply elem_of_app. left. by apply Hb.
  - split; [|done]. left. cbn [roots alloc]. rewrite length_app. simpl. split_and!; try done; lia.
Qed.

(** the packages among visited entries *)
Definition root_at (top : path_entry) (v : handle * bytes) : option (handle * manif) :=
  match sub v.1 top ≫= package_manif with Some m => Some (v.1, m) | None => None end.

Lemma detect_run top l r o :
  length (roots r) <= alloc r -> 0 < alloc r ->
  let '(r', o', v) := run (detect_package_roots_cb top) l (r, o) in
  v = 0%Z /\ roots r' = roots r ++ omap (root_at top) l /\ length (roots r') <= alloc r' \/
  v = (- ENOMEM)%Z /\ false ∈ o.
Proof.
  revert r o. induction l as [|[k p] l IH]; intros r o Hl Ha.
  { simpl. left. by rewrite app_nil_r. }
  cbn [run omap]. unfold detect_package_roots_cb at 1.
  assert (Hskip : root_at top (k, p) = None ->
    let '(r', o', v) := run (detect_package_roots_cb top) l (r, o) in
    v = 0%Z /\ roots r' = roots r ++ omap (root_at top) ((k, p) :: l) /\ length (roots r') <= alloc r' \/
    v = (- ENOMEM)%Z /\ false ∈ o).
  { intros E. simpl. rewrite E. by apply IH. }
  unfold root_at in Hskip at 1. cbn [fst] in Hskip.
  destruct (sub k top) as [e|] eqn:Es; [|by apply Hskip].
  cbn [mbind option_bind] in Hskip. destruct (package_manif e) as [m|] eqn:Em; [|by apply Hskip].
  clear Hskip. cbn [fst snd]. pose proof (rootpkgs_add_cases r k m o Hl Ha) as Hadd.
  destruct (rootpkgs_add r k m o) as [[v r1] o1].
  destruct Hadd as [[(-> & Hr & Hl1 & Ha1)|(-> & -> & Hf)] Ho]; [|right; done].
  cbn [Z.eqb]. specialize (IH r1 o1 Hl1 Ha1). destruct (run _ l (r1, o1)) as [[r2 o2] v2].
  destruct IH as [(-> & H1 & H2)|(-> & H1)]; [left|right; auto].
  split_and!; [done| |done]. rewrite H1, Hr. simpl. unfold root_at at 2. cbn [fst].
  rewrite Es. cbn [mbind option_bind]. rewrite Em. by rewrite <-app_assoc.
Qed.

Lemma root_at_fst top v k m : root_at top v = Some (k, m) -> k = v.1.
Proof. unfold root_at. destruct (sub v.1 top ≫= package_manif); [|done]. by intros [= <- _]. Qed.

Lemma omap_root_in top l k m :
  (k, m) ∈ omap (root_at top) l <-> k ∈ l.*1 /\ exists e, sub k top = Some e /\ package_manif e = Some m.
Proof.
  rewrite list_elem_of_omap. split.
  - intros (v & Hv & Hr). pose proof (root_at_fst _ _ _ _ Hr) as ->. split; [by apply list_elem_of_fmap_2|].
    unfold root_at in Hr. destruct (sub v.1 top) as [e|]; [|done]. simpl in Hr. exists e. split; [done|].
    destruct (package_manif e); [|done]. by injection Hr as <-.
  - intros [(v & -> & Hv)%list_elem_of_fmap (e & Hs & He)]. exists v. split; [done|].
    unfold root_at. rewrite Hs. simpl. by rewrite He.
Qed.

Lemma omap_root_sorted top l :
  StronglySorted (fun a b => ~ above a.1 b.1) l -> StronglySorted (fun a b => ~ above a.1 b.1) (omap (root_at top) l).
Proof.
  induction 1 as [|v l Hl IH Hv]; simpl; [constructor|]. destruct (root_at top v) as [[k m]|] eqn:E; [|done].
  constructor; [done|]. rewrite Forall_forall in Hv. apply Forall_forall. intros [k' m'] Hin.
  apply omap_root_in in Hin as [(v' & -> & Hv')%list_elem_of_fmap _].
  rewrite (root_at_fst _ _ _ _ E). simpl. by apply Hv.
Qed.

Lemma omap_root_NoDup top l : NoDup l.*1 -> NoDup (omap (root_at top) l).*1.
Proof.
  induction l as [|v l IH]; simpl; [constructor|]. intros [Hv Hl]%NoDup_cons.
  destruct (root_at top v) as [[k m]|] eqn:E; [|auto]. simpl. apply NoDup_cons. split; [|auto].
  intros ([k' m'] & Hk & Hin)%list_elem_of_fmap. simpl in Hk. subst k'. apply Hv.
  rewrite <-(root_at_fst _ _ _ _ E). by apply omap_root_in in Hin as [].
Qed.

Lemma detect_roots_spec top o :
  wf top ->
  let '(r, o', v) := detect_roots top o in
  v = 0%Z /\ NoDup (roots r).*1 /\ length (roots r) <= alloc r /\
    (forall k m, (k, m) ∈ roots r <-> exists e, sub k top = Some e /\ package_manif e = Some m) /\
    StronglySorted (fun a b => ~ above a.1 b.1) (roots r) \/
  v = (- ENOMEM)%Z /\ false ∈ o.
Proof.
  intros Hwf. unfold detect_roots, path_entry_for_each_in_buffer.
  change (has_flag _ PATH_ENTRY_FORALL_SILENT_ROOT) with false.
  change (if (Z.land _ _ =? 0)%Z then _ else _) with FORALL_ROOTS. cbv zeta.
  change (if (Z.land _ _ =? _)%Z then _ else _) with (@nil ascii).
  rewrite do_foreach_run by (by apply fits_no_path).
  pose proof (detect_run top (visits FORALL_ROOTS false top [] []) rootpkgs_init o) as Hd.
  destruct (run _ _ _) as [[r o'] v]. destruct Hd as [(-> & Hr & Hl)|Hd]; [simpl; lia|simpl; lia| |by right].
  left. change (roots rootpkgs_init) with (@nil (handle * manif)) in Hr. rewrite app_nil_l in Hr.
  rewrite Hr in *. split_and!; [done| |done| |].
  - apply omap_root_NoDup. by apply visits_NoDup.
  - intros k m. rewrite omap_root_in, (visited FORALL_ROOTS) by done. split; [by intros [_ ?]|].
    intros (e & He & Hm). split; [split; [by eexists|done]|by exists e].
  - apply omap_root_sorted. by apply visits_sorted.
Qed.

(** what makes a package: a directory with its manifest below *)
Lemma package_manif_spec e m :
  package_manif e = Some m <->
  match m with
  | name_manifest => is_Some (sub [B ".rpconfig"; B "manifest.yml"] e)
  | name_config => is_Some (sub [B "config.xml"] e) /\ sub [B ".rpconfig"; B "manifest.yml"] e = None
  end.
Proof.
  unfold package_manif, path_entry_has_child. rewrite !get_length_spec. cbv zeta.
  change (components (take (Z.to_nat (u32 22)) (manif_text name_manifest)))
    with [B ".rpconfig"; B "manifest.yml"].
  change (components (take (Z.to_nat (u32 10)) (manif_text name_config))) with [B "config.xml"].
  assert (Hc : bool_decide (length (children e) = 0) = true -> forall n h, sub (n :: h) e = None).
  { intros Hl%bool_decide_eq_true n h. simpl. destruct (children e); [done|done]. }
  generalize (sub [B ".rpconfig"; B "manifest.yml"] e) (sub [B "config.xml"] e)
    (fun H => Hc H (B ".rpconfig") [B "manifest.yml"]) (fun H => Hc H (B "config.xml") []).
  destruct (bool_decide _); intros a b Ha Hb; cbn [negb].
  - rewrite Ha, Hb by done. destruct m; split; try done; try (by intros []); by intros [[] ?].
  - destruct a as [x|], b as [y|]; vm_compute; destruct m; split; try done; try (by intros []); try (by intros [[] ?]); eauto.
Qed.

Section Run.
Context {J C : Type} `{Jsonc J} `{Env J C}.
Abbreviation state := (state J C).
Implicit Types s : state.

(** ** The files without package *)

Definition default_tag (c : call) : Prop := exists p rc, c = Call_tagfile p Default rc.

(** the name on disk of the path [p] written after the root *)
Definition root_text s (p : bytes) : bytes := cstring (take (offset_root s) (path s) ++ p ++ [NUL]).

Lemma default_tags_run flgs l s :
  has_flag flgs PATH_ENTRY_FORALL_NO_PATH = false ->
  (forall k p, (k, p) ∈ l -> offset_root s + length p < length (path s)) ->
  let '(s', v) := run (in_buffer (offset_root s) flgs [] process_default_tree_add_cb) l s in
  (exists tags, calls s' = calls s ++ tags /\ Forall default_tag tags /\ runs (closure s) tags (closure s')) /\
  (v = 0%Z -> calls s' = calls s ++ ((fun kp => Call_tagfile (root_text s kp.2) Default 0) <$> l)).
Proof.
  intros Hnp. revert s. induction l as [|[k p] l IH]; intros s Hlen; cbn [run].
  { split; [exists []; rewrite app_nil_r; split_and!; constructor|]. intros _. by rewrite app_nil_r. }
  unfold in_buffer at 1. rewrite Hnp. unfold process_default_tree_add_cb at 1, call_tagfile.
  specialize (Hlen k p ltac:(left)) as Hp.
  assert (Ht : cstring (path (put_path s (offset_root s) (p ++ [NUL]))) = root_text s p)
    by (by apply cstring_put).
  rewrite Ht. destruct (tagfile opers _ _ Default) as [c v] eqn:Eop. cbv iota beta.
  set (s1 := called _ c _). destruct (v =? 0)%Z eqn:Ev.
  2: { split; [|lia]. exists [Call_tagfile (root_text s p) Default v]. split; [done|]. split.
       - repeat constructor. by eexists _, _.
       - by apply runs_one. }
  apply Z.eqb_eq in Ev. subst v.
  assert (Hpath : take (offset_root s) (path s1) = take (offset_root s) (path s))
    by (exact (take_put_path s (offset_root s) (p ++ [NUL]) ltac:(lia))).
  assert (Hlen1 : length (path s1) = length (path s)).
  { simpl. rewrite length_app, length_store, length_take, length_drop. lia. }
  specialize (IH s1). change (offset_root s1) with (offset_root s) in IH.
  destruct (run _ l s1) as [s' v']. destruct IH as [(tags & Hc & Hf & Hr) Hz].
  { intros k' p' Hin. rewrite Hlen1. apply (Hlen k' p'). by right. }
  split.
  - exists (Call_tagfile (root_text s p) Default 0 :: tags). rewrite Hc. split_and!.
    + simpl. by rewrite <-app_assoc.
    + constructor; [by eexists _, _|done].
    + by apply runs_cons with c.
  - intros Hv. rewrite (Hz Hv). simpl. rewrite <-app_assoc. simpl. do 2 f_equal.
    apply list_fmap_ext. intros i [k' p'] _. unfold root_text.
    change (offset_root s1) with (offset_root s). by rewrite Hpath.
Qed.

(** the entries that an iteration on added entries visits *)
Lemma visited_added flgs e k :
  wf e -> (before flgs || after flgs) = true -> only_added flgs = true ->
  k ∈ (visits flgs false e [] []).*1 <-> added k e.
Proof.
  intros Hwf Hba Ho. rewrite list_elem_of_fmap. unfold added. split.
  - intros ([k' p] & -> & Hv). apply visits_elem in Hv as (j & x & -> & Hs & Hm & _); [|done..].
    unfold emits in Hm. rewrite Ho in Hm. simpl in *. by exists x.
  - intros (x & Hx & Ha). exists (k, path_text flgs k e (path_in flgs false [] e)). split; [done|].
    apply visits_elem; [done..|]. exists k, x. split_and!; try done. unfold emits. by rewrite Ho, Ha.
Qed.

Lemma for_each_before {S} flgs e (f : S -> handle -> bytes -> S * Z) c size :
  order_flags flgs = flgs -> has_flag flgs PATH_ENTRY_FORALL_ABSOLUTE = false ->
  has_flag flgs PATH_ENTRY_FORALL_SILENT_ROOT = false -> fits flgs size false e [] = true ->
  path_entry_for_each_in_buffer flgs (Some e) f c [] size = run f (visits flgs false e [] []) c.
Proof.
  intros Ho Ha Hs Hf. unfold path_entry_for_each_in_buffer. fold (order_flags flgs). rewrite Ho.
  rewrite land_two by (done || by apply Ha). rewrite Hs. by apply do_foreach_run.
Qed.

Lemma detect_added root s :
  wf root ->
  (path_entry_for_each_in_buffer FORALL_DETECT (Some root) process_default_tree_detect_cb s [] 0).2 =
  match (visits FORALL_DETECT false root [] []).*1 with [] => 0%Z | _ => 1%Z end.
Proof.
  intros Hwf. rewrite for_each_before; [|done|done|done|by apply fits_no_path].
  destruct (visits FORALL_DETECT false root [] []) as [|[k p] l]; done.
Qed.

Lemma default_tree_spec s root :
  mode = Install -> wf root -> name root = [] -> length (path s) = PATH_MAX -> offset_root s < PATH_MAX ->
  fits FORALL_DEFAULT (PATH_MAX - offset_root s) false root [] = true ->
  let '(v, s') := process_default_tree s root in
  ((forall k, ~ added k root) -> v = 0%Z /\ s' = s) /\
  ((exists k, added k root) ->
   exists b tags st, calls s' = calls s ++ Call_begin None Install b :: tags ++ [Call_end st v] /\
     runs (closure s) (Call_begin None Install b :: tags ++ [Call_end st v]) (closure s') /\
     Forall default_tag tags /\ ((b < 0)%Z -> tags = [] /\ st = b) /\
     ((0 <= b)%Z -> st = 0%Z -> exists l, NoDup l /\ (forall k, k ∈ l <-> added k root) /\
        tags = (fun k => Call_tagfile (root_text s (path_text FORALL_DEFAULT k root [])) Default 0) <$> l)).
Proof.
  intros Hm Hwf Htop Hlen Hoff Hfit. unfold process_default_tree. rewrite Hm.
  rewrite (bool_decide_eq_true_2 (Install = Install)) by done. cbv zeta. rewrite detect_added by done.
  pose proof (fun k => visited_added FORALL_DETECT root k Hwf eq_refl eq_refl) as Hdet.
  destruct (visits FORALL_DETECT false root [] []).*1 as [|k0 l0] eqn:El.
  { simpl. split; [done|]. intros [k Hk]. apply Hdet in Hk. by apply elem_of_nil in Hk. }
  assert (Hk0 : added k0 root) by (apply Hdet; left). clear El Hdet.
  change (1 >? 0)%Z with true. cbv iota.
  unfold call_begin. destruct (begin_ opers (closure s) None mode) as [c b] eqn:Ebg. rewrite Hm in *.
  set (s1 := called s c (Call_begin None Install b)). cbv iota beta.
  destruct (b >=? 0)%Z eqn:Eb.
  2: { unfold call_end. destruct (end_ opers (closure s1) b) as [c2 e] eqn:Een.
       split; [intros Hno; by destruct (Hno k0)|].
       intros _. exists b, [], b. split; [simpl; by rewrite <-app_assoc|]. split.
       { apply runs_cons with c; [exact Ebg|]. by apply runs_one. }
       split; [done|]. split; [done|]. lia. }
  rewrite for_each_before by done. change (offset_root s1) with (offset_root s).
  pose proof (default_tags_run FORALL_DEFAULT (visits FORALL_DEFAULT false root [] []) s1 eq_refl) as Hrun.
  change (offset_root s1) with (offset_root s) in Hrun. change (path s1) with (path s) in Hrun.
  destruct (run _ _ s1) as [s2 st]. destruct Hrun as [(tags & Hc & Hf & Hr) Hz].
  { intros k p Hv. assert (Hl0 : false = false -> length (@nil ascii) < PATH_MAX - offset_root s \/ name root <> [])
      by (intros _; left; simpl length; lia).
    pose proof (visits_fit _ _ _ _ _ _ _ _ Hfit eq_refl Hl0 Hwf Hv). lia. }
  unfold call_end. destruct (end_ opers (closure s2) st) as [c2 e] eqn:Een.
  split; [intros Hno; by destruct (Hno k0)|]. intros _. exists b, tags, st. split_and!; [| |done|lia|].
  - simpl. rewrite Hc. simpl. by rewrite <-!app_assoc.
  - apply runs_cons with c; [exact Ebg|]. eapply runs_app; [exact Hr|]. by apply runs_one.
  - intros _ Hst. exists (visits FORALL_DEFAULT false root [] []).*1. split_and!.
    + by apply visits_NoDup.
    + intros k. by apply visited_added.
    + specialize (Hz Hst). rewrite Hc in Hz. apply app_inv_head in Hz. rewrite Hz, <-list_fmap_compose.
      apply list_fmap_ext. intros i [k p] Hi. simpl.
      apply list_elem_of_lookup_2, visits_elem in Hi as (j & x & Hj & _ & _ & ->); [|done..].
      simpl in Hj. subst j. unfold path_in, extend. rewrite Htop. done.
Qed.

(** ** Flags of the entries *)

Definition flags_at (k : handle) (e : path_entry) : option Z := flags <$> sub k e.

Lemma flags_at_erase k e e' : erase e = erase e' -> flags_at k e = flags_at k e'.
Proof.
  intros He. assert (Hf : forall x, flags_at k x = flags <$> sub k (erase x)).
  { intros x. unfold flags_at. rewrite sub_erase. destruct (sub k x) as [[]|]; done. }
  by rewrite !Hf, He.
Qed.

Lemma flags_at_info k e : flags_at k e = fst <$> info k e.
Proof. unfold flags_at, info. by destruct (sub k e). Qed.

Lemma flags_at_Some k e : is_Some (flags_at k e) <-> is_Some (sub k e).
Proof. unfold flags_at. by rewrite fmap_is_Some. Qed.

Lemma added_flags k e : added k e <-> exists f, flags_at k e = Some f /\ has_flag f FLAGS_IS_ADDED = true.
Proof.
  unfold added, flags_at, path_entry_was_added. destruct (sub k e) as [x|]; simpl; naive_solver.
Qed.

Lemma prefix_above (h k : handle) : h `prefix_of` k -> h = k \/ above h k.
Proof. intros [[|n j] ->]; [left; by rewrite app_nil_r|right; by exists n, j]. Qed.

(** ** One package root *)

(** what the back end is told for a package: nothing when the manifest or
    its metadata are refused, or else a transaction *)
Definition outcome (l : list call) (v : Z) : Prop :=
  (v < 0)%Z /\ l = [] \/ exists id, bracket id l v.

(** the path of an entry holds in the buffer after the root *)
Definition path_fits s (h : handle) : Prop := offset_root s + length (abs_path h) < PATH_MAX.

Lemma process_rootpkg_spec s top h x m :
  files s = Some top -> wf top -> name top = [] -> sub h top = Some x -> h <> [] ->
  length (path s) = PATH_MAX -> path_fits s h ->
  let '(v, s') := process_rootpkg s h m in
  (exists l, calls s' = calls s ++ l /\ runs (closure s) l (closure s') /\ outcome l v) /\
  (exists top', files s' = Some top' /\ wf top' /\ name top' = [] /\
     forall k, flags_at k top' = if bool_decide (h `prefix_of` k) then None else flags_at k top) /\
  offset_root s' = offset_root s /\ length (path s') = PATH_MAX /\
  take (offset_root s) (path s') = take (offset_root s) (path s).
Proof.
  intros Hf Hwf Htop Hs Hne Hlen Hfit. unfold process_rootpkg, path_fits in *.
  set (s0 := set_packdir _ h). change (files s0) with (files s). rewrite Hf.
  change (path s0) with (path s). change (offset_root s0) with (offset_root s).
  assert (Hld : length (drop (offset_root s) (path s)) = PATH_MAX - offset_root s)
    by (rewrite length_drop; lia).
  rewrite <-Hld, (relpath_forced top h x) by done. cbv zeta.
  match goal with |- context [set_offset_pack ?a ?b] => set (s1 := set_offset_pack a b) end.
  change (offset_pack s1) with (offset_root s + length (abs_path h)).
  rewrite bool_decide_eq_false_2 by lia.
  assert (Hp1 : length (path s1) = PATH_MAX /\ take (offset_root s) (path s1) = take (offset_root s) (path s)).
  { subst s1. simpl. rewrite length_app, length_store, length_take, length_drop. split; [lia|].
    rewrite take_app_le, take_take, Nat.min_id by (rewrite length_take; lia). done. }
  set (s2 := put_path s1 _ [NUL]).
  assert (Hp2 : length (path s2) = PATH_MAX /\ take (offset_root s) (path s2) = take (offset_root s) (path s)).
  { destruct Hp1 as [L1 T1].
    assert (Kp : keeps s1 s2).
    { apply keeps_put_path; [change (offset_root s1) with (offset_root s); lia|rewrite L1; lia]. }
    split; [by rewrite (keeps_length _ _ Kp)|]. rewrite <-T1. apply (keeps_path _ _ Kp). }
  assert (G : good s2).
  { split; [apply Hp2|simpl; lia|simpl; lia| |].
    - intros t Ht. change (files s = Some t) in Ht. rewrite Hf in Ht. by injection Ht as <-.
    - exists x. split; [unfold pack_entry; change (files s ≫= sub h = Some x); by rewrite Hf|].
      change (offset_root s + length (name x) < offset_root s + length (abs_path h)).
      destruct h as [|n h _] using rev_ind; [done|]. rewrite (sub_snoc_name _ _ _ _ Hs), abs_path_snoc, length_app.
      simpl. lia. }
  pose proof (process_package_calls s2 m G) as Hpp.
  destruct (process_package s2 m) as [v s3]. destruct Hpp as [K (l & Hc & Hr & Hb)].
  pose proof K as [K1 K2 K3 K4 K5 K6 _ _ _].
  change (files s2) with (files s) in K1. rewrite Hf in K1. cbn [files set_calls set_closure rewound] in K1.
  destruct (files s3) as [t3|] eqn:Ef3; [|done]. cbn [fmap option_fmap option_map] in K1. injection K1 as K1.
  change (packdir s3 = h) in K2. cbn [mbind option_bind].
  assert (W3 : wf t3) by (apply wf_erase; rewrite K1; by apply wf_erase).
  destruct (destroy_spec t3 h W3 Hne) as (top' & Hd & W' & N' & I').
  split_and!.
  - exists l. by split_and!.
  - exists top'. split_and!; [|done|rewrite N', (shape_name _ _ K1); done|].
    + cbn [files set_files]. by rewrite K2.
    + intros k. rewrite flags_at_info, I'. destruct (bool_decide _); [done|].
      rewrite <-flags_at_info. by apply flags_at_erase.
  - exact K3.
  - change (length (path s3) = length (path s2)) in K5. simpl. rewrite K5. apply Hp2.
  - change (offset_root s2) with (offset_root s) in K6. simpl in K6 |- *. rewrite K6. apply Hp2.
Qed.

(** ** All the package roots *)

(** the calls for a list of packages, up to the first status that is not 0 *)
Inductive processed : list (handle * manif) -> list call -> Z -> Prop :=
| processed_nil : processed [] [] 0
| processed_next r l b c v : outcome b 0 -> processed l c v -> processed (r :: l) (b ++ c) v
| processed_stop r l b v : outcome b v -> v <> 0%Z -> processed (r :: l) b v.

Definition under (l : list (handle * manif)) (k : handle) : bool :=
  existsb (fun r => bool_decide (r.1 `prefix_of` k)) l.

Lemma rootpkgs_for_each_spec l s top :
  files s = Some top -> wf top -> name top = [] -> length (path s) = PATH_MAX ->
  NoDup l.*1 -> StronglySorted (fun a b => ~ above a.1 b.1) l ->
  (forall k m, (k, m) ∈ l -> k <> [] /\ is_Some (sub k top) /\ path_fits s k) ->
  let '(v, s') := rootpkgs_for_each l s in
  (exists c, calls s' = calls s ++ c /\ runs (closure s) c (closure s') /\ processed l c v) /\
  offset_root s' = offset_root s /\ length (path s') = PATH_MAX /\
  take (offset_root s) (path s') = take (offset_root s) (path s) /\
  exists top', files s' = Some top' /\ wf top' /\ name top' = [] /\
    (forall k, flags_at k top' = None \/ flags_at k top' = flags_at k top) /\
    (v = 0%Z -> forall k, flags_at k top' = if under l k then None else flags_at k top).
Proof.
  revert s top. induction l as [|[h m] l IH]; intros s top Hf Hwf Htop Hlen Hd Hs Hin.
  { simpl. split; [exists []; rewrite app_nil_r; split_and!; constructor|].
    split_and!; try done. exists top. split_and!; try done. by right. }
  cbn [rootpkgs_for_each]. destruct (Hin h m ltac:(left)) as (Hne & [x Hx] & Hfit).
  pose proof (process_rootpkg_spec s top h x m Hf Hwf Htop Hx Hne Hlen Hfit) as Hp.
  destruct (process_rootpkg s h m) as [v s1].
  destruct Hp as ((b & Hb & Hrb & Ho) & (top1 & F1 & W1 & N1 & I1) & R1 & L1 & T1).
  destruct (v =? 0)%Z eqn:Ev.
  2: { apply Z.eqb_neq in Ev. split; [exists b; split_and!; [done|done|by constructor]|].
       split_and!; try done. exists top1. split_and!; try done. intros k. rewrite I1.
       destruct (bool_decide _); [by left|by right]. }
  apply Z.eqb_eq in Ev. subst v. rewrite fmap_cons in Hd. apply NoDup_cons in Hd as [Hh Hd].
  inversion_clear Hs as [|? ? Hs' Hab]. rewrite Forall_forall in Hab.
  specialize (IH s1 top1 F1 W1 N1 L1 Hd Hs').
  destruct (rootpkgs_for_each l s1) as [v s2]. destruct IH as ((c & Hc & Hrc & Hpr) & R2 & L2 & T2 & top2 & F2 & W2 & N2 & A2 & J2).
  { intros k m' Hk. destruct (Hin k m' ltac:(by right)) as (Hkn & Hks & Hkf).
    split; [done|]. split; [|unfold path_fits; by rewrite R1].
    apply flags_at_Some. rewrite I1, bool_decide_eq_false_2; [by apply flags_at_Some|].
    intros [->|Ha]%prefix_above.
    - apply Hh. by apply (list_elem_of_fmap_2 fst) in Hk.
    - by apply (Hab _ Hk). }
  split; [exists (b ++ c); split_and!; [by rewrite Hc, Hb, app_assoc|by eapply runs_app|by constructor]|].
  split_and!; [congruence|done|rewrite R1 in T2; congruence|].
  exists top2. split_and!; try done.
  { intros k. destruct (A2 k) as [E|E]; rewrite E; [by left|]. rewrite I1. destruct (bool_decide _); [by left|by right]. }
  intros Hv k. rewrite (J2 Hv), I1. simpl. destruct (bool_decide (h `prefix_of` k)); simpl; [|done].
  by destruct (under l k).
Qed.

(** ** A whole request *)

Lemma fits_paths flgs size e silent p :
  wf e ->
  (forall j, is_Some (sub j e) ->
     length p + (if silent : bool then 0 else S (length (name e))) + length (abs_path j) + 1 <= size) ->
  fits flgs size silent e p = true.
Proof.
  revert silent p. induction e as [n f v l IH] using entry_ind. intros silent p Hwf Hj.
  rewrite Forall_forall in IH. cbn [fits children]. apply andb_true_iff. split.
  - destruct silent; [done|]. simpl. apply negb_true_iff. unfold too_long.
    specialize (Hj [] ltac:(by eexists)). simpl in Hj. rewrite (bool_decide_eq_false_2 (size < _)) by (simpl; lia).
    by rewrite andb_false_r.
  - apply forallb_forall. intros c Hc%list_elem_of_In. inversion Hwf as [? ? ? ? Hd _ Hw]; subst.
    rewrite Forall_forall in Hw. apply IH; [done|auto|]. intros j Hs.
    assert (Hm : length (path_in flgs silent p (Entry n f v l)) <=
      length p + (if silent then 0 else S (length n))).
    { unfold path_in, extend. destruct silent; [lia|]. destruct (_ && _); [|lia]. cbn [name].
      rewrite !length_app. destruct (_ || _); simpl; lia. }
    specialize (Hj (name c :: j)). simpl in Hj. rewrite find_child_elem in Hj by done.
    specialize (Hj Hs). rewrite length_app in Hj. lia.
Qed.

Lemma path_text_ext flgs k e e' p :
  (forall j, j `prefix_of` k -> flags_at j e = flags_at j e') -> path_text flgs k e p = path_text flgs k e' p.
Proof.
  revert e e' p. induction k as [|n k IH]; intros e e' p Hf; [done|]. simpl.
  pose proof (Hf [n] ltac:(by exists k)) as Hn. unfold flags_at in Hn. simpl in Hn.
  assert (Hrest : forall c c', find_child n (children e) = Some c -> find_child n (children e') = Some c' ->
    forall j, j `prefix_of` k -> flags_at j c = flags_at j c').
  { intros c c' E E' j Hj. specialize (Hf (n :: j) ltac:(by apply prefix_cons)).
    unfold flags_at in Hf. simpl in Hf. by rewrite E, E' in Hf. }
  destruct (find_child n (children e)) as [c|] eqn:E, (find_child n (children e')) as [c'|] eqn:E'; try done.
  injection Hn as Hn. pose proof (find_child_name _ _ _ E) as N. pose proof (find_child_name _ _ _ E') as N'.
  rewrite (IH c c' _ (Hrest c c' eq_refl eq_refl)). f_equal. unfold extend, has_slash. by rewrite N, N', Hn.
Qed.

Lemma under_spec l k : under l k = true <-> exists r m, (r, m) ∈ l /\ r `prefix_of` k.
Proof.
  unfold under. rewrite existsb_exists. split.
  - intros ([r m] & Hin & Hp). exists r, m. apply bool_decide_eq_true in Hp. by rewrite list_elem_of_In.
  - intros (r & m & Hin & Hp). exists (r, m). rewrite <-list_elem_of_In. by rewrite bool_decide_eq_true.
Qed.

Lemma root_path_prefix : exists t, default [] (Package.package.root apkg) = root_path ++ t.
Proof.
  unfold root_path. set (r := default [] _). exists (rev (take_while is_slash (rev r))).
  rewrite <-rev_app_distr, take_drop_while. by rewrite rev_involutive.
Qed.

Lemma initial_path stack c o m t :
  length stack = PATH_MAX -> length (default [] (Package.package.root apkg)) < PATH_MAX ->
  let s := initial_state (J := J) stack c o m t in
  length (path s) = PATH_MAX /\ take (length root_path) (path s) = root_path.
Proof.
  intros Hl Hr s. destruct root_path_prefix as [u Hu]. set (r := default [] _) in *.
  assert (Hrp : length root_path <= length r) by (rewrite Hu, length_app; lia).
  assert (Hst : exists tl, store (match Package.package.root apkg with Some _ => r ++ [NUL] | None => [] end) stack
    = root_path ++ tl).
  { subst r. destruct (Package.package.root apkg) as [r|]; cbn [default from_option id] in *.
    - unfold store. rewrite take_ge by (rewrite length_app; simpl; lia). rewrite Hu.
      eexists. by rewrite <-!app_assoc.
    - symmetry in Hu. apply app_nil in Hu as [-> _]. by eexists. }
  destruct Hst as [tl Hst]. subst s. unfold initial_state. cbv zeta. fold r. rewrite Hst.
  assert (Hlt : length (root_path ++ tl) = PATH_MAX) by by rewrite <-Hst, length_store.
  split.
  - simpl. rewrite length_app, length_store, length_take, length_drop. lia.
  - rewrite take_put_path by (simpl; lia). simpl. by rewrite take_app_length.
Qed.

(** an added entry that belongs to no package *)
Definition loose (l : list (handle * manif)) (top : path_entry) (k : handle) : Prop :=
  added k top /\ forall r m, (r, m) ∈ l -> ~ r `prefix_of` k.

Definition loose_tag (top : path_entry) (k : handle) : call :=
  Call_tagfile (cstring (root_path ++ path_text FORALL_DEFAULT k top [] ++ [NUL])) Default 0.

Lemma loose_remaining l top top' k :
  (forall k, flags_at k top' = if under l k then None else flags_at k top) -> added k top' <-> loose l top k.
Proof.
  intros Hf. rewrite added_flags, Hf. unfold loose. rewrite added_flags. destruct (under l k) eqn:Eu.
  - apply under_spec in Eu as (r & m & Hin & Hp). split; [by intros (? & ? & _)|].
    intros [_ Hno]. by destruct (Hno r m).
  - split; [|by intros [? _]]. intros Ha. split; [done|]. intros r m Hin Hp.
    assert (under l k = true) by (apply under_spec; eauto). congruence.
Qed.

Lemma loose_text l top top' k :
  (forall k, flags_at k top' = if under l k then None else flags_at k top) -> loose l top k ->
  path_text FORALL_DEFAULT k top' [] = path_text FORALL_DEFAULT k top [].
Proof.
  intros Hf [_ Hno]. apply path_text_ext. intros j Hj. rewrite Hf.
  destruct (under l j) eqn:Eu; [|done]. apply under_spec in Eu as (r & m & Hin & Hp).
  destruct (Hno r m Hin). by etrans.
Qed.

(** every path of the tree holds in the buffer after the root *)
Definition paths_fit (top : path_entry) : Prop :=
  forall k, is_Some (sub k top) -> length root_path + length (abs_path k) + 2 <= PATH_MAX.

(** what follows the packages at an installation *)
Definition rest_calls (l : list (handle * manif)) (top : path_entry) (cs : list call) (v : Z) : Prop :=
  ((forall k, ~ loose l top k) -> v = 0%Z /\ cs = []) /\
  ((exists k, loose l top k) ->
   exists b tags st, cs = Call_begin None Install b :: tags ++ [Call_end st v] /\
     Forall default_tag tags /\ ((b < 0)%Z -> tags = [] /\ st = b) /\
     ((0 <= b)%Z -> st = 0%Z -> exists ks, NoDup ks /\ (forall k, k ∈ ks <-> loose l top k) /\
        tags = loose_tag top <$> ks)).

(** the transaction that tags the remaining files, if any *)
Definition default_transaction (cs : list call) (v : Z) : Prop :=
  cs = [] /\ v = 0%Z \/
  exists b tags st, cs = Call_begin None Install b :: tags ++ [Call_end st v] /\ Forall default_tag tags /\
    ((b < 0)%Z -> tags = [] /\ st = b) /\ ((0 <= b)%Z -> st = 0%Z -> Forall accepted tags).

Lemma remaining_fit s top top' :
  wf top' -> name top' = [] -> offset_root s = length root_path -> paths_fit top ->
  (forall k, flags_at k top' = None \/ flags_at k top' = flags_at k top) ->
  fits FORALL_DEFAULT (PATH_MAX - offset_root s) false top' [] = true.
Proof.
  intros Hwf Hn Hoff Hfit Hfl. apply fits_paths; [done|]. intros j Hj. rewrite Hn, Hoff. simpl.
  apply flags_at_Some in Hj. destruct (Hfl j) as [E|E]; rewrite E in Hj; [by destruct Hj|].
  apply flags_at_Some, Hfit in Hj. lia.
Qed.

Lemma default_any s top top' :
  mode = Install -> wf top' -> name top' = [] -> length (path s) = PATH_MAX ->
  offset_root s = length root_path -> length root_path < PATH_MAX -> paths_fit top ->
  (forall k, flags_at k top' = None \/ flags_at k top' = flags_at k top) ->
  let '(v, s') := process_default_tree s top' in
  exists cs, calls s' = calls s ++ cs /\ runs (closure s) cs (closure s') /\ default_transaction cs v.
Proof.
  intros Hm Hwf Hn Hlen Hoff Hr Hfit Hfl.
  pose proof (default_tree_spec s top' Hm Hwf Hn Hlen ltac:(lia) (remaining_fit s top top' Hwf Hn Hoff Hfit Hfl)) as Hd.
  destruct (process_default_tree s top') as [v s']. destruct Hd as [D1 D2].
  pose proof (fun k => visited_added FORALL_DETECT top' k Hwf eq_refl eq_refl) as Hdet.
  destruct (visits FORALL_DETECT false top' [] []).*1 as [|k ks].
  - destruct D1 as [-> ->]; [intros k Hk; apply Hdet in Hk; by apply elem_of_nil in Hk|].
    exists []. rewrite app_nil_r. split; [done|]. split; [constructor|by left].
  - destruct D2 as (b & tags & st & Hc & Hrr & Hft & Hb & Hok); [exists k; apply Hdet; left|].
    eexists. split; [exact Hc|]. split; [exact Hrr|]. right. exists b, tags, st. split_and!; try done.
    intros Hb0 Hst. destruct (Hok Hb0 Hst) as (l & _ & _ & ->). apply Forall_fmap.
    apply Forall_forall. intros j _. by unfold accepted.
Qed.

Lemma default_rest s l top top' :
  mode = Install -> files s = Some top' -> wf top' -> name top' = [] -> length (path s) = PATH_MAX ->
  offset_root s = length root_path -> take (length root_path) (path s) = root_path ->
  length root_path < PATH_MAX -> paths_fit top ->
  (forall k, flags_at k top' = if under l k then None else flags_at k top) ->
  let '(v, s') := process_default_tree s top' in
  exists cs, calls s' = calls s ++ cs /\ runs (closure s) cs (closure s') /\ rest_calls l top cs v.
Proof.
  intros Hm Hf Hwf Hn Hlen Hoff Hpath Hr Hfit Hfl.
  pose proof (default_tree_spec s top' Hm Hwf Hn Hlen ltac:(lia)) as Hd.
  destruct (process_default_tree s top') as [v s'].
  destruct Hd as [D1 D2].
  { apply (remaining_fit s top); try done. intros k. rewrite Hfl. destruct (under l k); [by left|by right]. }
  pose proof (fun k => loose_remaining l top top' k Hfl) as Hl.
  assert (Hex : (exists k, loose l top k) \/ forall k, ~ loose l top k).
  { destruct (visits FORALL_DETECT false top' [] []).*1 as [|k ks] eqn:E.
    - right. intros k Hk. apply Hl in Hk. apply (visited_added FORALL_DETECT) in Hk; [|done..].
      rewrite E in Hk. by apply elem_of_nil in Hk.
    - left. exists k. apply Hl. apply (visited_added FORALL_DETECT); [done..|]. rewrite E. left. }
  destruct Hex as [[k0 Hk0]|Hno].
  - destruct D2 as (b & tags & st & Hc & Hr2 & Hft & Hb & Hok); [exists k0; by apply Hl|].
    eexists. split; [exact Hc|]. split; [exact Hr2|]. split; [intros Hno; by destruct (Hno k0)|]. intros _.
    exists b, tags, st. split_and!; try done. intros Hb0 Hst.
    destruct (Hok Hb0 Hst) as (ks & Hnd & Hks & ->). exists ks. split_and!; [done| |].
    + intros k. by rewrite Hks, Hl.
    + apply list_fmap_ext. intros i k Hi. unfold loose_tag, root_text. rewrite Hoff, Hpath.
      rewrite (loose_text l top top'); [done|done|]. apply Hl, Hks. by eapply list_elem_of_lookup_2.
  - destruct D1 as [-> ->]; [intros k Hk; by apply (Hno k), Hl|].
    exists []. rewrite app_nil_r. split; [done|]. split; [constructor|]. split; [done|]. intros [k Hk]. by destruct (Hno k).
Qed.

(** ** What the security manager is told *)

(** a call without its status *)
Definition told (c : call) : call :=
  match c with
  | Call_begin i m _ => Call_begin i m 0
  | Call_tagfile p t _ => Call_tagfile p t 0
  | Call_setperm p _ => Call_setperm p 0
  | Call_setplug e i d _ => Call_setplug e i d 0
  | Call_setunits u _ => Call_setunits u 0
  | Call_end st _ => Call_end st 0
  end.

Definition shown_type (t : path_type) : path_type := if bool_decide (t = Unset) then Conf else t.

Lemma security_run flgs offset l s s' v :
  has_flag flgs PATH_ENTRY_FORALL_NO_PATH = false ->
  (forall k p, (k, p) ∈ l -> offset + length p < length (path s)) ->
  run (in_buffer offset flgs (packdir s) setup_security_file_cb) l s = (s', v) ->
  told <$> calls s' = (told <$> calls s) ++
    ((fun kp => Call_tagfile (cstring (take offset (path s) ++ kp.2 ++ [NUL]))
                  (shown_type (get_entry_type s (packdir s ++ kp.1))) 0) <$> l) /\
  permset s' = permset s.
Proof.
  intros Hnp. revert s. induction l as [|[k p] l IH]; intros s Hlen; cbn [run].
  { intros [= <- _]. by rewrite app_nil_r. }
  unfold in_buffer at 1. rewrite Hnp. unfold setup_security_file_cb at 1, call_tagfile.
  specialize (Hlen k p ltac:(left)) as Hp.
  set (sp := put_path s offset (p ++ [NUL])). change (get_entry_type sp) with (get_entry_type s).
  fold (shown_type (get_entry_type s (packdir s ++ k))).
  assert (Ht : cstring (path sp) = cstring (take offset (path s) ++ p ++ [NUL])) by (by apply cstring_put).
  rewrite Ht. destruct (tagfile opers _ _ _) as [c w]. cbn [Z.eqb].
  set (x := Call_tagfile _ _ w). set (s1 := put_state_rc (called sp c x) w).
  assert (Hs1 : calls s1 = calls s ++ [x] /\ permset s1 = permset s /\ packdir s1 = packdir s /\
    path s1 = path sp /\ get_entry_type s1 = get_entry_type s).
  { subst s1. unfold put_state_rc. by destruct (_ && _). }
  destruct Hs1 as (C1 & P1 & D1 & Q1 & T1). intros Hrun. rewrite <-D1 in Hrun.
  assert (Hl1 : length (path s1) = length (path s)).
  { rewrite Q1. simpl. rewrite length_app, length_store, length_take, length_drop. lia. }
  assert (Hpre : take offset (path s1) = take offset (path s)) by (rewrite Q1; apply take_put_path; lia).
  apply IH in Hrun as [H1 H2].
  2: { intros k' p' Hin. rewrite Hl1. apply (Hlen k' p'). by right. }
  rewrite H2, P1. split; [|done]. rewrite H1, C1, Hpre, D1, T1, fmap_app, <-app_assoc. done.
Qed.

Lemma permit_told s perm s' v :
  permit s perm = (s', v) ->
  told <$> calls s' = (told <$> calls s) ++ [Call_setperm perm 0] /\ manifest s' = manifest s.
Proof.
  unfold permit. destruct (setperm opers (closure s) perm) as [c w]. intros [= <- <-].
  split; [|done]. simpl. by rewrite fmap_app.
Qed.

Lemma permit_loop_told fuel cur s l v s' :
  permset.enum_loop fuel cur permset.Select_Requested_And_Granted = Some l ->
  permit_loop fuel cur s = (v, s') -> (0 <= v)%Z ->
  told <$> calls s' = (told <$> calls s) ++ ((fun n => Call_setperm (default [] n) 0) <$> l).
Proof.
  revert cur s l. induction fuel as [|fuel IH]; intros [[] ps] s l; simpl;
    try done; try (intros [= <-] [= <- <-] _; by rewrite app_nil_r).
  destruct (permset.enum_loop fuel _ _) as [l'|] eqn:El; [|done]. intros [= <-].
  destruct (deref s (permset.permset_current ps)) as [perm s1] eqn:Ed.
  assert (Hd : perm = default [] (permset.permset_current ps) /\ calls s1 = calls s).
  { unfold deref in Ed. by destruct (permset.permset_current ps); injection Ed as <- <-. }
  destruct Hd as [-> Hc1]. destruct (permit s1 _) as [s2 w] eqn:Ep. apply permit_told in Ep as [Hc2 _].
  destruct (w <? 0)%Z eqn:Ew; [intros [= <- _]; lia|]. intros Hrun Hv.
  rewrite (IH _ _ _ El Hrun Hv), Hc2, Hc1, <-app_assoc. done.
Qed.

Lemma permit_defaults_told l s v s' :
  permit_defaults l s = (v, s') -> (0 <= v)%Z ->
  told <$> calls s' = (told <$> calls s) ++ ((fun n => Call_setperm n 0) <$> l).
Proof.
  revert s. induction l as [|perm l IH]; intros s; simpl; [intros [= _ <-] _; by rewrite app_nil_r|].
  destruct (permit s perm) as [s1 w] eqn:Ep. apply permit_told in Ep as [Hc _].
  destruct (w <? 0)%Z eqn:Ew; [intros [= <- _]; lia|]. intros Hrun Hv.
  rewrite (IH _ Hrun Hv), Hc, <-app_assoc. done.
Qed.

Definition is_setplug (c : call) : Prop := exists e i d rc, c = Call_setplug e i d rc.

Lemma for_each_plug_calls s :
  exists l, calls (for_each_plug set_plug_cb s) = calls s ++ l /\ Forall is_setplug l.
Proof.
  unfold for_each_plug, for_each_of_manifest, for_each_of_array.
  destruct (_ ≫= _) as [item|]; [|exists []; by rewrite app_nil_r].
  generalize (array_items item). intros items. revert s. induction items as [|x items IH]; intros s; simpl.
  { exists []. by rewrite app_nil_r. }
  assert (Hx : exists l, calls (for_each_plug_cb set_plug_cb s x) = calls s ++ l /\ Forall is_setplug l).
  { assert (Hp : forall s1 v, calls (put_state_rc s1 v) = calls (s1 : state))
      by (intros; unfold put_state_rc; by destruct (_ && _)).
    assert (Hd : forall s1 p, calls (deref s1 p).2 = calls (s1 : state)) by (by intros ? []).
    assert (Hnone : forall s1 v, calls s1 = calls s ->
      exists l, calls (put_state_rc s1 v) = calls s ++ l /\ Forall is_setplug l).
    { intros s1 v E. exists []. rewrite Hp, E, app_nil_r. done. }
    unfold for_each_plug_cb. destruct (object_get_ex x MANIFEST_NAME) as [j|]; [|by apply Hnone].
    pose proof (Hd s (get_string j)) as E1. destruct (deref s _) as [n s1]. simpl in E1.
    destruct (object_get_ex x MANIFEST_VALUE) as [j'|]; [|by apply Hnone].
    pose proof (Hd s1 (get_string j')) as E2. destruct (deref s1 _) as [i s2]. simpl in E2.
    destruct (pack_get _ _ _); [|apply Hnone; congruence]. unfold set_plug_cb, call_setplug.
    destruct (setplug _ _ _ _ _) as [c w]. rewrite Hp. simpl. eexists. split; [by rewrite E2, E1|].
    repeat constructor. by eexists _, _, _, _. }
  destruct Hx as (l1 & E1 & F1). destruct (IH (for_each_plug_cb set_plug_cb s x)) as (l2 & E2 & F2).
  exists (l1 ++ l2). rewrite E2, E1, app_assoc. split; [done|]. by apply Forall_app.
Qed.

(** the permissions requested and granted, in order *)
Definition effective (ps : permset.permset_s) : list bytes :=
  permset.name <$> filter (fun p => permset.matches p permset.Select_Requested_And_Granted = true)
                     (permset.permissions ps).

(** the calls of the processing of a request, and what they make of the
    closure of the back end *)
Lemma afmpkg_process_calls stack c o mg t v s' :
  wf (Package.package.files apkg) -> name (Package.package.files apkg) = [] -> length stack = PATH_MAX ->
  length (default [] (Package.package.root apkg)) < PATH_MAX -> paths_fit (Package.package.files apkg) ->
  package_manif (Package.package.files apkg) = None ->
  afmpkg_process stack c o mg t = (v, s') ->
  v = (- ENOMEM)%Z /\ calls s' = [] /\ closure s' = c /\ false ∈ o \/
  exists l cs v1,
    NoDup l.*1 /\ StronglySorted (fun a b => ~ above a.1 b.1) l /\
    (forall k m, (k, m) ∈ l <-> exists e, sub k (Package.package.files apkg) = Some e /\ package_manif e = Some m) /\
    processed l cs v1 /\ exists rest, calls s' = cs ++ rest /\ runs c (calls s') (closure s') /\
      ((v1 < 0)%Z -> v = v1 /\ rest = []) /\
      ((0 <= v1)%Z -> mode <> Install -> v = 0%Z /\ rest = []) /\
      ((0 <= v1)%Z -> mode = Install -> default_transaction rest v) /\
      (v1 = 0%Z -> mode = Install -> rest_calls l (Package.package.files apkg) rest v).
Proof.
  intros Hwf Hn Hst Hr Hfit Hnop. unfold afmpkg_process. rewrite bool_decide_eq_false_2 by lia.
  destruct (initial_path stack c o mg t Hst Hr) as [Hlen Hpath]. set (s0 := initial_state stack c o mg t) in *.
  pose proof (detect_roots_spec (Package.package.files apkg) o Hwf) as Hd.
  destruct (detect_roots (Package.package.files apkg) o) as [[r o'] vd].
  destruct Hd as [(-> & Hnd & _ & Hin & Hs)|[-> Ho]].
  2: { change (- ENOMEM >=? 0)%Z with false. cbn. intros [= <- <-]. by left. }
  change (0 >=? 0)%Z with true. cbv iota zeta. intros Hrun. right.
  pose proof (rootpkgs_for_each_spec (roots r) (set_mem s0 o') (Package.package.files apkg) eq_refl Hwf Hn Hlen Hnd Hs) as Hp.
  destruct (rootpkgs_for_each (roots r) (set_mem s0 o')) as [v1 s1]. cbv iota in Hrun.
  change (offset_root (set_mem s0 o')) with (length root_path) in Hp.
  change (path (set_mem s0 o')) with (path s0) in Hp. rewrite Hpath in Hp.
  assert (Hrl : length root_path < PATH_MAX).
  { destruct root_path_prefix as [u Hu]. rewrite Hu, length_app in Hr. lia. }
  destruct Hp as ((cs & Hc & Hrun1 & Hpr) & Hoff1 & Hlen1 & Hpath1 & top' & F1 & W1 & N1 & A1 & I1).
  { intros k m Hk. apply Hin in Hk as (e & He & Hm). split; [|split; [by eexists|]].
    - intros ->. injection He as <-. congruence.
    - assert (Hks : is_Some (sub k (Package.package.files apkg))) by by eexists. apply Hfit in Hks.
      unfold path_fits. change (offset_root (set_mem s0 o')) with (length root_path). lia. }
  change (calls (set_mem s0 o')) with (@nil call) in Hc. rewrite app_nil_l in Hc.
  change (closure (set_mem s0 o')) with c in Hrun1. rewrite F1 in Hrun.
  exists (roots r), cs, v1. do 4 (split; [done|]). destruct (v1 >=? 0)%Z eqn:Ev.
  2: { injection Hrun as <- <-. exists []. rewrite app_nil_r, Hc. split_and!; try done; intros; lia. }
  destruct (decide (mode = Install)) as [Hm|Hm].
  - pose proof (default_any s1 (Package.package.files apkg) top' Hm W1 N1 Hlen1 Hoff1 Hrl Hfit A1) as Ha.
    pose proof (fun I => default_rest s1 (roots r) (Package.package.files apkg) top' Hm F1 W1 N1 Hlen1 Hoff1
      Hpath1 Hrl Hfit I) as Hd.
    rewrite Hrun in Ha, Hd. destruct Ha as (rest & Ha & Hra & Hdt). exists rest. rewrite Ha, Hc.
    split_and!; [done|by eapply runs_app|intros; lia|done|done|]. intros Hv _.
    destruct (Hd (I1 Hv)) as (rest' & Hd' & _ & Hrest). rewrite Ha in Hd'. by apply app_inv_head in Hd' as ->.
  - unfold process_default_tree in Hrun. rewrite bool_decide_eq_false_2 in Hrun by done.
    injection Hrun as <- <-. exists []. rewrite app_nil_r, Hc. split_and!; try done; intros; lia.
Qed.

(** ** Properties *)

(** C16: The search of packages, when memory does not lack, finds exactly
    the directories that hold a manifest, each one once, [.rpconfig/manifest.yml]
    prevailing on [config.xml], and embedded packages before the embedding
    ones; the array has room for them. *)
Theorem detect_roots_finds top o :
  wf top ->
  let '(r, o', v) := detect_roots top o in
  v = 0%Z /\ NoDup (roots r).*1 /\ length (roots r) <= alloc r /\
    (forall k m, (k, m) ∈ roots r <->
       exists e, sub k top = Some e /\
         match m with
         | name_manifest => is_Some (sub [B ".rpconfig"; B "manifest.yml"] e)
         | name_config => is_Some (sub [B "config.xml"] e) /\ sub [B ".rpconfig"; B "manifest.yml"] e = None
         end) /\
    StronglySorted (fun a b => ~ above a.1 b.1) (roots r) \/
  v = (- ENOMEM)%Z /\ false ∈ o.
Proof.
  intros Hwf. pose proof (detect_roots_spec top o Hwf) as Hd.
  destruct (detect_roots top o) as [[r o'] v]. destruct Hd as [(Hv & Hn & Ha & Hr & Hs)|Hd]; [left|by right].
  split_and!; try done. intros k m. rewrite Hr. by setoid_rewrite package_manif_spec.
Qed.



End Run.

(** ** Witnesses *)

Definition sample_files : path_entry :=
  Eval vm_compute in tree_of [B "/app/.rpconfig/manifest.yml"; B "/app/bin/tool"; B "/app/share/public/doc"; B "/etc/motd"].

Definition sample_opers : operations unit :=
  Package.package.mk_operations unit (fun c _ _ => (c, 0%Z)) (fun c _ _ => (c, 0%Z)) (fun c _ => (c, 0%Z))
    (fun c _ _ _ => (c, 0%Z)) (fun c _ => (c, 0%Z)) (fun c st => (c, st)).

#[local] Instance sample_env : Env json unit :=
  mk_env json unit (Package.package.mk_afmpkg None sample_files None None None) sample_opers Install
    sample_stat (fun _ => 0%Z) (B "/usr/libexec/app") (B "/usr/share/icons")
    (fun _ _ => (0%Z, Some sample_manifest)) (B "/units") (fun _ => inl ENOENT) (fun _ => inr [])
    (B "/template") (fun _ _ => (0%Z, [])).

Lemma sample_files_ok :
  let top := Package.package.files (apkg (J := json) (C := unit)) in
  wf top /\ name top = [] /\ package_manif top = None.
Proof. split; [by apply wfb_wf|]. split; vm_compute; reflexivity. Qed.

Lemma detect_roots_finds_witness :
  let '(r, o', v) := detect_roots sample_files [] in
  roots r = [([B "app"], name_manifest)] /\ v = 0%Z /\ NoDup (roots r).*1.
Proof.
  pose proof (detect_roots_finds sample_files [] (proj1 sample_files_ok)) as Hd.
  assert (Hr : roots (detect_roots sample_files []).1.1 = [([B "app"], name_manifest)])
    by (vm_compute; reflexivity).
  destruct (detect_roots sample_files []) as [[r o'] v]. cbn [fst] in Hr.
  destruct Hd as [(Hv & Hn & _)|[_ Hno]]; [done|by apply elem_of_nil in Hno].
Defined.

Fixpoint all_handles (e : path_entry) : list handle :=
  let 'Entry _ _ _ l := e in [] :: flat_map (fun c => cons (name c) <$> all_handles c) l.

Lemma all_handles_sub k e : is_Some (sub k e) -> k ∈ all_handles e.
Proof.
  revert e. induction k as [|n k IH]; intros [nm f v l] Hs; [left|]. right.
  simpl in Hs. destruct (find_child n l) as [c|] eqn:E; [|by destruct Hs].
  apply elem_flat_map. exists c. split; [by eapply find_child_in|]. apply list_elem_of_fmap.
  exists k. split; [|auto]. f_equal. symmetry. by eapply find_child_name.
Qed.

Lemma sample_paths_fit : paths_fit sample_files.
Proof.
  intros k Hk. apply all_handles_sub in Hk.
  assert (Hall : forallb (fun k => length (root_path (J := json) (C := unit)) + length (abs_path k) + 2 <=? PATH_MAX)
                   (all_handles sample_files) = true) by (vm_compute; reflexivity).
  rewrite forallb_forall in Hall. apply Nat.leb_le, Hall. by apply list_elem_of_In.
Qed.

Definition sample_run : Z * state json unit :=
  afmpkg_process (repeat NUL PATH_MAX) () [] (afid.mk_manager false []) None.


Definition sample_perms : permset.permset_s :=
  permset.mk_permset [permset.mk_permission (B "urn:a") true true; permset.mk_permission (B "urn:b") false true]
    2 8.

Definition sample_secure : state json unit := set_permset sample_state (Some sample_perms).

Lemma sample_secure_good : good sample_secure.
Proof. exact (keeps_good _ _ (keeps_permset sample_state (Some sample_perms)) sample_good). Qed.


End afmpkg_run.
