(* ===== verification/AfmpkgStd.v ===== *)
(** * The standard back end: [src/src/afmpkg/afmpkg-std.c]

    The back end that tells the security manager what the processing of the
    packages decides, and that installs the units. Its composition with the
    processing of [Afmpkg] gives the installation of a request. *)
From Stdlib Require Import Sorted.
From S2P Require Import Prelude CString Permset PathEntry PathVars PathRemove PathType UnitFs Afid UnitText UnitOper.
From S2P Require Import Package Jsonc SecLsm PkgFiles PkgTypes Afmpkg AfmpkgRun.

Module afmpkg_std.
Import sec_lsm afmpkg afmpkg_run.
Import path_vars.
Import package(afmpkg_mode(..), operations, begin_, tagfile, setperm, setplug, setunits, end_).

Section Std.
Context {M Hd : Type} `{Slm M Hd}.
Context (units_root : bytes) (resolves : gmap bytes unit_oper.node -> bytes -> bytes -> bool)
  (put_fails : bytes -> option (option bytes)) (unlink_fails symlink_fails : bytes -> bool).

(** [state_t], with the state of the security manager and the files *)
Record std_state := mk_std {
  std_mode : afmpkg_mode;
  slmhndl : option Hd;
  manager : M;
  disk : unit_oper.world
}.

Definition set_mode (s : std_state) v := mk_std v (slmhndl s) (manager s) (disk s).
Definition set_slmhndl (s : std_state) v := mk_std (std_mode s) v (manager s) (disk s).
Definition set_manager (s : std_state) v := mk_std (std_mode s) (slmhndl s) v (disk s).
Definition set_disk (s : std_state) v := mk_std (std_mode s) (slmhndl s) (manager s) v.

(** ** Units *)

(** [quiet] only changes the log *)
Definition do_uninstall_units (units : list unit_fs.unitdesc) (quiet : bool) (w : unit_oper.world)
  : Z * unit_oper.world :=
  unit_oper.uninstall_loop units_root unlink_fails units 0 w.

Definition uninstall_units (units : list unit_fs.unitdesc) (w : unit_oper.world) : Z * unit_oper.world :=
  do_uninstall_units units false w.

Definition install_units (units : list unit_fs.unitdesc) (w : unit_oper.world) : Z * unit_oper.world :=
  let rc := unit_oper.check_loop units_root resolves units w in
  if (rc <? 0)%Z then (rc, w)
  else
    let '(rc, w) := unit_oper.install_loop units_root put_fails unlink_fails symlink_fails units w in
    if (rc <? 0)%Z then (rc, (do_uninstall_units units true w).2) else (0%Z, w).

(** ** Operations *)

Definition begin (s : std_state) (appid : option bytes) (mode : afmpkg_mode) : std_state * Z :=
  let '(m, h, rc) := sec_lsm_manager_create (manager s) in
  let s := set_manager (match h with Some _ => set_slmhndl s h | None => s end) m in
  let '(s, rc) :=
    if (rc <? 0)%Z then (s, rc)
    else
      match appid with
      | None => (s, rc)
      | Some id =>
          let '(m, rc) := sec_lsm_manager_set_id (manager s) (slmhndl s) id in
          let s := set_manager s m in
          if (rc <? 0)%Z
          then (set_slmhndl (set_manager s (sec_lsm_manager_destroy (manager s) (slmhndl s))) None, rc)
          else (s, rc)
      end in
  (set_mode s (if (rc >=? 0)%Z then mode else Nop), rc).

Definition tagfile (s : std_state) (path : bytes) (type : path_type) : std_state * Z :=
  if (value type <=? value Unset)%Z || (value type >=? count_)%Z then (s, (- EINVAL)%Z)
  else
    let type := if bool_decide (std_mode s = Install) then type else Id in
    let '(m, rc) := sec_lsm_manager_add_path (manager s) (slmhndl s) path (path_type_for_slm (value type)) in
    (set_manager s m, rc).

Definition setperm (s : std_state) (permission : bytes) : std_state * Z :=
  let '(m, rc) := sec_lsm_manager_add_permission (manager s) (slmhndl s) permission in
  (set_manager s m, rc).

Definition setplug (s : std_state) (exportdir importid importdir : bytes) : std_state * Z :=
  let '(m, rc) := sec_lsm_manager_add_plug (manager s) (slmhndl s) exportdir importid importdir in
  (set_manager s m, rc).

Definition setunits (s : std_state) (units : list unit_fs.unitdesc) : std_state * Z :=
  let '(rc, w) :=
    if bool_decide (std_mode s = Install) then install_units units (disk s) else uninstall_units units (disk s) in
  (set_disk s w, rc).

Definition end_ (s : std_state) (status : Z) : std_state * Z :=
  match slmhndl s with
  | None => (s, status)
  | Some _ =>
      let '(m, rc) :=
        if (status =? 0)%Z then
          if bool_decide (std_mode s = Install) then sec_lsm_manager_install (manager s) (slmhndl s)
          else sec_lsm_manager_uninstall (manager s) (slmhndl s)
        else (manager s, status) in
      let s := set_manager s m in
      (set_slmhndl (set_manager s (sec_lsm_manager_destroy (manager s) (slmhndl s))) None, rc)
  end.

Definition std_opers : operations std_state :=
  package.mk_operations std_state begin tagfile setperm setplug setunits end_.

End Std.
#[global] Arguments std_state : clear implicits.

(** ** What the security manager commits *)

(** the name of a type for the security manager *)
Definition slm_name (t : path_type) : bytes := default [] (path_type_for_slm (value t)).

(** what a call adds to the session; out of an installation all files get
    the type [Id] *)
Definition item_of (install : bool) (x : call) : list item :=
  match x with
  | Call_tagfile p t _ => [Path p (slm_name (if install then t else Id))]
  | Call_setperm p _ => [Permission p]
  | Call_setplug e i d _ => [Plug_item e i d]
  | _ => []
  end.

(** the sessions that a list of calls commits: one per transaction that ends
    with the status 0; [items] are those of the current one *)
Fixpoint commits (install : bool) (id : option bytes) (items : list item) (l : list call) : list session :=
  match l with
  | [] => []
  | Call_begin id _ _ :: l => commits install id [] l
  | Call_end st _ :: l => (if (st =? 0)%Z then [mk_session id items] else []) ++ commits install None [] l
  | x :: l => commits install id (items ++ item_of install x) l
  end.

Lemma commits_inner install id items mid l :
  Forall inner mid -> commits install id items (mid ++ l) =
    commits install id (items ++ flat_map (item_of install) mid) l.
Proof.
  intros Hf. revert items. induction Hf as [|x mid Hx Hf IH]; intros items; cbn [app flat_map].
  { by rewrite app_nil_r. }
  by destruct x; cbn [inner] in Hx; try done; cbn [commits]; rewrite IH, <-app_assoc.
Qed.

Lemma commits_transaction install id items i m b mid st e l :
  Forall inner mid -> commits install id items ((Call_begin i m b :: mid ++ [Call_end st e]) ++ l) =
    (if (st =? 0)%Z then [mk_session i (flat_map (item_of install) mid)] else []) ++ commits install None [] l.
Proof.
  intros Hf. cbn [app commits]. rewrite <-app_assoc, commits_inner by done. done.
Qed.

(** the commits that the manager was asked for succeeded *)
Definition committed_ok (l : list call) : Prop :=
  Forall (fun x => match x with Call_end st e => st = 0%Z -> (0 <= e)%Z | _ => True end) l.

Section Spec.
Context {M Hd P : Type} `{SlmSpec M Hd P}.
Context (units_root : bytes) (resolves : gmap bytes unit_oper.node -> bytes -> bytes -> bool)
  (put_fails : bytes -> option (option bytes)) (unlink_fails symlink_fails : bytes -> bool).
Abbreviation opers := (std_opers (M := M) (Hd := Hd) units_root resolves put_fails unlink_fails symlink_fails).
Implicit Types s : std_state M Hd.

#[local] Instance std_steps : Steps (std_state M Hd) := ops_steps opers.

Definition installing s : bool := bool_decide (std_mode s = Install).

Definition pol s : P := policy (manager s).

Lemma slm_name_some t : t <> Unset -> path_type_for_slm (value t) = Some (slm_name t).
Proof. by destruct t. Qed.

(** a call within a transaction *)
Lemma inner_spec s x s' h :
  step s x s' -> inner x -> slmhndl s = Some h ->
  slmhndl s' = Some h /\ std_mode s' = std_mode s /\ pol s' = pol s /\
  (accepted x -> content (manager s') h =
     mk_session (session_id (content (manager s) h))
       (session_items (content (manager s) h) ++ item_of (installing s) x)).
Proof.
  intros Hs Hx Hh.
  assert (Hsame : accepted x -> forall m, content m h = content (manager s) h -> content m h =
    mk_session (session_id (content (manager s) h)) (session_items (content (manager s) h) ++ [])).
  { intros _ m ->. rewrite app_nil_r. by destruct (content (manager s) h). }
  destruct x as [i m v|p t v|p v|ex i d v|us v|st v]; cbn [inner] in Hx; try done;
    cbn in Hs; unfold accepted; cbn [status item_of].
  - unfold tagfile in Hs. destruct (_ || _) eqn:Eu in Hs; [by injection Hs as <- <-|].
    assert (Hu : t <> Unset) by (by intros ->). set (t' := if bool_decide _ then t else Id) in *.
    assert (Ht' : t' <> Unset) by (subst t'; by destruct (bool_decide _)).
    rewrite (slm_name_some _ Ht'), Hh in Hs. pose proof (add_path_spec (manager s) h p (slm_name t')) as Ha.
    destruct (sec_lsm_manager_add_path _ _ _ _) as [m rc]. injection Hs as <- <-. by destruct Ha.
  - unfold setperm in Hs. rewrite Hh in Hs. pose proof (add_permission_spec (manager s) h p) as Ha.
    destruct (sec_lsm_manager_add_permission _ _ _) as [m rc]. injection Hs as <- <-. by destruct Ha.
  - unfold setplug in Hs. rewrite Hh in Hs. pose proof (add_plug_spec (manager s) h ex i d) as Ha.
    destruct (sec_lsm_manager_add_plug _ _ _ _ _) as [m rc]. injection Hs as <- <-. by destruct Ha.
  - unfold setunits in Hs. destruct (if bool_decide _ then _ else _) as [rc w]. injection Hs as <- <-.
    split_and!; try done. intros Ha. by apply Hsame.
Qed.

Lemma inner_runs s mid s' h :
  runs s mid s' -> Forall inner mid -> slmhndl s = Some h ->
  slmhndl s' = Some h /\ std_mode s' = std_mode s /\ pol s' = pol s /\
  (Forall accepted mid -> content (manager s') h =
     mk_session (session_id (content (manager s) h))
       (session_items (content (manager s) h) ++ flat_map (item_of (installing s)) mid)).
Proof.
  induction 1 as [s|s x s1 l s2 Hs Hr IH]; intros Hf Hh.
  { split_and!; try done. intros _. simpl. rewrite app_nil_r. by destruct (content _ _). }
  apply Forall_cons in Hf as [Hx Hf]. destruct (inner_spec _ _ _ _ Hs Hx Hh) as (H1 & M1 & P1 & C1).
  destruct (IH Hf H1) as (H2 & M2 & P2 & C2). split_and!; try done; [congruence|congruence|].
  intros [Ax Al]%Forall_cons. rewrite (C2 Al), (C1 Ax). cbn [session_id session_items flat_map].
  unfold installing. by rewrite M1, <-app_assoc.
Qed.

Lemma begin_std s i m s' b :
  slmhndl s = None -> begin s i m = (s', b) ->
  pol s' = pol s /\
  if (b <? 0)%Z then slmhndl s' = None
  else std_mode s' = m /\ exists h, slmhndl s' = Some h /\ content (manager s') h = mk_session i [].
Proof.
  intros Hn. unfold begin. pose proof (create_spec (manager s)) as Hc.
  destruct (sec_lsm_manager_create (manager s)) as [[m1 h] rc]. destruct Hc as [Hp Hc].
  assert (Hge : forall z, (z >=? 0)%Z = negb (z <? 0)%Z) by lia.
  destruct (rc <? 0)%Z eqn:Er; cbv iota beta zeta.
  { subst h. rewrite Hge, Er. intros [= <- <-]. by rewrite Er. }
  destruct Hc as (x & -> & Hx). destruct i as [id|]; cbv iota beta zeta.
  2: { rewrite Hge, Er. intros [= <- <-]. rewrite Er. cbn. split; [done|]. split; [done|]. by exists x. }
  cbn [manager set_manager slmhndl set_slmhndl].
  pose proof (set_id_spec m1 x id) as Hi. destruct (sec_lsm_manager_set_id m1 (Some x) id) as [m2 rc2].
  destruct Hi as [Hp2 Hi]. destruct (rc2 <? 0)%Z eqn:Er2; cbv iota beta zeta; rewrite Hge, Er2; intros [= <- <-]; rewrite Er2; cbn.
  - split; [|done]. unfold pol in *. cbn. rewrite destroy_spec. congruence.
  - split; [unfold pol in *; cbn; congruence|]. split; [done|]. exists x. split; [done|].
    rewrite Hi by lia. by rewrite Hx.
Qed.

Lemma end_std s st s' e h :
  slmhndl s = Some h -> end_ s st = (s', e) ->
  slmhndl s' = None /\ (st <> 0%Z -> e = st /\ pol s' = pol s) /\
  (st = 0%Z -> (0 <= e)%Z -> pol s' = commit (installing s) (content (manager s) h) (pol s)).
Proof.
  intros Hh. unfold end_. rewrite Hh. pose proof (install_spec (manager s) h) as Hi.
  pose proof (uninstall_spec (manager s) h) as Hu. unfold installing.
  destruct (st =? 0)%Z eqn:Est.
  - apply Z.eqb_eq in Est. subst st.
    destruct (bool_decide _); [destruct (sec_lsm_manager_install _ _) as [m rc]|
      destruct (sec_lsm_manager_uninstall _ _) as [m rc]]; cbn; intros [= <- <-]; cbn;
      (split; [done|]; split; [done|]; intros _ He; unfold pol; cbn; rewrite Hh, destroy_spec; auto).
  - intros [= <- <-]. cbn. split; [done|]. split; [|intros; lia]. intros _. split; [done|].
    unfold pol. cbn. by rewrite Hh, destroy_spec.
Qed.

(** a transaction *)
Lemma transaction_std s s' i m b mid st e :
  slmhndl s = None -> Forall inner mid -> ((b < 0)%Z -> mid = [] /\ st = b) ->
  runs s (Call_begin i m b :: mid ++ [Call_end st e]) s' ->
  slmhndl s' = None /\ (st <> 0%Z -> pol s' = pol s) /\
  (st = 0%Z -> Forall accepted mid -> (0 <= e)%Z ->
     pol s' = commit (bool_decide (m = Install)) (mk_session i (flat_map (item_of (bool_decide (m = Install))) mid)) (pol s)).
Proof.
  intros Hn Hf Hb Hr. inversion Hr as [|? ? s1 ? ? Hs Hr1]; subst. cbn in Hs.
  apply begin_std in Hs as [P1 Hs]; [|done]. apply runs_app_inv in Hr1 as (s2 & Hr1 & Hr2).
  inversion Hr2 as [|? ? s3 ? ? He Hr3]; subst. inversion Hr3; subst. cbn in He. clear Hr Hr2 Hr3.
  destruct (b <? 0)%Z eqn:Eb.
  - destruct Hb as [-> ->]; [lia|]. inversion Hr1; subst. unfold end_ in He. rewrite Hs in He.
    injection He as <- <-. split; [done|]. split; [done|]. intros ->. done.
  - destruct Hs as (Hm & h & Hh & Hc). destruct (inner_runs _ _ _ _ Hr1 Hf Hh) as (H2 & M2 & P2 & C2).
    apply end_std with (h := h) in He as (H3 & He & Hok); [|done]. split; [done|]. split.
    + intros Hst. destruct (He Hst) as [_ ->]. congruence.
    + intros Hst Ha Hee. rewrite (Hok Hst Hee), (C2 Ha), Hc. unfold installing. rewrite M2, Hm, P2, P1. done.
Qed.

End Spec.

(** ** The installation of a request

    The environment is the one of the processing, with these operations and
    a mode in place of its own. *)
Section Install.
Context {J M Hd : Type} `{Jsonc J} `{Slm M Hd} (e : Env J unit).
Context (resolves : gmap bytes unit_oper.node -> bytes -> bytes -> bool)
  (put_fails : bytes -> option (option bytes)) (unlink_fails symlink_fails : bytes -> bool).

Definition opers_of : operations (std_state M Hd) :=
  std_opers afm_units_root resolves put_fails unlink_fails symlink_fails.

Definition env_of {C} (opers : operations C) (mode : afmpkg_mode) : Env J C :=
  mk_env J C apkg opers mode fstatat chmod FWK_APP_DIR FWK_ICON_DIR read_and_check afm_units_root opendir
    rp_file_get default_path apply_mustach.

Definition afmpkg_install {C} (opers : operations C) (stack : bytes) (closure : C) (o : oracle)
  (m : afid.manager) (t : option bytes) : Z * state J C :=
  afmpkg_process (H0 := env_of opers Install) stack closure o m t.

Definition afmpkg_uninstall {C} (opers : operations C) (stack : bytes) (closure : C) (o : oracle)
  (m : afid.manager) (t : option bytes) : Z * state J C :=
  afmpkg_process (H0 := env_of opers Uninstall) stack closure o m t.

Definition afmpkg_std_install (stack : bytes) (m0 : M) (w : unit_oper.world) (o : oracle) (m : afid.manager)
  (t : option bytes) : Z * state J (std_state M Hd) :=
  afmpkg_install opers_of stack (mk_std Nop None m0 w) o m t.

Definition afmpkg_std_uninstall (stack : bytes) (m0 : M) (w : unit_oper.world) (o : oracle) (m : afid.manager)
  (t : option bytes) : Z * state J (std_state M Hd) :=
  afmpkg_uninstall opers_of stack (mk_std Nop None m0 w) o m t.

(** ** The policy after an installation *)

(** the conversion unfolds these definitions before the processing *)
#[local] Strategy expand [afmpkg_install afmpkg_uninstall afmpkg_std_install afmpkg_std_uninstall].

Context {P : Type} {HP : SlmSpec M Hd P}.

#[local] Instance std_env : Env J (std_state M Hd) := env_of opers_of Install.

Lemma transaction_commits s s' i b mid st en :
  slmhndl s = None -> Forall inner mid -> ((b < 0)%Z -> mid = [] /\ st = b) -> (st = 0%Z -> Forall accepted mid) ->
  let l := Call_begin i Install b :: mid ++ [Call_end st en] in
  runs (s : std_state M Hd) l s' -> committed_ok l ->
  slmhndl s' = None /\ pol s' = fold_left (fun p x => commit true x p) (commits true None [] l) (pol s) /\
  forall k, commits true None [] (l ++ k) = commits true None [] l ++ commits true None [] k.
Proof.
  intros Hn Hf Hb Ha l Hr Hok.
  destruct (transaction_std afm_units_root resolves put_fails unlink_fails symlink_fails s s' i Install b mid st en
    Hn Hf Hb Hr) as (H1 & H2 & H3). split; [done|].
  assert (Hen : st = 0%Z -> (0 <= en)%Z).
  { unfold committed_ok, l in Hok. rewrite Forall_cons, Forall_app, Forall_cons in Hok.
    by destruct Hok as (_ & _ & ? & _). }
  assert (Hl : forall k, commits true None [] (l ++ k) =
    (if (st =? 0)%Z then [mk_session i (flat_map (item_of true) mid)] else []) ++ commits true None [] k)
    by (intros k; by apply commits_transaction).
  assert (Hl0 : commits true None [] l =
    if (st =? 0)%Z then [mk_session i (flat_map (item_of true) mid)] else []).
  { rewrite <-(app_nil_r l), Hl. apply app_nil_r. }
  rewrite Hl0. split; [|by intros k; rewrite Hl].
  destruct (st =? 0)%Z eqn:Est; cbn [fold_left].
  - apply Z.eqb_eq in Est. by rewrite H3; auto.
  - apply H2. lia.
Qed.

Lemma processed_commits l cs v s s' :
  processed l cs v -> slmhndl s = None -> runs (s : std_state M Hd) cs s' -> committed_ok cs ->
  slmhndl s' = None /\ pol s' = fold_left (fun p x => commit true x p) (commits true None [] cs) (pol s) /\
  forall k, commits true None [] (cs ++ k) = commits true None [] cs ++ commits true None [] k.
Proof.
  intros Hp. revert s.
  assert (Hone : forall b v s s', outcome b v -> slmhndl s = None -> runs s b s' -> committed_ok b ->
    slmhndl s' = None /\ pol s' = fold_left (fun p x => commit true x p) (commits true None [] b) (pol s) /\
    forall k, commits true None [] (b ++ k) = commits true None [] b ++ commits true None [] k).
  { clear. intros b v s s' [[_ ->]|(id & bb & mid & st & en & -> & Hf & Hb & Ha & _)] Hn Hr Hok.
    - by inversion Hr; subst.
    - apply (transaction_commits s s' id bb mid st en); try done. intros ->. by apply Ha. }
  induction Hp as [|r l b c v Ho Hp IH|r l b v Ho Hv]; intros s Hn Hr Hok.
  - by inversion Hr; subst.
  - apply runs_app_inv in Hr as (s1 & Hr1 & Hr2). unfold committed_ok in Hok. apply Forall_app in Hok as [Hok1 Hok2].
    destruct (Hone _ _ _ _ Ho Hn Hr1 Hok1) as (H1 & H2 & H3). destruct (IH s1 H1 Hr2 Hok2) as (H4 & H5 & H6).
    split; [done|]. rewrite H3, fold_left_app, <-H2. split; [done|]. intros k.
    by rewrite <-app_assoc, H3, H6, app_assoc.
  - by apply (Hone b v).
Qed.

(** C2: The installation of a request by the standard back end gives to the
    security manager the policy that the sessions read in the calls make,
    one per transaction whose status is 0, with its identifier and all its
    items in order, provided that the manager does not fail to install one
    of them; no transaction that fails is committed, and no handle of the
    manager remains. *)
Theorem afmpkg_std_install_policy stack m0 w o mg t v s' :
  let pkg := apkg (Env := e) in
  wf (Package.package.files pkg) -> name (Package.package.files pkg) = [] -> length stack = PATH_MAX ->
  length (default [] (Package.package.root pkg)) < PATH_MAX -> paths_fit (H0 := e) (Package.package.files pkg) ->
  package_manif (Package.package.files pkg) = None ->
  afmpkg_std_install stack m0 w o mg t = (v, s') -> committed_ok (calls s') ->
  slmhndl (closure s') = None /\
  policy (manager (closure s')) =
    fold_left (fun p x => commit true x p) (commits true None [] (calls s')) (policy m0).
Proof.
  intros pkg Hwf Hn Hst Hr Hfit Hnop Hrun Hok.
  destruct (afmpkg_process_calls (H0 := std_env) stack (mk_std Nop None m0 w) o mg t v s' Hwf Hn Hst Hr Hfit Hnop Hrun)
    as [(_ & Hc & -> & _)|(l & cs & v1 & _ & _ & _ & Hp & rest & Hc & Hruns & Hneg & _ & Hdef & _)].
  { by rewrite Hc. }
  rewrite Hc in Hok, Hruns |- *. apply runs_app_inv in Hruns as (s1 & Hr1 & Hr2).
  unfold committed_ok in Hok. apply Forall_app in Hok as [Hok1 Hok2].
  destruct (processed_commits l cs v1 (mk_std Nop None m0 w) s1 Hp eq_refl Hr1 Hok1) as (H1 & H2 & H3).
  rewrite H3, fold_left_app. change (policy m0) with (pol (mk_std Nop (@None Hd) m0 w)). rewrite <-H2.
  assert (Hcase : rest = [] \/ default_transaction rest v).
  { destruct (decide (v1 < 0)%Z); [left; by apply Hneg|right; apply Hdef; [lia|done]]. }
  assert (Hnil : rest = [] -> slmhndl (closure s') = None /\ policy (manager (closure s')) =
    fold_left (fun p x => commit true x p) (commits true None [] rest) (pol s1)).
  { intros ->. by inversion Hr2; subst. }
  destruct Hcase as [|[[? _]|(b & tags & st & -> & Htags & Hb & Hacc)]]; [by apply Hnil..|].
  assert (Hin : Forall inner tags) by (eapply Forall_impl; [exact Htags|by intros x (p & rc & ->)]).
  assert (Ha : st = 0%Z -> Forall accepted tags).
  { intros ->. destruct (decide (b < 0)%Z) as [Hlt|Hge]; [by destruct (Hb Hlt) as [-> _]|]. apply Hacc; [lia|done]. }
  by destruct (transaction_commits s1 (closure s') None b tags st v H1 Hin Hb Ha Hr2 Hok2) as (? & ? & _).
Qed.

End Install.

(** ** Witness *)

Abbreviation sample_std :=
  (afmpkg_std_install (M := sample_manager) (Hd := unit) sample_env
    (fun _ _ _ => false) (fun _ => None) (fun _ => false) (fun _ => false)
    (repeat NUL PATH_MAX) (mk_sample [] (mk_session None [])) (unit_oper.mk_world ∅ []) []
    (afid.mk_manager false []) None).

Definition ends_well (x : call) : bool :=
  match x with Call_end st en => negb (st =? 0)%Z || (0 <=? en)%Z | _ => true end.

Lemma ends_well_ok l : forallb ends_well l = true -> committed_ok l.
Proof.
  rewrite forallb_forall. intros Hl. apply Forall_forall. intros x Hx. specialize (Hl x).
  destruct x; try done. rewrite <-list_elem_of_In in Hl. specialize (Hl Hx). simpl in Hl. lia.
Qed.

Lemma afmpkg_std_install_policy_witness :
  (session_id <$> (snd <$> committed (manager (closure sample_std.2)))) = [Some (B "app"); None] /\
  slmhndl (closure sample_std.2) = None /\
  policy (P := list (bool * session)) (manager (closure sample_std.2)) =
    fold_left (fun p x => commit true x p) (commits true None [] (calls sample_std.2))
      (policy (P := list (bool * session)) (mk_sample [] (mk_session None []))).
Proof.
  split; [vm_compute; reflexivity|]. destruct sample_files_ok as (H1 & H2 & H3).
  assert (Hl : length (repeat NUL PATH_MAX) = PATH_MAX) by apply repeat_length.
  assert (Hok : committed_ok (calls sample_std.2)) by (apply ends_well_ok; vm_compute; reflexivity).
  assert (Hr : length (default [] (Package.package.root (apkg (Env := sample_env)))) < PATH_MAX) by (vm_compute; lia).
  exact (afmpkg_std_install_policy (P := list (bool * session)) sample_env _ _ _ _ (repeat NUL PATH_MAX) _ _ [] _ None
    sample_std.1 sample_std.2 H1 H2 Hl Hr sample_paths_fit H3 (surjective_pairing _) Hok).
Defined.

End afmpkg_std.
